(* ===== verification/_CoqProject ===== *)
-Q . S2P
Prelude.v
JsText.v
Schedule.v
RateLimiter.v
Rbac.v
Net.v
IpPolicy.v
Accounts.v
Crypto.v
Bundle.v
Totp.v
LoginThrottle.v
LoginFlow.v
Bearer.v
OAuth.v
StreamMux.v
FabricApproval.v
Monitors.v
AlertRegistry.v
Notifications.v
Timeline.v
Automations.v
StackBackup.v
ConnectorHealth.v
Jobs.v
Secrets.v
ComposeOverride.v
EnvFiles.v
SecretCapture.v
ComposePorts.v
Deployments.v
FabricTrust.v
AgentRegistry.v
AgentHistory.v
DockerHost.v
Migration.v
