(* ===== verification/Prelude.v ===== *)
(** * Cerebro: a verification development of the server's core services

    Cerebro is a dashboard that watches and operates a fleet: connectors to
    hypervisors, clouds and hosts, uptime monitors, alerts, automation rules,
    backups, an application replicator, a secrets vault, and Fabric, a network
    of agents through which an operator reaches machines.  This development
    models the logic of its server ([src/apps/server/src], NestJS over Prisma)
    and of the shared package ([src/packages/shared/src]); paths below are
    relative to the first.

    ** How the code is modelled

    A service is a state (its tables, its in-memory maps) and its methods are
    programs of [svc], a state monad with exceptions and a trace of outputs
    (audit rows, alerts, log lines): as in JavaScript, an exception keeps the
    writes made before it.  Tables are lists of rows, in the order of insertion,
    with the Prisma calls [findFirst], [findMany], [updateMany], [deleteMany].
    A method runs in one step where nothing can come in between that matters;
    where the code awaits something and then acts on what it read earlier, the
    method is cut there, its rest is part of the state or a separate
    definition, and the theorems quantify over every order of the steps.  Time
    is an argument, in milliseconds.  Random values, identifiers made by the
    database and what third-party code computes are arguments or operations of
    a type class, whose laws are the documented behaviour; each theorem that
    uses laws has a witness at an instance.

    Numbers are integers, texts are 8-bit strings with ASCII white space and
    case; decimal numerals are the plain ones ([JsText.Number]).  A value of
    type [any] that crosses the API is a [json].

    ** The files, in the order of the calls

    Foundations.
    - [Prelude]: results, outputs, [svc] and its lemmas, tables; the tactics
      [svc_run] (runs a program), [along] (a preorder followed by every step of
      a program) and [emits] (a predicate on every output), invariants of step
      relations.
    - [JsText]: string methods of the language; [common/text.ts] and
      [common/git-safety.ts].
    - [Net]: [node:net] addresses and block lists; [common/ip-allowlist.ts].

    Identity and access.
    - [Rbac]: [packages/shared/src/rbac.ts], [auth/permissions.guard.ts].
    - [IpPolicy]: [auth/local-login-policy.ts] and its service, and
      [monitors/probes/ssrf-guard.ts].
    - [Accounts]: [auth/auth.service.ts], [users/users.service.ts].
    - [Crypto]: [common/crypto.service.ts]; gives the class [Vault].
    - [Totp]: [auth/totp.service.ts], over [Accounts].
    - [LoginThrottle]: [auth/login-throttle.service.ts], over the class [Redis].
    - [LoginFlow]: [auth/auth.controller.ts], which composes the four above.
    - [Bearer]: [auth/token-auth.service.ts], [auth/oauth-token.service.ts],
      [auth/auth.guard.ts], [tokens/tokens.service.ts].
    - [OAuth]: [oauth/oauth-client.service.ts], [oauth/oauth-flow.service.ts].
    - [RateLimiter]: [common/rate-limiter.ts], in front of the OAuth endpoints.
    - [Secrets]: [secrets/secrets.service.ts] over [Vault]; gives the class
      [SecretStore], with which the replicator and Fabric are proved.

    Watching and alerting.
    - [Schedule]: [common/backup-schedule.ts] and
      [connectors/backblaze/schedule-util.ts].
    - [Monitors]: [monitors/], with shared rows in a heap.
    - [AlertRegistry], [Notifications]: [notifications/].
    - [Timeline], [Automations]: [timeline/] and [automations/].
    - [ConnectorHealth]: the three polling monitors of [connectors/].
    - [Jobs]: [connectors/job.service.ts].
    - [StackBackup]: policies, runs and scheduler of [stack-backup/].
    - [Bundle]: the sealed container, [system-backup/bundle.ts], over
      [Crypto.NodeCrypto].
    - [SecretCapture]: [stack-backup/secret-capture.ts] and the reading back of
      a snapshot's secrets in [stack-restore.service.ts], over [Secrets],
      [Bundle] and the names of [EnvFiles].
    - [ComposePorts]: the published ports of a compose file,
      [stack-backup/ports.ts] and [stack-backup/sandbox.ts].

    The application replicator, [app-replicator/].
    - [ComposeOverride]: [compose-override.ts].
    - [EnvFiles]: env files, variable schema and launched environment, of
      [compose-introspect.ts], [replicator.service.ts] and [deploy-target.ts].
    - [Deployments]: [deployment.service.ts], [port-allocator.service.ts].

    Fabric, [fabric/].
    - [StreamMux]: [stream-mux.ts].
    - [FabricApproval]: [fabric-approval.service.ts].
    - [FabricTrust]: credentials, enrolment, host keys, tickets, egress ranges
      and routes.
    - [AgentRegistry]: [agent-registry.service.ts] with the agents' relay and
      their administration; every connection carries a [StreamMux].
    - [AgentHistory]: what holds of every history of the registry.

    Moving stacks between Docker hosts, [stack-migrate/].
    - [DockerHost]: a host's engine as a class with laws, calls that can fail or
      lose their answer, the project operations of the migrator and
      [stack-backup/quiesce.ts].
    - [Migration]: [stack-migrate.service.ts]: the run with its cancellation and
      failure paths, cutover, rollback, the wait for health, the port map.

    ** What the theorems show

    - No way in without every factor: sessions ([LoginFlow]), bearer tokens and
      machine clients and their confinement ([Bearer]), the OAuth code and
      refresh flows with reuse detection ([OAuth]), failed attempts and
      recovery codes ([LoginThrottle], [Totp]), address policies as predicates
      on addresses ([Net], [IpPolicy]).
    - Administration keeps the instance usable: an administrator remains
      ([Accounts]), sessions that need four eyes have them ([FabricApproval]).
    - Stored data comes back: encryption ([Crypto]), vault entries and the
      digests over them ([Secrets]), env files ([EnvFiles]), sealed files
      ([Bundle]), and the credentials of a backed-up stack, with the map from
      variables to vault keys and the operator's word in it ([SecretCapture]).
    - Alerts are refinements of abstract monitors: one alert per change of
      status, none within a cooldown or mute, none for an agent that came back
      in time ([Monitors], [ConnectorHealth], [Notifications], [Automations],
      [AgentHistory]).
    - Schedules mean their calendars ([Schedule], [Automations]); what is due
      can start ([StackBackup]); jobs end once ([Jobs]).
    - The replicator writes what was asked for and nothing else: mounts, the
      override file, the environment, ports, vault entries ([ComposeOverride],
      [EnvFiles], [Deployments]).
    - Fabric trusts what it should: credentials, pinned keys, tickets, ranges
      ([FabricTrust]); connections, timers, streams and rows stay in step
      ([StreamMux], [AgentHistory]).

    - Moving a stack is safe for its data ([Migration], [DockerHost]): a run
      that fails or is cancelled gives the source back, the source keeps its
      volumes, the traffic moves before the source goes, every run ends in a
      settled row, a capture's window is undone.  Its ports move as the map
      says, and a trial run of a snapshot publishes none ([ComposePorts]).

    Where a claim fails, a theorem gives the run that breaks it: the
    check-then-act races ([interleaved_...], [late_...]), and the smaller
    findings of each file.

    ** Fuel and bounds

    [Schedule.nextRunAt] searches eight days, and a weekly schedule is found
    within them; the revocation of a refresh chain has the number of rows as
    fuel, enough because no row is visited twice ([OAuth.revoke_loop_total]); the port
    search of [Deployments] has the used ports as fuel and is proved to end on
    the lowest free one; all other recursion is structural.  Ports, prefixes,
    minutes and stream ids are integers with the bounds the code checks; the
    wrap of stream ids at 2^32 is written out.

    ** Not modelled

    The connectors' API clients ([connectors/aws] and the like), the assistant
    and MCP, the planning of a migration and the restore pipeline (a class of
    [Migration] gives its effect on a host; [SecretCapture] has its reading of
    secrets), repository checkouts, SSH, RDP and
    browser sessions, certificates, single sign-on, search, mail, settings,
    the system backup beyond its container: calls to third-party services, child processes and remote
    hosts, whose state is not in this program.  The web interface
    ([apps/web]) and the Go agent keep no state of the server.  Locales,
    non-ASCII text, fractional numbers and daylight saving are outside the
    model, as are crashes between two writes and database failures, except
    where the code handles them and the model says so. *)

From Stdlib Require Export Ascii ZArith Lia.
From stdpp Require Export base tactics numbers strings gmap pretty list.
From stdpp Require Export options.
#[export] Set Warnings "-clear-no-such-hyp,-register-all".

(** ** Results and HTTP exceptions *)

(** What a TypeScript call gives back: a value or a thrown exception. *)
Inductive result (E A : Type) : Type :=
| Ok (a : A)
| Err (e : E).
Arguments Ok {E A} a.
Arguments Err {E A} e.

(** The Nest HTTP exceptions the services throw, each with its message;
    [Internal] is any other exception, which the framework answers with a 500. *)
Inductive http_error : Type :=
| BadRequest (msg : string)
| NotFound (msg : string)
| Forbidden (msg : string)
| Unauthorized (msg : string)
| TooManyRequests (msg : string)
| Internal (msg : string).

#[export] Instance http_error_eq_dec : EqDecision http_error.
Proof. solve_decision. Defined.

#[export] Instance result_eq_dec {E A} `{EqDecision E} `{EqDecision A} :
  EqDecision (result E A).
Proof. solve_decision. Defined.

Definition is_ok {E A} (r : result E A) : bool :=
  match r with Ok _ => true | Err _ => false end.

#[export] Instance result_ret {E} : MRet (result E) := λ A a, Ok a.
#[export] Instance result_bind {E} : MBind (result E) := λ A B f r,
  match r with Ok a => f a | Err e => Err e end.

(** ** Observable outputs

    Rows appended to the audit log, alerts handed to the notification
    dispatcher, diagnostic log lines and response headers. *)

Inductive level := Debug | Info | Warn | Error.

Record audit := Audit {
  au_actorId : option string;
  au_actorEmail : option string;
  au_action : string;
  au_target : option string
}.

Record alert := Alert {
  al_key : string;
  al_title : string;
  al_body : string;
  al_dedupeKey : option string;
  al_connectorId : option string;
  al_monitorId : option string
}.

Inductive output :=
| OAudit (a : audit)
| OAlert (a : alert)
| OLog (l : level) (source msg : string)
| OHeader (name value : string).

(** ** The service monad

    State, exceptions and a trace of outputs.  As in JavaScript, an exception
    keeps the writes made before it was thrown. *)

Definition svc (S O E A : Type) : Type := S → result E A * S * list O.

Section svc_ops.
Context {S O E : Type}.

#[global] Instance svc_ret : MRet (svc S O E) := λ A a s, (Ok a, s, []).

#[global] Instance svc_bind : MBind (svc S O E) := λ A B k m s,
  match m s with
  | (Ok a, s1, o1) =>
      match k a s1 with (r, s2, o2) => (r, s2, o1 ++ o2) end
  | (Err e, s1, o1) => (Err e, s1, o1)
  end.

Definition throw {A} (e : E) : svc S O E A := λ s, (Err e, s, []).
Definition get : svc S O E S := λ s, (Ok s, s, []).
Definition gets {A} (f : S → A) : svc S O E A := λ s, (Ok (f s), s, []).
Definition put (s : S) : svc S O E unit := λ _, (Ok tt, s, []).
Definition modify (f : S → S) : svc S O E unit := λ s, (Ok tt, f s, []).
Definition tell (o : O) : svc S O E unit := λ s, (Ok tt, s, [o]).

(** [if (c) throw e] *)
Definition throw_if (c : bool) (e : E) : svc S O E unit :=
  if c then throw e else mret tt.

(** [if (c) m] *)
Definition when (c : bool) (m : svc S O E unit) : svc S O E unit :=
  if c then m else mret tt.

(** Lift a pure fallible call. *)
Definition lift {A} (r : result E A) : svc S O E A := λ s, (r, s, []).

(** [try { m } catch (e) { h(e) }] *)
Definition catch {A} (m : svc S O E A) (h : E → svc S O E A) : svc S O E A := λ s,
  match m s with
  | (Err e, s1, o1) => match h e s1 with (r, s2, o2) => (r, s2, o1 ++ o2) end
  | x => x
  end.

(** [for (const x of xs) f(x)] *)
Fixpoint for_each {A} (xs : list A) (f : A → svc S O E unit) : svc S O E unit :=
  match xs with
  | [] => mret tt
  | x :: xs' => f x ;; for_each xs' f
  end.

Definition run_result {A} (m : svc S O E A) (s : S) : result E A := (m s).1.1.
Definition run_state {A} (m : svc S O E A) (s : S) : S := (m s).1.2.
Definition run_out {A} (m : svc S O E A) (s : S) : list O := (m s).2.

End svc_ops.

(** [if (!o) throw e], giving the value otherwise. *)
Definition or_throw {S O E A} (o : option A) (e : E) : svc S O E A :=
  match o with Some a => mret a | None => throw e end.

(** [try { m } catch (e) { h(e) }] where the handler's exceptions differ. *)
Definition rescue {S O E E' A} (m : svc S O E A) (h : E → svc S O E' A) : svc S O E' A :=
  λ s, match m s with
  | (Ok a, s1, o1) => (Ok a, s1, o1)
  | (Err e, s1, o1) => match h e s1 with (r, s2, o2) => (r, s2, o1 ++ o2) end
  end.

(** How [m] ends, as a value. *)
Definition settled {S O E A} (m : svc S O E A) : svc S O E (result E A) :=
  λ s, match m s with (r, s1, o) => (Ok r, s1, o) end.

(** [try { m } finally { c }] *)
Definition finally {S O E A} (m : svc S O E A) (c : svc S O E unit) : svc S O E A :=
  r ← settled m; c ;; lift r.

(** A service run on its part of a larger state. *)
Definition focus {S T O E A} (get : T → S) (set : S → T → T) (m : svc S O E A) :
    svc T O E A :=
  λ t, match m (get t) with (r, s, o) => (r, set s t, o) end.

Lemma rescue_total {S O E E'} (m : svc S O E unit) (h : E → svc S O E' unit) s :
  (∀ e s', run_result (h e) s' = Ok tt) → run_result (rescue m h) s = Ok tt.
Proof.
  intros Hh. unfold run_result, rescue in *. destruct (m s) as [[[[]|e] s1] o1]; [done|].
  specialize (Hh e s1). by destruct (h e s1) as [[? ?] ?].
Qed.

(** ** Tables

    The rows of a Prisma model, in creation order.  The names are the client
    calls the services make. *)

Section table_ops.
Context {R : Type}.

Definition findFirst (p : R → bool) (t : list R) : option R :=
  head (filter (λ r, p r = true) t).

Definition findMany (p : R → bool) (t : list R) : list R :=
  filter (λ r, p r = true) t.

Definition countWhere (p : R → bool) (t : list R) : nat := length (findMany p t).

Definition updateMany (p : R → bool) (f : R → R) (t : list R) : list R :=
  (λ r, if p r then f r else r) <$> t.

Definition deleteMany (p : R → bool) (t : list R) : list R :=
  filter (λ r, p r = false) t.

Definition createRow (r : R) (t : list R) : list R := t ++ [r].
End table_ops.

(** [[...new Set(xs)]]: first occurrences, in order. *)
Fixpoint uniq {A} `{EqDecision A} (l : list A) : list A :=
  match l with
  | [] => []
  | x :: l' => x :: filter (λ y, y ≠ x) (uniq l')
  end.

(** [xs.includes(x)] *)
Definition includes {A} `{EqDecision A} (x : A) (xs : list A) : bool :=
  bool_decide (x ∈ xs).

(** [xs.every(p)] and [xs.some(p)]. *)
Definition every {A} (p : A → bool) (xs : list A) : bool := forallb p xs.
Definition some {A} (p : A → bool) (xs : list A) : bool := existsb p xs.

(** A stable sort, for [Array.sort]. *)
Section sort.
Context {A : Type} (le : A → A → bool).
Fixpoint sort_insert (x : A) (l : list A) : list A :=
  match l with
  | [] => [x]
  | y :: l' => if le x y then x :: l else y :: sort_insert x l'
  end.
Definition sort (l : list A) : list A := foldr sort_insert [] l.
End sort.

(** Truthiness of an optional string: [undefined], [null] and [""] are false. *)
Definition truthy (s : option string) : bool :=
  match s with Some s => negb (bool_decide (s = ""%string)) | None => false end.

(** [a ?? b] *)
Definition or_else {A} (o : option A) (d : A) : A := default d o.

(** Reflexive transitive closure of a step relation, with the trace oldest
    first; [reachable] is what the invariants quantify over. *)
Section reach.
Context {S : Type} (init : S → Prop) (step : S → S → Prop).

Inductive reachable : S → Prop :=
| reach_init s : init s → reachable s
| reach_step s s' : reachable s → step s s' → reachable s'.

Lemma reachable_invariant (I : S → Prop) :
  (∀ s, init s → I s) →
  (∀ s s', I s → step s s' → I s') →
  ∀ s, reachable s → I s.
Proof. intros Hi Hs s Hr. induction Hr; eauto. Qed.
End reach.

(** ** Lemmas and automation *)

(** Case analysis on everything a handler branches on, then read off results. *)
Ltac handler_cases :=
  repeat (simplify_eq/=; case_match); simplify_eq/=.

Section svc_lemmas.
Context {S O E : Type}.
Implicit Types (s : S) (o : list O).

Lemma svc_bind_ok {A B} (m : svc S O E A) (k : A → svc S O E B) s b s' o :
  (m ≫= k) s = (Ok b, s', o) ↔
  ∃ a s1 o1 o2, m s = (Ok a, s1, o1) ∧ k a s1 = (Ok b, s', o2) ∧ o = o1 ++ o2.
Proof.
  unfold mbind, svc_bind. split.
  - intros H. destruct (m s) as [[[a|e] s1] o1]; [|done].
    destruct (k a s1) as [[r s2] o2] eqn:Hk. simplify_eq. naive_solver.
  - intros (a & s1 & o1 & o2 & -> & -> & ->). done.
Qed.

Lemma svc_bind_err {A B} (m : svc S O E A) (k : A → svc S O E B) s e s' o :
  (m ≫= k) s = (Err e, s', o) ↔
  m s = (Err e, s', o) ∨
  ∃ a s1 o1 o2, m s = (Ok a, s1, o1) ∧ k a s1 = (Err e, s', o2) ∧ o = o1 ++ o2.
Proof.
  unfold mbind, svc_bind. split.
  - intros H. destruct (m s) as [[[a|e'] s1] o1].
    + right. destruct (k a s1) as [[r s2] o2] eqn:Hk. simplify_eq. naive_solver.
    + left. naive_solver.
  - intros [-> | (a & s1 & o1 & o2 & -> & -> & ->)]; done.
Qed.

(** A bind whose first part is known to return silently, or to throw. *)
Lemma svc_bind_run {A B} (m : svc S O E A) (k : A → svc S O E B) s a s1 :
  m s = (Ok a, s1, []) → (m ≫= k) s = k a s1.
Proof. unfold mbind, svc_bind. intros ->. by destruct (k a s1) as [[??]?]. Qed.

Lemma svc_bind_throw {A B} (m : svc S O E A) (k : A → svc S O E B) s e s1 o1 :
  m s = (Err e, s1, o1) → (m ≫= k) s = (Err e, s1, o1).
Proof. unfold mbind, svc_bind. by intros ->. Qed.

(** Monad laws. *)
Lemma svc_ret_bind {A B} (a : A) (k : A → svc S O E B) s :
  (mret a ≫= k) s = k a s.
Proof. unfold mbind, svc_bind, mret, svc_ret. by destruct (k a s) as [[??]?]. Qed.

Lemma svc_bind_ret {A} (m : svc S O E A) s : (m ≫= mret) s = m s.
Proof.
  unfold mbind, svc_bind, mret, svc_ret.
  destruct (m s) as [[[]?]?]; [by rewrite app_nil_r | done].
Qed.

Lemma svc_bind_assoc {A B C} (m : svc S O E A) (k : A → svc S O E B)
    (h : B → svc S O E C) s :
  ((m ≫= k) ≫= h) s = (m ≫= λ a, k a ≫= h) s.
Proof.
  unfold mbind, svc_bind. destruct (m s) as [[[a|e] s1] o1]; [|done].
  destruct (k a s1) as [[[b|e] s2] o2]; [|done].
  destruct (h b s2) as [[r s3] o3]. by rewrite (assoc_L (++)).
Qed.

(** How each primitive runs in front of a continuation: the equations the
    [svc_run] tactic rewrites with. *)
Lemma run_get {B} (k : S → svc S O E B) s : (get ≫= k) s = k s s.
Proof. by apply svc_bind_run. Qed.

Lemma run_gets {A B} (f : S → A) (k : A → svc S O E B) s : (gets f ≫= k) s = k (f s) s.
Proof. by apply svc_bind_run. Qed.

Lemma run_modify {B} f (k : unit → svc S O E B) s : (modify f ≫= k) s = k tt (f s).
Proof. by apply svc_bind_run. Qed.

Lemma run_put {B} s' (k : unit → svc S O E B) s : (put s' ≫= k) s = k tt s'.
Proof. by apply svc_bind_run. Qed.

Lemma run_throw {A B} e (k : A → svc S O E B) s : (throw e ≫= k) s = (Err e, s, []).
Proof. done. Qed.

Lemma run_lift {A B} (r : result E A) (k : A → svc S O E B) s :
  (lift r ≫= k) s = match r with Ok a => k a s | Err e => (Err e, s, []) end.
Proof. destruct r; [by apply svc_bind_run | done]. Qed.

Lemma run_or_throw {A B} (x : option A) e (k : A → svc S O E B) s :
  (or_throw x e ≫= k) s = match x with Some a => k a s | None => (Err e, s, []) end.
Proof. destruct x; [by apply svc_bind_run | done]. Qed.

Lemma run_throw_if {B} c e (k : unit → svc S O E B) s :
  (throw_if c e ≫= k) s = if c then (Err e, s, []) else k tt s.
Proof. destruct c; [done | by apply svc_bind_run]. Qed.

Lemma run_when {B} c m (k : unit → svc S O E B) s :
  (when c m ≫= k) s = if c then (m ≫= k) s else k tt s.
Proof. destruct c; [done | by apply svc_bind_run]. Qed.

Lemma run_tell {B} x (k : unit → svc S O E B) s :
  (tell x ≫= k) s = let '(r, s', o) := k tt s in (r, s', x :: o).
Proof. unfold mbind, svc_bind, tell. by destruct (k tt s) as [[??]?]. Qed.

(** [preserves I m]: running [m] keeps [I], exceptions included. *)
Definition preserves {A} (I : S → Prop) (m : svc S O E A) : Prop :=
  ∀ s, I s → I (run_state m s).

Lemma preserves_ret {A} I (a : A) : preserves I (mret a : svc S O E A).
Proof. by intros s ?. Qed.

Lemma preserves_throw {A} I e : preserves I (throw e : svc S O E A).
Proof. by intros s ?. Qed.

Lemma preserves_gets {A} I (f : S → A) : preserves I (gets f : svc S O E A).
Proof. by intros s ?. Qed.

Lemma preserves_tell I (x : O) : preserves I (tell x : svc S O E unit).
Proof. by intros s ?. Qed.

Lemma preserves_throw_if I c e : preserves I (throw_if c e : svc S O E unit).
Proof. intros s ?. by destruct c. Qed.

Lemma preserves_when I c (m : svc S O E unit) :
  preserves I m → preserves I (when c m).
Proof. intros ? s ?. destruct c; [auto | done]. Qed.

Lemma preserves_modify (I : S → Prop) f :
  (∀ s, I s → I (f s)) → preserves I (modify f : svc S O E unit).
Proof. intros H s ?. by apply H. Qed.

Lemma preserves_bind {A B} I (m : svc S O E A) (k : A → svc S O E B) :
  preserves I m → (∀ a, preserves I (k a)) → preserves I (m ≫= k).
Proof.
  intros Hm Hk s Hs. specialize (Hm s Hs). unfold run_state in *.
  unfold mbind, svc_bind. destruct (m s) as [[[a|e] s1] o1]; simpl in *; [|done].
  specialize (Hk a s1 Hm). unfold run_state in Hk.
  by destruct (k a s1) as [[??]?].
Qed.

Lemma preserves_get I : preserves I (get : svc S O E S).
Proof. by intros s ?. Qed.

Lemma preserves_lift {A} I (r : result E A) : preserves I (lift r : svc S O E A).
Proof. by intros s ?. Qed.

Lemma preserves_or_throw {A} I (x : option A) e : preserves I (or_throw x e : svc S O E A).
Proof. by intros s ?; destruct x. Qed.

Lemma preserves_for_each {A} I (xs : list A) (f : A → svc S O E unit) :
  (∀ x, preserves I (f x)) → preserves I (for_each xs f).
Proof.
  intros Hf. induction xs as [|x xs IH]; simpl.
  - apply preserves_ret.
  - apply preserves_bind; auto.
Qed.

Lemma preserves_catch {A} I (m : svc S O E A) h :
  preserves I m → (∀ e, preserves I (h e)) → preserves I (catch m h).
Proof.
  intros Hm Hh s Hs. specialize (Hm s Hs). unfold run_state, catch in *.
  destruct (m s) as [[[a|e] s1] o1]; [done|]. specialize (Hh e s1 Hm). unfold run_state in Hh.
  by destruct (h e s1) as [[??]?].
Qed.

(** [along R m]: a run of [m] is a step of the preorder [R]. *)
Definition along {A} (R : S → S → Prop) (m : svc S O E A) : Prop := ∀ s, R s (run_state m s).

Section along.
#[local] Set Default Proof Using "Type*".
Context {R : S → S → Prop} `{!PreOrder R}.

Lemma along_ret {A} (a : A) : along R (mret a : svc S O E A).
Proof. by intros s. Qed.

Lemma along_throw {A} e : along R (throw e : svc S O E A).
Proof. by intros s. Qed.

Lemma along_get : along R (get : svc S O E S).
Proof. by intros s. Qed.

Lemma along_tell (x : O) : along R (tell x : svc S O E unit).
Proof. by intros s. Qed.

Lemma along_lift {A} (r : result E A) : along R (lift r : svc S O E A).
Proof. by intros s. Qed.

Lemma along_or_throw {A} (x : option A) e : along R (or_throw x e : svc S O E A).
Proof. by intros s; destruct x. Qed.

Lemma along_throw_if c e : along R (throw_if c e : svc S O E unit).
Proof. intros s. by destruct c. Qed.

Lemma along_modify f : (∀ s, R s (f s)) → along R (modify f : svc S O E unit).
Proof. intros Hf s. apply Hf. Qed.

Lemma along_bind {A B} (m : svc S O E A) (k : A → svc S O E B) :
  along R m → (∀ a, along R (k a)) → along R (m ≫= k).
Proof.
  intros Hm Hk s. specialize (Hm s). unfold run_state, mbind, svc_bind in *.
  destruct (m s) as [[[a|e] s1] o1]; simpl in *; [|done]. specialize (Hk a s1). unfold run_state in Hk.
  destruct (k a s1) as [[r s2] o2]. by transitivity s1.
Qed.

Lemma along_when c (m : svc S O E unit) : along R m → along R (when c m).
Proof. intros Hm s. destruct c; [apply Hm | done]. Qed.

Lemma along_catch {A} (m : svc S O E A) h : along R m → (∀ e, along R (h e)) → along R (catch m h).
Proof.
  intros Hm Hh s. specialize (Hm s). unfold run_state, catch in *.
  destruct (m s) as [[[a|e] s1] o1]; [done|]. specialize (Hh e s1). unfold run_state in Hh.
  destruct (h e s1) as [[r s2] o2]. by transitivity s1.
Qed.

Lemma along_settled {A} (m : svc S O E A) : along R m → along R (settled m).
Proof. intros Hm s. specialize (Hm s). unfold run_state, settled in *. by destruct (m s) as [[??]?]. Qed.

Lemma along_finally {A} (m : svc S O E A) c : along R m → along R c → along R (finally m c).
Proof.
  intros Hm Hc. apply along_bind; [by apply along_settled|]. intros r. apply along_bind; [done|]. intros _. apply along_lift.
Qed.

Lemma along_for_each {A} (xs : list A) (f : A → svc S O E unit) : (∀ x, along R (f x)) → along R (for_each xs f).
Proof. intros Hf. induction xs; [apply along_ret|]. by apply along_bind. Qed.
End along.

(** [emits P m]: every output of [m] is a [P]. *)
Definition emits {A} (P : O → Prop) (m : svc S O E A) : Prop := ∀ s, Forall P (run_out m s).

Section emits.
Context {P : O → Prop}.

Lemma emits_ret {A} (a : A) : emits P (mret a : svc S O E A).
Proof. by intros s. Qed.

Lemma emits_throw {A} e : emits P (throw e : svc S O E A).
Proof. by intros s. Qed.

Lemma emits_get : emits P (get : svc S O E S).
Proof. by intros s. Qed.

Lemma emits_modify f : emits P (modify f : svc S O E unit).
Proof. by intros s. Qed.

Lemma emits_tell x : P x → emits P (tell x : svc S O E unit).
Proof. intros Hx s. by constructor. Qed.

Lemma emits_lift {A} (r : result E A) : emits P (lift r : svc S O E A).
Proof. by intros s. Qed.

Lemma emits_or_throw {A} (x : option A) e : emits P (or_throw x e : svc S O E A).
Proof. by intros s; destruct x. Qed.

Lemma emits_throw_if c e : emits P (throw_if c e : svc S O E unit).
Proof. intros s. by destruct c. Qed.

Lemma emits_bind {A B} (m : svc S O E A) (k : A → svc S O E B) :
  emits P m → (∀ a, emits P (k a)) → emits P (m ≫= k).
Proof.
  intros Hm Hk s. specialize (Hm s). unfold run_out, mbind, svc_bind in *.
  destruct (m s) as [[[a|e] s1] o1]; simpl in *; [|done]. specialize (Hk a s1). unfold run_out in Hk.
  destruct (k a s1) as [[r s2] o2]. by apply Forall_app_2.
Qed.

Lemma emits_when c (m : svc S O E unit) : emits P m → emits P (when c m).
Proof. intros Hm s. destruct c; [apply Hm | constructor]. Qed.

Lemma emits_catch {A} (m : svc S O E A) h : emits P m → (∀ e, emits P (h e)) → emits P (catch m h).
Proof.
  intros Hm Hh s. specialize (Hm s). unfold run_out, catch in *.
  destruct (m s) as [[[a|e] s1] o1]; [done|]. specialize (Hh e s1). unfold run_out in Hh.
  destruct (h e s1) as [[r s2] o2]. by apply Forall_app_2.
Qed.

Lemma emits_settled {A} (m : svc S O E A) : emits P m → emits P (settled m).
Proof. intros Hm s. specialize (Hm s). unfold run_out, settled in *. by destruct (m s) as [[??]?]. Qed.

Lemma emits_finally {A} (m : svc S O E A) c : emits P m → emits P c → emits P (finally m c).
Proof.
  intros Hm Hc. apply emits_bind; [by apply emits_settled|]. intros r. apply emits_bind; [done|]. intros _. apply emits_lift.
Qed.

Lemma emits_for_each {A} (xs : list A) (f : A → svc S O E unit) : (∀ x, emits P (f x)) → emits P (for_each xs f).
Proof. intros Hf. induction xs; [apply emits_ret|]. by apply emits_bind. Qed.
End emits.

End svc_lemmas.

Create Rewrite HintDb svc_run.
#[export] Hint Rewrite @run_get @run_gets @run_modify @run_put @run_throw @run_lift
  @run_or_throw @run_throw_if @run_when @run_tell @svc_ret_bind @svc_bind_assoc : svc_run.

(** Run a handler symbolically as far as it goes, and split on a branch. *)
Ltac svc_run := repeat (autorewrite with svc_run; cbn beta iota delta [negb]).
Ltac svc_split := svc_run; repeat (case_match; svc_run); simplify_eq/=.

Create HintDb svc.
#[export] Hint Resolve preserves_ret preserves_throw preserves_gets preserves_get
  preserves_lift preserves_or_throw
  preserves_tell preserves_throw_if preserves_when preserves_modify
  preserves_bind preserves_for_each preserves_catch : svc.

(** The structural steps of a [along] and of an [emits] goal. *)
Create HintDb along.
Ltac along_step := first
  [ solve [auto with along nocore] | apply along_ret | apply along_throw | apply along_get | apply along_tell
  | apply along_lift | apply along_or_throw | apply along_throw_if | apply along_modify; intros | apply along_when | apply along_for_each; intros
  | apply along_catch; [|intros] | apply along_settled | apply along_finally
  | apply along_bind; [|intros] | progress case_match | progress cbv zeta ].
Ltac along := repeat along_step.

Create HintDb emits.
#[export] Hint Resolve emits_ret emits_throw emits_get emits_modify emits_lift emits_or_throw emits_throw_if : emits.
Ltac emits_step := first
  [ solve [auto with emits nocore] | apply emits_tell | apply emits_when | apply emits_for_each; intros
  | apply emits_catch; [|intros] | apply emits_settled | apply emits_finally
  | apply emits_bind; [|intros] | progress case_match | progress cbv zeta ].
Ltac emits := repeat emits_step.

Section table_lemmas.
Context {R : Type}.
Implicit Types (p : R → bool) (f : R → R) (t : list R).

Lemma findFirst_Some p t r :
  findFirst p t = Some r → r ∈ t ∧ p r = true.
Proof.
  unfold findFirst. intros H. apply head_Some_elem_of in H.
  by apply list_elem_of_filter in H as [??].
Qed.

Lemma findFirst_None p t :
  findFirst p t = None ↔ ∀ r, r ∈ t → p r = false.
Proof.
  unfold findFirst. split.
  - intros H r Hr. destruct (p r) eqn:E; [|done].
    assert (Hin : r ∈ filter (λ r, p r = true) t) by by apply list_elem_of_filter.
    destruct (filter _ t); simplify_eq/=. by apply elem_of_nil in Hin.
  - intros H. destruct (filter _ t) as [|r l] eqn:E; [done|].
    assert (Hin : r ∈ filter (λ r, p r = true) t)
      by (rewrite E; apply list_elem_of_here).
    apply list_elem_of_filter in Hin as [? ?]. by rewrite H in *.
Qed.

Lemma countWhere_app p t t' : countWhere p (t ++ t') = countWhere p t + countWhere p t'.
Proof. unfold countWhere, findMany. by rewrite filter_app, length_app. Qed.

Lemma countWhere_cons p r t : countWhere p (r :: t) = (if p r then 1 else 0) + countWhere p t.
Proof. unfold countWhere, findMany. rewrite filter_cons. by case_decide; destruct (p r). Qed.

Lemma countWhere_0 p t : (∀ r, r ∈ t → p r = false) → countWhere p t = 0.
Proof.
  induction t as [|r t IH]; intros H; [done|]. rewrite countWhere_cons, H by by left.
  apply IH. intros r' Hr. apply H. by right.
Qed.

Lemma findFirst_app p t t' :
  findFirst p (t ++ t') =
  match findFirst p t with Some r => Some r | None => findFirst p t' end.
Proof. unfold findFirst. rewrite filter_app. by destruct (filter _ t). Qed.

Lemma findFirst_cons p r t :
  findFirst p (r :: t) = if p r then Some r else findFirst p t.
Proof. unfold findFirst. rewrite filter_cons. case_decide; destruct (p r); done. Qed.

(** A lookup by a unique column finds the row. *)
Lemma findFirst_key {K} `{EqDecision K} (key : R → K) t r :
  NoDup (key <$> t) → r ∈ t → findFirst (λ x, bool_decide (key x = key r)) t = Some r.
Proof.
  intros Hnd Hin. induction t as [|x t IH]; [by apply elem_of_nil in Hin|].
  rewrite fmap_cons, NoDup_cons in Hnd. destruct Hnd as [Hx Hnd].
  rewrite findFirst_cons. apply elem_of_cons in Hin as [->|Hin].
  - by rewrite bool_decide_eq_true_2.
  - rewrite bool_decide_eq_false_2; [by apply IH|].
    intros Hk. apply Hx. rewrite Hk. by apply list_elem_of_fmap_2.
Qed.

(** A row appended to a table the query found nothing in. *)
Lemma findFirst_createRow p t r :
  findFirst p t = None → p r = true → findFirst p (createRow r t) = Some r.
Proof.
  intros Hn Hr. unfold findFirst, createRow. rewrite filter_app.
  unfold findFirst in Hn. destruct (filter _ t) eqn:Hf; [|done].
  by rewrite filter_cons_True.
Qed.

Lemma findFirst_updateMany p q f t :
  (∀ r, p (f r) = p r) →
  findFirst p (updateMany q f t) = (λ r, if q r then f r else r) <$> findFirst p t.
Proof.
  intros Hf. unfold findFirst, updateMany. induction t as [|r t IH]; [done|].
  rewrite fmap_cons, !filter_cons.
  assert (p (if q r then f r else r) = p r) as -> by (destruct (q r); auto).
  by case_decide.
Qed.

Lemma elem_of_findMany p t r : r ∈ findMany p t ↔ p r = true ∧ r ∈ t.
Proof. unfold findMany. by rewrite list_elem_of_filter. Qed.

Lemma elem_of_deleteMany p t r : r ∈ deleteMany p t ↔ p r = false ∧ r ∈ t.
Proof. unfold deleteMany. by rewrite list_elem_of_filter. Qed.

Lemma elem_of_updateMany p f t r :
  r ∈ updateMany p f t ↔ ∃ r0, r0 ∈ t ∧ r = if p r0 then f r0 else r0.
Proof. unfold updateMany. rewrite list_elem_of_fmap. naive_solver. Qed.

Lemma fmap_updateMany {K} (key : R → K) p f t :
  (∀ r, key (f r) = key r) → key <$> updateMany p f t = key <$> t.
Proof.
  intros Hk. unfold updateMany. rewrite <-list_fmap_compose.
  apply list_fmap_ext. intros i r _. simpl. by destruct (p r); rewrite ?Hk.
Qed.

(** Rows a query does not see before or after an update. *)
Lemma findMany_update_unseen p q f t :
  (∀ r, r ∈ t → q r = true → p r = false ∧ p (f r) = false) →
  findMany p (updateMany q f t) = findMany p t.
Proof.
  unfold findMany, updateMany. induction t as [|r t IH]; intros H; [done|].
  rewrite fmap_cons. specialize (IH (λ r' Hr', H r' (list_elem_of_further _ _ _ Hr'))).
  destruct (q r) eqn:Hq.
  - destruct (H r (list_elem_of_here _ _) Hq) as [H1 H2].
    rewrite !filter_cons_False by congruence. done.
  - rewrite !filter_cons. case_decide; by rewrite IH.
Qed.

(** An update of the one row with a key takes it out of a query. *)
Lemma countWhere_update_key {K} `{EqDecision K} (key : R → K) p f t row :
  NoDup (key <$> t) → row ∈ t → p row = true → p (f row) = false →
  countWhere p t = S (countWhere p (updateMany (λ r, bool_decide (key r = key row)) f t)).
Proof.
  intros Hnd Hin Hp Hpf. unfold countWhere, findMany, updateMany.
  induction t as [|r t IH]; [by apply elem_of_nil in Hin|].
  rewrite fmap_cons, NoDup_cons in Hnd. destruct Hnd as [Hr Hnd].
  rewrite fmap_cons. apply elem_of_cons in Hin as [<-|Hin].
  - rewrite bool_decide_eq_true_2 by done.
    rewrite filter_cons_True, filter_cons_False by congruence. simpl. f_equal.
    pose proof (findMany_update_unseen p (λ r, bool_decide (key r = key row)) f t) as Hu.
    unfold findMany, updateMany in Hu. rewrite Hu; [done|].
    intros r' Hr' Hk%bool_decide_eq_true. destruct Hr. rewrite <-Hk.
    by apply list_elem_of_fmap_2.
  - rewrite bool_decide_eq_false_2.
    2: { intros Hk. destruct Hr. rewrite Hk. by apply list_elem_of_fmap_2. }
    rewrite !filter_cons. case_decide; simpl; [f_equal|]; auto.
Qed.

(** An update of the row with a unique key changes that row in place. *)
Lemma updateMany_key {K} `{EqDecision K} (key : R → K) t r f :
  NoDup (key <$> t) → r ∈ t →
  ∃ l1 l2, t = l1 ++ r :: l2 ∧
    updateMany (λ x, bool_decide (key x = key r)) f t = l1 ++ f r :: l2.
Proof.
  intros Hnd (l1 & l2 & ->)%list_elem_of_split. exists l1, l2. split; [done|].
  rewrite fmap_app, fmap_cons in Hnd.
  apply NoDup_app in Hnd as (_ & H1 & [H2 _]%NoDup_cons).
  assert (Hid : ∀ l, (∀ x, x ∈ l → key x ≠ key r) →
    updateMany (λ x, bool_decide (key x = key r)) f l = l).
  { intros l Hl. unfold updateMany. rewrite <-(list_fmap_id l) at 2.
    apply list_fmap_ext. intros i x Hx%list_elem_of_lookup_2.
    by rewrite bool_decide_eq_false_2 by auto. }
  unfold updateMany in *. rewrite fmap_app, fmap_cons, bool_decide_eq_true_2 by done.
  rewrite !Hid; [done| |].
  - intros x Hx He. apply H2. rewrite <-He. by apply list_elem_of_fmap_2.
  - intros x Hx He. apply (H1 (key x)); [by apply list_elem_of_fmap_2|]. rewrite He. left.
Qed.

Lemma elem_of_createRow r t r' : r' ∈ createRow r t ↔ r' ∈ t ∨ r' = r.
Proof. unfold createRow. rewrite elem_of_app, list_elem_of_singleton. done. Qed.

Lemma findMany_all p t : (∀ r, r ∈ t → p r = true) → findMany p t = t.
Proof.
  unfold findMany. induction t as [|r t IH]; intros H; [done|].
  rewrite filter_cons_True by (apply H; left). f_equal. apply IH. intros r' Hr. apply H. by right.
Qed.

Lemma findMany_none p t : (∀ r, r ∈ t → p r = false) → findMany p t = [].
Proof.
  unfold findMany. induction t as [|r t IH]; intros H; [done|].
  rewrite filter_cons_False by (rewrite H; [done|left]). apply IH. intros r' Hr. apply H. by right.
Qed.

(** Sub-tables, in order. *)
Lemma sublist_findMany p t1 t2 :
  t1 `sublist_of` t2 → findMany p t1 `sublist_of` findMany p t2.
Proof.
  unfold findMany. induction 1 as [|x l1 l2 _ IH|x l1 l2 _ IH]; [done| |]; rewrite ?filter_cons;
    case_decide; try done; by constructor.
Qed.

Lemma findMany_updated p q f t :
  (∀ r, q (f r) = false) → findMany q (updateMany p f t) `sublist_of` findMany q t.
Proof.
  intros Hf. unfold findMany, updateMany. induction t as [|r t IH]; [done|].
  rewrite fmap_cons, !filter_cons. destruct (p r) eqn:Hp.
  - rewrite decide_False by by rewrite Hf. case_decide; [by apply sublist_cons|done].
  - case_decide; [by constructor|done].
Qed.

Lemma sublist_same_length t1 t2 : t1 `sublist_of` t2 → length t1 = length t2 → t1 = t2.
Proof.
  induction 1 as [|x l1 l2 _ IH|x l1 l2 Hs _]; simpl; intros Hl; [done|by rewrite IH by lia|].
  apply sublist_length in Hs. lia.
Qed.

(** Deleting rows a query does not see. *)
Lemma find_deleteMany_other p q t :
  (∀ r, p r = true → q r = false) → findFirst p (deleteMany q t) = findFirst p t.
Proof.
  intros H. unfold deleteMany. induction t as [|r t IH]; [done|]. rewrite filter_cons, findFirst_cons.
  destruct (q r) eqn:Hq.
  - rewrite decide_False by congruence. destruct (p r) eqn:Hp; [by rewrite H in Hq|done].
  - rewrite decide_True by done. rewrite findFirst_cons. by destruct (p r).
Qed.

Lemma fmap_createRow {K} (key : R → K) r t : key <$> createRow r t = (key <$> t) ++ [key r].
Proof. unfold createRow. by rewrite fmap_app. Qed.

(** Unique columns. *)
Lemma NoDup_createRow {K} (key : R → K) r t :
  NoDup (key <$> t) → key r ∉ key <$> t → NoDup (key <$> createRow r t).
Proof.
  intros H1 H2. rewrite fmap_createRow. apply NoDup_app. split_and!; [done| |apply NoDup_singleton].
  by intros x Hx ->%list_elem_of_singleton.
Qed.

Lemma NoDup_deleteMany {K} (key : R → K) p t : NoDup (key <$> t) → NoDup (key <$> deleteMany p t).
Proof.
  intros Hn. unfold deleteMany. eapply sublist_NoDup; [exact Hn|]. apply fmap_sublist, sublist_filter.
Qed.

Lemma find_None_key {K} `{EqDecision K} (key : R → K) k t :
  findFirst (λ r, bool_decide (key r = k)) t = None → k ∉ key <$> t.
Proof.
  rewrite findFirst_None. intros Hn (r & -> & Hr)%list_elem_of_fmap. specialize (Hn r Hr).
  by rewrite bool_decide_eq_true_2 in Hn.
Qed.

Lemma find_Some_key {K} `{EqDecision K} (key : R → K) k t r :
  findFirst (λ r, bool_decide (key r = k)) t = Some r → k ∈ key <$> t.
Proof. intros [Hr <-%bool_decide_eq_true]%findFirst_Some. by apply list_elem_of_fmap_2. Qed.
End table_lemmas.

(** Filters that agree on the elements of a list. *)
Lemma list_filter_iff' {A} (P Q : A → Prop) `{∀ x, Decision (P x)} `{∀ x, Decision (Q x)} (l : list A) :
  (∀ x, x ∈ l → (P x ↔ Q x)) → filter P l = filter Q l.
Proof.
  induction l as [|x l IH]; intros Hpq; [done|]. rewrite !filter_cons.
  rewrite IH by (intros; apply Hpq; by right).
  specialize (Hpq x (list_elem_of_here _ _)). repeat case_decide; tauto.
Qed.

Lemma list_bind_ext_in {A B} (f g : A → list B) (l : list A) :
  (∀ x, x ∈ l → f x = g x) → l ≫= f = l ≫= g.
Proof.
  induction l as [|x l IH]; intros H; [done|]. rewrite !bind_cons, H by by left.
  rewrite IH; [done|]. intros y Hy. apply H. by right.
Qed.

Section uniq_lemmas.
Context {A : Type} `{EqDecision A}.
Implicit Types l : list A.

Lemma elem_of_uniq l x : x ∈ uniq l ↔ x ∈ l.
Proof.
  induction l as [|y l IH]; simpl; [done|].
  rewrite !elem_of_cons, list_elem_of_filter, IH.
  destruct (decide (x = y)); naive_solver.
Qed.

Lemma NoDup_uniq l : NoDup (uniq l).
Proof.
  induction l as [|y l IH]; simpl; constructor.
  - rewrite list_elem_of_filter. naive_solver.
  - by apply NoDup_filter.
Qed.

Lemma uniq_NoDup l : NoDup l → uniq l = l.
Proof.
  induction 1 as [|y l Hy Hl IH]; simpl; [done|]. rewrite IH. f_equal.
  assert (H : ∀ z, z ∈ l → z ≠ y) by (intros z Hz ->; done). clear -H.
  induction l as [|z l IH]; [done|]. rewrite filter_cons_True.
  - f_equal. apply IH. intros w Hw. apply H. by right.
  - apply H. by left.
Qed.

Lemma uniq_idemp l : uniq (uniq l) = uniq l.
Proof. apply uniq_NoDup, NoDup_uniq. Qed.

Lemma includes_true x l : includes x l = true ↔ x ∈ l.
Proof. unfold includes. by rewrite bool_decide_eq_true. Qed.

Lemma includes_false x l : includes x l = false ↔ x ∉ l.
Proof. unfold includes. by rewrite bool_decide_eq_false. Qed.

Lemma every_true (p : A → bool) l : every p l = true ↔ ∀ x, x ∈ l → p x = true.
Proof.
  unfold every. rewrite forallb_forall. by setoid_rewrite list_elem_of_In.
Qed.

Lemma some_true (p : A → bool) l : some p l = true ↔ ∃ x, x ∈ l ∧ p x = true.
Proof.
  unfold some. rewrite existsb_exists. by setoid_rewrite list_elem_of_In.
Qed.

Lemma some_false (p : A → bool) l : some p l = false ↔ ∀ x, x ∈ l → p x = false.
Proof.
  rewrite <-not_true_iff_false, some_true. split.
  - intros H x Hx. apply not_true_iff_false. naive_solver.
  - intros H [x [Hx Hp]]. by rewrite H in Hp.
Qed.
End uniq_lemmas.

Lemma sort_insert_in {A} (le : A → A → bool) x y l : y ∈ sort_insert le x l ↔ y = x ∨ y ∈ l.
Proof.
  induction l as [|z l IH]; simpl; [by rewrite list_elem_of_singleton, elem_of_nil; tauto|].
  destruct (le x z); rewrite !elem_of_cons; [tauto|]. rewrite IH. tauto.
Qed.

Lemma sort_in {A} (le : A → A → bool) y l : y ∈ sort le l ↔ y ∈ l.
Proof.
  induction l as [|x l IH]; simpl; [done|]. rewrite sort_insert_in, elem_of_cons. by rewrite IH.
Qed.

(** Rows with distinct keys are told apart by them. *)
Lemma NoDup_key {A K} (f : A → K) l x y :
  NoDup (f <$> l) → x ∈ l → y ∈ l → f x = f y → x = y.
Proof.
  intros Hnd [i Hi]%list_elem_of_lookup [j Hj]%list_elem_of_lookup Hf.
  assert (i = j) as ->; [|congruence].
  apply (NoDup_lookup _ i j (f x) Hnd); rewrite list_lookup_fmap; [by rewrite Hi|].
  by rewrite Hj, Hf.
Qed.
