(* ===== verification/JsText.v ===== *)
(** * JavaScript string operations, [common/text.ts] and [common/git-safety.ts]

    Strings are sequences of 8-bit characters; case mapping and white space
    are those of ASCII.  The first part gives the string methods of the
    language the services use, the modules model the two source files. *)

From S2P Require Import Prelude.

(** ** String methods of the language *)

Abbreviation chars := String.list_ascii_of_string.
Abbreviation of_chars := String.string_of_list_ascii.

Definition code (c : ascii) : nat := Ascii.nat_of_ascii c.

Definition in_range (lo hi : ascii) (c : ascii) : bool :=
  (code lo <=? code c) && (code c <=? code hi).

Definition is_digit : ascii → bool := in_range "0"%char "9"%char.
Definition is_upper : ascii → bool := in_range "A"%char "Z"%char.
Definition is_lower : ascii → bool := in_range "a"%char "z"%char.

(** [\s] and what [trim] strips: tab, LF, VT, FF, CR, space. *)
Definition is_space (c : ascii) : bool :=
  (code c =? 32) || ((9 <=? code c) && (code c <=? 13)).

Definition lower_char (c : ascii) : ascii :=
  if is_upper c then Ascii.ascii_of_nat (code c + 32) else c.
Definition upper_char (c : ascii) : ascii :=
  if is_lower c then Ascii.ascii_of_nat (code c - 32) else c.

Definition toLowerCase (s : string) : string := of_chars (lower_char <$> chars s).
Definition toUpperCase (s : string) : string := of_chars (upper_char <$> chars s).

Fixpoint drop_while (p : ascii → bool) (l : list ascii) : list ascii :=
  match l with
  | [] => []
  | c :: l' => if p c then drop_while p l' else l
  end.

Definition trim_chars (p : ascii → bool) (l : list ascii) : list ascii :=
  reverse (drop_while p (reverse (drop_while p l))).

Definition trim (s : string) : string := of_chars (trim_chars is_space (chars s)).

(** [s.split(c)] for a one-character separator. *)
Fixpoint split_chars (c : ascii) (l : list ascii) : list (list ascii) :=
  match l with
  | [] => [[]]
  | x :: l' =>
      if bool_decide (x = c) then [] :: split_chars c l'
      else match split_chars c l' with
           | [] => [[x]]
           | w :: ws => (x :: w) :: ws
           end
  end.
Definition split (c : ascii) (s : string) : list string :=
  of_chars <$> split_chars c (chars s).

Definition startsWith (p s : string) : bool := String.prefix p s.
Definition endsWith (p s : string) : bool :=
  String.prefix (String.rev p) (String.rev s).

Fixpoint has_substring (sub s : string) : bool :=
  String.prefix sub s ||
  match s with EmptyString => false | String _ s' => has_substring sub s' end.

Fixpoint indexOf_aux (sub s : string) (i : nat) : option nat :=
  if String.prefix sub s then Some i
  else match s with EmptyString => None | String _ s' => indexOf_aux sub s' (S i) end.
Definition indexOf (sub s : string) : option nat := indexOf_aux sub s 0.

(** [s.slice(i)] and [s.slice(0, n)]. *)
Definition slice_from (i : nat) (s : string) : string := of_chars (drop i (chars s)).
Definition slice_to (n : nat) (s : string) : string := of_chars (take n (chars s)).

(** [xs.join(sep)] *)
Definition join (sep : string) (xs : list string) : string := String.concat sep xs.

(** [/^\d+$/.test(s)] and the value of a digit string. *)
Definition all_digits (s : string) : bool :=
  negb (bool_decide (s = "")) && forallb is_digit (chars s).
Definition digits_value (s : string) : Z :=
  fold_left (λ acc c, (acc * 10 + Z.of_nat (code c - 48))%Z) (chars s) 0%Z.

Definition num_to_string (n : Z) : string := pretty n.

(** [String(n).padStart(2, '0')] *)
Definition pad2 (n : Z) : string :=
  let s := num_to_string n in
  if String.length s <? 2 then
    of_chars (replicate (2 - String.length s) "0"%char ++ chars s)
  else s.

(** JSON values as they come out of a settings row or a connector config; the
    numbers the modelled services read from them are integers. *)
Inductive json :=
| JNull
| JBool (b : bool)
| JNum (n : Z)
| JStr (s : string)
| JArr (l : list json)
| JObj (l : list (string * json)).

(** [String(v)] *)
Fixpoint js_String (v : json) : string :=
  match v with
  | JNull => "null"
  | JBool b => if b then "true" else "false"
  | JNum n => num_to_string n
  | JStr s => s
  | JArr l =>
      join "," ((fix go l :=
        match l with
        | [] => []
        | JNull :: l' => "" :: go l'
        | v :: l' => js_String v :: go l'
        end) l)
  | JObj _ => "[object Object]"
  end.

(** [o[key]]; [None] is [undefined]. *)
Definition json_field (key : string) (v : json) : option json :=
  match v with
  | JObj l => snd <$> findFirst (λ kv, bool_decide (kv.1 = key)) (reverse l)
  | _ => None
  end.

(** [v ?? undefined]: [null] reads as absent. *)
Definition nullish (v : option json) : option json :=
  match v with Some JNull => None | _ => v end.

(** Truthiness of a JSON value. *)
Definition truthy_json (v : option json) : bool :=
  match v with
  | None | Some JNull | Some (JBool false) | Some (JNum 0) | Some (JStr "") => false
  | _ => true
  end.
Fixpoint digit_prefix (l : list ascii) : list ascii :=
  match l with
  | c :: l' => if is_digit c then c :: digit_prefix l' else []
  | [] => []
  end.

(** [parseInt(s, 10)]; [None] is [NaN]. *)
Definition parseInt10 (s : string) : option Z :=
  let l := drop_while is_space (chars s) in
  let '(sign, l) :=
    match l with
    | c :: l' =>
        if bool_decide (c = "-"%char) then ((-1)%Z, l')
        else if bool_decide (c = "+"%char) then (1%Z, l') else (1%Z, l)
    | [] => (1%Z, l)
    end in
  match digit_prefix l with
  | [] => None
  | ds => Some (sign * digits_value (of_chars ds))%Z
  end.

(** [Number(s)]; [None] is [NaN].  As in [json], numbers are integers: blank
    text is 0, a signed decimal numeral its value, any other text is not a
    number. *)
Definition Number (s : string) : option Z :=
  let t := trim s in
  let value d := if all_digits d then Some (digits_value d) else None in
  match t with
  | EmptyString => Some 0%Z
  | String c d =>
      if bool_decide (c = "-"%char) then Z.opp <$> value d
      else if bool_decide (c = "+"%char) then value d else value t
  end.

(** [Number(v)] *)
Definition Number_json (v : option json) : option Z :=
  match v with
  | None => None
  | Some JNull => Some 0%Z
  | Some (JBool b) => Some (if b then 1%Z else 0%Z)
  | Some (JNum n) => Some n
  | Some v => Number (js_String v)
  end.

(** A line feed. *)
Definition nl : string := String (Ascii.ascii_of_nat 10) "".

(** A double quote, and text between double quotes (for messages). *)
Definition dq : string := String (Ascii.ascii_of_nat 34) "".
Definition quoted (s : string) : string := dq +:+ s +:+ dq.

(** ** [common/text.ts] *)
Module Text.

(** [while (start < end && s[start] === ch) start++;] *)
Fixpoint skip_start (fuel : nat) (s : string) (ch : ascii) (start stop : nat) : nat :=
  match fuel with
  | 0 => start
  | S fuel' =>
      if (start <? stop) && bool_decide (String.get start s = Some ch)
      then skip_start fuel' s ch (S start) stop
      else start
  end.

(** [while (end > start && s[end - 1] === ch) end--;] *)
Fixpoint skip_end (fuel : nat) (s : string) (ch : ascii) (start stop : nat) : nat :=
  match fuel with
  | 0 => stop
  | S fuel' =>
      if (start <? stop) && bool_decide (String.get (stop - 1) s = Some ch)
      then skip_end fuel' s ch start (stop - 1)
      else stop
  end.

(** The length of the string is enough fuel for both loops: each iteration
    moves one end past a character of it. *)
Definition trimChar (s : string) (ch : ascii) : string :=
  let n := String.length s in
  let start := skip_start n s ch 0 n in
  let stop := skip_end n s ch start n in
  String.substring start (stop - start) s.

Definition trimEndChar (s : string) (ch : ascii) : string :=
  let n := String.length s in
  let stop := skip_end n s ch 0 n in
  String.substring 0 stop s.

End Text.

(** ** [common/git-safety.ts] *)
Module GitSafety.

Definition GIT_ALLOWED_PROTOCOLS : string := "https:http:ssh:git".

(** [{ ...base, GIT_ALLOW_PROTOCOL: …, GIT_PROTOCOL_FROM_USER: '0' }] *)
Definition gitSafeEnv (base : gmap string string) : gmap string string :=
  <["GIT_PROTOCOL_FROM_USER" := "0"]>
    (<["GIT_ALLOW_PROTOCOL" := GIT_ALLOWED_PROTOCOLS]> base).

(** [/^(?:ext|fd)::/i.test(u) || /^file:/i.test(u)] *)
Definition dangerous_scheme (u : string) : bool :=
  startsWith "ext::" (toLowerCase u) || startsWith "fd::" (toLowerCase u) ||
  startsWith "file:" (toLowerCase u).

Definition assertSafeGitUrl (url : option string) : result http_error string :=
  let u := trim (default "" url) in
  if bool_decide (u = "") then Err (BadRequest "A git repository URL is required.")
  else if startsWith "-" u then Err (BadRequest "Invalid git repository URL.")
  else if dangerous_scheme u then
    Err (BadRequest "Unsupported git URL scheme — only http, https, ssh and git are allowed.")
  else Ok u.

Definition assertSafeGitRef (ref : option string) : result http_error string :=
  let r := trim (default "" ref) in
  if startsWith "-" r then
    Err (BadRequest ("Invalid git ref (cannot start with " +:+ quoted "-" +:+ ")."))
  else Ok r.

End GitSafety.

(** ** Lemmas on the string methods *)

Lemma chars_of_chars l : chars (of_chars l) = l.
Proof. apply String.list_ascii_of_string_of_list_ascii. Qed.

Lemma of_chars_chars s : of_chars (chars s) = s.
Proof. apply String.string_of_list_ascii_of_string. Qed.

Lemma chars_inj s1 s2 : chars s1 = chars s2 → s1 = s2.
Proof. intros H. rewrite <-(of_chars_chars s1), <-(of_chars_chars s2). by rewrite H. Qed.

Lemma length_chars s : length (chars s) = String.length s.
Proof. induction s as [|c s IH]; simpl; [done|]. by rewrite IH. Qed.

Lemma get_lookup i s : String.get i s = chars s !! i.
Proof. revert i. induction s as [|c s IH]; intros [|i]; simpl; auto. Qed.

Lemma chars_substring i n s : chars (String.substring i n s) = take n (drop i (chars s)).
Proof.
  revert i n. induction s as [|c s IH]; intros [|i] [|n]; simpl; auto.
  f_equal. by rewrite IH, drop_0.
Qed.

Section drop_while.
Variable p : ascii → bool.

Lemma drop_while_split l :
  ∃ pre, l = pre ++ drop_while p l ∧ Forall (λ c, p c = true) pre.
Proof.
  induction l as [|c l (pre & IH & Hp)]; simpl; [by exists []|].
  destruct (p c) eqn:Hc.
  - exists (c :: pre). simpl. split; [by f_equal | by constructor].
  - by exists [].
Qed.

Lemma drop_while_head l c : head (drop_while p l) = Some c → p c = false.
Proof.
  induction l as [|x l IH]; simpl; [done|].
  destruct (p x) eqn:Hx; [done|]. simpl. intros [= ->]. done.
Qed.

Lemma drop_while_id l : (∀ c, head l = Some c → p c = false) → drop_while p l = l.
Proof. destruct l as [|x l]; simpl; [done|]. intros H. by rewrite (H x). Qed.

Lemma drop_while_idemp l : drop_while p (drop_while p l) = drop_while p l.
Proof. apply drop_while_id, drop_while_head. Qed.

(** Stripping the end keeps the first character, if anything is left. *)
Lemma trim_chars_head l c : head (trim_chars p l) = Some c → p c = false.
Proof.
  unfold trim_chars. intros H.
  destruct (drop_while_split (reverse (drop_while p l))) as (pre & Hpre & _).
  apply (drop_while_head l). apply (f_equal reverse) in Hpre.
  rewrite reverse_app, reverse_involutive in Hpre. rewrite Hpre.
  by destruct (reverse (drop_while p (reverse (drop_while p l)))).
Qed.

Lemma trim_chars_last l c : last (trim_chars p l) = Some c → p c = false.
Proof. unfold trim_chars. rewrite last_reverse. apply drop_while_head. Qed.

Lemma trim_chars_id l :
  (∀ c, head l = Some c → p c = false) → (∀ c, last l = Some c → p c = false) →
  trim_chars p l = l.
Proof.
  intros Hh Hl. unfold trim_chars. rewrite (drop_while_id l) by done.
  rewrite drop_while_id; [apply reverse_involutive|]. intros c.
  rewrite head_reverse. apply Hl.
Qed.

Lemma trim_chars_idemp l : trim_chars p (trim_chars p l) = trim_chars p l.
Proof.
  apply trim_chars_id; [apply trim_chars_head | apply trim_chars_last].
Qed.
End drop_while.

Lemma drop_while_in p l x : x ∈ drop_while p l → x ∈ l.
Proof.
  induction l as [|y l IH]; simpl; [done|]. destruct (p y); [|done]. intros Hx. right. by apply IH.
Qed.

Lemma trim_in s c : c ∈ chars (trim s) → c ∈ chars s.
Proof.
  unfold trim, trim_chars. rewrite chars_of_chars, elem_of_reverse.
  intros Hc%drop_while_in. rewrite elem_of_reverse in Hc. by eapply drop_while_in.
Qed.

Lemma trim_idemp s : trim (trim s) = trim s.
Proof. unfold trim. by rewrite chars_of_chars, trim_chars_idemp. Qed.

(** ** Splitting and searching *)

Lemma chars_app s1 s2 : chars (s1 +:+ s2) = chars s1 ++ chars s2.
Proof. induction s1 as [|c s1 IH]; simpl; [done|]. by rewrite IH. Qed.

Lemma chars_String c s : chars (String c s) = c :: chars s.
Proof. done. Qed.

Lemma split_chars_no_sep c l : c ∉ l → split_chars c l = [l].
Proof.
  induction l as [|x l IH]; simpl; [done|].
  rewrite not_elem_of_cons. intros [Hx Hl].
  rewrite bool_decide_eq_false_2 by congruence. by rewrite IH.
Qed.

Lemma split_chars_app c l l' :
  c ∉ l → split_chars c (l ++ c :: l') = l :: split_chars c l'.
Proof.
  induction l as [|x l IH]; simpl.
  - by rewrite bool_decide_eq_true_2.
  - rewrite not_elem_of_cons. intros [Hx Hl].
    rewrite bool_decide_eq_false_2 by congruence. by rewrite IH.
Qed.

Lemma split_chars_ne c l : split_chars c l ≠ [].
Proof.
  destruct l as [|x l]; simpl; [done|]. case_bool_decide; [done|].
  by destruct (split_chars c l).
Qed.

Lemma split_chars_elem c l x :
  x ∈ l → x = c ∨ ∃ w, w ∈ split_chars c l ∧ x ∈ w.
Proof.
  induction l as [|y l IH]; [by intros ?%elem_of_nil|]. simpl.
  rewrite elem_of_cons. intros Hx.
  case_bool_decide as Hy.
  { destruct Hx as [->|[?|(w & ? & ?)]%IH]; [by left | by left |].
    right. exists w. rewrite elem_of_cons. auto. }
  destruct (split_chars c l) as [|w ws] eqn:Hs; [by destruct (split_chars_ne c l)|].
  destruct Hx as [->|[?|(w' & Hw & ?)]%IH]; [right|by left|right].
  - exists (y :: w). rewrite !elem_of_cons. auto.
  - apply elem_of_cons in Hw as [->|Hw];
      [exists (y :: w) | exists w']; rewrite !elem_of_cons; auto.
Qed.

Lemma split_elem c s x :
  x ∈ chars s → x = c ∨ ∃ w, w ∈ split c s ∧ x ∈ chars w.
Proof.
  intros [?|(w & Hw & ?)]%(split_chars_elem c); [by left|]. right.
  exists (of_chars w). rewrite chars_of_chars. split; [|done].
  by apply list_elem_of_fmap_2.
Qed.

(** The pieces hold characters of the text, never the separator. *)
Lemma split_chars_in c l w :
  w ∈ split_chars c l → (c ∉ w) ∧ ∀ x, x ∈ w → x ∈ l.
Proof.
  revert w. induction l as [|y l IH]; intros w; simpl.
  - intros ->%list_elem_of_singleton. split; [by intros ?%elem_of_nil | by intros ? ?%elem_of_nil].
  - case_bool_decide as Hy.
    + intros [->|[Hc Hw]%IH]%elem_of_cons.
      * split; [by intros ?%elem_of_nil | by intros ? ?%elem_of_nil].
      * split; [done|]. intros x Hx. right. by apply Hw.
    + destruct (split_chars c l) as [|v vs] eqn:Hs; [by destruct (split_chars_ne c l)|].
      intros [->|Hw]%elem_of_cons.
      * destruct (IH v) as [Hc Hv]; [by left|]. split.
        -- by intros [?|?]%elem_of_cons.
        -- intros x [->|Hx]%elem_of_cons; [by left | right; by apply Hv].
      * destruct (IH w) as [Hc Hv]; [by right|]. split; [done|]. intros x Hx. right. by apply Hv.
Qed.

Lemma split_in c s w : w ∈ split c s → (c ∉ chars w) ∧ ∀ x, x ∈ chars w → x ∈ chars s.
Proof.
  intros (l & -> & Hl)%list_elem_of_fmap. rewrite chars_of_chars. by apply split_chars_in.
Qed.

Lemma split_no_sep c s : c ∉ chars s → split c s = [s].
Proof.
  intros ?. unfold split. rewrite split_chars_no_sep by done. simpl.
  by rewrite of_chars_chars.
Qed.

Lemma split_app c a b : c ∉ chars a → split c (a +:+ String c b) = a :: split c b.
Proof.
  intros ?. unfold split. rewrite chars_app. simpl.
  rewrite split_chars_app by done. simpl. by rewrite of_chars_chars.
Qed.

Lemma split_join c xs :
  Forall (λ x, c ∉ chars x) xs → xs ≠ [] → split c (join (String c "") xs) = xs.
Proof.
  induction 1 as [|x xs Hx Hxs IH]; [done|]. intros _. destruct xs as [|y xs].
  - change (join _ [x]) with x. by apply split_no_sep.
  - change (join _ (x :: y :: xs)) with (x +:+ String c (join (String c "") (y :: xs))).
    rewrite split_app by done. by rewrite IH.
Qed.

Lemma split_chars_app_any c l l' : split_chars c (l ++ c :: l') = split_chars c l ++ split_chars c l'.
Proof.
  induction l as [|x l IH]; simpl; [by rewrite bool_decide_eq_true_2|].
  case_bool_decide; rewrite IH; [done|].
  by destruct (split_chars c l) as [|w ws] eqn:Hs; [destruct (split_chars_ne c l)|].
Qed.

Lemma split_app_any c a b : split c (a +:+ String c b) = split c a ++ split c b.
Proof. unfold split. rewrite chars_app. simpl. by rewrite split_chars_app_any, fmap_app. Qed.

Lemma join_cons c x y xs : join (String c "") (x :: y :: xs) = x +:+ String c (join (String c "") (y :: xs)).
Proof. done. Qed.

Lemma join_split c s : join (String c "") (split c s) = s.
Proof.
  apply chars_inj. unfold split. generalize (chars s). clear s. intros l.
  induction l as [|x l IH]; simpl; [done|]. case_bool_decide as Hx.
  - subst. destruct (split_chars c l) as [|w ws] eqn:Hs; [by destruct (split_chars_ne c l)|].
    rewrite !fmap_cons in *. rewrite join_cons, chars_app, chars_of_chars, chars_String. by rewrite IH.
  - destruct (split_chars c l) as [|w ws] eqn:Hs; [by destruct (split_chars_ne c l)|].
    rewrite <-IH. destruct ws as [|v ws]; rewrite !fmap_cons; [done|]. rewrite !join_cons.
    by rewrite !chars_app, !chars_of_chars, !chars_String.
Qed.

Lemma join_app c xs ys :
  xs ≠ [] → ys ≠ [] →
  join (String c "") (xs ++ ys) = join (String c "") xs +:+ String c (join (String c "") ys).
Proof.
  induction xs as [|x xs IH]; [done|]. intros _ Hy. destruct xs as [|x' xs].
  - by destruct ys.
  - change ((x :: x' :: xs) ++ ys) with (x :: (x' :: xs) ++ ys). simpl ((x' :: xs) ++ ys).
    rewrite !join_cons. apply chars_inj. rewrite !chars_app, !chars_String.
    change (x' :: xs ++ ys) with ((x' :: xs) ++ ys). rewrite IH by done.
    by rewrite !chars_app, !chars_String, <-(assoc_L (++)).
Qed.

Lemma prefix_chars p s : String.prefix p s = true ↔ ∃ l, chars s = chars p ++ l.
Proof.
  revert s. induction p as [|c p IH]; intros s; simpl.
  - split; [intros _; by exists (chars s) | intros _; by destruct s].
  - destruct s as [|d s]; simpl.
    + split; [done | by intros [l [=]]].
    + destruct (ascii_dec c d) as [->|Hne].
      * rewrite IH. split; intros [l Hl]; exists l; simplify_eq/=; [by rewrite Hl | done].
      * split; [done|]. intros [l Hl]. simplify_eq.
Qed.

Lemma indexOf_aux_Some sub s j i :
  indexOf_aux sub s j = Some i →
  j ≤ i ∧ ∃ l1 l2, chars s = l1 ++ chars sub ++ l2 ∧ length l1 = i - j.
Proof.
  revert j. induction s as [|c s IH]; intros j; cbn [indexOf_aux];
    destruct (String.prefix sub _) eqn:Hp; try done; try (intros [= <-]).
  1,2: apply prefix_chars in Hp as [l Hl]; split; [lia|];
    exists [], l; split; [done | simpl; lia].
  intros (? & l1 & l2 & Hl & Hlen)%IH. split; [lia|].
  exists (c :: l1), l2. simpl. rewrite Hl. split; [done | lia].
Qed.

Lemma indexOf_Some sub s i :
  indexOf sub s = Some i →
  chars s = take i (chars s) ++ chars sub ++ drop (i + String.length sub) (chars s).
Proof.
  intros (_ & l1 & l2 & Hl & Hlen)%indexOf_aux_Some. rewrite Nat.sub_0_r in Hlen.
  rewrite Hl at 1 2 3. rewrite <-(length_chars sub), <-Hlen.
  by rewrite take_app_length, drop_app_add', drop_app_length.
Qed.

(** The first occurrence of a character. *)
Lemma indexOf_char c a b :
  c ∉ chars a → indexOf (String c "") (a +:+ String c b) = Some (String.length a).
Proof.
  unfold indexOf. rewrite <-(Nat.add_0_l (String.length a)). generalize 0.
  induction a as [|x a IH]; intros j Hc.
  - simpl. rewrite Nat.add_0_r. by destruct (ascii_dec c c), b.
  - apply not_elem_of_cons in Hc as [Hx Hc].
    change (String x a +:+ String c b) with (String x (a +:+ String c b)).
    cbn [indexOf_aux String.prefix]. destruct (ascii_dec c x); [done|].
    rewrite IH by done. simpl. f_equal. lia.
Qed.

Lemma slice_app a b c :
  slice_to (String.length a) (a +:+ String c b) = a ∧
  slice_from (String.length a + 1) (a +:+ String c b) = b ∧
  slice_from (String.length a) (a +:+ b) = b.
Proof.
  unfold slice_to, slice_from. rewrite !chars_app, <-length_chars. simpl. split_and!.
  - rewrite take_app_length. apply of_chars_chars.
  - rewrite drop_app_add. simpl. apply of_chars_chars.
  - rewrite drop_app_length. apply of_chars_chars.
Qed.

Lemma startsWith_app p s : startsWith p (p +:+ s) = true.
Proof. apply prefix_chars. exists (chars s). apply chars_app. Qed.

Lemma toLowerCase_chars s : chars (toLowerCase s) = lower_char <$> chars s.
Proof. apply chars_of_chars. Qed.

Lemma trim_id s : (∀ c, c ∈ chars s → is_space c = false) → trim s = s.
Proof.
  intros H. unfold trim. rewrite trim_chars_id; [apply of_chars_chars| |];
    intros c Hc; apply H; [by apply head_Some_elem_of | by apply last_Some_elem_of].
Qed.

Lemma all_digits_chars s c : all_digits s = true → c ∈ chars s → is_digit c = true.
Proof.
  unfold all_digits. rewrite andb_true_iff, forallb_forall. intros [_ H] Hc.
  apply H. by apply list_elem_of_In.
Qed.

(** ** Trimming *)

(** A printed number: digits, and a minus sign. *)
Lemma pretty_N_go_chars x s c :
  c ∈ chars (pretty_N_go x s) → is_digit c = true ∨ c ∈ chars s.
Proof.
  revert s. induction (N.lt_wf_0 x) as [x _ IH]; intros s.
  assert (x = 0 ∨ 0 < x)%N as [->|?] by lia; [rewrite pretty_N_go_0; by right|].
  rewrite pretty_N_go_step by done. intros Hc%IH; [|by apply N.div_lt].
  destruct Hc as [?|[->|?]%elem_of_cons]; [by left| |by right].
  left. unfold pretty_N_char. by repeat case_match.
Qed.

Lemma number_chars n c :
  c ∈ chars (num_to_string n) → is_digit c = true ∨ c = "-"%char.
Proof.
  assert (Hp : ∀ p c, c ∈ chars (pretty (N.pos p)) → is_digit c = true).
  { intros p d Hd. unfold pretty, pretty_N in Hd. case_decide; [done|].
    apply pretty_N_go_chars in Hd as [?|Hd]; [done|]. by apply elem_of_nil in Hd. }
  destruct n as [|p|p]; simpl.
  - intros [->|?%elem_of_nil]%elem_of_cons; [by left|done].
  - intros Hc. left. by apply (Hp p).
  - intros [->|Hc]%elem_of_cons; [by right|]. left. by apply (Hp p).
Qed.

Lemma num_to_string_inj a b : num_to_string a = num_to_string b → a = b.
Proof. apply (inj pretty). Qed.

(** Small numbers, as written and read back. *)
Definition small (n : Z) : Prop := (0 ≤ n ≤ 128)%Z.

Lemma digit_not_space c : is_digit c = true → is_space c = false.
Proof. by destruct c as [[] [] [] [] [] [] [] []]. Qed.

Lemma prefix_roundtrip n :
  small n → all_digits (num_to_string n) = true ∧ digits_value (num_to_string n) = n.
Proof.
  unfold small. intros Hn. assert (Hall : forallb (λ k, let z := Z.of_nat k in
    all_digits (num_to_string z) && (digits_value (num_to_string z) =? z)%Z) (seq 0 129) = true)
    by (vm_compute; reflexivity).
  rewrite forallb_forall in Hall. specialize (Hall (Z.to_nat n)).
  rewrite Z2Nat.id in Hall by lia. simpl in Hall.
  assert (Hin : In (Z.to_nat n) (seq 0 129)) by (apply in_seq; lia).
  apply Hall, andb_true_iff in Hin as [? ?%Z.eqb_eq]. done.
Qed.

(** What a printed number looks like: its digits, and nothing else. *)
Lemma small_number n :
  small n → Number (num_to_string n) = Some n ∧ ∀ c, c ∈ chars (num_to_string n) → is_digit c = true.
Proof.
  intros Hn. destruct (prefix_roundtrip n Hn) as [Hd Hv]. split.
  - unfold Number. rewrite trim_id; [|intros c Hc; by eapply digit_not_space, all_digits_chars].
    destruct (num_to_string n) as [|c s] eqn:Hs; [done|].
    assert (Hc : is_digit c = true) by (eapply all_digits_chars; [exact Hd | by left]).
    rewrite !bool_decide_eq_false_2 by (intros ->; done). by rewrite Hd, Hv.
  - intros c. by apply all_digits_chars.
Qed.

(** A character that is no digit is not in a printed number. *)
Lemma not_in_number c n : small n → is_digit c = false → c ∉ chars (num_to_string n).
Proof. intros Hn Hc Hin. apply small_number in Hin; [congruence | done]. Qed.

Lemma skip_start_spec fuel s ch start stop :
  stop - start ≤ fuel → start ≤ stop →
  let r := Text.skip_start fuel s ch start stop in
  start ≤ r ≤ stop ∧
  (∀ i, start ≤ i < r → chars s !! i = Some ch) ∧
  (r < stop → chars s !! r ≠ Some ch).
Proof.
  revert start. induction fuel as [|fuel IH]; intros start Hf Hle; simpl.
  { split_and!; [lia | lia | intros; lia | intros; lia]. }
  case_match eqn:Hc.
  - apply andb_true_iff in Hc as [Hlt Hch].
    apply Nat.ltb_lt in Hlt. apply bool_decide_eq_true in Hch.
    destruct (IH (S start)) as (? & Hall & Hstop); [lia | lia |].
    split_and!; [lia | lia | | done].
    intros i Hi. destruct (decide (i = start)) as [->|].
    + by rewrite <-get_lookup.
    + apply Hall. lia.
  - split_and!; [lia | lia | intros; lia |]. intros Hlt.
    apply andb_false_iff in Hc as [Hc|Hc].
    + apply Nat.ltb_ge in Hc. lia.
    + rewrite <-get_lookup. by apply bool_decide_eq_false in Hc.
Qed.

Lemma skip_end_spec fuel s ch start stop :
  stop - start ≤ fuel → start ≤ stop →
  let r := Text.skip_end fuel s ch start stop in
  start ≤ r ≤ stop ∧
  (∀ i, r ≤ i < stop → chars s !! i = Some ch) ∧
  (start < r → chars s !! (r - 1) ≠ Some ch).
Proof.
  revert stop. induction fuel as [|fuel IH]; intros stop Hf Hle; simpl.
  { split_and!; [lia | lia | intros; lia | intros; lia]. }
  case_match eqn:Hc.
  - apply andb_true_iff in Hc as [Hlt Hch].
    apply Nat.ltb_lt in Hlt. apply bool_decide_eq_true in Hch.
    destruct (IH (stop - 1)) as (? & Hall & Hstop); [lia | lia |].
    split_and!; [lia | lia | | done].
    intros i Hi. destruct (decide (i = stop - 1)) as [->|].
    + by rewrite <-get_lookup.
    + apply Hall. lia.
  - split_and!; [lia | lia | intros; lia |]. intros Hlt.
    apply andb_false_iff in Hc as [Hc|Hc].
    + apply Nat.ltb_ge in Hc. lia.
    + rewrite <-get_lookup. by apply bool_decide_eq_false in Hc.
Qed.

(** A stretch of a list on which every element is [x] is a [replicate]. *)
Lemma take_drop_replicate {A} (l : list A) x a b :
  a ≤ b ≤ length l → (∀ i, a ≤ i < b → l !! i = Some x) →
  take (b - a) (drop a l) = replicate (b - a) x.
Proof.
  intros Hab H. apply list_eq. intros i.
  destruct (decide (i < b - a)) as [Hi|Hi].
  - rewrite lookup_take_lt by done. rewrite lookup_drop, lookup_replicate_2 by done.
    apply H. lia.
  - rewrite lookup_take_ge by lia. symmetry. apply lookup_replicate_None. lia.
Qed.

(** for every string and character, [trimChar] splits the string into a
    run of that character, the result and another such run, and the result
    neither starts nor ends with the character: nothing else is removed and
    nothing is left, so both loops run to their end. *)
Theorem trimChar_spec (s : string) (ch : ascii) :
  ∃ i j,
    chars s = replicate i ch ++ chars (Text.trimChar s ch) ++ replicate j ch ∧
    head (chars (Text.trimChar s ch)) ≠ Some ch ∧
    last (chars (Text.trimChar s ch)) ≠ Some ch.
Proof.
  unfold Text.trimChar. set (n := String.length s). set (l := chars s).
  assert (Hn : n = length l) by (unfold n, l; by rewrite length_chars).
  destruct (skip_start_spec n s ch 0 n) as (Hs & Hpre & Hshead); [lia | lia |].
  set (a := Text.skip_start n s ch 0 n) in *.
  destruct (skip_end_spec n s ch a n) as (He & Hpost & Hslast); [lia | lia |].
  set (b := Text.skip_end n s ch a n) in *.
  exists a, (n - b). rewrite chars_substring. fold l. split_and!.
  - rewrite <-(take_drop_replicate l ch b n) by (auto; lia).
    rewrite (take_ge (drop b l)) by (rewrite length_drop; lia).
    rewrite <-(Nat.sub_0_r a) at 1.
    rewrite <-(take_drop_replicate l ch 0 a) by (auto; lia).
    rewrite Nat.sub_0_r, drop_0.
    rewrite <-(take_drop a l) at 1. f_equal.
    rewrite <-(take_drop (b - a) (drop a l)) at 1. f_equal.
    rewrite drop_drop. f_equal. lia.
  - rewrite head_lookup. destruct (decide (a < b)) as [Hab|Hab].
    + rewrite lookup_take_lt by lia. rewrite lookup_drop, Nat.add_0_r.
      apply Hshead. lia.
    + rewrite lookup_take_ge by lia. done.
  - rewrite last_lookup, length_take, length_drop.
    destruct (decide (a < b)) as [Hab|Hab].
    + rewrite lookup_take_lt by lia. rewrite lookup_drop.
      replace (a + _) with (b - 1) by lia. apply Hslast. lia.
    + rewrite lookup_take_ge by lia. done.
Qed.

(** ** Git URLs *)

(** a URL that [assertSafeGitUrl] lets through is not empty, does not start
    with [-] and names neither the [ext], the [fd] nor the [file] transport in
    any letter case, and checking it again returns it unchanged; the same value
    passes as a ref, so it cannot be read as an option there either. *)
Theorem assertSafeGitUrl_safe (url : option string) (u : string) :
  GitSafety.assertSafeGitUrl url = Ok u →
  u ≠ "" ∧ startsWith "-" u = false ∧ GitSafety.dangerous_scheme u = false ∧
  GitSafety.assertSafeGitUrl (Some u) = Ok u ∧
  GitSafety.assertSafeGitRef (Some u) = Ok u.
Proof.
  unfold GitSafety.assertSafeGitUrl, GitSafety.assertSafeGitRef.
  set (v := trim (default "" url)). intros H.
  destruct (bool_decide (v = "")) eqn:E1; [done|].
  destruct (startsWith "-" v) eqn:E2; [done|].
  destruct (GitSafety.dangerous_scheme v) eqn:E3; [done|].
  injection H as <-. cbn [default from_option id].
  replace (trim v) with v by (unfold v; by rewrite trim_idemp).
  rewrite E1, E2, E3. by apply bool_decide_eq_false in E1.
Qed.

Lemma assertSafeGitUrl_safe_witness :
  let u := "https://github.com/example/app.git" in
  GitSafety.assertSafeGitUrl (Some ("  " +:+ u +:+ " ")) = Ok u ∧
  GitSafety.dangerous_scheme u = false.
Proof.
  split; [vm_compute; reflexivity|].
  exact (proj1 (proj2 (proj2 (assertSafeGitUrl_safe
    (Some "  https://github.com/example/app.git ") _ eq_refl)))).
Defined.
