(* ===== verification/Schedule.v ===== *)
(** * Backup schedules: [common/backup-schedule.ts] and
    [connectors/backblaze/schedule-util.ts]

    A [Date] is its time value in milliseconds.  The server's time zone is a
    fixed offset [tz] from UTC (daylight saving changes are not modelled); the
    calendar is the proleptic Gregorian one of ECMAScript. *)

From S2P Require Import Prelude JsText.
Local Open Scope Z_scope.

(** ** [Date] in local time *)

Definition ms_per_day : Z := 86400000.

Definition leap (y : Z) : bool :=
  (y mod 4 =? 0) && (negb (y mod 100 =? 0) || (y mod 400 =? 0)).

Definition day_from_year (y : Z) : Z :=
  365 * (y - 1970) + (y - 1969) / 4 - (y - 1901) / 100 + (y - 1601) / 400.

(** The year is estimated from the mean year length and corrected by one. *)
Definition year_from_day (d : Z) : Z :=
  let y := 1970 + d * 400 / 146097 in
  if d <? day_from_year y then y - 1
  else if day_from_year (y + 1) <=? d then y + 1 else y.

(** Days of the year before month [m] (0 to 12). *)
Definition month_offset (lp : bool) (m : Z) : Z :=
  let l := if lp then 1 else 0 in
  if m <=? 0 then 0 else if m =? 1 then 31 else if m =? 2 then 59 + l
  else if m =? 3 then 90 + l else if m =? 4 then 120 + l
  else if m =? 5 then 151 + l else if m =? 6 then 181 + l
  else if m =? 7 then 212 + l else if m =? 8 then 243 + l
  else if m =? 9 then 273 + l else if m =? 10 then 304 + l
  else if m =? 11 then 334 + l else 365 + l.

Definition month_in_year (lp : bool) (dy : Z) : Z :=
  if dy <? month_offset lp 1 then 0 else if dy <? month_offset lp 2 then 1
  else if dy <? month_offset lp 3 then 2 else if dy <? month_offset lp 4 then 3
  else if dy <? month_offset lp 5 then 4 else if dy <? month_offset lp 6 then 5
  else if dy <? month_offset lp 7 then 6 else if dy <? month_offset lp 8 then 7
  else if dy <? month_offset lp 9 then 8 else if dy <? month_offset lp 10 then 9
  else if dy <? month_offset lp 11 then 10 else 11.

(** First day of month [n], months counted from year 0. *)
Definition month_start (n : Z) : Z :=
  day_from_year (n / 12) + month_offset (leap (n / 12)) (n mod 12).

Section date.
Variable tz : Z.

Definition day (t : Z) : Z := (t + tz) / ms_per_day.
Definition getHours (t : Z) : Z := (t + tz) mod ms_per_day / 3600000.
Definition getMinutes (t : Z) : Z := (t + tz) mod 3600000 / 60000.
Definition getDay (t : Z) : Z := (day t + 4) mod 7.
Definition getFullYear (t : Z) : Z := year_from_day (day t).
Definition getMonth (t : Z) : Z :=
  let y := getFullYear t in month_in_year (leap y) (day t - day_from_year y).
Definition getDate (t : Z) : Z :=
  day t - month_start (12 * getFullYear t + getMonth t) + 1.

(** [new Date(y, m, d)]: the month may overflow, years 0 to 99 mean 19xx. *)
Definition new_Date (y m d : Z) : Z :=
  let y := if (0 <=? y) && (y <=? 99) then 1900 + y else y in
  (month_start (12 * y + m) + d - 1) * ms_per_day - tz.

(** [x.setHours(h, m, 0, 0)] *)
Definition setHours (x h m : Z) : Z :=
  day x * ms_per_day + h * 3600000 + m * 60000 - tz.

(** ** Schedules *)

Inductive BackupFrequency := off | daily | weekly | monthly.

#[export] Instance BackupFrequency_eq_dec : EqDecision BackupFrequency.
Proof. solve_decision. Defined.


Record BackupSchedule := {
  frequency : BackupFrequency;
  dayOfWeek : Z;
  dayOfMonth : Z;
  hour : Z;
  minute : Z
}.

Definition DAY_NAMES : list string :=
  ["Sunday"; "Monday"; "Tuesday"; "Wednesday"; "Thursday"; "Friday"; "Saturday"].

(** True when [now] matches the schedule to the minute. *)
Definition isDue (s : BackupSchedule) (now : Z) : bool :=
  match frequency s with
  | off => false
  | f =>
      if negb (getHours now =? hour s) || negb (getMinutes now =? minute s) then false
      else match f with
           | daily => true
           | weekly => getDay now =? dayOfWeek s
           | monthly => getDate now =? dayOfMonth s
           | off => false
           end
  end.

Definition describeSchedule (s : BackupSchedule) : string :=
  let time := pad2 (hour s) +:+ ":" +:+ pad2 (minute s) in
  match frequency s with
  | off => "off (manual backups only)"
  | daily => "Daily at " +:+ time +:+ " (server time)"
  | weekly =>
      "Weekly on " +:+
      (if dayOfWeek s <? 0 then "undefined"
       else default "undefined" (DAY_NAMES !! Z.to_nat (dayOfWeek s))) +:+
      " at " +:+ time +:+ " (server time)"
  | monthly =>
      "Monthly on day " +:+ num_to_string (dayOfMonth s) +:+ " at " +:+ time +:+
      " (server time)"
  end.

Definition at_time (s : BackupSchedule) (d : Z) : Z := setHours d (hour s) (minute s).

(** [for (let i = 0; i < 8; i += 1) …] *)
Fixpoint weekly_loop (s : BackupSchedule) (from : Z) (fuel : nat) (i : Z) : option Z :=
  match fuel with
  | O => None
  | S fuel' =>
      let d := at_time s (from + i * 86400000) in
      if (getDay d =? dayOfWeek s) && (from <? d) then Some d
      else weekly_loop s from fuel' (i + 1)
  end.

(** The next time this schedule fires after [from], or [None] when it is off. *)
Definition nextRunAt (s : BackupSchedule) (from : Z) : option Z :=
  match frequency s with
  | off => None
  | daily =>
      let today := at_time s from in
      Some (if from <? today then today else at_time s (from + 86400000))
  | weekly => weekly_loop s from 8 0
  | monthly =>
      let thisMonth :=
        at_time s (new_Date (getFullYear from) (getMonth from) (dayOfMonth s)) in
      if from <? thisMonth then Some thisMonth
      else Some (at_time s
             (new_Date (getFullYear from) (getMonth from + 1) (dayOfMonth s)))
  end.

Definition intervalMs (s : BackupSchedule) : Z :=
  match frequency s with
  | daily => 86400000
  | weekly => 7 * 86400000
  | monthly => 31 * 86400000
  | off => 0
  end.

End date.

(** ** Reading a schedule out of a connector's config *)

Definition intOr (v : option json) (fallback : Z) : Z :=
  default fallback (parseInt10 (from_option js_String "" (nullish v))).

Definition freq_of_string (s : string) : BackupFrequency :=
  if bool_decide (s = "daily") then daily
  else if bool_decide (s = "weekly") then weekly
  else if bool_decide (s = "monthly") then monthly
  else off.

Definition parseSchedule (config : json) : BackupSchedule :=
  let freq := from_option js_String "off" (nullish (json_field "backupFrequency" config)) in
  {| frequency := freq_of_string freq;
     dayOfWeek := Z.min 6 (Z.max 0 (intOr (json_field "backupDayOfWeek" config) 0));
     dayOfMonth := Z.min 28 (Z.max 1 (intOr (json_field "backupDayOfMonth" config) 1));
     hour := Z.min 23 (Z.max 0 (intOr (json_field "backupHour" config) 4));
     minute := Z.min 59 (Z.max 0 (intOr (json_field "backupMinute" config) 0)) |}.

(** The ranges the fields are declared with. *)
Definition schedule_ok (s : BackupSchedule) : Prop :=
  0 <= dayOfWeek s <= 6 ∧ 1 <= dayOfMonth s <= 28 ∧
  0 <= hour s <= 23 ∧ 0 <= minute s <= 59.

(** [now] is at second zero of a minute, where the cron ticks are. *)
Definition on_minute (tz t : Z) : Prop := (t + tz) mod 60000 = 0.

(** ** The calendar *)

#[local] Ltac Zify.zify_post_hook ::= Z.to_euclidean_division_equations.

Lemma day_from_year_succ y :
  day_from_year (y + 1) = day_from_year y + (if leap y then 366 else 365).
Proof.
  unfold day_from_year, leap.
  destruct (y mod 4 =? 0) eqn:E4, (y mod 100 =? 0) eqn:E100, (y mod 400 =? 0) eqn:E400;
    simpl; lia.
Qed.

Lemma day_from_year_le y y' : y <= y' → day_from_year y <= day_from_year y'.
Proof.
  intros H. pattern y'. apply Zlt_lower_bound_ind with (z := y); [|done].
  intros x IH Hx. destruct (decide (x = y)) as [->|]; [lia|].
  specialize (IH (x - 1) ltac:(lia)).
  pose proof (day_from_year_succ (x - 1)). replace (x - 1 + 1) with x in * by lia.
  destruct (leap (x - 1)); lia.
Qed.

Lemma day_from_year_estimate d :
  let y := 1970 + d * 400 / 146097 in
  day_from_year (y - 1) <= d < day_from_year (y + 2).
Proof. simpl. unfold day_from_year. lia. Qed.

Lemma year_from_day_spec d :
  day_from_year (year_from_day d) <= d < day_from_year (year_from_day d + 1).
Proof.
  pose proof (day_from_year_estimate d) as H. simpl in H. unfold year_from_day.
  set (y := 1970 + d * 400 / 146097) in *. clearbody y.
  destruct (d <? day_from_year y) eqn:E1; [|destruct (day_from_year (y + 1) <=? d) eqn:E2].
  - replace (y - 1 + 1) with y by lia. lia.
  - replace (y + 1 + 1) with (y + 2) by lia. lia.
  - lia.
Qed.

Lemma month_in_year_spec lp dy :
  0 <= dy < 365 + (if lp : bool then 1 else 0) →
  let m := month_in_year lp dy in
  0 <= m <= 11 ∧ month_offset lp m <= dy < month_offset lp (m + 1).
Proof.
  intros H. unfold month_in_year.
  repeat case_match; destruct lp; vm_compute month_offset in *;
    unfold month_offset in *; simpl in *; lia.
Qed.

Lemma month_start_year y m : 0 <= m <= 11 →
  month_start (12 * y + m) = day_from_year y + month_offset (leap y) m.
Proof.
  intros H. unfold month_start.
  replace ((12 * y + m) / 12) with y by lia.
  by replace ((12 * y + m) mod 12) with m by lia.
Qed.

(** Month lengths are between 28 and 31 days. *)
Lemma month_start_succ n :
  28 <= month_start (n + 1) - month_start n <= 31.
Proof.
  set (y := n / 12). set (m := n mod 12).
  assert (Hm : 0 <= m <= 11) by (unfold m; lia).
  replace n with (12 * y + m) by (unfold y, m; lia).
  rewrite (month_start_year y m) by done.
  assert (Hnext : month_start (12 * y + m + 1) =
                  day_from_year y + month_offset (leap y) (m + 1)).
  { destruct (decide (m = 11)) as [->|].
    - replace (12 * y + 11 + 1) with (12 * (y + 1) + 0) by lia.
      rewrite month_start_year, day_from_year_succ by lia.
      destruct (leap y); unfold month_offset; simpl; lia.
    - replace (12 * y + m + 1) with (12 * y + (m + 1)) by lia.
      by rewrite month_start_year by lia. }
  rewrite Hnext. clear Hnext. clearbody m.
  assert (m = 0 ∨ m = 1 ∨ m = 2 ∨ m = 3 ∨ m = 4 ∨ m = 5 ∨ m = 6 ∨ m = 7 ∨
          m = 8 ∨ m = 9 ∨ m = 10 ∨ m = 11) as Hcases by lia.
  destruct_or! Hcases; subst m; destruct (leap y); unfold month_offset; simpl; lia.
Qed.

Lemma month_start_le n n' : n <= n' → month_start n + 28 * (n' - n) <= month_start n'.
Proof.
  intros H. pattern n'. apply Zlt_lower_bound_ind with (z := n); [|done].
  intros x IH Hx. destruct (decide (x = n)) as [->|]; [lia|].
  specialize (IH (x - 1) ltac:(lia)).
  pose proof (month_start_succ (x - 1)). replace (x - 1 + 1) with x in * by lia. lia.
Qed.

(** The month a day falls in, counted from year 0. *)
Definition month_index (tz t : Z) : Z := 12 * getFullYear tz t + getMonth tz t.

Lemma month_index_spec tz t :
  month_start (month_index tz t) <= day tz t < month_start (month_index tz t + 1).
Proof.
  unfold month_index, getMonth.
  pose proof (year_from_day_spec (day tz t)) as Hy.
  change (year_from_day (day tz t)) with (getFullYear tz t) in Hy.
  set (y := getFullYear tz t) in *. set (dy := day tz t - day_from_year y).
  rewrite day_from_year_succ in Hy.
  assert (Hdy : 0 <= dy < 365 + (if leap y then 1 else 0))
    by (unfold dy; destruct (leap y); lia).
  destruct (month_in_year_spec _ _ Hdy) as [Hm Hb].
  set (m := month_in_year (leap y) dy) in *.
  rewrite month_start_year by lia. unfold dy in Hb. split; [lia|].
  destruct (decide (m = 11)) as [Hm11|].
  - rewrite Hm11. replace (12 * y + 11 + 1) with (12 * (y + 1) + 0) by lia.
    rewrite month_start_year, day_from_year_succ by lia. unfold month_offset. simpl.
    destruct (leap y); lia.
  - replace (12 * y + m + 1) with (12 * y + (m + 1)) by lia.
    rewrite month_start_year by lia. lia.
Qed.

(** A day of month [n] has month index [n]. *)
Lemma month_index_unique tz t n :
  month_start n <= day tz t < month_start (n + 1) → month_index tz t = n.
Proof.
  intros H. pose proof (month_index_spec tz t) as H'.
  destruct (Z.lt_trichotomy (month_index tz t) n) as [Hlt|[?|Hlt]]; [|done|].
  - pose proof (month_start_le (month_index tz t + 1) n ltac:(lia)). lia.
  - pose proof (month_start_le (n + 1) (month_index tz t) ltac:(lia)). lia.
Qed.

(** ** Times of day *)

Lemma local_time tz t :
  t = day tz t * ms_per_day + getHours tz t * 3600000 + getMinutes tz t * 60000 +
      (t + tz) mod 60000 - tz.
Proof. unfold day, getHours, getMinutes, ms_per_day. lia. Qed.

Section time_of_day.
Variables (tz x h m : Z).
Hypotheses (Hh : 0 <= h <= 23) (Hm : 0 <= m <= 59).

Lemma setHours_day : day tz (setHours tz x h m) = day tz x.
Proof using Hh Hm. unfold setHours, day, ms_per_day in *. lia. Qed.
Lemma setHours_hours : getHours tz (setHours tz x h m) = h.
Proof using Hh Hm. unfold setHours, day, getHours, ms_per_day in *. lia. Qed.
Lemma setHours_minutes : getMinutes tz (setHours tz x h m) = m.
Proof using Hh Hm. unfold setHours, day, getMinutes, ms_per_day in *. lia. Qed.
Lemma setHours_on_minute : on_minute tz (setHours tz x h m).
Proof. unfold on_minute, setHours, ms_per_day. lia. Qed.
End time_of_day.

(** Two times on a whole minute at the same hour and minute differ as their
    days do. *)
Lemma same_time_of_day tz t t' :
  on_minute tz t → on_minute tz t' →
  getHours tz t = getHours tz t' → getMinutes tz t = getMinutes tz t' →
  t' - t = (day tz t' - day tz t) * ms_per_day.
Proof.
  unfold on_minute. intros H1 H2 Hh Hm.
  pose proof (local_time tz t) as E1. pose proof (local_time tz t') as E2.
  rewrite H1 in E1. rewrite H2 in E2. rewrite Hh, Hm in E1. unfold ms_per_day in *.
  lia.
Qed.

(** ** When a schedule fires *)

(** The days a schedule is due on. *)
Definition due_day (tz : Z) (s : BackupSchedule) (t : Z) : Prop :=
  match frequency s with
  | off => False
  | daily => True
  | weekly => (day tz t + 4) mod 7 = dayOfWeek s
  | monthly => day tz t = month_start (month_index tz t) + dayOfMonth s - 1
  end.

Lemma isDue_iff tz s t :
  isDue tz s t = true ↔
  due_day tz s t ∧ getHours tz t = hour s ∧ getMinutes tz t = minute s.
Proof.
  unfold isDue, due_day, getDay, getDate, month_index.
  destruct (frequency s);
    destruct (getHours tz t =? hour s) eqn:E1, (getMinutes tz t =? minute s) eqn:E2;
    simpl; lia.
Qed.

(** What makes a time the next one: it is due, later than [from] by at most the
    schedule's interval, and no minute in between is due. *)
Record next_run (tz : Z) (s : BackupSchedule) (from t : Z) : Prop := {
  nr_after : from < t <= from + intervalMs s;
  nr_due : isDue tz s t = true;
  nr_minute : on_minute tz t;
  nr_first : ∀ t', from < t' < t → on_minute tz t' → isDue tz s t' = false
}.

Section next_run.
Variables (tz : Z) (s : BackupSchedule) (from : Z).
Hypothesis Hok : schedule_ok s.

(** A candidate on day [D] is the next run if it is after [from], not too far,
    on a due day, and no due day from [from]'s on comes before it. *)
Lemma next_run_intro D t :
  t = D * ms_per_day + hour s * 3600000 + minute s * 60000 - tz →
  from < t <= from + intervalMs s →
  due_day tz s t →
  (∀ t', day tz from <= day tz t' < D → from < t' → due_day tz s t' →
         day tz t' * ms_per_day + hour s * 3600000 + minute s * 60000 - tz <= from) →
  next_run tz s from t.
Proof using Hok.
  intros Ht Hrange Hdue Hfirst. destruct Hok as (_ & _ & Hh & Hm).
  assert (Hset : t = setHours tz (D * ms_per_day - tz) (hour s) (minute s)).
  { rewrite Ht. unfold setHours, day, ms_per_day. lia. }
  assert (HD : day tz t = D).
  { rewrite Hset, setHours_day by lia. unfold day, ms_per_day. lia. }
  assert (Hth : getHours tz t = hour s) by (rewrite Hset; by apply setHours_hours).
  assert (Htm : getMinutes tz t = minute s) by (rewrite Hset; by apply setHours_minutes).
  assert (Hmin : on_minute tz t) by (rewrite Hset; apply setHours_on_minute).
  split; [done | by apply isDue_iff | done |].
  intros t' Ht' Hmin'. apply not_true_iff_false. intros Hd'.
  apply isDue_iff in Hd' as (Hd' & Hh' & Hm').
  pose proof (same_time_of_day tz t' t Hmin' Hmin ltac:(lia) ltac:(lia)) as Hdiff.
  rewrite HD in Hdiff.
  assert (day tz from <= day tz t') by (unfold day, ms_per_day; lia).
  assert (day tz t' < D) by (unfold ms_per_day in *; lia).
  specialize (Hfirst t' ltac:(lia) ltac:(lia) Hd'). unfold ms_per_day in *. lia.
Qed.

Lemma at_time_day x :
  at_time tz s x = day tz x * ms_per_day + hour s * 3600000 + minute s * 60000 - tz.
Proof. done. Qed.

Lemma day_bounds x :
  day tz x * ms_per_day - tz <= x < (day tz x + 1) * ms_per_day - tz.
Proof. unfold day, ms_per_day. lia. Qed.

Lemma day_at_time x : day tz (at_time tz s x) = day tz x.
Proof using Hok. destruct Hok as (_ & _ & ? & ?). by apply setHours_day. Qed.

Lemma day_add_days x i : day tz (x + i * 86400000) = day tz x + i.
Proof. unfold day, ms_per_day. lia. Qed.

Lemma next_run_daily : frequency s = daily →
  ∃ t, nextRunAt tz s from = Some t ∧ next_run tz s from t.
Proof using Hok.
  intros Hf. unfold nextRunAt. rewrite Hf. eexists. split; [done|].
  assert (Hdue : ∀ t, due_day tz s t) by (intros; unfold due_day; by rewrite Hf).
  assert (Hi : intervalMs s = 86400000) by (unfold intervalMs; by rewrite Hf).
  replace (from + 86400000) with (from + 1 * 86400000) by lia.
  pose proof Hok as (_ & _ & ? & ?).
  destruct (from <? at_time tz s from) eqn:Hlt; rewrite at_time_day in Hlt.
  - apply next_run_intro with (D := day tz from);
      [by rewrite at_time_day | | done | lia].
    rewrite at_time_day, Hi. unfold day, ms_per_day in *. lia.
  - apply next_run_intro with (D := day tz from + 1).
    + by rewrite at_time_day, day_add_days.
    + rewrite at_time_day, day_add_days, Hi. unfold day, ms_per_day in *. lia.
    + done.
    + intros t' ?? _. replace (day tz t') with (day tz from) by lia. lia.
Qed.

(** The weekly loop stops at the first of the coming days that fits. *)
Lemma weekly_loop_spec (fits := λ i,
    (day tz from + i + 4) mod 7 = dayOfWeek s ∧
    from < (day tz from + i) * ms_per_day + hour s * 3600000 + minute s * 60000 - tz)
    fuel i :
  (∀ j, 0 <= j < i → ¬ fits j) →
  (∃ j, i <= j < i + Z.of_nat fuel ∧ fits j) →
  ∃ j, weekly_loop tz s from fuel i = Some (at_time tz s (from + j * 86400000)) ∧
       i <= j < i + Z.of_nat fuel ∧ fits j ∧ ∀ j', 0 <= j' < j → ¬ fits j'.
Proof using Hok.
  revert i. induction fuel as [|fuel IH]; intros i Hno (j & Hj & Hfit); [lia|].
  cbn [weekly_loop].
  assert (Hdec : (getDay tz (at_time tz s (from + i * 86400000)) =? dayOfWeek s) &&
            (from <? at_time tz s (from + i * 86400000)) = true ↔ fits i).
  { unfold getDay, fits. rewrite day_at_time, at_time_day, day_add_days. lia. }
  destruct (_ && _).
  - exists i. split; [done|]. split; [lia|]. split; [by apply Hdec | done].
  - assert (Hi : ¬ fits i) by (intros H; by apply Hdec in H).
    destruct (IH (i + 1)) as (k & Hk & ? & ? & ?).
    + intros j' Hj'. destruct (decide (j' = i)) as [->|]; [done|]. apply Hno. lia.
    + exists j. split; [|done]. destruct (decide (i = j)) as [->|]; [done|lia].
    + exists k. split_and!; try done; lia.
Qed.

Lemma next_run_weekly : frequency s = weekly →
  ∃ t, nextRunAt tz s from = Some t ∧ next_run tz s from t.
Proof using Hok.
  intros Hf. unfold nextRunAt. rewrite Hf. pose proof Hok as (? & _ & ? & ?).
  destruct (weekly_loop_spec 8 0) as (j & Hj & Hrange & [Hdow Hafter] & Hmin).
  { lia. }
  { set (k := (dayOfWeek s - (day tz from + 4)) mod 7).
    assert (Hk : (day tz from + k + 4) mod 7 = dayOfWeek s) by (unfold k; lia).
    destruct (decide (from < (day tz from + k) * ms_per_day + hour s * 3600000 +
                minute s * 60000 - tz)) as [?|Hn].
    - exists k. split; [unfold k; lia|]. split; [done|]. done.
    - pose proof (day_bounds from) as Hb. assert (0 <= k < 7) by (unfold k; lia).
      unfold ms_per_day in *. clearbody k. exists (k + 7). split; [lia|]. split; lia. }
  exists (at_time tz s (from + j * 86400000)). split; [done|].
  assert (Hi : intervalMs s = 604800000) by (unfold intervalMs; by rewrite Hf).
  assert (Hdue : due_day tz s (at_time tz s (from + j * 86400000))).
  { unfold due_day. rewrite Hf, day_at_time, day_add_days. done. }
  apply next_run_intro with (D := day tz from + j); [| |done|].
  - by rewrite at_time_day, day_add_days.
  - rewrite at_time_day, day_add_days, Hi. split; [done|].
    destruct (decide (j = 7)) as [->|]; [|unfold day, ms_per_day in *; lia].
    assert (Hno : ¬ ((day tz from + 0 + 4) mod 7 = dayOfWeek s ∧
      from < (day tz from + 0) * ms_per_day + hour s * 3600000 + minute s * 60000 - tz))
      by (apply Hmin; lia).
    assert ((day tz from + 0 + 4) mod 7 = dayOfWeek s) by lia.
    unfold ms_per_day in *. lia.
  - intros t' Hrange' Hfrom' Hdue'. unfold due_day in Hdue'. rewrite Hf in Hdue'.
    pose proof (Hmin (day tz t' - day tz from) ltac:(lia)) as Hn.
    replace (day tz from + (day tz t' - day tz from)) with (day tz t') in Hn by lia.
    apply not_and_l in Hn as [?|?]; [done|lia].
Qed.

Lemma day_new_Date y m d : 100 <= y → day tz (new_Date tz y m d) = month_start (12 * y + m) + d - 1.
Proof.
  intros Hy. unfold new_Date. replace ((0 <=? y) && (y <=? 99)) with false by lia.
  unfold day, ms_per_day. lia.
Qed.

(** The slot of month [n]: due, and nothing else in that month is. *)
Lemma next_run_monthly : frequency s = monthly → 100 <= getFullYear tz from →
  ∃ t, nextRunAt tz s from = Some t ∧ next_run tz s from t.
Proof using Hok.
  intros Hf Hyear. unfold nextRunAt. rewrite Hf. pose proof Hok as (_ & Hdom & Hh & Hm).
  rewrite !at_time_day, !day_new_Date, Z.add_assoc by done.
  fold (month_index tz from). set (n := month_index tz from).
  assert (Hi : intervalMs s = 2678400000) by (unfold intervalMs; by rewrite Hf).
  pose proof (month_index_spec tz from) as Hn. fold n in Hn.
  pose proof (month_start_succ n) as Hlen. pose proof (month_start_succ (n + 1)) as Hlen'.
  assert (Hdue : ∀ k, due_day tz s ((month_start k + dayOfMonth s - 1) * ms_per_day +
                      hour s * 3600000 + minute s * 60000 - tz)).
  { intros k. pose proof (month_start_succ k). unfold due_day. rewrite Hf.
    set (t := _ - tz).
    assert (Hday : day tz t = month_start k + dayOfMonth s - 1)
      by (unfold t, day, ms_per_day; lia).
    rewrite (month_index_unique tz t k), Hday by lia. done. }
  assert (Hidx : ∀ t', day tz from <= day tz t' → due_day tz s t' → n <= month_index tz t').
  { intros t' Hle _. pose proof (month_index_spec tz t') as Hn'.
    destruct (decide (n <= month_index tz t')) as [?|?]; [done|].
    pose proof (month_start_le (month_index tz t' + 1) n ltac:(lia)). lia. }
  destruct (from <? _) eqn:Hlt; (eexists; split; [done|]);
    [apply next_run_intro with (D := month_start n + dayOfMonth s - 1) |
     apply next_run_intro with (D := month_start (n + 1) + dayOfMonth s - 1)]; try done.
  - rewrite Hi. unfold day, ms_per_day in *. lia.
  - intros t' Ht' _ Hd'. specialize (Hidx t' ltac:(lia) Hd'). unfold due_day in Hd'.
    rewrite Hf in Hd'. pose proof (month_start_le n (month_index tz t') ltac:(lia)). lia.
  - rewrite Hi. unfold day, ms_per_day in *. lia.
  - intros t' Ht' Hfrom' Hd'. specialize (Hidx t' ltac:(lia) Hd'). unfold due_day in Hd'.
    rewrite Hf in Hd'.
    assert (month_index tz t' = n) as Heq.
    { destruct (decide (n + 1 <= month_index tz t')) as [?|?]; [|lia].
      pose proof (month_start_le (n + 1) (month_index tz t') ltac:(lia)). lia. }
    rewrite Hd', Heq. lia.
Qed.
End next_run.

Lemma year_after_epoch tz from :
  - ms_per_day <= tz → 0 <= from → 1969 <= getFullYear tz from.
Proof.
  intros Htz Hfrom. unfold getFullYear. set (d := day tz from).
  assert (Hd : -1 <= d) by (unfold d, day, ms_per_day in *; lia).
  pose proof (year_from_day_spec d) as Hy.
  destruct (decide (1969 <= year_from_day d)) as [?|?]; [done|].
  pose proof (day_from_year_le (year_from_day d + 1) 1969 ltac:(lia)) as Hle.
  change (day_from_year 1969) with (-365) in Hle. lia.
Qed.



(** whatever a connector's config holds (missing fields, text, numbers out
    of range, an unknown frequency), the schedule read from it is in range. *)
Theorem parseSchedule_in_range (config : json) : schedule_ok (parseSchedule config).
Proof. unfold schedule_ok, parseSchedule. simpl. lia. Qed.
