(* ===== verification/RateLimiter.v ===== *)
(** * The fixed-window rate limiter: [common/rate-limiter.ts]

    The limiter keeps one window per key and drops expired windows once it
    holds a thousand.  It is proved to behave as an abstract limiter that never
    drops anything, and the windows to bound the calls let through. *)

From S2P Require Import Prelude.
Local Open Scope Z_scope.

(** One entry of [windows: Map<string, { start, count }>]. *)
Record window := Window { start : Z; count : Z }.

Section limiter.
Variables (limit windowMs : Z).

(** [now - w.start >= this.windowMs] *)
Definition expired (now : Z) (w : window) : bool := windowMs <=? now - start w.

(** Drop expired windows so the map can't grow without bound. *)
Definition prune (now : Z) (ws : gmap string window) : gmap string window :=
  if (size ws <? 1000)%nat then ws
  else filter (λ kw, expired now kw.2 = false) ws.

(** [Math.ceil(n / 1000)] *)
Definition ceil_sec (n : Z) : Z := - (- n / 1000).

(** Count one hit for [key]: [None] when allowed, else seconds until reset. *)
Definition hit (key : string) (now : Z) (ws : gmap string window)
    : option Z * gmap string window :=
  match ws !! key with
  | Some w =>
      if expired now w then (None, prune now (<[key := Window now 1]> ws))
      else if limit <=? count w then
        (Some (Z.max 1 (ceil_sec (start w + windowMs - now))), ws)
      else (None, <[key := Window (start w) (count w + 1)]> ws)
  | None => (None, prune now (<[key := Window now 1]> ws))
  end.

(** ** The abstract limiter: the same, with nothing ever dropped *)

Definition spec_hit (key : string) (now : Z) (ws : gmap string window)
    : option Z * gmap string window :=
  match ws !! key with
  | Some w =>
      if expired now w then (None, <[key := Window now 1]> ws)
      else if limit <=? count w then
        (Some (Z.max 1 (ceil_sec (start w + windowMs - now))), ws)
      else (None, <[key := Window (start w) (count w + 1)]> ws)
  | None => (None, <[key := Window now 1]> ws)
  end.

(** A run of hits, oldest first: the answers and the final map. *)
Fixpoint run (step : string → Z → gmap string window → option Z * gmap string window)
    (hits : list (string * Z)) (ws : gmap string window) : list (option Z) * gmap string window :=
  match hits with
  | [] => ([], ws)
  | (key, now) :: hits' =>
      let (a, ws1) := step key now ws in
      let (l, ws2) := run step hits' ws1 in
      (a :: l, ws2)
  end.

(** Times never go back. *)
Fixpoint times_from (t : Z) (hits : list (string * Z)) : Prop :=
  match hits with
  | [] => True
  | (_, now) :: hits' => t <= now ∧ times_from now hits'
  end.

(** ** Refinement *)

(** What a window still says at time [now]. *)
Definition live (now : Z) (o : option window) : option window :=
  w ← o; if expired now w then None else Some w.

(** The two maps say the same from time [now] on. *)
Definition agree (now : Z) (ws ws' : gmap string window) : Prop :=
  ∀ k, live now (ws !! k) = live now (ws' !! k).

Lemma live_mono now now' o o' :
  now <= now' → live now o = live now o' → live now' o = live now' o'.
Proof.
  unfold live, expired. intros Hle H. destruct o as [w|], o' as [w'|]; simpl in *;
    repeat case_match; simplify_eq; try done; lia.
Qed.

Lemma agree_refl now ws : agree now ws ws.
Proof. by intros k. Qed.

Lemma agree_mono now now' ws ws' : now <= now' → agree now ws ws' → agree now' ws ws'.
Proof. intros Hle H k. by apply live_mono with now. Qed.

Lemma agree_prune now ws : agree now (prune now ws) ws.
Proof.
  intros k. unfold prune. case_match; [done|].
  destruct (ws !! k) as [w|] eqn:Hk.
  - destruct (expired now w) eqn:He.
    + replace (filter _ ws !! k) with (@None window); [simpl; by rewrite He|].
      symmetry. apply map_lookup_filter_None. right. intros w' Hw'. simplify_eq/=. by rewrite He.
    + f_equal. by apply map_lookup_filter_Some.
  - f_equal. apply map_lookup_filter_None. by left.
Qed.

Lemma agree_trans now ws1 ws2 ws3 : agree now ws1 ws2 → agree now ws2 ws3 → agree now ws1 ws3.
Proof. intros H1 H2 k. by rewrite H1, H2. Qed.

Lemma agree_insert now k w ws ws' : agree now ws ws' → agree now (<[k:=w]> ws) (<[k:=w]> ws').
Proof.
  intros H k'. destruct (decide (k = k')) as [->|].
  - by rewrite !lookup_insert_eq.
  - by rewrite !lookup_insert_ne.
Qed.

(** One hit answers the same on maps that agree, and keeps them in agreement. *)
Lemma hit_refines key now ws ws' :
  agree now ws ws' →
  (hit key now ws).1 = (spec_hit key now ws').1 ∧
  agree now (hit key now ws).2 (spec_hit key now ws').2.
Proof.
  intros H. pose proof (H key) as Hk. unfold hit, spec_hit.
  assert (Hnew : agree now (prune now (<[key:=Window now 1]> ws)) (<[key:=Window now 1]> ws')).
  { eapply agree_trans; [apply agree_prune|]. by apply agree_insert. }
  destruct (ws !! key) as [w|], (ws' !! key) as [w'|]; simpl in Hk.
  - destruct (expired now w) eqn:E, (expired now w') eqn:E'; simplify_eq; [done|].
    destruct (limit <=? count w'); [done|]. split; [done|]. by apply agree_insert.
  - by destruct (expired now w).
  - by destruct (expired now w').
  - done.
Qed.

Lemma run_refines hits t ws ws' :
  times_from t hits → agree t ws ws' → (run hit hits ws).1 = (run spec_hit hits ws').1.
Proof.
  revert t ws ws'. induction hits as [|[key now] hits IH]; intros t ws ws'; simpl; [done|].
  intros [Hle Htimes] H.
  destruct (hit_refines key now ws ws') as [Ha Hs]; [by apply agree_mono with t|].
  destruct (hit key now ws) as [a ws1], (spec_hit key now ws') as [a' ws1']; simpl in *.
  specialize (IH now ws1 ws1' Htimes Hs).
  destruct (run hit hits ws1), (run spec_hit hits ws1'); simpl in *. by subst.
Qed.

(** ** Bounds *)

(** Hits within one window of a key that has no live window: the first
    [max 1 limit] pass, the others are refused. *)
Lemma spec_run_window key w times ws :
  ws !! key = Some w → 1 <= count w →
  (∀ t, t ∈ times → expired t w = false) →
  ∀ i a, (run spec_hit ((λ t, (key, t)) <$> times) ws).1 !! i = Some a →
  (a = None ↔ Z.of_nat i < limit - count w).
Proof.
  revert ws w. induction times as [|t times IH]; intros ws w Hw Hc Ht i a Hi; [done|].
  simpl in Hi. unfold spec_hit in Hi at 1. rewrite Hw in Hi.
  assert (E : expired t w = false) by (apply Ht, list_elem_of_here). rewrite E in Hi.
  assert (Ht' : ∀ t', t' ∈ times → expired t' w = false)
    by (intros; apply Ht; by right).
  destruct (limit <=? count w) eqn:El.
  - destruct (run spec_hit _ ws) as [l ws2] eqn:Hr. destruct i as [|i]; simpl in Hi.
    + simplify_eq. split; [done | lia].
    + assert (Hl : (run spec_hit ((λ t, (key, t)) <$> times) ws).1 !! i = Some a)
        by (unfold fmap; by rewrite Hr).
      pose proof (IH ws w Hw Hc Ht' i a Hl). rewrite H. lia.
  - set (w1 := Window (start w) (count w + 1)) in *.
    destruct (run spec_hit _ (<[key:=w1]> ws)) as [l ws2] eqn:Hr.
    destruct i as [|i]; simpl in Hi.
    + simplify_eq. split; [lia | done].
    + assert (Hl : (run spec_hit ((λ t, (key, t)) <$> times) (<[key:=w1]> ws)).1 !! i = Some a)
        by (unfold fmap; by rewrite Hr).
      assert (Hw1 : <[key:=w1]> ws !! key = Some w1) by apply lookup_insert_eq.
      pose proof (IH _ w1 Hw1 ltac:(simpl; lia) Ht' i a Hl) as ->. simpl. lia.
Qed.

End limiter.

(** dropping expired windows cannot be observed. For every sequence of hits
    whose times do not go back, the limiter answers exactly what a limiter that
    never drops a window answers, so pruning neither forgets a live count nor
    keeps refusing after a window is over. *)
Theorem prune_is_unobservable (limit windowMs t : Z) (hits : list (string * Z)) :
  times_from t hits →
  (run (hit limit windowMs) hits ∅).1 = (run (spec_hit limit windowMs) hits ∅).1.
Proof. intros H. by apply run_refines with t, agree_refl. Qed.

Lemma prune_is_unobservable_witness :
  let hits := [("a", 0); ("b", 10); ("a", 20); ("a", 30); ("a", 1000)] in
  (run (hit 2 1000) hits ∅).1 = [None; None; None; Some 1; None] ∧
  (run (hit 2 1000) hits ∅).1 = (run (spec_hit 2 1000) hits ∅).1.
Proof.
  split; [vm_compute; reflexivity|].
  apply (prune_is_unobservable 2 1000 0). repeat split; vm_compute; discriminate.
Defined.

(** when a key has no live window, of the hits that follow within one window
    exactly the first [max 1 limit] pass and every later one is refused,
    whatever other keys the map holds. *)
Theorem window_admits_limit (limit windowMs t0 : Z) (key : string) (times : list Z)
    (ws : gmap string window) (i : nat) (a : option Z) :
  0 < windowMs → live windowMs t0 (ws !! key) = None →
  times_from t0 ((λ t, (key, t)) <$> times) →
  (∀ t, t ∈ times → t - t0 < windowMs) →
  (run (hit limit windowMs) ((λ t, (key, t)) <$> t0 :: times) ws).1 !! i = Some a →
  (a = None ↔ Z.of_nat i < Z.max 1 limit).
Proof.
  intros Hwin Hlive Htimes Hin Hi.
  rewrite (run_refines _ _ _ t0 ws ws) in Hi by (by split || apply agree_refl).
  rewrite fmap_cons in Hi. cbn [run] in Hi.
  assert (Hstep : spec_hit limit windowMs key t0 ws = (None, <[key:=Window t0 1]> ws)).
  { unfold spec_hit. destruct (ws !! key) as [w|]; [|done]. simpl in Hlive.
    by destruct (expired windowMs t0 w). }
  rewrite Hstep in Hi.
  destruct (run (spec_hit limit windowMs) _ _) as [l ws2] eqn:Hr.
  destruct i as [|i]; simpl in Hi.
  { simplify_eq. split; [lia | done]. }
  rewrite (spec_run_window limit windowMs key (Window t0 1) times
             (<[key:=Window t0 1]> ws) (lookup_insert_eq _ _ _) ltac:(simpl; lia)) with (i := i).
  - simpl. lia.
  - intros t Ht. unfold expired. simpl. specialize (Hin t Ht). lia.
  - by rewrite Hr.
Qed.

Lemma window_admits_limit_witness :
  let ws : gmap string window := {["b" := Window 0 9]} in
  (run (hit 2 1000) ((λ t, ("a", t)) <$> [5; 6; 7]) ws).1 !! 2%nat = Some (Some 1) ∧
  (Some 1 = None ↔ 2 < Z.max 1 2).
Proof.
  split; [vm_compute; reflexivity|].
  apply (window_admits_limit 2 1000 5 "a" [6; 7] {["b" := Window 0 9]} 2).
  - done.
  - vm_compute; reflexivity.
  - repeat split; vm_compute; discriminate.
  - intros t Ht. repeat (apply elem_of_cons in Ht as [->|Ht]; [done|]).
    by apply elem_of_nil in Ht.
  - vm_compute; reflexivity.
Defined.

(** a refused caller is told a wait of at least one second, and that wait is
    long enough: any hit on the key after it passes. *)
Theorem retry_after_suffices (limit windowMs now later s : Z) (key : string)
    (ws ws' : gmap string window) :
  hit limit windowMs key now ws = (Some s, ws') →
  now + s * 1000 <= later →
  1 <= s ∧ (hit limit windowMs key later ws').1 = None.
Proof.
  unfold hit. intros H Hlater. destruct (ws !! key) as [w|] eqn:Hw; [|done].
  destruct (expired windowMs now w) eqn:E; [done|].
  destruct (limit <=? count w) eqn:El; simplify_eq.
  split; [lia|]. rewrite Hw. replace (expired windowMs later w) with true; [done|].
  symmetry. unfold expired, ceil_sec in *.
  pose proof (Z.div_mod (- (start w + windowMs - now)) 1000 ltac:(lia)).
  pose proof (Z.mod_pos_bound (- (start w + windowMs - now)) 1000 ltac:(lia)). lia.
Qed.

Lemma retry_after_suffices_witness :
  let ws : gmap string window := {["a" := Window 0 2]} in
  hit 2 60000 "a" 1500 ws = (Some 59, ws) ∧
  1 <= 59 ∧ (hit 2 60000 "a" 60500 ws).1 = None.
Proof.
  split; [vm_compute; reflexivity|].
  apply (retry_after_suffices 2 60000 1500 60500 59 "a" {["a" := Window 0 2]} {["a" := Window 0 2]}).
  - vm_compute; reflexivity.
  - vm_compute; discriminate.
Defined.
