(* ===== verification/Rbac.v ===== *)
(** * Permissions: [packages/shared/src/rbac.ts] and [auth/permissions.guard.ts]

    A permission is its string, as in a role's [permissions] column; the union
    type of the source is the list [all_permissions]. *)

From S2P Require Import Prelude JsText.

Abbreviation Permission := string.

Definition all_permissions : list Permission :=
  ["settings:read"; "settings:write"; "users:read"; "users:write"; "logs:read";
   "audit:read"; "secrets:read"; "secrets:write"; "automations:read";
   "automations:write"; "replicator:read"; "replicator:write"; "backup:read";
   "backup:write"; "backup:restore"; "connectors:read"; "connectors:write";
   "connectors:action"; "monitors:read"; "monitors:write"; "notifications:send";
   "fabric:read"; "fabric:connect"; "fabric:manage"; "fabric:approve";
   "assistant:use"; "agents:manage"; "agents:read"].

Record builtin_role := {
  br_name : string;
  br_slug : string;
  br_description : string;
  br_permissions : list Permission
}.

Definition viewer : builtin_role := {|
  br_name := "Viewer"; br_slug := "viewer";
  br_description := "Read-only access to everything.";
  br_permissions :=
    ["settings:read"; "users:read"; "logs:read"; "audit:read"; "connectors:read";
     "monitors:read"; "replicator:read"; "backup:read"; "fabric:read"; "assistant:use"]
|}.

Definition admin : builtin_role := {|
  br_name := "Administrator"; br_slug := "admin";
  br_description := "Full control of Cerebro and all connectors.";
  br_permissions :=
    ["settings:read"; "settings:write"; "users:read"; "users:write"; "logs:read";
     "audit:read"; "connectors:read"; "connectors:write"; "connectors:action";
     "monitors:read"; "monitors:write"; "notifications:send"; "secrets:read";
     "secrets:write"; "automations:read"; "automations:write"; "replicator:read";
     "replicator:write"; "backup:read"; "backup:write"; "backup:restore";
     "fabric:read"; "fabric:connect"; "fabric:manage"; "fabric:approve";
     "assistant:use"; "agents:manage"; "agents:read"]
|}.

(** [!!granted && granted.includes(required)] *)
Definition hasPermission (granted : option (list Permission)) (required : Permission) : bool :=
  match granted with
  | Some g => includes required g
  | None => false
  end.

Definition GRANTABLE_TOKEN_SCOPES : list Permission :=
  ["connectors:read"; "monitors:read"; "logs:read"; "audit:read"; "users:read";
   "settings:read"; "automations:read"; "replicator:read"; "backup:read";
   "connectors:action"; "monitors:write"; "notifications:send"; "fabric:read";
   "fabric:connect"; "agents:read"].

Definition MACHINE_CLIENT_SCOPES : list Permission := ["agents:read"].

Definition isWriteScope (scope : Permission) : bool := negb (endsWith ":read" scope).

(** The principal a request carries ([SessionUser] of the shared types). *)
Record SessionUser := {
  su_id : string;
  su_email : string;
  su_displayName : string;
  su_roleSlug : string;
  su_roleName : string;
  su_permissions : list Permission;
  su_authProvider : string
}.

Definition with_permissions (ps : list Permission) (u : SessionUser) : SessionUser :=
  {| su_id := su_id u; su_email := su_email u; su_displayName := su_displayName u;
     su_roleSlug := su_roleSlug u; su_roleName := su_roleName u;
     su_permissions := ps; su_authProvider := su_authProvider u |}.

(** ** [PermissionsGuard.canActivate]: [required] is the route's metadata. *)
Definition permissions_canActivate (required : option (list Permission))
    (user : option SessionUser) : result http_error bool :=
  match required with
  | None | Some [] => Ok true
  | Some req =>
      let perms := su_permissions <$> user in
      let missing := filter (λ p, hasPermission perms p = false) req in
      match missing with
      | [] => Ok true
      | _ => Err (Forbidden ("Missing permission(s): " +:+ join ", " missing))
      end
  end.

(** ** Lemmas *)

Lemma hasPermission_true granted p :
  hasPermission granted p = true ↔ ∃ g, granted = Some g ∧ p ∈ g.
Proof.
  destruct granted as [g|]; simpl.
  - rewrite includes_true. naive_solver.
  - naive_solver.
Qed.

(** [permissions.filter((p) => scopes.includes(p))], the intersection every
    bearer credential goes through. *)
Definition clamp (permissions scopes : list Permission) : list Permission :=
  filter (λ p, includes p scopes = true) permissions.

Lemma elem_of_clamp p ps scopes : p ∈ clamp ps scopes ↔ p ∈ ps ∧ p ∈ scopes.
Proof. unfold clamp. rewrite list_elem_of_filter, includes_true. tauto. Qed.

Lemma canActivate_ok required user :
  permissions_canActivate required user = Ok true ↔
  ∀ req p, required = Some req → p ∈ req → hasPermission (su_permissions <$> user) p = true.
Proof.
  unfold permissions_canActivate. destruct required as [[|p0 req]|].
  - split; [|done]. intros _ req p [= <-] Hp. by apply elem_of_nil in Hp.
  - set (has := hasPermission (su_permissions <$> user)).
    destruct (filter (λ p, has p = false) (p0 :: req)) as [|q l] eqn:Hf.
    + split; [|done]. intros _ r p [= <-] Hp. apply not_false_iff_true. intros Hn.
      assert (p ∈ filter (λ p, has p = false) (p0 :: req)) as Hin
        by by apply list_elem_of_filter.
      rewrite Hf in Hin. by apply elem_of_nil in Hin.
    + split; [done|]. intros H.
      assert (q ∈ filter (λ p, has p = false) (p0 :: req)) as Hin
        by (rewrite Hf; apply list_elem_of_here).
      apply list_elem_of_filter in Hin as [Hq Hin].
      specialize (H _ q eq_refl Hin). congruence.
  - split; done.
Qed.

(** What a token may be granted, the administrator holds; and the only grantable
    scopes that change state are these four. *)
Lemma grantable_scopes_confined s :
  s ∈ GRANTABLE_TOKEN_SCOPES →
  s ∈ br_permissions admin ∧
  (isWriteScope s = true →
   s ∈ ["connectors:action"; "monitors:write"; "notifications:send"; "fabric:connect"]).
Proof.
  intros Hs. assert (Hall : every (λ s, includes s (br_permissions admin) &&
    (negb (isWriteScope s) || includes s ["connectors:action"; "monitors:write";
      "notifications:send"; "fabric:connect"])) GRANTABLE_TOKEN_SCOPES = true)
    by (vm_compute; reflexivity).
  rewrite every_true in Hall. specialize (Hall s Hs).
  apply andb_true_iff in Hall as [Hadm Hw]. split; [by apply includes_true|].
  intros Hwr. rewrite Hwr in Hw. by apply includes_true.
Qed.
