(* ===== verification/Net.v ===== *)
(** * IP addresses and Node's [net] module, [common/ip-allowlist.ts],
    [auth/local-login-policy.ts] and [monitors/probes/ssrf-guard.ts]

    The first part is what the three files use of the runtime's [net] module:
    [isIP] and [BlockList].  Addresses are numbers; an IPv4 address and its
    IPv4-mapped IPv6 form [::ffff:a.b.c.d] name the same address to a
    [BlockList], as its documentation states. *)

From S2P Require Import Prelude JsText.
Local Open Scope Z_scope.

(** ** [net.isIP] *)

Inductive ip := V4 (a : Z) | V6 (a : Z).

#[export] Instance ip_eq_dec : EqDecision ip.
Proof. solve_decision. Defined.

(** One octet of a dotted quad: no leading zero, at most 255. *)
Definition parse_octet (s : string) : option Z :=
  if all_digits s && (String.length s <=? 3)%nat &&
     ((String.length s =? 1)%nat || negb (startsWith "0" s)) &&
     (digits_value s <=? 255)
  then Some (digits_value s) else None.

Definition parse_ipv4 (s : string) : option Z :=
  match parse_octet <$> split "."%char s with
  | [Some a; Some b; Some c; Some d] => Some (((a * 256 + b) * 256 + c) * 256 + d)
  | _ => None
  end.

Definition hex_value (c : ascii) : option Z :=
  if is_digit c then Some (Z.of_nat (code c) - 48)
  else let l := lower_char c in
       if in_range "a"%char "f"%char l then Some (Z.of_nat (code l) - 87) else None.

(** One group of an IPv6 address: one to four hexadecimal digits. *)
Definition parse_group (s : string) : option Z :=
  if (1 <=? String.length s)%nat && (String.length s <=? 4)%nat then
    foldl (λ acc c, acc ≫= λ a, hex_value c ≫= λ h, Some (a * 16 + h)) (Some 0) (chars s)
  else None.

Definition parse_groups (ss : list string) : option (list Z) := mapM parse_group ss.

(** Groups of which the last may be an IPv4 address, standing for two. *)
Definition parse_tail (ss : list string) : option (list Z) :=
  match last ss with
  | Some l =>
      match parse_ipv4 l with
      | Some a => (λ gs, gs ++ [a / 65536; a mod 65536]) <$> parse_groups (removelast ss)
      | None => parse_groups ss
      end
  | None => Some []
  end.

Definition split_groups (s : string) : list string :=
  if bool_decide (s = "") then [] else split ":"%char s.

Definition groups_value (gs : list Z) : Z := foldl (λ acc g, acc * 65536 + g) 0 gs.

Definition parse_ipv6_base (s : string) : option Z :=
  match indexOf "::" s with
  | Some i =>
      l ← parse_groups (split_groups (slice_to i s));
      r ← parse_tail (split_groups (slice_from (i + 2) s));
      if (length l + length r <=? 7)%nat
      then Some (groups_value (l ++ replicate (8 - length l - length r) 0 ++ r)) else None
  | None =>
      gs ← parse_tail (split_groups s);
      if (length gs =? 8)%nat then Some (groups_value gs) else None
  end.

Definition zone_char (c : ascii) : bool :=
  is_digit c || is_upper c || is_lower c ||
  bool_decide (c ∈ ["-"; "."; ":"]%char).

(** A scope zone ([%eth0]) is part of the notation and not of the address. *)
Definition parse_ipv6 (s : string) : option Z :=
  match indexOf "%" s with
  | Some i =>
      let zone := slice_from (i + 1) s in
      if negb (bool_decide (zone = "")) && forallb zone_char (chars zone)
      then parse_ipv6_base (slice_to i s) else None
  | None => parse_ipv6_base s
  end.

Definition parse_ip (s : string) : option ip :=
  match parse_ipv4 s with
  | Some a => Some (V4 a)
  | None => V6 <$> parse_ipv6 s
  end.

Definition isIP (s : string) : Z :=
  match parse_ip s with Some (V4 _) => 4 | Some (V6 _) => 6 | None => 0 end.

(** ** [net.BlockList] *)

(** The 128-bit number of an address, IPv4 ones mapped. *)
Definition mapped (a : ip) : Z :=
  match a with V4 n => 281470681743360 + n | V6 n => n end.

Definition prefix128 (net : ip) (prefix : Z) : Z :=
  match net with V4 _ => 96 + prefix | V6 _ => prefix end.

(** A rule is a subnet; [addAddress] adds the full-length one. *)
Record rule := Rule { net_addr : ip; net_prefix : Z }.

Definition rule_matches (a : ip) (r : rule) : bool :=
  let k := 128 - prefix128 (net_addr r) (net_prefix r) in
  Z.shiftr (mapped a) k =? Z.shiftr (mapped (net_addr r)) k.

Definition check (rules : list rule) (a : ip) : bool := some (rule_matches a) rules.

Definition full_prefix (a : ip) : Z := match a with V4 _ => 32 | V6 _ => 128 end.

(** ** [common/ip-allowlist.ts] *)
Module IpAllowlist.

Definition bad_entry (s : string) : string :=
  quoted s +:+ " is not an IP address or CIDR range.".

(** [bits === undefined || (/^\d{1,3}$/.test(bits) && Number(bits) <= max)] *)
Definition okBits (bits : option string) (max : Z) : bool :=
  match bits with
  | None => true
  | Some b => all_digits b && (String.length b <=? 3)%nat && (digits_value b <=? max)
  end.

Definition clean_entry (entry : string) : result string string :=
  if (64 <? String.length entry)%nat then
    Err (quoted (slice_to 64 entry +:+ "…") +:+ " is not an IP address or CIDR range.")
  else
    let parts := split "/"%char entry in
    let family := isIP (default "" (parts !! 0%nat)) in
    let max := if family =? 4 then 32 else 128 in
    if (family =? 0) || bool_decide (is_Some (parts !! 2%nat)) ||
       negb (okBits (parts !! 1%nat) max)
    then Err (bad_entry entry)
    else Ok entry.

(** The loop of [cleanIpAllowlist] over [String(raw ?? '').trim()]. *)
Fixpoint clean_entries (es : list json) (out : list string) : result string (list string) :=
  match es with
  | [] => Ok out
  | raw :: es' =>
      let entry := trim (from_option js_String "" (nullish (Some raw))) in
      if bool_decide (entry = "") then clean_entries es' out
      else e ← clean_entry entry; clean_entries es' (out ++ [e])
  end.

Definition cleanIpAllowlist (entries : json) : result string (list string) :=
  match entries with
  | JArr es =>
      out ← clean_entries es [];
      if (100 <? length out)%nat then Err "At most 100 IP allowlist entries."
      else Ok (uniq out)
  | _ => Err "The IP allowlist must be a list."
  end.

(** What one entry adds to the block list; [None] where Node would throw. *)
Definition entry_rule (entry : string) : option rule :=
  let parts := split "/"%char entry in
  a ← parse_ip (default "" (parts !! 0%nat));
  match parts !! 1%nat with
  | None => Some (Rule a (full_prefix a))
  | Some bits => Some (Rule a (digits_value bits))
  end.

Definition ipAllowed (entries : list string) (ip : option string) : option bool :=
  if bool_decide (entries = []) then Some true
  else match ip with
  | None => Some false
  | Some ip =>
      if bool_decide (ip = "") then Some false else
      let addr :=
        if startsWith "::ffff:" ip && (isIP (slice_from 7 ip) =? 4)
        then slice_from 7 ip else ip in
      match parse_ip addr with
      | None => Some false
      | Some a => rules ← mapM entry_rule entries; Some (check rules a)
      end
  end.

End IpAllowlist.

(** ** Lemmas: the characters of an address *)

Definition addr_char (c : ascii) : bool := zone_char c || bool_decide (c = "%"%char).

Lemma addr_char_digit c : is_digit c = true → addr_char c = true.
Proof. unfold addr_char, zone_char. by intros ->. Qed.

Lemma parse_octet_digits s z : parse_octet s = Some z → all_digits s = true.
Proof. unfold parse_octet. by destruct (all_digits s). Qed.

Lemma parse_ipv4_pieces s a :
  parse_ipv4 s = Some a →
  ∃ w x y z a1 a2 a3 a4, split "." s = [w; x; y; z] ∧
    parse_octet w = Some a1 ∧ parse_octet x = Some a2 ∧
    parse_octet y = Some a3 ∧ parse_octet z = Some a4 ∧
    a = ((a1 * 256 + a2) * 256 + a3) * 256 + a4.
Proof.
  unfold parse_ipv4. intros H.
  destruct (split "." s) as [|w [|x [|y [|z [|]]]]]; simpl in H;
    repeat case_match; simplify_eq; eauto 15.
Qed.

Lemma parse_ipv4_chars s a c :
  parse_ipv4 s = Some a → c ∈ chars s → is_digit c = true ∨ c = "."%char.
Proof.
  intros (w & x & y & z & ? & ? & ? & ? & Hs & ?%parse_octet_digits &
    ?%parse_octet_digits & ?%parse_octet_digits & ?%parse_octet_digits & _)%parse_ipv4_pieces.
  intros [?|(p & Hp & Hc)]%(split_elem "."); [by right|]. left.
  rewrite Hs, !elem_of_cons in Hp.
  destruct Hp as [->|[->|[->|[->|Hn]]]]; [..|by apply elem_of_nil in Hn];
    (eapply all_digits_chars; [|exact Hc]); done.
Qed.

Lemma hex_value_char c h : hex_value c = Some h → addr_char c = true.
Proof.
  unfold hex_value. destruct (is_digit c) eqn:Hd; [by intros; apply addr_char_digit|].
  case_match eqn:Hr; [|done]. intros _. revert Hr.
  destruct c as [[] [] [] [] [] [] [] []]; vm_compute; done.
Qed.

Lemma parse_group_chars s g c :
  parse_group s = Some g → c ∈ chars s → addr_char c = true.
Proof.
  unfold parse_group. case_match; [|done].
  assert (Hnone : ∀ l, foldl (λ acc c, acc ≫= λ a, hex_value c ≫= λ h, Some (a * 16 + h))
    None l = None) by (intros l; induction l; auto).
  generalize 0. induction (chars s) as [|x l IH]; intros z0; [by intros _ ?%elem_of_nil|].
  simpl. destruct (hex_value x) as [h|] eqn:Hx; simpl; [|by rewrite Hnone].
  intros Hg [->|Hc]%elem_of_cons; [by eapply hex_value_char | by eapply IH].
Qed.

Lemma parse_groups_chars ss gs w c :
  parse_groups ss = Some gs → w ∈ ss → c ∈ chars w → addr_char c = true.
Proof.
  unfold parse_groups. intros Hm Hw Hc.
  apply mapM_Some in Hm. apply list_elem_of_lookup in Hw as [i Hi].
  destruct (Forall2_lookup_l _ _ _ _ _ Hm Hi) as (g & _ & Hg).
  by eapply parse_group_chars.
Qed.

Lemma parse_tail_chars ss gs w c :
  parse_tail ss = Some gs → w ∈ ss → c ∈ chars w → addr_char c = true.
Proof.
  unfold parse_tail. destruct (last ss) as [l|] eqn:Hl.
  - apply last_Some in Hl as [l' ->].
    destruct (parse_ipv4 l) as [a|] eqn:Ha; [|by intros; eapply parse_groups_chars].
    rewrite removelast_last.
    destruct (parse_groups l') as [gs'|] eqn:Hgs; [|done]. intros _ Hw Hc.
    apply elem_of_app in Hw as [Hw| ->%list_elem_of_singleton];
      [by eapply parse_groups_chars|].
    destruct (parse_ipv4_chars _ _ _ Ha Hc) as [| ->]; [by apply addr_char_digit | done].
  - apply last_None in Hl as ->. by intros _ ?%elem_of_nil.
Qed.

Lemma split_groups_chars s c :
  c ∈ chars s → c = ":"%char ∨ ∃ w, w ∈ split_groups s ∧ c ∈ chars w.
Proof.
  unfold split_groups. case_bool_decide as Hs.
  - subst. by intros ?%elem_of_nil.
  - apply split_elem.
Qed.

Lemma parse_ipv6_base_chars s a c :
  parse_ipv6_base s = Some a → c ∈ chars s → addr_char c = true.
Proof.
  unfold parse_ipv6_base. destruct (indexOf "::" s) as [i|] eqn:Hi.
  - destruct (parse_groups _) as [l|] eqn:Hl; [|done]. simpl.
    destruct (parse_tail _) as [r|] eqn:Hr; [|done]. intros _ Hc.
    apply indexOf_Some in Hi. rewrite Hi, !elem_of_app in Hc.
    destruct Hc as [Hc|[Hc|Hc]].
    + rewrite <-(chars_of_chars (take i _)) in Hc.
      apply split_groups_chars in Hc as [->|(w & Hw & Hc)]; [done|].
      by eapply parse_groups_chars.
    + by apply elem_of_cons in Hc as [->|[->|[]%elem_of_nil]%elem_of_cons].
    + rewrite <-(chars_of_chars (drop _ _)) in Hc.
      apply split_groups_chars in Hc as [->|(w & Hw & Hc)]; [done|].
      by eapply parse_tail_chars.
  - destruct (parse_tail _) as [r|] eqn:Hr; [|done]. intros _ Hc.
    apply split_groups_chars in Hc as [->|(w & Hw & Hc)]; [done|].
    by eapply parse_tail_chars.
Qed.

Lemma parse_ipv6_chars s a c :
  parse_ipv6 s = Some a → c ∈ chars s → addr_char c = true.
Proof.
  unfold parse_ipv6. destruct (indexOf "%" s) as [i|] eqn:Hi;
    [|by intros; eapply parse_ipv6_base_chars].
  case_match eqn:Hz; [|done]. apply andb_true_iff in Hz as [_ Hz].
  intros Ha Hc. apply indexOf_Some in Hi. rewrite Hi, !elem_of_app in Hc.
  destruct Hc as [Hc|[Hc|Hc]].
  - eapply parse_ipv6_base_chars; [done|]. unfold slice_to. by rewrite chars_of_chars.
  - by apply elem_of_cons in Hc as [->|[]%elem_of_nil].
  - rewrite forallb_forall in Hz. unfold addr_char. rewrite Hz; [done|].
    unfold slice_from. rewrite chars_of_chars. by apply list_elem_of_In.
Qed.

Lemma parse_ip_chars s a c : parse_ip s = Some a → c ∈ chars s → addr_char c = true.
Proof.
  unfold parse_ip. destruct (parse_ipv4 s) as [n|] eqn:Hn.
  - intros _ Hc. destruct (parse_ipv4_chars _ _ _ Hn Hc) as [?| ->]; [|done].
    by apply addr_char_digit.
  - destruct (parse_ipv6 s) eqn:H6; [|done]. intros _. by apply (parse_ipv6_chars _ _ _ H6).
Qed.

Lemma addr_char_not c :
  addr_char c = true → is_space c = false ∧ c ≠ "/"%char.
Proof. by destruct c as [[] [] [] [] [] [] [] []]; vm_compute. Qed.

Lemma isIP_0 s : isIP s = 0 ↔ parse_ip s = None.
Proof. unfold isIP. destruct (parse_ip s) as [[]|]; done. Qed.

Lemma isIP_4 s : isIP s = 4 ↔ ∃ a, parse_ip s = Some (V4 a).
Proof. unfold isIP. destruct (parse_ip s) as [[]|]; naive_solver. Qed.

(** ** Cleaned allowlists *)
Section allowlist.
Import IpAllowlist.

Lemma clean_entry_ok e e' : clean_entry e = Ok e' → e' = e ∧ is_Some (entry_rule e).
Proof.
  unfold clean_entry. case_match; [done|].
  set (parts := split "/" e). case_match eqn:Hc; [done|]. intros [= <-].
  split; [done|]. rewrite !orb_false_iff in Hc. destruct Hc as [[H0 _] _].
  apply Z.eqb_neq in H0. rewrite isIP_0 in H0. unfold entry_rule. fold parts.
  destruct (parse_ip _) as [a|]; [|done]. simpl. destruct (parts !! 1%nat); by eauto.
Qed.

Lemma clean_entries_ok es out out' :
  clean_entries es out = Ok out' → Forall (λ e, is_Some (entry_rule e)) out →
  Forall (λ e, is_Some (entry_rule e)) out'.
Proof.
  revert out. induction es as [|raw es IH]; intros out; simpl; [by intros [= <-]|].
  case_bool_decide; [by apply IH|].
  destruct (clean_entry _) as [e|] eqn:He; [|done]. simpl. intros Hes Hout.
  apply (IH _ Hes). apply clean_entry_ok in He as [-> ?].
  apply Forall_app. by repeat constructor.
Qed.

Lemma cleanIpAllowlist_ok js l :
  cleanIpAllowlist js = Ok l → ∀ e, e ∈ l → is_Some (entry_rule e).
Proof.
  unfold cleanIpAllowlist. destruct js; try done.
  destruct (clean_entries l0 []) as [out|] eqn:Hout; [|done]. simpl.
  case_match; [done|]. intros [= <-] e He. rewrite elem_of_uniq in He.
  apply clean_entries_ok in Hout; [|done]. rewrite Forall_forall in Hout. by apply Hout.
Qed.

Lemma mapM_entry_rules l :
  (∀ e, e ∈ l → is_Some (entry_rule e)) → ∃ rules, mapM entry_rule l = Some rules ∧
    ∀ a, check rules a = true ↔
      ∃ e r, e ∈ l ∧ entry_rule e = Some r ∧ rule_matches a r = true.
Proof.
  induction l as [|e l IH]; intros Hl.
  { exists []. split; [done|]. intros a. split; [done|]. by intros (? & ? & []%elem_of_nil & _). }
  destruct (Hl e (list_elem_of_here _ _)) as [r Hr].
  destruct IH as (rules & Hrules & Hspec); [intros; apply Hl; by right|].
  exists (r :: rules). split; [cbn [mapM]; rewrite Hr; simpl; by rewrite Hrules|]. intros a.
  change (check (r :: rules) a) with (rule_matches a r || check rules a).
  rewrite orb_true_iff, Hspec. split.
  - intros [Hm|(e' & r' & ? & ? & ?)].
    + exists e, r. by split; [left|].
    + exists e', r'. by split; [right|].
  - intros (e' & r' & [->|He']%elem_of_cons & Hr' & Hm).
    + left. congruence.
    + right. eauto.
Qed.

(** an allowlist the form accepted can always be checked (no entry makes
    the block list throw), and the check is what it reads like: an empty list
    allows everyone; otherwise the caller's address must be known and lie in
    one of the listed ranges, an IPv4-mapped address counting as the IPv4 one. *)
Theorem cleaned_allowlist_checks (js : json) (l : list string) (ip : option string) :
  cleanIpAllowlist js = Ok l →
  ∃ b, ipAllowed l ip = Some b ∧
    (b = true ↔ l = [] ∨
      ∃ s a e r, ip = Some s ∧ s ≠ ""%string ∧
        parse_ip (if startsWith "::ffff:" s && (isIP (slice_from 7 s) =? 4)
                  then slice_from 7 s else s) = Some a ∧
        e ∈ l ∧ entry_rule e = Some r ∧ rule_matches a r = true).
Proof.
  intros Hl. unfold ipAllowed.
  destruct (mapM_entry_rules l (cleanIpAllowlist_ok _ _ Hl)) as (rules & Hrules & Hspec).
  case_bool_decide as He; [exists true; split; [done | split; [intros _; by left | done]]|].
  destruct ip as [s|]; cycle 1.
  { exists false. split; [done|]. split; [done|]. by intros [?|(? & ? & ? & ? & ? & _)]. }
  case_bool_decide as Hs.
  { exists false. split; [done|]. split; [done|].
    by intros [?|(? & ? & ? & ? & [= <-] & ? & _)]. }
  destruct (parse_ip _) as [a|] eqn:Ha; cycle 1.
  { exists false. split; [done|]. split; [done|].
    intros [?|(? & ? & ? & ? & [= <-] & _ & Ha' & _)]; [done|]. congruence. }
  rewrite Hrules. exists (check rules a). split; [done|]. rewrite Hspec. split.
  - intros (e & r & ? & ? & ?). right. by exists s, a, e, r.
  - intros [?|(s' & a' & e & r & [= <-] & _ & Ha' & ? & ? & ?)]; [done|].
    assert (a' = a) as -> by congruence. eauto.
Qed.

Lemma cleaned_allowlist_checks_witness :
  ∃ b, ipAllowed ["10.0.0.0/8"; "fd00::1"]%string (Some "::ffff:10.9.8.7"%string) = Some b ∧
    b = true.
Proof.
  destruct (cleaned_allowlist_checks
    (JArr [JStr " 10.0.0.0/8"; JNull; JStr "fd00::1"; JStr "10.0.0.0/8"])
    ["10.0.0.0/8"; "fd00::1"]%string (Some "::ffff:10.9.8.7"%string)) as (b & Hb & _);
    [vm_compute; reflexivity|].
  exists b. split; [exact Hb|]. vm_compute in Hb. injection Hb as <-. reflexivity.
Defined.
End allowlist.
