(* ===== verification/IpPolicy.v ===== *)
(** * Who may connect from where: [auth/local-login-policy.ts],
    [auth/local-login-policy.service.ts] and [monitors/probes/ssrf-guard.ts]

    On top of [Net]: the CIDR policy for password sign-in with its throttled
    audit of refusals, and the guard that keeps monitor probes away from
    loopback, link-local and metadata addresses. *)

From S2P Require Import Prelude JsText Net.
Local Open Scope Z_scope.

(** [/^\d+\.\d+\.\d+\.\d+$/] *)
Definition dotted_quad (s : string) : bool :=
  match split "."%char s with
  | [a; b; c; d] => all_digits a && all_digits b && all_digits c && all_digits d
  | _ => false
  end.

(** [::ffff:a.b.c.d] without its prefix, in any case; other text as it is. *)
Definition strip_mapped (v : string) : string :=
  if startsWith "::ffff:" (toLowerCase v) && dotted_quad (slice_from 7 v)
  then slice_from 7 v else v.

(** ** [auth/local-login-policy.ts] *)
Module LocalLoginPolicy.

Record policy := Policy { enabled : bool; allowedCidrs : list string }.

#[export] Instance policy_eq_dec : EqDecision policy.
Proof. solve_decision. Defined.

Definition DEFAULT_LOCAL_LOGIN_POLICY : policy := Policy true [].

Definition normalizeIp (ip : option string) : option string :=
  if truthy ip then
    let v := strip_mapped (trim (default "" ip)) in
    if isIP v =? 0 then None else Some v
  else None.

Record cidr := Cidr { address : string; prefix : Z; v4 : bool; text : string }.

Definition parseCidr (entry : string) : result string cidr :=
  let raw := trim entry in
  let parts := split "/"%char raw in
  match normalizeIp (parts !! 0%nat), parts !! 2%nat with
  | Some address, None =>
      let v4 := isIP address =? 4 in
      let max := if v4 then 32 else 128 in
      let digits := default (num_to_string max) (parts !! 1%nat) in
      let prefix := from_option digits_value max (parts !! 1%nat) in
      if negb (all_digits digits) || (prefix <? 0) || (max <? prefix)
      then Err (quoted raw +:+ " has an invalid prefix length (0–" +:+ num_to_string max +:+ ").")
      else Ok (Cidr address prefix v4 (address +:+ "/" +:+ num_to_string prefix))
  | _, _ => Err (quoted raw +:+ " is not an IP address or CIDR range.")
  end.

Fixpoint normalize_loop (entries out : list string) : result string (list string) :=
  match entries with
  | [] => Ok out
  | e :: es =>
      if bool_decide (trim e = "") then normalize_loop es out
      else c ← parseCidr e;
           normalize_loop es (if includes (text c) out then out else out ++ [text c])
  end.

Definition normalizeCidrs (entries : list string) : result string (list string) :=
  normalize_loop entries [].

(** The strings of a stored list ([filter((c) => typeof c === 'string')]). *)
Definition json_strings (v : option json) : list string :=
  match v with
  | Some (JArr l) => omap (λ j, match j with JStr s => Some s | _ => None end) l
  | _ => []
  end.

(** [v === false] *)
Definition is_false (v : option json) : bool :=
  match v with Some (JBool false) => true | _ => false end.

Definition coercePolicy (value : option json) : policy :=
  match value with
  | Some (JObj _ as v) =>
      Policy (negb (is_false (json_field "enabled" v)))
        (filter (λ c, is_ok (parseCidr c) = true) (json_strings (json_field "allowedCidrs" v)))
  | Some (JArr _) => Policy true []
  | _ => DEFAULT_LOCAL_LOGIN_POLICY
  end.

Definition cidr_rule (c : string) : result string rule :=
  p ← parseCidr c;
  match parse_ip (address p) with
  | Some a => Ok (Rule a (prefix p))
  | None => Err "Invalid address"%string
  end.

Fixpoint cidr_rules (cs : list string) : result string (list rule) :=
  match cs with
  | [] => Ok []
  | c :: cs' => r ← cidr_rule c; rs ← cidr_rules cs'; Ok (r :: rs)
  end.

Definition isIpAllowed (p : policy) (ip : option string) : result string bool :=
  if negb (enabled p) then Ok false
  else if bool_decide (allowedCidrs p = []) then Ok true
  else match normalizeIp ip with
  | None => Ok false
  | Some addr =>
      rules ← cidr_rules (allowedCidrs p);
      Ok (from_option (check rules) false (parse_ip addr))
  end.

(** What [SettingsService] stores for a policy. *)
Definition policy_json (p : policy) : json :=
  JObj [("enabled", JBool (enabled p)); ("allowedCidrs", JArr (JStr <$> allowedCidrs p))]%string.

End LocalLoginPolicy.

(** ** [auth/local-login-policy.service.ts] *)
Module LocalLoginPolicyService.
Import LocalLoginPolicy.

Definition BLOCKED_AUDIT_WINDOW_MS : Z := 10 * 60 * 1000.

(** The settings row under [auth.localLogin] and the audit throttle. *)
Record state := State { setting : option json; lastBlockedAudit : gmap string Z }.


Definition get_policy : svc state output http_error policy :=
  gets (λ s, coercePolicy (setting s)).

(** A bad entry is a plain [Error]; the controller turns it into a 400. *)
Definition set_policy (input : policy) : svc state output string policy :=
  cidrs ← lift (normalizeCidrs (allowedCidrs input));
  let p := Policy (enabled input) cidrs in
  modify (λ s, State (Some (policy_json p)) (lastBlockedAudit s)) ;;
  mret p.

Definition isAllowed (ip : option string) (s : state) : result string bool :=
  isIpAllowed (coercePolicy (setting s)) ip.

Definition refuse : http_error :=
  Forbidden "Password sign-in is not available from your network. Use single sign-on.".

(** The throttle key was stored less than a window ago. *)
Definition audit_throttled (now : Z) (o : option Z) : bool :=
  negb (default 0 o + BLOCKED_AUDIT_WINDOW_MS <? now).

Definition note_blocked (key : string) (now : Z) (s : state) : state :=
  let seen := <[key := now]> (lastBlockedAudit s) in
  State (setting s) (if (1000 <? size seen)%nat then ∅ else seen).

Definition assertAllowed (now : Z) (ip attemptedEmail : option string) :
    svc state output http_error unit :=
  s ← get;
  match isAllowed ip s with
  | Ok true => mret tt
  | _ =>
      let key := default "unknown"%string (normalizeIp ip) in
      when (negb (audit_throttled now (lastBlockedAudit s !! key)))
        (modify (note_blocked key now) ;;
         tell (OLog Warn "LocalLoginPolicy" ("password sign-in refused for " +:+ key)) ;;
         tell (OAudit (Audit None attemptedEmail "auth.login_blocked_ip" (Some key)))) ;;
      throw refuse
  end.

End LocalLoginPolicyService.

(** ** [monitors/probes/ssrf-guard.ts] *)
Module SsrfGuard.

Definition v4n (a b c d : Z) : ip := V4 (((a * 256 + b) * 256 + c) * 256 + d).

(** The module's block list, in the order the rules are added. *)
Definition blockList : list rule :=
  [ Rule (v4n 127 0 0 0) 8;
    Rule (v4n 169 254 0 0) 16;
    Rule (v4n 0 0 0 0) 8;
    Rule (V6 1) 128;
    Rule (V6 0) 128;
    Rule (V6 (Z.shiftl 65152 112)) 10;
    Rule (V6 (mapped (v4n 127 0 0 0))) 104;
    Rule (V6 (mapped (v4n 169 254 0 0))) 112;
    Rule (V6 (mapped (v4n 0 0 0 0))) 104 ].

(** [env] is the value of MONITOR_ALLOW_LOCAL_TARGETS. *)
Definition allowLocalTargets (env : option string) : bool :=
  let v := toLowerCase (default "" env) in
  bool_decide (v = "1") || bool_decide (v = "true") || bool_decide (v = "yes").

Definition normalize (ip : string) : string := strip_mapped ip.

Definition isBlockedAddress (ip : string) : bool :=
  match parse_ip (normalize ip) with
  | Some a => check blockList a
  | None => false
  end.

(** [host.replace(/^\[/, '').replace(/\]$/, '')] *)
Definition strip_brackets (host : string) : string :=
  let h := if startsWith "[" host then slice_from 1 host else host in
  if endsWith "]" h then slice_to (String.length h - 1) h else h.

Definition hostBlockedReason (env : option string) (host : string) : option string :=
  if allowLocalTargets env then None
  else
    let h := strip_brackets host in
    if negb (isIP h =? 0) && isBlockedAddress h
    then Some ("Blocked target " +:+ h +:+
      " (loopback/link-local/metadata). Set MONITOR_ALLOW_LOCAL_TARGETS=true to allow.")
    else None.

(** What [guardedLookup] hands its callback for the addresses DNS resolved:
    the addresses, or the one it refused. *)
Definition guardedLookup (env : option string) (resolved : list string) :
    result string (list string) :=
  if allowLocalTargets env then Ok resolved
  else match findFirst isBlockedAddress resolved with
  | Some a => Err ("Blocked target " +:+ a +:+ " (loopback/link-local/metadata).")
  | None => Ok resolved
  end.

End SsrfGuard.

(** ** Lemmas *)

Lemma dotted_quad_chars d c :
  dotted_quad d = true → c ∈ chars d → is_digit c = true ∨ c = "."%char.
Proof.
  unfold dotted_quad. intros H.
  destruct (split "." d) as [|w [|x [|y [|z [|]]]]] eqn:Hs; try done.
  rewrite !andb_true_iff in H. destruct H as [[[? ?] ?] ?].
  intros [?|(p & Hp & Hc)]%(split_elem "."); [by right|]. left.
  rewrite Hs, !elem_of_cons in Hp.
  destruct Hp as [->|[->|[->|[->|Hn]]]]; [..|by apply elem_of_nil in Hn];
    (eapply all_digits_chars; [|exact Hc]); done.
Qed.

Lemma dotted_quad_dot d : dotted_quad d = true → "."%char ∈ chars d.
Proof.
  intros H. destruct (decide ("."%char ∈ chars d)) as [|Hn]; [done|].
  unfold dotted_quad in H. by rewrite split_no_sep in H.
Qed.

Lemma startsWith_lower p s :
  startsWith p (toLowerCase s) = true →
  ∃ l1 l2, chars s = l1 ++ l2 ∧ lower_char <$> l1 = chars p.
Proof.
  unfold startsWith. intros [l Hl]%prefix_chars. rewrite toLowerCase_chars in Hl.
  exists (take (length (chars p)) (chars s)), (drop (length (chars p)) (chars s)).
  split; [by rewrite take_drop|]. rewrite fmap_take, Hl. apply take_app_length.
Qed.

Lemma lower_char_colon c : lower_char c = ":"%char → c = ":"%char.
Proof. by destruct c as [[] [] [] [] [] [] [] []]; vm_compute. Qed.

Lemma lower_char_f c : lower_char c = "f"%char → c ∈ ["f"; "F"]%char.
Proof.
  intros H. rewrite !elem_of_cons. revert H.
  destruct c as [[] [] [] [] [] [] [] []]; vm_compute; intros; try discriminate; auto.
Qed.

Lemma strip_mapped_quad v : dotted_quad v = true → strip_mapped v = v.
Proof.
  intros Hv. unfold strip_mapped.
  destruct (startsWith "::ffff:" (toLowerCase v)) eqn:Hs; [|done]. exfalso.
  apply startsWith_lower in Hs as (l1 & l2 & Hc & Hl).
  destruct l1 as [|c l1]; [done|]. simplify_eq/=.
  assert (c = ":"%char) as -> by by apply lower_char_colon.
  by destruct (dotted_quad_chars v ":"%char Hv) as [?|?]; [rewrite Hc; left| |].
Qed.

Lemma strip_mapped_idemp v : strip_mapped (strip_mapped v) = strip_mapped v.
Proof.
  unfold strip_mapped at 2 3.
  destruct (startsWith _ _ && dotted_quad _) eqn:Hb.
  - apply andb_true_iff in Hb as [_ Hq]. by apply strip_mapped_quad.
  - unfold strip_mapped. by rewrite Hb.
Qed.

Lemma indexOf_absent c s : c ∉ chars s → indexOf (String c "") s = None.
Proof.
  intros Hn. destruct (indexOf _ s) as [i|] eqn:Hi; [|done]. exfalso. apply Hn.
  apply indexOf_Some in Hi. rewrite Hi. rewrite !elem_of_app. simpl. right. left.
  apply list_elem_of_here.
Qed.

Lemma indexOf_absent2 c d s : c ∉ chars s → indexOf (String c (String d "")) s = None.
Proof.
  intros Hn. destruct (indexOf _ s) as [i|] eqn:Hi; [|done]. exfalso. apply Hn.
  apply indexOf_Some in Hi. rewrite Hi. rewrite !elem_of_app. simpl. right. left.
  apply list_elem_of_here.
Qed.

Lemma parse_group_dot d : "."%char ∈ chars d → parse_group d = None.
Proof.
  intros Hd. destruct (parse_group d) as [g|] eqn:Hg; [|done]. exfalso.
  unfold parse_group in Hg. case_match; [|done]. revert Hd Hg.
  assert (Hnone : ∀ l, foldl (λ acc c, acc ≫= λ a, hex_value c ≫= λ h, Some (a * 16 + h))
    None l = None) by (intros l; induction l; auto).
  generalize 0. induction (chars d) as [|x l IH]; intros z0; [by intros ?%elem_of_nil|].
  intros [<-|Hc]%elem_of_cons; simpl; [by rewrite Hnone|].
  destruct (hex_value x) as [h|]; simpl; [by apply IH | by rewrite Hnone].
Qed.

Section dotted.
Variable d : string.
Hypothesis Hd : dotted_quad d = true.

Lemma dotted_no c : is_digit c = false → c ≠ "."%char → c ∉ chars d.
Proof using Hd.
  intros H1 H2 Hc. destruct (dotted_quad_chars d c Hd Hc); congruence.
Qed.

Lemma parse_ip_dotted : parse_ip d = V4 <$> parse_ipv4 d.
Proof using Hd.
  unfold parse_ip. destruct (parse_ipv4 d) as [a|] eqn:Ha; [done|].
  unfold parse_ipv6, parse_ipv6_base.
  rewrite indexOf_absent by by apply dotted_no.
  rewrite indexOf_absent2 by by apply dotted_no.
  unfold split_groups. case_bool_decide as He.
  { subst d. by pose proof (dotted_quad_dot _ Hd) as ?%elem_of_nil. }
  rewrite split_no_sep by by apply dotted_no.
  unfold parse_tail. simpl. rewrite Ha. unfold parse_groups. simpl.
  by rewrite parse_group_dot by by apply dotted_quad_dot.
Qed.

Lemma parse_ip_mapped_dotted w :
  (lower_char <$> chars w) = ["f"; "f"; "f"; "f"]%char →
  parse_ip (String ":" (String ":" (w +:+ String ":" d))) =
    (λ a, V6 (mapped (V4 a))) <$> parse_ipv4 d.
Proof using Hd.
  intros Hw. set (s := String _ _).
  assert (Hs : chars s = ":"%char :: ":"%char :: chars w ++ ":"%char :: chars d)
    by (unfold s; simpl; by rewrite chars_app).
  assert (Hwc : ∀ c, c ∈ chars w → c ∈ ["f"; "F"]%char).
  { intros c [i Hi]%list_elem_of_lookup.
    assert (Hf : (lower_char <$> chars w) !! i = Some (lower_char c)) by
      by rewrite list_lookup_fmap, Hi.
    rewrite Hw in Hf. apply list_elem_of_lookup_2 in Hf.
    assert (lower_char c = "f"%char) as Hlc.
    { rewrite !elem_of_cons, elem_of_nil in Hf. naive_solver. }
    by apply lower_char_f. }
  assert (Hg : parse_group w = Some 65535).
  { destruct w as [|a1 [|a2 [|a3 [|a4 [|]]]]]; simplify_eq/=.
    assert (a1 ∈ ["f"; "F"]%char ∧ a2 ∈ ["f"; "F"]%char ∧
      a3 ∈ ["f"; "F"]%char ∧ a4 ∈ ["f"; "F"]%char) as (Ha1 & Ha2 & Ha3 & Ha4)
      by (split_and!; apply Hwc; rewrite !elem_of_cons; auto 6).
    rewrite !elem_of_cons, elem_of_nil in Ha1, Ha2, Ha3, Ha4.
    destruct Ha1 as [->|[->|[]]], Ha2 as [->|[->|[]]], Ha3 as [->|[->|[]]],
      Ha4 as [->|[->|[]]]; reflexivity. }
  unfold parse_ip.
  destruct (parse_ipv4 s) as [n|] eqn:Hn.
  { exfalso. by destruct (parse_ipv4_chars s n ":"%char Hn); [rewrite Hs; left| |]. }
  unfold parse_ipv6. rewrite indexOf_absent.
  2: { rewrite Hs, !not_elem_of_cons, not_elem_of_app, not_elem_of_cons.
    split_and!; [done | done | | done | by apply dotted_no].
    intros Hc%Hwc. rewrite !elem_of_cons, elem_of_nil in Hc. naive_solver. }
  assert (Hi : indexOf "::" s = Some 0%nat).
  { unfold s, indexOf. simpl. by destruct (w +:+ _). }
  unfold parse_ipv6_base. rewrite Hi.
  change (slice_from (0 + 2) s) with (of_chars (chars (w +:+ String ":" d))).
  rewrite of_chars_chars.
  assert (Hsp : split_groups (w +:+ String ":" d) = [w; d]).
  { unfold split_groups. case_bool_decide as He.
    { by destruct w. }
    rewrite split_app, split_no_sep; [done | by apply dotted_no |].
    intros Hc%Hwc. rewrite !elem_of_cons, elem_of_nil in Hc. naive_solver. }
  change (slice_to 0 s) with ""%string. rewrite Hsp. unfold parse_tail. simpl.
  unfold parse_groups.
  destruct (parse_ipv4 d) as [a|] eqn:Ha; simpl; rewrite Hg; simpl.
  - unfold groups_value. simpl. pose proof (Z.div_mod a 65536 ltac:(done)).
    do 2 f_equal. lia.
  - by rewrite parse_group_dot by by apply dotted_quad_dot.
Qed.
End dotted.

(** A spelling and its stripped form name the same address. *)
Lemma mapped_strip s : mapped <$> parse_ip (strip_mapped s) = mapped <$> parse_ip s.
Proof.
  unfold strip_mapped. destruct (startsWith _ _ && dotted_quad _) eqn:Hb; [|done].
  apply andb_true_iff in Hb as [Hs Hq].
  apply startsWith_lower in Hs as (l1 & l2 & Hc & Hl).
  destruct l1 as [|c1 [|c2 [|c3 [|c4 [|c5 [|c6 [|c7 [|]]]]]]]]; simplify_eq/=.
  assert (c1 = ":"%char ∧ c2 = ":"%char ∧ c7 = ":"%char) as (-> & -> & ->).
  { by split_and!; apply lower_char_colon. }
  assert (Hs : s = String ":" (String ":" (of_chars [c3; c4; c5; c6] +:+
    String ":" (of_chars l2)))).
  { apply chars_inj. rewrite Hc. simpl. by rewrite chars_of_chars. }
  assert (Hd : slice_from 7 s = of_chars l2).
  { unfold slice_from. by rewrite Hc. }
  rewrite Hd in Hq |- *. rewrite Hs.
  rewrite parse_ip_mapped_dotted, parse_ip_dotted by (done || (simpl; congruence)).
  by destruct (parse_ipv4 _).
Qed.

(** ** The SSRF guard *)

(** The addresses a probe must not reach, as intervals of the 128-bit number:
    [::], [::1], fe80::/10 and, mapped, 0/8, 127/8 and 169.254/16. *)
Definition sensitive (n : Z) : Prop :=
  n = 0 ∨ n = 1 ∨ 65152 * 2 ^ 112 ≤ n < 65216 * 2 ^ 112 ∨
  let m := n - 65535 * 2 ^ 32 in
  0 ≤ m < 2 ^ 24 ∨ 127 * 2 ^ 24 ≤ m < 128 * 2 ^ 24 ∨
  (169 * 256 + 254) * 2 ^ 16 ≤ m < (169 * 256 + 255) * 2 ^ 16.

Lemma shiftr_eq_interval n c k :
  0 ≤ k → (Z.shiftr n k =? Z.shiftr (c * 2 ^ k) k) = true ↔ c * 2 ^ k ≤ n < (c + 1) * 2 ^ k.
Proof.
  intros Hk. rewrite Z.eqb_eq, !Z.shiftr_div_pow2 by done.
  pose proof (Z.pow_pos_nonneg 2 k ltac:(done) Hk).
  rewrite Z.div_mul by lia.
  pose proof (Z.div_mod n (2 ^ k) ltac:(lia)).
  pose proof (Z.mod_pos_bound n (2 ^ k) ltac:(lia)). split; nia.
Qed.

Lemma rule_matches_interval a r c k :
  128 - prefix128 (net_addr r) (net_prefix r) = k → mapped (net_addr r) = c * 2 ^ k →
  0 ≤ k → rule_matches a r = true ↔ c * 2 ^ k ≤ mapped a < (c + 1) * 2 ^ k.
Proof. unfold rule_matches. intros -> -> Hk. by apply shiftr_eq_interval. Qed.

Lemma check_blockList a : check SsrfGuard.blockList a = true ↔ sensitive (mapped a).
Proof.
  unfold check, some, SsrfGuard.blockList. cbn [existsb].
  rewrite !orb_true_iff.
  rewrite (rule_matches_interval a _ 16777087 24), (rule_matches_interval a _ 4294945278 16),
    (rule_matches_interval a _ 16776960 24), (rule_matches_interval a _ 1 0),
    (rule_matches_interval a _ 0 0), (rule_matches_interval a _ 1018 118),
    (rule_matches_interval a _ 16777087 24), (rule_matches_interval a _ 4294945278 16),
    (rule_matches_interval a _ 16776960 24) by (vm_compute; congruence).
  unfold sensitive. generalize (mapped a). intros n.
  split; [intros H | intros H]; lia.
Qed.

Lemma isBlockedAddress_true s :
  SsrfGuard.isBlockedAddress s = true ↔ ∃ a, parse_ip s = Some a ∧ sensitive (mapped a).
Proof.
  unfold SsrfGuard.isBlockedAddress, SsrfGuard.normalize.
  pose proof (mapped_strip s) as Hm.
  destruct (parse_ip (strip_mapped s)) as [a|], (parse_ip s) as [a'|]; try discriminate Hm.
  - apply (inj Some) in Hm. rewrite check_blockList, Hm. split; [by eauto|].
    by intros (? & [= <-] & ?).
  - split; [done | by intros (? & ? & _)].
Qed.


(** ** The sign-in policy *)
Section LoginPolicy.
Import LocalLoginPolicy.

Lemma normalizeIp_Some o v :
  normalizeIp o = Some v →
  (∃ a, parse_ip v = Some a) ∧ strip_mapped v = v ∧ trim v = v ∧ v ≠ ""%string.
Proof.
  unfold normalizeIp. case_match; [|done].
  destruct (Z.eqb_spec (isIP (strip_mapped (trim (default "" o)))) 0) as [|Hne]; [done|].
  intros [= <-]. rewrite isIP_0 in Hne. apply not_eq_None_Some in Hne as [a Ha].
  split; [eauto|]. rewrite strip_mapped_idemp. split_and!; [done| |].
  - apply trim_id. intros c Hc. by eapply addr_char_not, parse_ip_chars.
  - intros He. by rewrite He in Ha.
Qed.

Lemma normalizeIp_idemp o v : normalizeIp o = Some v → normalizeIp (Some v) = Some v.
Proof.
  intros ((a & Ha) & Hs & Ht & Hne)%normalizeIp_Some. unfold normalizeIp. simpl.
  rewrite bool_decide_eq_false_2, Ht, Hs by done. simpl.
  destruct (Z.eqb_spec (isIP v) 0) as [H0|]; [|done]. apply isIP_0 in H0. congruence.
Qed.

Definition cidr_max (c : cidr) : Z := if v4 c then 32 else 128.

Lemma parseCidr_ok e c :
  parseCidr e = Ok c →
  normalizeIp (Some (address c)) = Some (address c) ∧
  v4 c = (isIP (address c) =? 4) ∧ 0 ≤ prefix c ≤ cidr_max c ∧
  text c = address c +:+ "/" +:+ num_to_string (prefix c).
Proof.
  unfold parseCidr. destruct (normalizeIp _) as [a|] eqn:Ha; [|done].
  destruct (_ !! 2%nat); [done|]. case_match eqn:Hb; [done|]. intros [= <-]. simpl.
  rewrite !orb_false_iff, !Z.ltb_ge in Hb. unfold cidr_max. simpl.
  split_and!; [by eapply normalizeIp_idemp | done | tauto | tauto | done].
Qed.

(** The canonical text of an entry parses back to the entry. *)
Lemma parseCidr_text e c : parseCidr e = Ok c → parseCidr (text c) = Ok c.
Proof.
  intros (Ha & Hv & Hp & Ht)%parseCidr_ok.
  destruct (normalizeIp_Some _ _ Ha) as ((a & Hpa) & Hstrip & Htrim & Hne).
  assert (Hmax : cidr_max c ≤ 128) by (unfold cidr_max; destruct (v4 c); lia).
  destruct (prefix_roundtrip (prefix c)) as [Hd Hval]; [unfold small; lia|].
  assert (Hchars : ∀ x, x ∈ chars (text c) → is_space x = false).
  { rewrite Ht, chars_app. simpl. intros x. rewrite elem_of_app, elem_of_cons.
    intros [Hx|[->|Hx]]; [by eapply addr_char_not, parse_ip_chars | done |].
    apply (addr_char_not x), addr_char_digit. by eapply all_digits_chars. }
  assert (Hsplit : split "/" (text c) = [address c; num_to_string (prefix c)]).
  { rewrite Ht. change ("/" +:+ num_to_string (prefix c))
      with (String "/" (num_to_string (prefix c))).
    rewrite split_app, split_no_sep; [done | |].
    - intros Hx%(all_digits_chars _ _ Hd). done.
    - intros Hx. by destruct (addr_char_not "/"%char (parse_ip_chars _ _ _ Hpa Hx)). }
  unfold parseCidr. rewrite trim_id by done. rewrite Hsplit. simpl. rewrite Ha, Hd, Hval.
  rewrite <-Hv. fold (cidr_max c).
  rewrite (proj2 (Z.ltb_ge (prefix c) 0)), (proj2 (Z.ltb_ge (cidr_max c) _)) by lia.
  simpl. rewrite <-Ht. by destruct c.
Qed.

(** An entry is canonical when it is the text of what it parses to. *)
Definition canonical (t : string) : Prop := ∃ c, parseCidr t = Ok c ∧ text c = t.

Lemma canonical_nonblank t : canonical t → trim t ≠ ""%string.
Proof.
  intros (c & Hc & Ht) He. unfold parseCidr in Hc. by rewrite He in Hc.
Qed.

Lemma normalize_loop_ok es out out' :
  normalize_loop es out = Ok out' → Forall canonical out → NoDup out →
  Forall canonical out' ∧ NoDup out'.
Proof.
  revert out. induction es as [|e es IH]; intros out; simpl; [by intros [= <-]|].
  case_bool_decide; [by apply IH|].
  destruct (parseCidr e) as [c|] eqn:Hc; [|done]. simpl. intros Hl Hcan Hnd.
  apply (IH _ Hl); unfold includes; case_bool_decide; try done.
  - apply Forall_app. split; [done|]. constructor; [|done].
    exists c. split; [by eapply parseCidr_text | done].
  - apply NoDup_app. split_and!; [done | | apply NoDup_singleton].
    by intros x Hx ->%list_elem_of_singleton.
Qed.

Lemma normalize_loop_canonical l out :
  Forall canonical l → NoDup (out ++ l) → normalize_loop l out = Ok (out ++ l).
Proof.
  revert out. induction l as [|t l IH]; intros out Hc Hnd; simpl.
  { by rewrite app_nil_r. }
  apply Forall_cons in Hc as [Ht Hc].
  rewrite bool_decide_eq_false_2 by by apply canonical_nonblank.
  destruct Ht as (c & -> & Htx). simpl. rewrite Htx.
  unfold includes. rewrite bool_decide_eq_false_2.
  - rewrite IH; rewrite <-?(assoc_L (++)); done.
  - rewrite NoDup_app in Hnd. destruct Hnd as (_ & Hn & _). intros Hin.
    by apply (Hn t Hin); left.
Qed.

Lemma json_strings_JStr l : json_strings (Some (JArr (JStr <$> l))) = l.
Proof. unfold json_strings. induction l as [|x l IH]; [done|]. simpl. f_equal. exact IH. Qed.

Lemma coerce_policy_json p :
  Forall canonical (allowedCidrs p) → coercePolicy (Some (policy_json p)) = p.
Proof.
  destruct p as [e l]. intros Hl. unfold coercePolicy, policy_json, json_field. simpl.
  f_equal; [by destruct e|].
  change (omap _ (JStr <$> l)) with (json_strings (Some (JArr (JStr <$> l)))).
  rewrite json_strings_JStr. simpl in Hl.
  induction Hl as [|t l (c & Hc & _) Hl IH]; [done|].
  rewrite filter_cons_True by by rewrite Hc. by rewrite IH.
Qed.

Lemma cidr_rules_ok cs :
  (∀ c, c ∈ cs → is_ok (parseCidr c) = true) →
  ∃ rs, cidr_rules cs = Ok rs ∧
    ∀ a, check rs a = true ↔
      ∃ c r, c ∈ cs ∧ cidr_rule c = Ok r ∧ rule_matches a r = true.
Proof.
  induction cs as [|c cs IH]; intros Hcs.
  { exists []. split; [done|]. intros a. split; [done|].
    by intros (? & ? & []%elem_of_nil & _). }
  destruct IH as (rs & Hrs & Hspec); [intros; apply Hcs; by right|].
  destruct (parseCidr c) as [p|] eqn:Hp;
    [|specialize (Hcs c (list_elem_of_here _ _)); by rewrite Hp in Hcs].
  destruct (parseCidr_ok _ _ Hp) as (Ha & _).
  destruct (normalizeIp_Some _ _ Ha) as ((a & Hpa) & _).
  assert (Hr : cidr_rule c = Ok (Rule a (prefix p))).
  { unfold cidr_rule. rewrite Hp. simpl. by rewrite Hpa. }
  exists (Rule a (prefix p) :: rs). split.
  { cbn [cidr_rules]. rewrite Hr. simpl. by rewrite Hrs. }
  intros b. change (check (Rule a (prefix p) :: rs) b)
    with (rule_matches b (Rule a (prefix p)) || check rs b).
  rewrite orb_true_iff, Hspec. split.
  - intros [Hm|(c' & r & ? & ?)].
    + exists c, (Rule a (prefix p)). by split; [left|].
    + exists c', r. by split; [right|].
  - intros (c' & r & [->|Hc']%elem_of_cons & Hr' & Hm).
    + left. rewrite Hr in Hr'. by injection Hr' as <-.
    + right. eauto.
Qed.

End LoginPolicy.

Section LoginPolicyTheorems.
Import LocalLoginPolicy LocalLoginPolicyService.

(** what an administrator saves is what is enforced: after [set] the row
    reads back as the returned policy, whose entries are distinct and canonical
    (normalizing them again changes nothing). *)
Theorem set_policy_roundtrip (input p : policy) (s s' : state) (o : list output) :
  set_policy input s = (Ok p, s', o) →
  coercePolicy (setting s') = p ∧ enabled p = enabled input ∧
  NoDup (allowedCidrs p) ∧ normalizeCidrs (allowedCidrs p) = Ok (allowedCidrs p).
Proof.
  unfold set_policy, lift, mbind, svc_bind, modify, mret, svc_ret.
  destruct (normalizeCidrs (allowedCidrs input)) as [cidrs|] eqn:Hn; [|done].
  intros [= <- <- _].
  destruct (normalize_loop_ok _ _ _ Hn) as [Hcan Hnd]; [done | apply NoDup_nil_2 |].
  split_and!; [by apply coerce_policy_json | done | done |].
  by apply (normalize_loop_canonical cidrs []).
Qed.

Lemma set_policy_roundtrip_witness :
  let input := Policy true
    [" ::ffff:192.168.1.0/24"; ""; "fe80::1%eth0/64"; "192.168.1.0/24"]%string in
  let p := Policy true ["192.168.1.0/24"; "fe80::1%eth0/64"]%string in
  let s' := State (Some (policy_json p)) ∅ in
  coercePolicy (setting s') = p ∧ enabled p = enabled input ∧
  NoDup (allowedCidrs p) ∧ normalizeCidrs (allowedCidrs p) = Ok (allowedCidrs p).
Proof.
  intros input p s'. apply (set_policy_roundtrip input p (State None ∅) s' []).
  vm_compute. reflexivity.
Defined.

(** whatever is stored in the settings row, the check returns a verdict
    (no stored entry can make it throw), and the verdict is: enabled, and
    either no list or an address inside one of the listed subnets. *)
Theorem isIpAllowed_stored (v : option json) (ip : option string) :
  let p := coercePolicy v in
  ∃ b, isIpAllowed p ip = Ok b ∧
    (b = true ↔ enabled p = true ∧
      (allowedCidrs p = [] ∨
       ∃ addr a c r, normalizeIp ip = Some addr ∧ parse_ip addr = Some a ∧
         c ∈ allowedCidrs p ∧ cidr_rule c = Ok r ∧ rule_matches a r = true)).
Proof.
  simpl. assert (Hvalid : ∀ c, c ∈ allowedCidrs (coercePolicy v) → is_ok (parseCidr c) = true).
  { intros c. destruct v as [[]|]; try by intros ?%elem_of_nil.
    intros Hc. by apply list_elem_of_filter in Hc as [? _]. }
  generalize dependent (coercePolicy v). intros p Hvalid. clear v.
  unfold isIpAllowed. destruct (enabled p); simpl;
    [|exists false; split; [done | split; [done | by intros [? _]]]].
  case_bool_decide as He; [exists true; split; [done | split; auto]|].
  destruct (normalizeIp ip) as [addr|] eqn:Hip.
  2: { exists false. split; [done|]. split; [done|].
    by intros (_ & [?|(? & ? & ? & ? & ? & _)]). }
  destruct (cidr_rules_ok _ Hvalid) as (rs & -> & Hspec).
  destruct (normalizeIp_Some _ _ Hip) as ((a & Ha) & _). simpl. rewrite Ha.
  eexists. split; [done|]. simpl. rewrite Hspec. split.
  - intros (c & r & ? & ? & ?). split; [done|]. right. by exists addr, a, c, r.
  - intros (_ & [?|(addr' & a' & c & r & [= <-] & Ha' & ? & ? & ?)]); [done|].
    assert (a' = a) as -> by congruence. eauto.
Qed.

(** a stored list none of whose entries parses is no restriction at all:
    every address may sign in with a password (the list becomes empty, and an
    empty list means everyone). *)
Theorem corrupt_list_allows_everyone (l : list string) (ip : option string) :
  (∀ c, c ∈ l → is_ok (parseCidr c) = false) →
  isIpAllowed (coercePolicy (Some (policy_json (Policy true l)))) ip = Ok true.
Proof.
  intros Hl. unfold isIpAllowed.
  assert (Hp : coercePolicy (Some (policy_json (Policy true l))) = Policy true []).
  { unfold coercePolicy, policy_json, json_field. simpl. f_equal.
    change (omap _ (JStr <$> l)) with (json_strings (Some (JArr (JStr <$> l)))).
    rewrite json_strings_JStr.
    induction l as [|c l IH]; [done|].
    rewrite filter_cons_False by (rewrite (Hl c (list_elem_of_here _ _)); done).
    apply IH. intros ? ?. apply Hl. by right. }
  by rewrite Hp.
Qed.

Lemma corrupt_list_allows_everyone_witness :
  isIpAllowed (coercePolicy (Some (policy_json (Policy true ["10.0.0.0/33"]%string))))
    (Some "203.0.113.9"%string) = Ok true.
Proof.
  apply corrupt_list_allows_everyone.
  intros c ->%list_elem_of_singleton. vm_compute. reflexivity.
Defined.

(** [assertAllowed] passes exactly the allowed addresses and answers every
    other one with the same 403; a refusal is logged and audited exactly when
    the address was not audited within the window, whatever happens the policy
    row is untouched and the throttle table stays bounded. *)
Theorem assertAllowed_spec (now : Z) (ip email : option string) (s : state) :
  (size (lastBlockedAudit s) ≤ 1000)%nat →
  let key := default "unknown"%string (normalizeIp ip) in
  let '(r, s', o) := assertAllowed now ip email s in
  setting s' = setting s ∧ (size (lastBlockedAudit s') ≤ 1000)%nat ∧
  if bool_decide (isAllowed ip s = Ok true) then r = Ok tt ∧ s' = s ∧ o = []
  else r = Err refuse ∧
    if audit_throttled now (lastBlockedAudit s !! key) then s' = s ∧ o = []
    else s' = note_blocked key now s ∧
      OAudit (Audit None email "auth.login_blocked_ip" (Some key)) ∈ o.
Proof.
  intros Hsz. simpl. unfold assertAllowed, get, mbind, svc_bind.
  set (key := default "unknown"%string (normalizeIp ip)).
  destruct (isAllowed ip s) as [[]|e] eqn:Ha.
  { rewrite bool_decide_eq_true_2 by done. done. }
  all: rewrite bool_decide_eq_false_2 by congruence.
  all: destruct (audit_throttled now (lastBlockedAudit s !! key)); simpl; [done|].
  all: split_and!; [done | | done | done | right; left].
  all: case_match eqn:Hs; [rewrite map_size_empty; lia | by apply Nat.ltb_ge in Hs].
Qed.

Lemma assertAllowed_spec_witness :
  let s := State (Some (policy_json (Policy true ["10.0.0.0/8"]%string))) ∅ in
  let '(r, s', o) := assertAllowed 1000000 (Some "192.168.1.7"%string) None s in
  setting s' = setting s ∧ (size (lastBlockedAudit s') ≤ 1000)%nat ∧
  if bool_decide (isAllowed (Some "192.168.1.7"%string) s = Ok true)
  then r = Ok tt ∧ s' = s ∧ o = []
  else r = Err refuse ∧
    if audit_throttled 1000000 (lastBlockedAudit s !! "192.168.1.7"%string)
    then s' = s ∧ o = []
    else s' = note_blocked "192.168.1.7" 1000000 s ∧
      OAudit (Audit None None "auth.login_blocked_ip" (Some "192.168.1.7"%string)) ∈ o.
Proof.
  apply (assertAllowed_spec 1000000 (Some "192.168.1.7"%string) None
    (State (Some (policy_json (Policy true ["10.0.0.0/8"]%string))) ∅)).
  vm_compute. lia.
Defined.

End LoginPolicyTheorems.
