(* ===== verification/Accounts.v ===== *)
(** * Accounts: users, roles and recovery codes, [auth/auth.service.ts] and
    [users/users.service.ts]

    The tables the authentication services share, the password check, the
    session principal and user administration, whose guard keeps at least one
    active administrator. *)

From S2P Require Import Prelude JsText Rbac.

(** ** Password hashing, the [bcryptjs] package *)
Class Bcrypt := {
  bcrypt_hash : string → string → string;       (** salt, password *)
  bcrypt_compare : string → string → bool       (** password, hash *)
}.

(** A hash accepts the password it was made from, and no other. *)
Class BcryptLaws `{Bcrypt} := {
  bcrypt_compare_hash salt p q : bcrypt_compare p (bcrypt_hash salt q) = true ↔ p = q
}.

(** ** The tables ([schema.prisma]) *)

Record Role := {
  role_id : string;
  slug : string;
  role_name : string;
  permissions : list Permission;
  builtin : bool
}.

Record User := {
  user_id : string;
  email : string;
  displayName : string;
  passwordHash : option string;
  authProvider : string;
  totpSecret : option string;
  totpEnabledAt : option Z;
  disabled : bool;
  roleId : string;
  lastLoginAt : option Z
}.

Record UserRecoveryCode := {
  code_id : string;
  code_userId : string;
  codeHash : string;
  consumedAt : option Z
}.

Record db := Db {
  users : list User;
  roles : list Role;
  codes : list UserRecoveryCode
}.

Abbreviation call := (svc db output http_error).

Definition with_users (f : list User → list User) (s : db) : db :=
  Db (f (users s)) (roles s) (codes s).
Definition with_codes (f : list UserRecoveryCode → list UserRecoveryCode) (s : db) : db :=
  Db (users s) (roles s) (f (codes s)).

Definition has_id (i : string) (u : User) : bool := bool_decide (user_id u = i).

(** [user.findUnique({ where: { id } })] *)
Definition find_user (i : string) (s : db) : option User := findFirst (has_id i) (users s).

(** [user.update({ where: { id }, data })] *)
Definition update_user (i : string) (f : User → User) : call unit :=
  modify (with_users (updateMany (has_id i) f)).

Definition set_totp (secret : option string) (enabledAt : option Z) (u : User) : User :=
  {| user_id := user_id u; email := email u; displayName := displayName u;
     passwordHash := passwordHash u; authProvider := authProvider u;
     totpSecret := secret; totpEnabledAt := enabledAt; disabled := disabled u;
     roleId := roleId u; lastLoginAt := lastLoginAt u |}.

Definition set_lastLogin (t : Z) (u : User) : User :=
  {| user_id := user_id u; email := email u; displayName := displayName u;
     passwordHash := passwordHash u; authProvider := authProvider u;
     totpSecret := totpSecret u; totpEnabledAt := totpEnabledAt u; disabled := disabled u;
     roleId := roleId u; lastLoginAt := Some t |}.

Definition set_roleId (r : string) (u : User) : User :=
  {| user_id := user_id u; email := email u; displayName := displayName u;
     passwordHash := passwordHash u; authProvider := authProvider u;
     totpSecret := totpSecret u; totpEnabledAt := totpEnabledAt u; disabled := disabled u;
     roleId := r; lastLoginAt := lastLoginAt u |}.

Definition set_disabled (d : bool) (u : User) : User :=
  {| user_id := user_id u; email := email u; displayName := displayName u;
     passwordHash := passwordHash u; authProvider := authProvider u;
     totpSecret := totpSecret u; totpEnabledAt := totpEnabledAt u; disabled := d;
     roleId := roleId u; lastLoginAt := lastLoginAt u |}.

(** ** [auth/auth.service.ts] *)
Module AuthService.
Section service.
Context `{Bcrypt}.

Definition isFirstRun (s : db) : bool := (length (users s) =? 0)%nat.

Definition validateLocal (now : Z) (mail password : string) : call (option string) :=
  s ← get;
  match findFirst (λ u, bool_decide (email u = toLowerCase mail)) (users s) with
  | Some u =>
      match disabled u, passwordHash u with
      | false, Some h =>
          if bool_decide (h = "") then mret None
          else if bcrypt_compare password h
          then update_user (user_id u) (set_lastLogin now) ;; mret (Some (user_id u))
          else mret None
      | _, _ => mret None
      end
  | None => mret None
  end.

Definition verifyPassword (userId password : string) (s : db) : bool :=
  if bool_decide (password = "") then false
  else match find_user userId s with
  | Some u => negb (disabled u) && truthy (passwordHash u) &&
      bcrypt_compare password (default "" (passwordHash u))
  | None => false
  end.

Definition hasPassword (userId : string) (s : db) : bool :=
  from_option (λ u, truthy (passwordHash u)) false (find_user userId s).

Definition buildSessionUser (userId : string) (s : db) : option SessionUser :=
  u ← find_user userId s;
  if disabled u then None
  else
    r ← findFirst (λ r, bool_decide (role_id r = roleId u)) (roles s);
    Some {| su_id := user_id u; su_email := email u; su_displayName := displayName u;
            su_roleSlug := slug r; su_roleName := role_name r;
            su_permissions := permissions r;
            su_authProvider :=
              (if bool_decide (authProvider u = "oidc") then "oidc" else "local") |}.

(** [upsert] on the slug, creating the built-in administrator role. *)
Definition ensureAdminRole (newId : string) : call Role :=
  s ← get;
  match findFirst (λ r, bool_decide (slug r = br_slug admin)) (roles s) with
  | Some r => mret r
  | None =>
      let r := {| role_id := newId; slug := br_slug admin; role_name := br_name admin;
                  permissions := br_permissions admin; builtin := true |} in
      put (Db (users s) (createRow r (roles s)) (codes s)) ;; mret r
  end.

(** The ids and the salt are the database's and [bcrypt]'s choices. *)
Definition createInitialAdmin (roleId userId salt mail name password : string) :
    call string :=
  first ← gets isFirstRun;
  throw_if (negb first) (BadRequest "Setup has already been completed.") ;;
  r ← ensureAdminRole roleId;
  let u := {| user_id := userId; email := toLowerCase mail; displayName := name;
              passwordHash := Some (bcrypt_hash salt password); authProvider := "local";
              totpSecret := None; totpEnabledAt := None; disabled := false;
              Accounts.roleId := role_id r; lastLoginAt := None |} in
  modify (with_users (createRow u)) ;;
  tell (OAudit (Audit (Some userId) (Some (toLowerCase mail)) "setup.admin_created"
    (Some (toLowerCase mail)))) ;;
  mret userId.

End service.
End AuthService.

(** ** [users/users.service.ts] *)
Module UsersService.
Section service.
Context `{Bcrypt}.

Record user_input := {
  in_email : string;
  in_displayName : option string;
  in_password : option string;
  in_roleSlug : string
}.

Definition find_role (sl : string) (s : db) : option Role :=
  findFirst (λ r, bool_decide (slug r = sl)) (roles s).

(** [a?.trim() || b] *)
Definition or_blank (a : option string) (b : string) : string :=
  let t := trim (default "" a) in if bool_decide (t = "") then b else t.

Definition create (newId salt : string) (input : user_input) : call (string * bool) :=
  s ← get;
  role ← or_throw (find_role (in_roleSlug input) s) (BadRequest "Unknown role.");
  let mail := toLowerCase (in_email input) in
  let password := trim (default "" (in_password input)) in
  let invited := bool_decide (password = "") in
  throw_if (some (λ u, bool_decide (email u = mail)) (users s))
    (BadRequest
      (if invited then mail +:+ " already has an account — it will be linked to SSO automatically the first time they sign in with that provider, so no invite is needed."
       else "A user with that email already exists.")) ;;
  throw_if (negb invited && (String.length password <? 10)%nat)
    (BadRequest "Password must be at least 10 characters.") ;;
  modify (with_users (createRow
    {| user_id := newId; email := mail;
       displayName := or_blank (in_displayName input) (default "" (split "@"%char mail !! 0%nat));
       passwordHash := if invited then None else Some (bcrypt_hash salt password);
       authProvider := if invited then "oidc" else "local";
       totpSecret := None; totpEnabledAt := None; disabled := false;
       roleId := role_id role; lastLoginAt := None |})) ;;
  mret (newId, invited).

Definition adminRoleIds (s : db) : list string :=
  role_id <$> findMany (λ r, includes "users:write" (permissions r)) (roles s).

Definition active_admin (s : db) (u : User) : bool :=
  negb (disabled u) && includes (roleId u) (adminRoleIds s).

(** The decision of [assertKeepsAnAdmin] on the tables it reads. *)
Definition keeps_an_admin (userId : string) (newRoleId : option string) (s : db) : bool :=
  match find_user userId s with
  | None => true
  | Some u =>
      if negb (active_admin s u) then true
      else if from_option (λ r, includes r (adminRoleIds s)) false newRoleId then true
      else negb (countWhere (λ v, negb (has_id userId v) && active_admin s v) (users s) =? 0)%nat
  end.

Definition last_admin : http_error :=
  BadRequest "This is the last active administrator — grant the admin role to another active user first.".

Definition assertKeepsAnAdmin (userId : string) (newRoleId : option string) : call unit :=
  ok ← gets (keeps_an_admin userId newRoleId);
  throw_if (negb ok) last_admin.

(** [setRole] up to its last write, which [setRole_commit] is: between the two
    the event loop may run other requests. *)
Definition setRole_check (userId roleSlug : string) : call string :=
  s ← get;
  role ← or_throw (find_role roleSlug s) (BadRequest "Unknown role.");
  or_throw (find_user userId s) (NotFound "User not found.") ;;
  assertKeepsAnAdmin userId (Some (role_id role)) ;;
  mret (role_id role).

Definition setRole_commit (userId newRoleId : string) : call unit :=
  update_user userId (set_roleId newRoleId).

Definition setRole (userId roleSlug : string) : call unit :=
  r ← setRole_check userId roleSlug;
  setRole_commit userId r.

Definition setDisabled (userId : string) (d : bool) : call unit :=
  s ← get;
  or_throw (find_user userId s) (NotFound "User not found.") ;;
  when d (assertKeepsAnAdmin userId None) ;;
  update_user userId (set_disabled d).

Definition clearMfa (userId : string) : call bool :=
  s ← get;
  u ← or_throw (find_user userId s) (NotFound "User not found.");
  update_user userId (set_totp None None) ;;
  modify (with_codes (deleteMany (λ c, bool_decide (code_userId c = userId)))) ;;
  mret (bool_decide (is_Some (totpEnabledAt u))).

(** Deleting the row cascades to the user's recovery codes. *)
Definition remove (userId actingUserId : string) : call unit :=
  throw_if (bool_decide (userId = actingUserId))
    (BadRequest "You can't delete your own account.") ;;
  s ← get;
  or_throw (find_user userId s) (NotFound "User not found.") ;;
  assertKeepsAnAdmin userId None ;;
  modify (with_users (deleteMany (has_id userId))) ;;
  modify (with_codes (deleteMany (λ c, bool_decide (code_userId c = userId)))).

(** The requests of the users controller. *)
Inductive request :=
| Create (newId salt : string) (input : user_input)
| SetRole (userId roleSlug : string)
| SetDisabled (userId : string) (d : bool)
| ClearMfa (userId : string)
| Remove (userId actingUserId : string).

Definition handle (r : request) (s : db) : db :=
  match r with
  | Create i salt input => run_state (create i salt input) s
  | SetRole u r => run_state (setRole u r) s
  | SetDisabled u d => run_state (setDisabled u d) s
  | ClearMfa u => run_state (clearMfa u) s
  | Remove u a => run_state (remove u a) s
  end.

End service.
End UsersService.

(** ** Lemmas *)
Section lemmas.
Context `{Bcrypt}.
Import UsersService.

(** What the tables always satisfy: the two unique columns, and at least one
    account that is enabled and whose role may manage users. *)
Definition unique_users (s : db) : Prop :=
  NoDup (user_id <$> users s) ∧ NoDup (email <$> users s).

Definition has_admin (s : db) : Prop := ∃ u, u ∈ users s ∧ active_admin s u = true.

Lemma find_user_Some i s u : find_user i s = Some u → u ∈ users s ∧ user_id u = i.
Proof. intros [? ?%bool_decide_eq_true]%findFirst_Some. done. Qed.

Lemma NoDup_fmap_filter {A K} (f : A → K) (P : A → Prop) `{∀ x, Decision (P x)} l :
  NoDup (f <$> l) → NoDup (f <$> filter P l).
Proof.
  induction l as [|x l IH]; [done|]. rewrite fmap_cons, NoDup_cons. intros [Hx Hl].
  destruct (decide (P x)).
  - rewrite filter_cons_True, fmap_cons, NoDup_cons by done. split; [|auto].
    intros (y & Hy & [_ Hin]%list_elem_of_filter)%list_elem_of_fmap.
    apply Hx. rewrite Hy. by apply list_elem_of_fmap_2.
  - rewrite filter_cons_False by done. auto.
Qed.

Lemma active_admin_roles s s' u : roles s = roles s' → active_admin s u = active_admin s' u.
Proof. unfold active_admin, adminRoleIds. by intros ->. Qed.

(** What the guard's approval means: the update it allows leaves someone. *)
Lemma keeps_an_admin_true userId r s :
  unique_users s → has_admin s → keeps_an_admin userId r s = true →
  (∃ u, u ∈ users s ∧ user_id u ≠ userId ∧ active_admin s u = true) ∨
  (∃ u r', find_user userId s = Some u ∧ active_admin s u = true ∧ r = Some r' ∧
    r' ∈ adminRoleIds s).
Proof.
  intros [Hid _] (a & Ha & Hact). unfold keeps_an_admin.
  destruct (decide (user_id a = userId)) as [Hau|]; [|left; by eauto].
  destruct (find_user userId s) as [u|] eqn:Hu.
  - apply find_user_Some in Hu as Hu'. destruct Hu' as [Hin Hui].
    assert (a = u) as <- by (by eapply (NoDup_key user_id); [..|congruence]).
    rewrite Hact. simpl. intros Hk.
    destruct (from_option _ false r) eqn:Hr.
    + right. destruct r as [r'|]; [|done]. simpl in Hr. apply includes_true in Hr. eauto 10.
    + left. unfold countWhere in Hk. destruct (findMany _ (users s)) as [|v l] eqn:Hf; [done|].
      assert (v ∈ v :: l) as Hv by apply list_elem_of_here. rewrite <-Hf in Hv.
      apply elem_of_findMany in Hv as [[Hne Hav]%andb_true_iff Hv].
      exists v. apply negb_true_iff in Hne. by apply bool_decide_eq_false in Hne.
  - pose proof (proj1 (findFirst_None _ _) Hu a Ha) as Hn.
    by apply bool_decide_eq_false in Hn.
Qed.

Lemma users_update f i s :
  (∀ u, user_id (f u) = user_id u ∧ email (f u) = email u) →
  unique_users s → unique_users (with_users (updateMany (has_id i) f) s).
Proof.
  intros Hf [Hid Hem]. split; simpl; rewrite fmap_updateMany; (done || apply Hf).
Qed.

Lemma has_admin_other i f s :
  (∃ u, u ∈ users s ∧ user_id u ≠ i ∧ active_admin s u = true) →
  has_admin (with_users (updateMany (has_id i) f) s).
Proof.
  intros (u & Hu & Hne & Hact). exists u. split; [|done]. simpl.
  apply elem_of_updateMany. exists u. split; [done|]. unfold has_id.
  by rewrite bool_decide_eq_false_2.
Qed.

(** An update of the account itself, if it leaves it an active administrator. *)
Lemma has_admin_self i f s u :
  find_user i s = Some u → active_admin s (f u) = true →
  has_admin (with_users (updateMany (has_id i) f) s).
Proof.
  intros [Hin Hui]%find_user_Some Hf. exists (f u). split; [|done]. simpl.
  apply elem_of_updateMany. exists u. split; [done|]. unfold has_id.
  by rewrite bool_decide_eq_true_2.
Qed.

(** An update that leaves every account's standing alone. *)
Lemma has_admin_update i f s :
  (∀ u, active_admin s u = true → active_admin s (f u) = true) →
  has_admin s → has_admin (with_users (updateMany (has_id i) f) s).
Proof.
  intros Hf (u & Hu & Hact). exists (if has_id i u then f u else u). split.
  - apply elem_of_updateMany. eauto.
  - rewrite (active_admin_roles _ s) by done. destruct (has_id i u); auto.
Qed.
End lemmas.

Section last_admin.
Context `{Bcrypt}.
Import UsersService.

Definition administered (s : db) : Prop := unique_users s ∧ has_admin s.

(** Ids the database generates are new. *)
Definition fresh (r : request) (s : db) : Prop :=
  match r with Create i _ _ => i ∉ user_id <$> users s | _ => True end.

Fixpoint fresh_run (rs : list request) (s : db) : Prop :=
  match rs with [] => True | r :: rs' => fresh r s ∧ fresh_run rs' (handle r s) end.

Ltac open_handler :=
  unfold run_state, mbind, svc_bind, get, gets, or_throw, throw_if, when, throw, mret,
    svc_ret, modify, update_user in *;
  simpl; repeat (case_match; simplify_eq/=).

Lemma administered_codes f s : administered s → administered (with_codes f s).
Proof. intros [? (u & ? & ?)]. split; [done|]. exists u. done. Qed.

Lemma create_administered i salt input s :
  i ∉ user_id <$> users s → administered s → administered (handle (Create i salt input) s).
Proof.
  intros Hi [[Hid Hem] Ha]. simpl. unfold create. open_handler; try done.
  all: split; [split|].
  all: try (simpl; unfold createRow; rewrite fmap_app, NoDup_app; split_and!;
    [done | | apply NoDup_singleton]).
  all: try (intros x Hx ->%list_elem_of_singleton; done).
  all: try (destruct Ha as (u & Hu & Hact); exists u; split; [|done];
    apply elem_of_app; by left).
  all: intros x Hx ->%list_elem_of_singleton; simpl in Hx.
  all: apply list_elem_of_fmap in Hx as (u & Hu & Hin).
  all: match goal with H : some _ _ = false |- _ =>
    pose proof (proj1 (some_false _ _) H u Hin) as Hn end.
  all: apply bool_decide_eq_false in Hn; congruence.
Qed.

Lemma setRole_administered i sl s : administered s → administered (handle (SetRole i sl) s).
Proof.
  intros [Hu Ha]. simpl. unfold setRole, setRole_check, setRole_commit, assertKeepsAnAdmin.
  open_handler; try done. split; [by apply users_update|].
  match goal with H : negb (keeps_an_admin _ _ _) = false |- _ =>
    apply negb_false_iff, keeps_an_admin_true in H as [?|(u & r' & Hf & Hact & [= <-] & Hr)] end;
    [by apply has_admin_other | | done | done].
  eapply has_admin_self; [done|]. unfold active_admin in *. simpl.
  apply andb_true_iff in Hact as [-> _]. by apply includes_true.
Qed.

Lemma setDisabled_administered i d s :
  administered s → administered (handle (SetDisabled i d) s).
Proof.
  intros [Hu Ha]. simpl. unfold setDisabled, assertKeepsAnAdmin.
  open_handler; try done; (split; [by apply users_update|]).
  - match goal with H : negb (keeps_an_admin _ _ _) = false |- _ =>
      apply negb_false_iff, keeps_an_admin_true in H as [?|(? & ? & ? & ? & ? & ?)] end;
      by try apply has_admin_other.
  - apply has_admin_update; [|done]. intros u Hact. unfold active_admin in *.
    apply andb_true_iff in Hact as [_ Hr]. simpl. by rewrite Hr.
Qed.

Lemma clearMfa_administered i s : administered s → administered (handle (ClearMfa i) s).
Proof.
  intros [Hu Ha]. simpl. unfold clearMfa. open_handler; try done;
    apply administered_codes;
    (split; [by apply users_update | by apply has_admin_update]).
Qed.

Lemma remove_administered i a s : administered s → administered (handle (Remove i a) s).
Proof.
  intros [Hu Ha]. simpl. unfold remove, assertKeepsAnAdmin.
  open_handler; try done. apply administered_codes.
  destruct Hu as [Hid Hem]. split.
  - split; by apply NoDup_fmap_filter.
  - match goal with H : negb (keeps_an_admin _ _ _) = false |- _ =>
      apply negb_false_iff, keeps_an_admin_true in H
        as [(u & Hin & Hne & Hact)|(? & ? & ? & ? & ? & ?)] end; try done.
    exists u. split; [|done]. apply elem_of_deleteMany. split; [|done].
    unfold has_id. by rewrite bool_decide_eq_false_2.
Qed.

Lemma handle_administered r s : fresh r s → administered s → administered (handle r s).
Proof.
  destruct r; eauto using create_administered, setRole_administered,
    setDisabled_administered, clearMfa_administered, remove_administered.
Qed.

(** C5: no sequence of user-administration requests, whatever their arguments,
    leaves the instance without an enabled account that may manage users, and
    account ids and e-mail addresses stay unique throughout. *)
Theorem users_requests_keep_an_admin (rs : list request) (s : db) :
  fresh_run rs s → administered s → administered (foldl (λ s r, handle r s) s rs).
Proof.
  revert s. induction rs as [|r rs IH]; intros s; [done|].
  intros [Hf Hrs] Hs. simpl. apply IH; [done|]. by apply handle_administered.
Qed.

End last_admin.

(** Two administrators, for the witnesses. *)
Section samples.
Definition sample_user (i r : string) : User :=
  {| user_id := i; email := i +:+ "@x"; displayName := i; passwordHash := Some "pw";
     authProvider := "local"; totpSecret := None; totpEnabledAt := None; disabled := false;
     roleId := r; lastLoginAt := None |}.
Definition sample_role (i : string) (b : builtin_role) : Role :=
  {| role_id := i; slug := br_slug b; role_name := br_name b;
     permissions := br_permissions b; builtin := true |}.
Definition sample_db : db :=
  Db [sample_user "u1" "ra"; sample_user "u2" "ra"]
    [sample_role "ra" admin; sample_role "rv" viewer] [].
Definition plain_bcrypt : Bcrypt :=
  {| bcrypt_hash := λ _ p, p; bcrypt_compare := λ p h, bool_decide (p = h) |}.
End samples.

#[export] Instance plain_bcrypt_laws : @BcryptLaws plain_bcrypt.
Proof. split. intros salt p q. apply bool_decide_eq_true. Qed.

Lemma sample_administered : administered sample_db.
Proof.
  split; [split; apply (bool_decide_unpack _); vm_compute; exact I|].
  exists (sample_user "u1" "ra"). split; [by left | by vm_compute].
Qed.

Lemma users_requests_keep_an_admin_witness :
  let rs := [UsersService.SetRole "u1" "viewer"; UsersService.Remove "u2" "u1";
    UsersService.SetDisabled "u2" true] in
  administered (foldl (λ s r, @UsersService.handle plain_bcrypt r s) sample_db rs) ∧
  foldl (λ s r, @UsersService.handle plain_bcrypt r s) sample_db rs =
    @UsersService.handle plain_bcrypt (UsersService.SetRole "u1" "viewer") sample_db.
Proof.
  split.
  - apply (@users_requests_keep_an_admin plain_bcrypt
      [UsersService.SetRole "u1" "viewer"; UsersService.Remove "u2" "u1";
       UsersService.SetDisabled "u2" true] sample_db); [by vm_compute|].
    apply sample_administered.
  - vm_compute. reflexivity.
Defined.

(** the guard and the write are separate steps: when two requests that
    demote the last two administrators interleave, both guards pass and nobody
    is left to manage users. *)
Theorem interleaved_demotions_strand_the_instance :
  ∃ (s : db) (u1 u2 r : string),
    administered s ∧ u1 ≠ u2 ∧
    run_result (UsersService.setRole_check u1 "viewer") s = Ok r ∧
    run_result (UsersService.setRole_check u2 "viewer") s = Ok r ∧
    ¬ has_admin (run_state (UsersService.setRole_commit u2 r)
        (run_state (UsersService.setRole_commit u1 r) s)).
Proof.
  exists sample_db, "u1", "u2", "rv".
  split_and!; [apply sample_administered | done | by vm_compute | by vm_compute |].
  set (s' := run_state _ _).
  assert (Hall : some (UsersService.active_admin s') (users s') = false) by by vm_compute.
  intros (u & Hu & Ha). rewrite some_false in Hall. by rewrite (Hall u Hu) in Ha.
Qed.
