(* ===== verification/Crypto.v ===== *)
(** * Encryption at rest, [common/crypto.service.ts]

    AES-256-GCM, SHA-256, HMAC and base64 come from Node: they are operations
    of a type class, and what the service relies on are its laws.  The service
    itself (key derivation, the [iv:tag:data] format, the refusals) is
    modelled here; the stores that encrypt use it through [Vault]. *)

From S2P Require Import Prelude JsText.
#[local] Set Default Proof Using "Type*".

(** ** Node's [crypto] and [Buffer] *)
Class NodeCrypto := {
  sha256 : list string → string;                 (** successive [update]s *)
  hmac_sha256_hex : string → string → string;    (** key, message *)
  gcm_seal : string → string → string → string * string;  (** key, iv, text: tag, data *)
  gcm_open : string → string → string → string → option string; (** key, iv, tag, data *)
  base64 : string → string;
  unbase64 : string → string
}.

Class NodeCryptoLaws `{NodeCrypto} := {
  gcm_open_seal key iv text :
    gcm_open key iv (gcm_seal key iv text).1 (gcm_seal key iv text).2 = Some text;
  gcm_tag_ne key iv text : (gcm_seal key iv text).1 ≠ "";
  (** Counter mode: the data is as long as the text. *)
  gcm_data_length key iv text :
    String.length (gcm_seal key iv text).2 = String.length text;
  unbase64_base64 s : unbase64 (base64 s) = s;
  base64_ne s : base64 s = "" ↔ s = "";
  base64_alphabet s c : c ∈ chars (base64 s) → c ≠ ":"%char
}.

Section crypto.
Context `{NodeCrypto}.

(** [new Set(raw).size] *)
Definition looksLowEntropy (raw : string) : bool :=
  if String.length raw <? 24 then true else length (uniq (chars raw)) <? 16.

Definition deriveKey (raw : string) : string := sha256 [raw].

Record service := Service { rawKey : string; key : string; warned : bool }.

(** The constructor, on the APP_ENCRYPTION_KEY of the environment. *)
Definition new_service (env : option string) : result string service :=
  match env with
  | Some raw =>
      if bool_decide (raw = "") || (String.length raw <? 16)
      then Err "APP_ENCRYPTION_KEY is missing or too short. Generate one with: openssl rand -base64 32"
      else Ok (Service raw (deriveKey raw) (looksLowEntropy raw))
  | None =>
      Err "APP_ENCRYPTION_KEY is missing or too short. Generate one with: openssl rand -base64 32"
  end.

(** The shared body of [decrypt] and [decryptWithKey]; a failed tag check is the
    exception [decipher.final] throws. *)
Definition open_payload (k payload : string) : result string string :=
  let parts := split ":"%char payload in
  let part i := default "" (parts !! i) in
  if bool_decide (part 0%nat = "") || bool_decide (part 1%nat = "") ||
     bool_decide (part 2%nat = "")
  then Err "Malformed ciphertext."
  else match gcm_open k (unbase64 (part 0%nat)) (unbase64 (part 1%nat))
               (unbase64 (part 2%nat)) with
  | Some text => Ok text
  | None => Err "Unsupported state or unable to authenticate data"
  end.

Definition decryptWithKey (payload raw : string) : result string string :=
  open_payload (deriveKey raw) payload.

Definition decrypt (s : service) (payload : string) : result string string :=
  open_payload (key s) payload.

(** [iv] is the random 12-byte nonce. *)
Definition encrypt (s : service) (iv plaintext : string) : string :=
  let '(authTag, encrypted) := gcm_seal (key s) iv plaintext in
  base64 iv +:+ ":" +:+ base64 authTag +:+ ":" +:+ base64 encrypted.

Definition valueDigest (s : service) (value : string) : string :=
  slice_to 32 (hmac_sha256_hex (sha256 [key s; "cerebro:value-digest:v1"]) value).

End crypto.

(** ** Lemmas and theorems *)
Section theorems.
Context `{NodeCryptoLaws}.

Lemma split_payload a b c :
  split ":" (base64 a +:+ ":" +:+ base64 b +:+ ":" +:+ base64 c) =
    [base64 a; base64 b; base64 c].
Proof.
  assert (Hno : ∀ s, ":"%char ∉ chars (base64 s)) by (intros s Hs; by apply (base64_alphabet s) in Hs).
  change (":" +:+ base64 b +:+ ":" +:+ base64 c)
    with (String ":" (base64 b +:+ String ":" (base64 c))).
  by rewrite split_app, split_app, split_no_sep.
Qed.

Lemma open_encrypt s k iv plaintext :
  iv ≠ "" → key s = k →
  open_payload k (encrypt s iv plaintext) =
    if bool_decide (plaintext = "") then Err "Malformed ciphertext." else Ok plaintext.
Proof.
  intros Hiv <-. unfold encrypt.
  destruct (gcm_seal (key s) iv plaintext) as [tag data] eqn:Hs.
  unfold open_payload. rewrite split_payload. simpl. rewrite !unbase64_base64.
  pose proof (gcm_tag_ne (key s) iv plaintext) as Ht.
  pose proof (gcm_data_length (key s) iv plaintext) as Hl.
  pose proof (gcm_open_seal (key s) iv plaintext) as Ho. rewrite Hs in Ht, Hl, Ho.
  simpl in *.
  rewrite (bool_decide_eq_false_2 (base64 iv = "")), (bool_decide_eq_false_2 (base64 tag = ""))
    by by rewrite base64_ne. simpl.
  destruct (decide (plaintext = "")) as [->|Hne].
  - rewrite bool_decide_eq_true_2; [done|]. apply base64_ne. by destruct data.
  - rewrite !bool_decide_eq_false_2; [by rewrite Ho | done |].
    rewrite base64_ne. intros ->. simpl in Hl. by destruct plaintext.
Qed.

(** a vault value comes back as it was stored, under the service's own key
    and under the raw key it was derived from (a backup restored on another
    machine), with one exception: the empty string encrypts to a payload whose
    data part is empty, and that payload is refused as malformed. *)
Theorem decrypt_encrypt (env : option string) (s : service) (iv plaintext : string) :
  new_service env = Ok s → iv ≠ "" →
  let expected :=
    if bool_decide (plaintext = "") then Err "Malformed ciphertext." else Ok plaintext in
  decrypt s (encrypt s iv plaintext) = expected ∧
  decryptWithKey (encrypt s iv plaintext) (rawKey s) = expected.
Proof.
  intros Hnew Hiv.
  assert (Hk : key s = deriveKey (rawKey s)).
  { unfold new_service in Hnew. by repeat case_match; simplify_eq. }
  split; by apply open_encrypt.
Qed.
End theorems.

(** A toy instance: the data is the text, the tag is fixed and base64 writes
    every character as two letters. *)
Section toy.
Definition toy_letter (n : nat) : ascii := Ascii.ascii_of_nat (97 + n).
Definition toy_base64 (s : string) : string :=
  of_chars (chars s ≫= λ c, [toy_letter (code c / 16); toy_letter (code c mod 16)]).
Fixpoint toy_unbase64_chars (l : list ascii) : list ascii :=
  match l with
  | a :: b :: l' => Ascii.ascii_of_nat ((code a - 97) * 16 + (code b - 97)) :: toy_unbase64_chars l'
  | _ => []
  end.
#[local] Instance toy_crypto : NodeCrypto := {|
  sha256 := λ l, join "," l;
  hmac_sha256_hex := λ k m, k +:+ m;
  gcm_seal := λ k iv p, ("T", p);
  gcm_open := λ k iv t d, if bool_decide (t = "T") then Some d else None;
  base64 := toy_base64;
  unbase64 := λ s, of_chars (toy_unbase64_chars (chars s))
|}.

Lemma toy_pair c :
  Ascii.ascii_of_nat ((code (toy_letter (code c / 16)) - 97) * 16 +
    (code (toy_letter (code c mod 16)) - 97)) = c ∧
  toy_letter (code c / 16) ≠ ":"%char ∧ toy_letter (code c mod 16) ≠ ":"%char.
Proof.
  destruct c as [[] [] [] [] [] [] [] []]; vm_compute; repeat split; discriminate.
Qed.

#[local] Instance toy_crypto_laws : NodeCryptoLaws.
Proof.
  split; try done.
  - intros s. simpl. unfold toy_base64. rewrite chars_of_chars.
    rewrite <-(of_chars_chars s) at 2. f_equal.
    induction (chars s) as [|c l IH]; [done|].
    rewrite bind_cons. cbn [app toy_unbase64_chars]. rewrite IH. f_equal. apply toy_pair.
  - intros s. simpl. unfold toy_base64. by destruct s.
  - intros s c. simpl. unfold toy_base64. rewrite chars_of_chars.
    induction (chars s) as [|d l IH]; [by intros ?%elem_of_nil|].
    rewrite bind_cons. cbn [app]. rewrite !elem_of_cons.
    pose proof (toy_pair d) as (_ & H1 & H2). intros [->|[->|?]]; auto.
Qed.

Lemma decrypt_encrypt_witness :
  let k := "0123456789abcdef" in
  let s := Service k (deriveKey k) true in
  decrypt s (encrypt s "nonce" "hunter2") = Ok "hunter2" ∧
  decryptWithKey (encrypt s "nonce" "hunter2") k = Ok "hunter2".
Proof.
  apply (decrypt_encrypt (Some "0123456789abcdef")
    (Service "0123456789abcdef" (deriveKey "0123456789abcdef") true) "nonce" "hunter2");
    [reflexivity | discriminate].
Defined.
End toy.

(** ** What the stores use of it *)

(** Encryption with the nonce drawn inside, decryption failing with an
    exception. *)
Class Vault := {
  vault_encrypt : string → string → string;        (** nonce, text *)
  vault_decrypt : string → option string
}.
Class VaultLaws `{Vault} := {
  vault_decrypt_encrypt iv text : text ≠ "" → vault_decrypt (vault_encrypt iv text) = Some text;
  vault_encrypt_ne iv text : vault_encrypt iv text ≠ ""
}.

(** The service is one, drawing its nonces from non-empty texts. *)
Section vault.
Context `{NodeCryptoLaws} (s : service).

Definition crypto_vault : Vault := {|
  vault_encrypt := λ iv text, encrypt s (String "n" iv) text;
  vault_decrypt := λ payload,
    match decrypt s payload with Ok t => Some t | Err _ => None end
|}.

#[export] Instance crypto_vault_laws : @VaultLaws crypto_vault.
Proof.
  split; intros iv text.
  - intros Hne. simpl. unfold decrypt. rewrite (open_encrypt s) by done.
    by rewrite bool_decide_eq_false_2.
  - simpl. unfold encrypt. destruct (gcm_seal _ _ _). by destruct (base64 _).
Qed.
End vault.
