(* ===== verification/Bundle.v ===== *)
(** * The sealed container of backups, [system-backup/bundle.ts]

    A file is the list of its bytes.  The key derivation, the compression and
    the JSON of the payload come from Node: operations of a class, with the round
    trips and lengths the code relies on as its laws; AES-256-GCM is
    [Crypto.NodeCrypto]'s.  The salt and the nonce are drawn at random by the
    code and are arguments here. *)

From S2P Require Import Prelude JsText Crypto.
From stdpp Require Import countable strings options.

#[local] Set Default Proof Using "Type*".

Class Packing := {
  scrypt : string → string → string;      (** passphrase, salt: a key of 32 bytes *)
  gzip : string → string;
  gunzip : string → option string
}.
Class PackingLaws `{Packing, NodeCryptoLaws} : Prop := {
  gunzip_gzip s : gunzip (gzip s) = Some s;
  gzip_ne s : gzip s ≠ "";
  gcm_tag_length key iv text : String.length (gcm_seal key iv text).1 = 16;
  base64_printable s c : c ∈ chars (base64 s) → is_space c = false
}.

(** JSON of one type of value, on one line or indented; reading skips white space
    at the end. *)
Class Json (A : Type) := {
  stringify : A → string;
  stringify_indented : A → string;
  json_parse : string → option A
}.
Class JsonLaws (A : Type) `{Json A} : Prop := {
  parse_stringify a : json_parse (stringify a) = Some a;
  parse_indented a : json_parse (stringify_indented a +:+ nl) = Some a;
  indented_ne a : trim (stringify_indented a +:+ nl) ≠ ""
}.

Section bundle.
Context `{Packing, NodeCrypto} {A : Type} `{Json A}.

Definition MAGIC : list ascii := chars "CBROBK".
Definition VERSION : nat := 1.

(** [Buffer.from([n])]: one byte, of [n] modulo 256. *)
Definition byte_of (n : nat) : ascii := ascii_of_nat (n mod 256).

Definition sealBundle (bundle : A) (passphrase salt iv : string) : list ascii :=
  let key := scrypt passphrase salt in
  let plaintext := gzip (stringify bundle) in
  let '(tag, ciphertext) := gcm_seal key iv plaintext in
  MAGIC ++ [byte_of VERSION; byte_of (String.length salt)] ++ chars salt ++ [byte_of (String.length iv)] ++
  chars iv ++ chars ciphertext ++ chars tag.

(** [file.subarray(from, to)]; beyond the end there is nothing. *)
Definition subarray (from to : nat) (file : list ascii) : list ascii := take (to - from) (drop from file).

(** An index beyond the end reads [undefined]: the offset is then no number, which
    [subarray] takes for zero. *)
Definition openBundle (file : list ascii) (passphrase : string) : result string A :=
  if (length file <? length MAGIC + 4) || negb (bool_decide (take (length MAGIC) file = MAGIC))
  then Err "Not a Cerebro backup file."
  else
    let version := code (nth 6 file zero) in
    if negb (version =? VERSION) then Err ("Unsupported backup version " +:+ num_to_string (Z.of_nat version) +:+ ".")
    else
      let saltLen := code (nth 7 file zero) in
      let salt := subarray 8 (8 + saltLen) file in
      let '(iv, rest) :=
        match file !! (8 + saltLen) with
        | Some ivLen => (subarray (9 + saltLen) (9 + saltLen + code ivLen) file, drop (9 + saltLen + code ivLen) file)
        | None => ([], file)
        end in
      if length rest <? 17 then Err "Backup file is truncated."
      else
        let tag := drop (length rest - 16) rest in
        let ciphertext := take (length rest - 16) rest in
        let key := scrypt passphrase (of_chars salt) in
        match gcm_open key (of_chars iv) (of_chars tag) (of_chars ciphertext) with
        | None => Err "Wrong passphrase, or the backup file is corrupt."
        | Some plaintext =>
            match gunzip plaintext with
            | None => Err "incorrect header check"
            | Some text =>
                match json_parse text with
                | None => Err "Unexpected token in JSON"
                | Some bundle => Ok bundle
                end
            end
        end.

End bundle.

(** ** Theorems *)

Lemma code_byte n : n < 256 → code (byte_of n) = n.
Proof. intros Hn. unfold code, byte_of. rewrite Nat.mod_small by done. by apply nat_ascii_embedding. Qed.

Lemma subarray_app (a b c : list ascii) : subarray (length a) (length a + length b) (a ++ b ++ c) = b.
Proof. unfold subarray. rewrite drop_app_length, Nat.add_comm, Nat.add_sub. by rewrite take_app_length. Qed.

Lemma drop_sum (a b c : list ascii) : drop (length a + length b) (a ++ b ++ c) = c.
Proof. by rewrite app_assoc, <-length_app, drop_app_length. Qed.

Section theorems.
Context `{PackingLaws} {A : Type} `{JsonLaws A}.

(** A text with a visible character is not blank. *)
Lemma trim_ne s c : c ∈ chars s → is_space c = false → trim s ≠ "".
Proof.
  intros Hc Hs Ht. apply (f_equal chars) in Ht. unfold trim in Ht. rewrite chars_of_chars in Ht.
  unfold trim_chars in Ht. apply (f_equal reverse) in Ht. rewrite reverse_involutive in Ht. simpl in Ht.
  destruct (drop_while_split is_space (chars s)) as (pre & Hpre & Hp).
  destruct (drop_while_split is_space (reverse (drop_while is_space (chars s)))) as (post & Hpost & Hq).
  rewrite Ht, app_nil_r in Hpost. rewrite Forall_forall in Hp, Hq.
  rewrite Hpre, elem_of_app in Hc. destruct Hc as [Hc|Hc]; [by rewrite Hp in Hs|].
  rewrite <-elem_of_reverse, Hpost in Hc. by rewrite Hq in Hs.
Qed.

Section layout.
Variables (head salt iv rest : list ascii).
Hypothesis head_length : length head = 8.

Definition layout (l : ascii) : list ascii := head ++ salt ++ [l] ++ iv ++ rest.

Lemma layout_head l i : i < 8 → nth i (layout l) zero = nth i head zero.
Proof. intros Hi. unfold layout. by rewrite app_nth1 by lia. Qed.

Lemma layout_salt l : subarray 8 (8 + length salt) (layout l) = salt.
Proof. rewrite <-head_length. apply subarray_app. Qed.

Lemma layout_size l : layout l !! (8 + length salt) = Some l.
Proof.
  unfold layout. rewrite app_assoc, lookup_app_r, length_app, head_length; [|rewrite length_app; lia].
  by rewrite Nat.sub_diag.
Qed.

Lemma layout_split l : layout l = (head ++ salt ++ [l]) ++ iv ++ rest.
Proof. unfold layout. by rewrite <-!app_assoc. Qed.

Lemma prefix_length l : 9 + length salt = length (head ++ salt ++ [l]).
Proof. rewrite !length_app, head_length. simpl. lia. Qed.

Lemma layout_iv l : subarray (9 + length salt) (9 + length salt + length iv) (layout l) = iv.
Proof. rewrite (prefix_length l), layout_split. apply subarray_app. Qed.

Lemma layout_rest l : drop (9 + length salt + length iv) (layout l) = rest.
Proof. rewrite (prefix_length l), layout_split. apply drop_sum. Qed.
End layout.

Lemma open_seal (bundle : A) (passphrase salt iv : string) :
  String.length salt < 256 → String.length iv < 256 →
  openBundle (sealBundle bundle passphrase salt iv) passphrase = Ok bundle.
Proof.
  rewrite <-!length_chars. intros Hs Hi. unfold sealBundle.
  destruct (gcm_seal _ iv _) as [tag data] eqn:He.
  pose proof (gcm_tag_length (scrypt passphrase salt) iv (gzip (stringify bundle))) as Ht.
  pose proof (gcm_data_length (scrypt passphrase salt) iv (gzip (stringify bundle))) as Hd.
  pose proof (gcm_open_seal (scrypt passphrase salt) iv (gzip (stringify bundle))) as Ho.
  rewrite He in Ht, Hd, Ho. cbn [fst snd] in Ht, Hd, Ho. rewrite <-length_chars in Ht, Hd.
  assert (Hne : 0 < length (chars data)).
  { rewrite Hd. destruct (gzip (stringify bundle)) eqn:Hg; [by apply gzip_ne in Hg | simpl; lia]. }
  set (head := MAGIC ++ [byte_of VERSION; byte_of (String.length salt)]).
  match goal with |- openBundle ?f _ = _ =>
    replace f with (layout head (chars salt) (chars iv) (chars data ++ chars tag) (byte_of (String.length iv)))
      by (unfold layout, head; by rewrite <-!app_assoc)
  end.
  set (file := layout _ _ _ _ _).
  assert (Hlen : 10 <= length file) by (unfold file, layout; rewrite !length_app; simpl; lia).
  unfold openBundle. change (length MAGIC) with 6. rewrite (proj2 (Nat.ltb_ge _ _)) by lia.
  rewrite bool_decide_eq_true_2 by done. cbn [orb negb].
  assert (Hsize : nth 7 file zero = byte_of (length (chars salt))) by (rewrite length_chars; apply layout_head; (done || lia)).
  change (nth 6 file zero) with (byte_of VERSION). rewrite Hsize, (code_byte VERSION), code_byte by (done || (unfold VERSION; lia)).
  rewrite Nat.eqb_refl. cbn [negb]. unfold file.
  rewrite layout_size, layout_salt by done. rewrite <-(length_chars iv), code_byte, layout_iv, layout_rest by done.
  rewrite length_app, Ht, (proj2 (Nat.ltb_ge _ _)) by lia. rewrite Nat.add_sub.
  by rewrite drop_app_length, take_app_length, !of_chars_chars, Ho, gunzip_gzip, parse_stringify.
Qed.

(** A sealed backup opens again under the passphrase it was sealed with, and
    to the value that was sealed, whatever the random salt and nonce were; a file
    that does not begin with the magic, or is shorter than the smallest header, is
    refused as no backup, and another version number is refused by its number
    before any key is derived. *)
Theorem bundle_round_trip (bundle : A) (passphrase salt iv : string) (file : list ascii) :
  String.length salt < 256 → String.length iv < 256 →
  openBundle (sealBundle bundle passphrase salt iv) passphrase = Ok bundle ∧
  (length file < 10 ∨ take 6 file ≠ chars "CBROBK" → openBundle (A := A) file passphrase = Err "Not a Cerebro backup file.") ∧
  (∀ v rest, 3 ≤ length rest → v < 256 → v ≠ 1 → file = chars "CBROBK" ++ byte_of v :: rest →
     openBundle (A := A) file passphrase = Err ("Unsupported backup version " +:+ num_to_string (Z.of_nat v) +:+ ".")).
Proof.
  intros Hs Hi. split_and!; [by apply open_seal | |].
  - intros Hf. unfold openBundle. change (length MAGIC) with 6. destruct (length file <? 6 + 4) eqn:Hl; [done|].
    apply Nat.ltb_ge in Hl. rewrite bool_decide_eq_false_2; [done|]. destruct Hf; [lia | done].
  - intros v rest Hr Hv Hne ->. unfold openBundle. rewrite (proj2 (Nat.ltb_ge _ _)) by (simpl; lia).
    cbn [orb]. rewrite bool_decide_eq_true_2 by done. cbn [negb].
    change (nth 6 (chars "CBROBK" ++ byte_of v :: rest) zero) with (byte_of v). rewrite code_byte by done.
    by rewrite (proj2 (Nat.eqb_neq v VERSION)).
Qed.
End theorems.

(** ** A toy instance *)

Section toy.
#[local] Instance bench_crypto : NodeCrypto := {|
  sha256 := λ l, JsText.join "," l;
  hmac_sha256_hex := λ k m, k +:+ m;
  gcm_seal := λ k iv p, ("0123456789abcdef", p);
  gcm_open := λ k iv t d, if bool_decide (t = "0123456789abcdef") then Some d else None;
  base64 := toy_base64;
  unbase64 := λ s, of_chars (toy_unbase64_chars (chars s))
|}.

#[local] Instance bench_crypto_laws : NodeCryptoLaws.
Proof.
  split; try done.
  - exact (@unbase64_base64 toy_crypto toy_crypto_laws).
  - exact (@base64_ne toy_crypto toy_crypto_laws).
  - exact (@base64_alphabet toy_crypto toy_crypto_laws).
Qed.

#[local] Instance bench_packing : Packing := {|
  scrypt := λ p s, p +:+ s; gzip := λ s, String "z" s;
  gunzip := λ s, match s with String "z" t => Some t | _ => None end
|}.

Lemma toy_letters s c : c ∈ chars (toy_base64 s) → is_space c = false.
Proof.
  unfold toy_base64. rewrite chars_of_chars. induction (chars s) as [|d l IH]; [by intros ?%elem_of_nil|].
  rewrite bind_cons. cbn [app]. rewrite !elem_of_cons. intros [->|[->|?]]; [| |auto];
    by destruct d as [[] [] [] [] [] [] [] []].
Qed.

#[local] Instance bench_packing_laws : PackingLaws.
Proof. split; try done. exact toy_letters. Qed.

(** A rendering of any countable type: the bits of its code, up to a full stop. *)
Fixpoint bits_text (p : positive) : string :=
  match p with xH => "." | xO p => String "0" (bits_text p) | xI p => String "1" (bits_text p) end.
Fixpoint text_bits (s : string) : option positive :=
  match s with
  | String "." _ => Some xH
  | String "0" s' => xO <$> text_bits s'
  | String "1" s' => xI <$> text_bits s'
  | _ => None
  end.

Lemma text_bits_text p rest : text_bits (bits_text p +:+ rest) = Some p.
Proof.
  induction p as [p IH|p IH|]; [| |done].
  - change (xI <$> text_bits (bits_text p +:+ rest) = Some (xI p)). by rewrite IH.
  - change (xO <$> text_bits (bits_text p +:+ rest) = Some (xO p)). by rewrite IH.
Qed.

Lemma bits_text_ne p rest : trim (bits_text p +:+ rest) ≠ "".
Proof.
  apply (trim_ne _ "."%char); [|done]. rewrite chars_app, elem_of_app. left.
  induction p as [p IH|p IH|]; cbn; [by right|by right|by left].
Qed.

Definition countable_json {A} `{Countable A} : Json A := {|
  stringify := λ a, bits_text (encode a); stringify_indented := λ a, bits_text (encode a);
  json_parse := λ s, text_bits s ≫= decode
|}.

Lemma countable_json_laws {A} `{Countable A} : @JsonLaws A countable_json.
Proof.
  assert (Hn : ∀ s, s +:+ "" = s) by (intros s; apply chars_inj; rewrite chars_app; apply app_nil_r).
  split; intros a; simpl; [rewrite <-(Hn (bits_text _))| |apply bits_text_ne];
    rewrite text_bits_text; apply decode_encode.
Qed.

#[local] Existing Instances countable_json countable_json_laws.

Lemma bundle_round_trip_witness :
  openBundle (sealBundle "settings" "correct horse" "0123456789abcdef" "nonce9876543") "correct horse" = Ok "settings".
Proof.
  exact (proj1 (bundle_round_trip "settings" "correct horse" "0123456789abcdef" "nonce9876543" []
    ltac:(simpl; lia) ltac:(simpl; lia))).
Defined.
End toy.
