(* ===== verification/Totp.v ===== *)
(** * The second factor, [auth/totp.service.ts]

    Enrolment, verification at sign-in and for step-up, and recovery codes,
    over the tables of [Accounts].  [otplib] and [qrcode] are a type class. *)

From S2P Require Import Prelude JsText Crypto Accounts.
#[local] Set Default Proof Using "Type*".

(** ** The [otplib] and [qrcode] packages *)
Class Otp := {
  otp_verify : Z → string → string → option bool;  (** now, token, secret; [None] throws *)
  keyuri : string → string → string → string;      (** account, issuer, secret *)
  toDataURL : string → string
}.

Section totp.
Context `{Bcrypt} `{Vault} `{Otp}.

Definition ISSUER : string := "Cerebro".
Definition RECOVERY_CODE_COUNT : nat := 10.
Definition RECOVERY_ALPHABET : string := "ABCDEFGHJKMNPQRSTUVWXYZ23456789".

Definition enabled (u : User) : bool := bool_decide (is_Some (totpEnabledAt u)).

Definition getStatus (userId : string) : call (bool * bool) :=
  s ← get;
  u ← or_throw (find_user userId s) (BadRequest "User not found.");
  mret (enabled u, truthy (totpSecret u) && negb (enabled u)).

(** [secret] is the generated one, [iv] the nonce of its encryption. *)
Definition beginEnrollment (secret iv userId : string) : call (string * string) :=
  s ← get;
  u ← or_throw (find_user userId s) (BadRequest "User not found.");
  throw_if (negb (truthy (passwordHash u)))
    (BadRequest "This account signs in via SSO and cannot use a password-based second factor.") ;;
  throw_if (enabled u)
    (BadRequest "Two-factor authentication is already enabled. Disable it first to re-enroll.") ;;
  update_user userId (set_totp (Some (vault_encrypt iv secret)) None) ;;
  let otpauthUrl := keyuri (email u) ISSUER secret in
  mret (otpauthUrl, toDataURL otpauthUrl).

(** [code.replace(/\s/g, '')] *)
Definition strip_spaces (code : string) : string :=
  of_chars (filter (λ c, is_space c = false) (chars code)).

Definition verifyTotp (now : Z) (encryptedSecret code : string) : bool :=
  let token := strip_spaces code in
  if all_digits token && (String.length token =? 6) then
    match vault_decrypt encryptedSecret with
    | Some secret => default false (otp_verify now token secret)
    | None => false
    end
  else false.

(** [toUpperCase().replace(/[^A-Z0-9]/g, '')] *)
Definition normalize_code (candidate : string) : string :=
  of_chars (filter (λ c, (is_upper c || is_digit c) = true) (chars (toUpperCase candidate))).

Definition unconsumed (userId : string) (c : UserRecoveryCode) : bool :=
  bool_decide (code_userId c = userId) && bool_decide (consumedAt c = None).

Definition consume (now : Z) (c : UserRecoveryCode) : UserRecoveryCode :=
  {| code_id := code_id c; code_userId := code_userId c; codeHash := codeHash c;
     consumedAt := Some now |}.

Definition consumeRecoveryCode (now : Z) (userId candidate : string) : call bool :=
  let normalized := normalize_code candidate in
  if String.length normalized <? 8 then mret false
  else
    s ← get;
    match findFirst (λ c, bcrypt_compare normalized (codeHash c))
            (findMany (unconsumed userId) (codes s)) with
    | Some row =>
        modify (with_codes (updateMany (λ c, bool_decide (code_id c = code_id row))
          (consume now))) ;;
        mret true
    | None => mret false
    end.

(** What the generator draws for one code: ten letters, the salt, the row id. *)
Record draw := Draw { letters : nat → nat; salt : string; row_id : string }.

(** [RECOVERY_ALPHABET[randomInt(RECOVERY_ALPHABET.length)]] *)
Definition alphabet_letter (n : nat) : ascii :=
  default "A"%char (String.get (n mod String.length RECOVERY_ALPHABET) RECOVERY_ALPHABET).

Definition randomRecoveryCode (d : draw) : string :=
  let out := of_chars ((λ i, alphabet_letter (letters d i)) <$> seq 0 10) in
  slice_to 5 out +:+ "-" +:+ slice_from 5 out.

Definition issueRecoveryCodes (draws : nat → draw) (userId : string) : call (list string) :=
  modify (with_codes (deleteMany (λ c, bool_decide (code_userId c = userId)))) ;;
  let ds := draws <$> seq 0 RECOVERY_CODE_COUNT in
  let rows := (λ d, {| code_id := row_id d; code_userId := userId;
                       codeHash := bcrypt_hash (salt d) (randomRecoveryCode d);
                       consumedAt := None |}) <$> ds in
  modify (with_codes (λ t, t ++ rows)) ;;
  mret (randomRecoveryCode <$> ds).

Definition mfa_audit (userId : string) (u : User) (action : string) : call unit :=
  tell (OAudit (Audit (Some userId) (Some (email u)) action None)).

Definition confirmEnrollment (now : Z) (draws : nat → draw) (userId code : string) :
    call (list string) :=
  s ← get;
  u ← or_throw (find_user userId s) (BadRequest "User not found.");
  throw_if (enabled u) (BadRequest "Two-factor authentication is already enabled.") ;;
  throw_if (negb (truthy (totpSecret u))) (BadRequest "Start setup before confirming a code.") ;;
  throw_if (negb (verifyTotp now (default "" (totpSecret u)) code))
    (BadRequest "That code is incorrect. Check your authenticator app and try again.") ;;
  recoveryCodes ← issueRecoveryCodes draws userId;
  update_user userId (λ u, set_totp (totpSecret u) (Some now) u) ;;
  mfa_audit userId u "auth.mfa_enrolled" ;;
  mret recoveryCodes.

(** Enrolled: what every check below starts from. *)
Definition enrolled (u : User) : bool := enabled u && truthy (totpSecret u).

Definition verifyForLogin (now : Z) (userId code : string) : call bool :=
  s ← get;
  match find_user userId s with
  | Some u =>
      if negb (enrolled u) then mret false
      else if verifyTotp now (default "" (totpSecret u)) code then
        mfa_audit userId u "auth.mfa_verified" ;; mret true
      else
        used ← consumeRecoveryCode now userId code;
        if (used : bool) then mfa_audit userId u "auth.mfa_recovery_used" ;; mret true
        else mfa_audit userId u "auth.mfa_failed" ;; mret false
  | None => mret false
  end.

Definition verifyCode (now : Z) (userId code : string) (s : db) : bool :=
  match find_user userId s with
  | Some u => enrolled u && verifyTotp now (default "" (totpSecret u)) code
  | None => false
  end.

Definition disable (now : Z) (userId code : string) : call unit :=
  s ← get;
  u ← or_throw (find_user userId s) (BadRequest "User not found.");
  throw_if (negb (enrolled u)) (BadRequest "Two-factor authentication is not enabled.") ;;
  ok ← (if verifyTotp now (default "" (totpSecret u)) code then mret true
        else consumeRecoveryCode now userId code);
  throw_if (negb ok) (BadRequest "That code is incorrect.") ;;
  update_user userId (set_totp None None) ;;
  modify (with_codes (deleteMany (λ c, bool_decide (code_userId c = userId)))) ;;
  mfa_audit userId u "auth.mfa_disabled".

Definition regenerateRecoveryCodes (now : Z) (draws : nat → draw) (userId code : string) :
    call (list string) :=
  s ← get;
  u ← or_throw (find_user userId s) (BadRequest "User not found.");
  throw_if (negb (enrolled u)) (BadRequest "Two-factor authentication is not enabled.") ;;
  throw_if (negb (verifyTotp now (default "" (totpSecret u)) code))
    (BadRequest "That code is incorrect.") ;;
  recoveryCodes ← issueRecoveryCodes draws userId;
  mfa_audit userId u "auth.mfa_recovery_regenerated" ;;
  mret recoveryCodes.

(** The state-changing requests of the account pages and of sign-in. *)
Inductive request :=
| Begin (secret iv userId : string)
| Confirm (now : Z) (draws : nat → draw) (userId code : string)
| Login (now : Z) (userId code : string)
| Disable (now : Z) (userId code : string)
| Regenerate (now : Z) (draws : nat → draw) (userId code : string)
| AdminClear (userId : string).

Definition handle (r : request) (s : db) : db :=
  match r with
  | Begin secret iv u => run_state (beginEnrollment secret iv u) s
  | Confirm now ds u c => run_state (confirmEnrollment now ds u c) s
  | Login now u c => run_state (verifyForLogin now u c) s
  | Disable now u c => run_state (disable now u c) s
  | Regenerate now ds u c => run_state (regenerateRecoveryCodes now ds u c) s
  | AdminClear u => run_state (UsersService.clearMfa u) s
  end.

End totp.

(** ** Lemmas *)
Section invariants.
Context `{Bcrypt} `{VaultLaws} `{Otp}.

(** Enforcement needs a secret to check against: an account with the factor
    enabled has one. *)
Definition mfa_consistent (s : db) : Prop :=
  NoDup (user_id <$> users s) ∧
  ∀ u, u ∈ users s → enabled u = true → truthy (totpSecret u) = true.

Lemma mfa_codes f s : mfa_consistent s → mfa_consistent (with_codes f s).
Proof. intros [? ?]. by split. Qed.

Lemma mfa_update i f s :
  (∀ u, user_id (f u) = user_id u) →
  (∀ u, u ∈ users s → user_id u = i → enabled (f u) = true → truthy (totpSecret (f u)) = true) →
  mfa_consistent s → mfa_consistent (with_users (updateMany (has_id i) f) s).
Proof.
  intros Hid Hf [Hnd Hok]. split; [simpl; by rewrite fmap_updateMany|].
  simpl. intros u (u0 & Hu0 & ->)%elem_of_updateMany.
  destruct (has_id i u0) eqn:Hi; [|by apply Hok].
  apply Hf; [done|]. by apply bool_decide_eq_true in Hi.
Qed.

Lemma preserves_clear i :
  preserves mfa_consistent (update_user i (set_totp None None)).
Proof. apply preserves_modify. intros s Hs. by apply mfa_update. Qed.

Lemma preserves_codes f : preserves mfa_consistent (modify (with_codes f) : call unit).
Proof. by apply preserves_modify. Qed.

Lemma preserves_consume now i c : preserves mfa_consistent (consumeRecoveryCode now i c).
Proof.
  unfold consumeRecoveryCode. case_match; [auto with svc|].
  apply preserves_bind; [auto with svc|]. intros s.
  case_match; [|auto with svc]. apply preserves_bind; [apply preserves_codes | auto with svc].
Qed.

Lemma preserves_issue ds i : preserves mfa_consistent (issueRecoveryCodes ds i).
Proof.
  unfold issueRecoveryCodes. repeat (apply preserves_bind; [apply preserves_codes|intros _]).
  apply preserves_ret.
Qed.

Ltac preserve :=
  repeat first
    [ apply preserves_bind; [|intros ?] | apply preserves_get | apply preserves_or_throw
    | apply preserves_throw_if | apply preserves_tell | apply preserves_ret
    | apply preserves_consume | apply preserves_issue | apply preserves_clear
    | apply preserves_codes | case_match ].

Lemma begin_consistent secret iv i : preserves mfa_consistent (beginEnrollment secret iv i).
Proof.
  unfold beginEnrollment. preserve. apply preserves_modify. intros s.
  by apply mfa_update.
Qed.

Lemma login_consistent now i c : preserves mfa_consistent (verifyForLogin now i c).
Proof. unfold verifyForLogin, mfa_audit. preserve. Qed.

Lemma disable_consistent now i c : preserves mfa_consistent (disable now i c).
Proof. unfold disable, mfa_audit. preserve. Qed.

Lemma regenerate_consistent now ds i c :
  preserves mfa_consistent (regenerateRecoveryCodes now ds i c).
Proof. unfold regenerateRecoveryCodes, mfa_audit. preserve. Qed.

Lemma issue_users ds i s : ∃ o cs s', issueRecoveryCodes ds i s = (Ok cs, s', o) ∧
  users s' = users s.
Proof. eexists _, _, _. split; [reflexivity|done]. Qed.

Lemma confirm_consistent now ds i c : preserves mfa_consistent (confirmEnrollment now ds i c).
Proof.
  intros s Hs. unfold run_state, confirmEnrollment, issueRecoveryCodes, update_user, mfa_audit.
  svc_run. destruct (find_user i s) as [u|] eqn:Hu; [|done]. svc_run.
  destruct (enabled u); [done|].
  destruct (truthy (totpSecret u)) eqn:Ht; [|done].
  destruct (verifyTotp now _ c); [|done]. cbn -[mfa_consistent]. svc_run.
  apply find_user_Some in Hu as [Hu Hui].
  apply (mfa_update i (λ u, set_totp (totpSecret u) (Some now) u)); [done| |by apply mfa_codes].
  intros v Hv Hvi _. simpl. destruct Hs as [Hnd _].
  assert (v = u) as -> by (by eapply (NoDup_key user_id); [..|congruence]). done.
Qed.

Lemma clear_consistent i : preserves mfa_consistent (UsersService.clearMfa i).
Proof. unfold UsersService.clearMfa. preserve. Qed.

Lemma handle_consistent r s : mfa_consistent s → mfa_consistent (handle r s).
Proof.
  destruct r; simpl; [apply begin_consistent | apply confirm_consistent
    | apply login_consistent | apply disable_consistent | apply regenerate_consistent
    | apply clear_consistent].
Qed.

(** whatever sequence of second-factor requests runs, an account whose
    factor is enforced keeps a secret to check codes against, so enforcement
    never degrades into a sign-in nobody can complete. *)
Theorem mfa_requests_consistent (rs : list request) (s : db) :
  mfa_consistent s → mfa_consistent (foldl (λ s r, handle r s) s rs).
Proof.
  revert s. induction rs as [|r rs IH]; intros s Hs; [done|].
  by apply IH, handle_consistent.
Qed.

End invariants.

(** ** Recovery codes *)
Section recovery.
Context `{BcryptLaws} `{VaultLaws} `{Otp}.

Lemma normalize_code_chars c x : x ∈ chars (normalize_code c) → is_upper x || is_digit x = true.
Proof. unfold normalize_code. rewrite chars_of_chars. by intros [? _]%list_elem_of_filter. Qed.

Lemma randomRecoveryCode_dash d : "-"%char ∈ chars (randomRecoveryCode d).
Proof.
  unfold randomRecoveryCode. rewrite !chars_app, !elem_of_app.
  right. left. apply list_elem_of_here.
Qed.

(** A code as it was issued never matches its own hash. *)
Lemma consume_issued now i c (s : db) :
  (∀ row, row ∈ codes s → code_userId row = i →
     ∃ sl d, codeHash row = bcrypt_hash sl (randomRecoveryCode d)) →
  consumeRecoveryCode now i c s = (Ok false, s, []).
Proof.
  intros Hrows. unfold consumeRecoveryCode. case_match; [done|]. svc_run.
  destruct (findFirst _ _) as [row|] eqn:Hf; [|done]. exfalso.
  apply findFirst_Some in Hf as [Hin Hc].
  apply elem_of_findMany in Hin as [Hun Hin].
  apply andb_true_iff in Hun as [Hui _]. apply bool_decide_eq_true in Hui.
  destruct (Hrows row Hin Hui) as (sl & d & Hd). rewrite Hd in Hc.
  apply bcrypt_compare_hash in Hc.
  pose proof (randomRecoveryCode_dash d) as Hdash. rewrite <-Hc in Hdash.
  by apply normalize_code_chars in Hdash.
Qed.

Lemma verifyTotp_dash now e c : "-"%char ∈ chars c → verifyTotp now e c = false.
Proof.
  intros Hc. unfold verifyTotp.
  destruct (all_digits (strip_spaces c)) eqn:Hd; [|done].
  assert ("-"%char ∈ chars (strip_spaces c)) as Hin.
  { unfold strip_spaces. rewrite chars_of_chars. by apply list_elem_of_filter. }
  by pose proof (all_digits_chars _ _ Hd Hin).
Qed.

(** The rows [issueRecoveryCodes] leaves for the account are hashes of codes. *)
Lemma issued_rows ds i (s s' : db) o cs row :
  issueRecoveryCodes ds i s = (Ok cs, s', o) → row ∈ codes s' → code_userId row = i →
  ∃ sl d, codeHash row = bcrypt_hash sl (randomRecoveryCode d).
Proof.
  unfold issueRecoveryCodes. svc_run. generalize (ds <$> seq 0 RECOVERY_CODE_COUNT).
  intros dl. unfold mret, svc_ret. intros [= _ <- _].
  cbn [codes with_codes]. rewrite elem_of_app.
  intros [[Hne _]%elem_of_deleteMany|(d & -> & _)%list_elem_of_fmap].
  - intros Hi. by apply bool_decide_eq_false in Hne.
  - intros _. simpl. eauto.
Qed.

(** none of the recovery codes an enrolment hands out is ever accepted, as
    issued or in any spelling of it: the codes are hashed with their dash and
    compared without it. *)
Theorem issued_recovery_codes_rejected (now later : Z) (ds : nat → draw)
    (i code : string) (s s' : db) (cs : list string) (o : list output) :
  confirmEnrollment now ds i code s = (Ok cs, s', o) →
  length cs = RECOVERY_CODE_COUNT ∧
  (∀ c, run_result (consumeRecoveryCode later i c) s' = Ok false) ∧
  (∀ c, c ∈ cs → run_result (verifyForLogin later i c) s' = Ok false).
Proof.
  unfold confirmEnrollment. svc_run. destruct (find_user i s) as [u|] eqn:Hu; [|done].
  svc_run. case_match; [done|]. case_match; [done|]. case_match; [done|].
  destruct (issueRecoveryCodes ds i s) as [[[cs'|] s1] o1] eqn:Hi; cycle 1.
  { unfold issueRecoveryCodes in Hi. by autorewrite with svc_run in Hi. }
  assert (o1 = [] ∧ cs' = randomRecoveryCode <$> (ds <$> seq 0 RECOVERY_CODE_COUNT)) as [-> Hcs].
  { unfold issueRecoveryCodes in Hi. autorewrite with svc_run in Hi.
    unfold mret, svc_ret in Hi. revert Hi.
    generalize (ds <$> seq 0 RECOVERY_CODE_COUNT). by intros dl [= <- _ <-]. }
  rewrite (svc_bind_run _ _ _ _ _ Hi). unfold update_user, mfa_audit. svc_run.
  unfold mret, svc_ret. intros [= <- <- _].
  assert (Hcons : ∀ c, consumeRecoveryCode later i c
    (with_users (updateMany (has_id i) (λ u, set_totp (totpSecret u) (Some now) u)) s1) =
    (Ok false, with_users (updateMany (has_id i)
      (λ u, set_totp (totpSecret u) (Some now) u)) s1, [])).
  { intros c. apply consume_issued. intros row Hrow. by eapply issued_rows. }
  split_and!.
  - by rewrite Hcs, !length_fmap, length_seq.
  - intros c. unfold run_result. by rewrite Hcons.
  - intros c. rewrite Hcs. intros (d & -> & _)%list_elem_of_fmap.
    unfold run_result, verifyForLogin, mfa_audit. svc_run.
    case_match; [|done]. case_match; [done|].
    rewrite verifyTotp_dash by apply randomRecoveryCode_dash.
    by rewrite (svc_bind_run _ _ _ _ _ (Hcons _)).
Qed.

(** each recovery sign-in spends a code: when [verifyForLogin] accepts
    something that is not a live TOTP code, the account has one unconsumed code
    less and nobody else's codes changed, so a code opens at most one session. *)
Theorem recovery_login_consumes_one (now : Z) (i c : string) (s s' : db) (u : User)
    (o : list output) :
  NoDup (code_id <$> codes s) → find_user i s = Some u →
  verifyTotp now (default "" (totpSecret u)) c = false →
  verifyForLogin now i c s = (Ok true, s', o) →
  countWhere (unconsumed i) (codes s) = S (countWhere (unconsumed i) (codes s')) ∧
  findMany (λ r, negb (bool_decide (code_userId r = i))) (codes s') =
    findMany (λ r, negb (bool_decide (code_userId r = i))) (codes s) ∧
  users s' = users s.
Proof.
  intros Hnd Hu Hv. unfold verifyForLogin, mfa_audit. svc_run. rewrite Hu.
  destruct (enrolled u); [|done]. simpl. rewrite Hv.
  unfold consumeRecoveryCode. case_match; [svc_run; by intros [=]|]. svc_run.
  destruct (findFirst _ _) as [row|] eqn:Hf; [|svc_run; by intros [=]]. svc_run.
  unfold mret, svc_ret. intros [= <- _]. simpl.
  apply findFirst_Some in Hf as [Hin _].
  apply elem_of_findMany in Hin as [Hun Hin].
  apply andb_true_iff in Hun as Hun'. destruct Hun' as [Hui _].
  apply bool_decide_eq_true in Hui.
  split_and!; [| | done].
  - apply (countWhere_update_key code_id); [done | done | done |].
    unfold unconsumed, consume. simpl. by rewrite andb_false_r.
  - apply findMany_update_unseen. intros r Hr Hk%bool_decide_eq_true.
    assert (r = row) as -> by by eapply (NoDup_key code_id).
    simpl. by rewrite bool_decide_eq_true_2.
Qed.
End recovery.

(** ** Witnesses: a toy vault and authenticator *)
Section toy.
Definition toy_vault : Vault :=
  {| vault_encrypt := λ _ t, String "e" t;
     vault_decrypt := λ p, match p with String _ t => Some t | _ => None end |}.
#[local] Existing Instance toy_vault.
#[local] Instance toy_vault_laws : VaultLaws.
Proof. by split. Qed.
Definition toy_otp : Otp :=
  {| otp_verify := λ _ tok _, Some (bool_decide (tok = "123456"));
     keyuri := λ a i s, a +:+ s; toDataURL := λ u, u |}.
#[local] Existing Instances plain_bcrypt toy_otp.

Definition toy_draws (n : nat) : draw :=
  {| letters := λ i, n + i; salt := "s"; row_id := num_to_string (Z.of_nat n) |}.

Definition pending_db : db :=
  run_state (beginEnrollment "secret" "iv" "u1") sample_db.

Lemma mfa_requests_consistent_witness :
  mfa_consistent (foldl (λ s r, handle r s) sample_db
    [Begin "secret" "iv" "u1"; Confirm 5 toy_draws "u1" "123 456"; Login 9 "u1" "000000"]).
Proof.
  apply mfa_requests_consistent. split.
  - apply (bool_decide_unpack _). vm_compute. exact I.
  - intros u Hu.
    assert (Hall : every (λ u, negb (enabled u) || truthy (totpSecret u)) (users sample_db) = true)
      by by vm_compute.
    rewrite every_true in Hall. specialize (Hall u Hu). intros He. by rewrite He in Hall.
Defined.

Definition enrolled_db : db :=
  run_state (confirmEnrollment 5 toy_draws "u1" "123456") pending_db.

Lemma issued_recovery_codes_rejected_witness :
  length (randomRecoveryCode <$> (toy_draws <$> seq 0 10)) = RECOVERY_CODE_COUNT ∧
  (∀ c, run_result (consumeRecoveryCode 9 "u1" c) enrolled_db = Ok false) ∧
  (∀ c, c ∈ randomRecoveryCode <$> (toy_draws <$> seq 0 10) →
     run_result (verifyForLogin 9 "u1" c) enrolled_db = Ok false).
Proof.
  apply (issued_recovery_codes_rejected 5 9 toy_draws "u1" "123456" pending_db enrolled_db _
    [OAudit (Audit (Some "u1") (Some "u1@x") "auth.mfa_enrolled" None)]).
  vm_compute. reflexivity.
Defined.

(** A code that was stored without its dash. *)
Definition coded_db : db :=
  Db (users enrolled_db) (roles enrolled_db)
    [{| code_id := "c1"; code_userId := "u1"; codeHash := "ABCDEFGHJK"; consumedAt := None |};
     {| code_id := "c2"; code_userId := "u1"; codeHash := "MNPQRSTUVW"; consumedAt := None |}].
Definition spent_db : db := run_state (verifyForLogin 9 "u1" "abcde-fghjk") coded_db.

Lemma recovery_login_consumes_one_witness :
  countWhere (unconsumed "u1") (codes coded_db) =
    S (countWhere (unconsumed "u1") (codes spent_db)) ∧
  findMany (λ r, negb (bool_decide (code_userId r = "u1"))) (codes spent_db) =
    findMany (λ r, negb (bool_decide (code_userId r = "u1"))) (codes coded_db) ∧
  users spent_db = users coded_db.
Proof.
  eapply (recovery_login_consumes_one 9 "u1" "abcde-fghjk" coded_db spent_db).
  - apply (bool_decide_unpack _). vm_compute. exact I.
  - reflexivity.
  - vm_compute. reflexivity.
  - vm_compute. reflexivity.
Defined.
End toy.
