(* ===== verification/LoginThrottle.v ===== *)
(** * Brute-force protection of the sign-in endpoints,
    [auth/login-throttle.service.ts]

    Redis is a type class: the commands the service sends, and as laws what
    their documentation says they do to a keyspace of integers with expiry.
    The theorems use the laws only; a map-backed keyspace is an instance. *)

From S2P Require Import Prelude JsText.
Local Open Scope Z_scope.

(** ** Redis *)

Inductive command :=
| Ttl (key : string)
| Get (key : string)
| Incr (key : string)
| Expire (key : string) (seconds : Z)
| SetEx (key : string) (value seconds : Z)
| Del (keys : list string).

Inductive reply := RInt (n : Z) | RNil | ROk.

(** [None] is a rejected promise: the server could not be reached. *)
Class Redis (R : Type) := exec : command → Z → R → option reply * R.

(** A key's value and its expiry time in milliseconds. *)
Abbreviation keyspace := (gmap string (Z * option Z)).

Definition alive (now : Z) (e : Z * option Z) : bool :=
  from_option (λ t, now <? t) true e.2.

Definition lookup_live (now : Z) (k : string) (m : keyspace) : option (Z * option Z) :=
  e ← m !! k; if alive now e then Some e else None.

(** The documented effect of a command on the keyspace. *)
Definition redis_effect (c : command) (now : Z) (m : keyspace) : keyspace :=
  match c with
  | Ttl _ | Get _ => m
  | Incr k =>
      match lookup_live now k m with
      | Some (n, t) => <[k := (n + 1, t)]> m
      | None => <[k := (1, None)]> m
      end
  | Expire k s =>
      match lookup_live now k m with
      | Some (n, _) => <[k := (n, Some (now + s * 1000))]> m
      | None => m
      end
  | SetEx k v s => <[k := (v, Some (now + s * 1000))]> m
  | Del ks => foldr delete m ks
  end.

(** The documented reply; TTL answers in seconds, off by at most one. *)
Definition redis_reply (c : command) (now : Z) (m : keyspace) (r : reply) : Prop :=
  match c with
  | Ttl k =>
      match lookup_live now k m with
      | Some (_, Some t) => ∃ n, r = RInt n ∧ 0 ≤ n ∧ Z.abs (n * 1000 - (t - now)) < 1000
      | Some (_, None) => r = RInt (-1)
      | None => r = RInt (-2)
      end
  | Get k => r = from_option (λ e, RInt e.1) RNil (lookup_live now k m)
  | Incr k => r = RInt (from_option fst 0 (lookup_live now k m) + 1)
  | Expire _ _ | SetEx _ _ _ | Del _ => True
  end.

(** A served command replies and acts as documented; nothing is assumed of one
    that could not be sent. *)
Class RedisLaws (R : Type) `{Redis R} := {
  contents : R → keyspace;
  exec_ok c now r v r' : exec c now r = (Some v, r') →
    redis_reply c now (contents r) v ∧ contents r' = redis_effect c now (contents r)
}.

(** A keyspace that is always reachable, and one that never is. *)
Definition map_exec (c : command) (now : Z) (m : keyspace) : option reply * keyspace :=
  (Some match c with
   | Ttl k =>
       match lookup_live now k m with
       | Some (_, Some t) => RInt ((t - now) / 1000)
       | Some (_, None) => RInt (-1)
       | None => RInt (-2)
       end
   | Get k => from_option (λ e, RInt e.1) RNil (lookup_live now k m)
   | Incr k => RInt (from_option fst 0 (lookup_live now k m) + 1)
   | _ => ROk
   end, redis_effect c now m).

(** ** The service *)
Section service.
Context {R : Type} `{Redis R}.

Record config := { ipMax : Z; ipWindow : Z; failMax : Z; lockSeconds : Z }.

(** [envInt]: a positive number, rounded down, or the default ([None] is an
    unset or non-numeric variable). *)
Definition envInt (v : option Z) (def : Z) : Z :=
  match v with Some n => if 0 <? n then n else def | None => def end.

Definition config_of (e1 e2 e3 e4 : option Z) : config :=
  {| ipMax := envInt e1 30; ipWindow := envInt e2 900;
     failMax := envInt e3 5; lockSeconds := envInt e4 900 |}.

Definition ipKey (ip : string) : string := "cerebro:login:ip:" +:+ ip.
Definition failKey (i : string) : string := "cerebro:login:fail:" +:+ toLowerCase i.
Definition lockKey (i : string) : string := "cerebro:login:lock:" +:+ toLowerCase i.

(** Inside the [try]: an HTTP exception, or a Redis error. *)
Abbreviation try_call := (svc R output (option http_error)).

Definition redis (now : Z) (c : command) : try_call reply := λ r,
  match exec c now r with
  | (Some v, r') => (Ok v, r', [])
  | (None, r') => (Err None, r', [])
  end.

(** [Number(reply)]: a missing value counts as 0. *)
Definition number (r : reply) : Z := match r with RInt n => n | _ => 0 end.

Definition warn (m : string) : output := OLog Warn "LoginThrottle" m.

(** [catch (e) { if (e instanceof HttpException) throw e; warn }] *)
Definition rethrow (m : string) (e : option http_error) : svc R output http_error unit :=
  match e with Some e => throw e | None => tell (warn m) end.

(** [Math.ceil(ttl / 60)] *)
Definition ceil60 (n : Z) : Z := - ((- n) / 60).

Definition too_many_failures (ttl : Z) : http_error :=
  TooManyRequests ("Too many failed attempts. Try again in " +:+
    num_to_string (ceil60 ttl) +:+ " min.").
Definition too_many_attempts : http_error :=
  TooManyRequests "Too many sign-in attempts from your network. Try again later.".

Definition assertAllowed (cfg : config) (now : Z) (ip : option string) (acct : string) :
    svc R output http_error unit :=
  rescue
    (lockTtl ← redis now (Ttl (lockKey acct));
     ipCount ← (if truthy ip then redis now (Get (ipKey (default ""%string ip)))
                else mret RNil);
     throw_if (0 <? number lockTtl) (Some (too_many_failures (number lockTtl))) ;;
     throw_if (truthy ip && (ipMax cfg <=? number ipCount)) (Some too_many_attempts))
    (rethrow "throttle check unavailable (allowing)").

(** [const n = await incr(key); if (n === 1) await expire(key, seconds)] *)
Definition count (now : Z) (k : string) (s : Z) : try_call Z :=
  n ← redis now (Incr k);
  when (number n =? 1) (redis now (Expire k s) ;; mret tt) ;;
  mret (number n).

Definition recordFailure (cfg : config) (now : Z) (ip : option string) (acct : string) :
    svc R output http_error unit :=
  rescue
    (when (truthy ip)
       (count now (ipKey (default ""%string ip)) (ipWindow cfg) ;; mret tt) ;;
     fails ← count now (failKey acct) (lockSeconds cfg);
     when (failMax cfg <=? fails)
       (redis now (SetEx (lockKey acct) 1 (lockSeconds cfg)) ;;
        redis now (Del [failKey acct]) ;; mret tt))
    (λ _, tell (warn "throttle record-failure unavailable")).

Definition recordSuccess (now : Z) (acct : string) : svc R output http_error unit :=
  rescue (redis now (Del [failKey acct; lockKey acct]) ;; mret tt) (λ _, mret tt).

(** [n] failed attempts on one account, at the given times. *)
Fixpoint failures (cfg : config) (ip : option string) (acct : string) (times : list Z) :
    svc R output http_error unit :=
  match times with
  | [] => mret tt
  | t :: ts => recordFailure cfg t ip acct ;; failures cfg ip acct ts
  end.

End service.

(** ** Lemmas *)

Lemma lookup_live_insert now k e (m : keyspace) :
  lookup_live now k (<[k := e]> m) = if alive now e then Some e else None.
Proof. unfold lookup_live. by rewrite lookup_insert_eq. Qed.

Lemma lookup_live_insert_ne now k k' e (m : keyspace) :
  k ≠ k' → lookup_live now k' (<[k := e]> m) = lookup_live now k' m.
Proof. intros. unfold lookup_live. by rewrite lookup_insert_ne. Qed.

Lemma lookup_live_Some now k e (m : keyspace) :
  lookup_live now k m = Some e ↔ m !! k = Some e ∧ alive now e = true.
Proof.
  unfold lookup_live. destruct (m !! k) as [e'|]; simpl; [|by split; intros; destruct_and?].
  destruct (alive now e') eqn:Ha; split; try done.
  - by intros [= <-].
  - by intros [[= <-] _].
  - intros [[= <-] ?]. congruence.
Qed.

Section lemmas.
Context {R : Type} `{RedisLaws R}.

(** Redis answers. *)
Definition reachable_redis : Prop := ∀ c now (r : R), ∃ v r', exec c now r = (Some v, r').

Hypothesis Hup : reachable_redis.

Lemma redis_ok c now (r : R) : ∃ v r',
  redis now c r = (Ok v, r', []) ∧ redis_reply c now (contents r) v ∧
  contents r' = redis_effect c now (contents r).
Proof using Hup.
  destruct (Hup c now r) as (v & r' & He). exists v, r'.
  unfold redis. rewrite He. split; [done|]. by apply exec_ok.
Qed.

Lemma keys_apart ip a b : ipKey ip ≠ failKey a ∧ ipKey ip ≠ lockKey a ∧ failKey a ≠ lockKey b.
Proof. done. Qed.

(** Run the next Redis command of a handler. *)
Ltac redis_step v r' Hrep Hcon :=
  match goal with
  | |- context [redis ?now ?c ?r] =>
      destruct (redis_ok c now r) as (v & r' & -> & Hrep & Hcon); cbn [redis_reply redis_effect] in *
  end.

(** The counter of a key after one more failure, and its expiry. *)
Definition bump (now seconds : Z) (old : option (Z * option Z)) : Z * option Z :=
  let n := from_option fst 0 old + 1 in
  (n, if n =? 1 then Some (now + seconds * 1000) else from_option snd None old).

Lemma count_ok now k s (r : R) : 0 < s →
  let e := bump now s (lookup_live now k (contents r)) in
  ∃ r', count now k s r = (Ok e.1, r', []) ∧ contents r' = <[k := e]> (contents r).
Proof using Hup.
  intros Hs e. unfold count, mbind, svc_bind, when.
  redis_step v r1 Hv Hr1. subst v. simpl. subst e. unfold bump.
  destruct (lookup_live now k (contents r)) as [[n t]|] eqn:Hl; rewrite ?Hl in Hr1; simpl in *.
  - apply lookup_live_Some in Hl as [_ Ha].
    destruct (n + 1 =? 1) eqn:Hn; [|exists r1; by rewrite Hr1].
    redis_step v r2 Hv2 Hr2. simpl. exists r2. split; [done|].
    rewrite Hr2, Hr1, lookup_live_insert.
    unfold alive in *. simpl in *. rewrite Ha. simpl. by rewrite insert_insert_eq.
  - redis_step v r2 Hv2 Hr2. simpl. exists r2. split; [done|].
    rewrite Hr2, Hr1, lookup_live_insert. simpl. by rewrite insert_insert_eq.
Qed.

(** One recorded failure, Redis answering. *)
Lemma recordFailure_ok cfg now ip acct (r : R) :
  0 < ipWindow cfg → 0 < lockSeconds cfg →
  let e := bump now (lockSeconds cfg) (lookup_live now (failKey acct) (contents r)) in
  ∃ r', recordFailure cfg now ip acct r = (Ok tt, r', []) ∧
    if failMax cfg <=? e.1
    then lookup_live now (lockKey acct) (contents r') =
           Some (1, Some (now + lockSeconds cfg * 1000)) ∧
         contents r' !! lockKey acct = Some (1, Some (now + lockSeconds cfg * 1000)) ∧
         contents r' !! failKey acct = None
    else contents r' !! failKey acct = Some e ∧
         contents r' !! lockKey acct = contents r !! lockKey acct.
Proof using Hup.
  intros Hw Hl. unfold recordFailure, rescue.
  assert (Hip : ∃ r1, when (truthy ip) (count now (ipKey (default ""%string ip))
      (ipWindow cfg) ;; mret tt) r = (Ok tt, r1, []) ∧
    ∀ k, (∀ i, k ≠ ipKey i) → contents r1 !! k = contents r !! k).
  { unfold when. destruct (truthy ip); [|by exists r].
    destruct (count_ok now (ipKey (default ""%string ip)) _ r Hw) as (r1 & Hc & Hr1).
    exists r1. rewrite (svc_bind_run _ _ _ _ _ Hc). split; [done|].
    intros k Hk. by rewrite Hr1, lookup_insert_ne by congruence. }
  destruct Hip as (r1 & Hip & Hkeep).
  destruct (count_ok now (failKey acct) _ r1 Hl) as (r2 & Hc & Hr2).
  rewrite (svc_bind_run _ _ _ _ _ Hip), (svc_bind_run _ _ _ _ _ Hc). clear Hip Hc.
  replace (lookup_live now (failKey acct) (contents r1))
    with (lookup_live now (failKey acct) (contents r)) in *
    by (unfold lookup_live; by rewrite Hkeep).
  set (e := bump _ _ _) in *. unfold when. destruct (failMax cfg <=? e.1).
  - destruct (redis_ok (SetEx (lockKey acct) 1 (lockSeconds cfg)) now r2)
      as (v3 & r3 & H3 & _ & Hr3).
    destruct (redis_ok (Del [failKey acct]) now r3) as (v4 & r4 & H4 & _ & Hr4).
    rewrite (svc_bind_run _ _ _ _ _ H3), (svc_bind_run _ _ _ _ _ H4).
    exists r4. split; [done|]. simpl in Hr3, Hr4.
    rewrite Hr4, Hr3. rewrite lookup_delete_eq.
    unfold lookup_live. rewrite lookup_delete_ne, lookup_insert_eq by done. simpl.
    unfold alive. simpl. rewrite (proj2 (Z.ltb_lt _ _)) by lia. done.
  - simpl. exists r2. split; [done|].
    rewrite Hr2, lookup_insert_eq, lookup_insert_ne by done.
    by rewrite Hkeep.
Qed.

(** While failures stay inside the first one's window they add up. *)
Lemma failures_count cfg ip acct t0 n times (r : R) :
  0 < ipWindow cfg → 0 < lockSeconds cfg → 0 < n →
  contents r !! failKey acct = Some (n, Some (t0 + lockSeconds cfg * 1000)) →
  Forall (λ t, t < t0 + lockSeconds cfg * 1000) times →
  n + Z.of_nat (length times) < failMax cfg →
  ∃ r', failures cfg ip acct times r = (Ok tt, r', []) ∧
    contents r' !! failKey acct =
      Some (n + Z.of_nat (length times), Some (t0 + lockSeconds cfg * 1000)).
Proof using Hup.
  intros Hw Hl Hn Hk Ht Hmax. revert n r Hn Hk Hmax.
  induction Ht as [|t times Ht _ IH]; intros n r Hn Hk Hmax.
  { exists r. split; [done|]. by rewrite Z.add_0_r. }
  destruct (recordFailure_ok cfg t ip acct r Hw Hl) as (r1 & Hr1 & Hcase).
  assert (Hlive : lookup_live t (failKey acct) (contents r) =
    Some (n, Some (t0 + lockSeconds cfg * 1000))).
  { apply lookup_live_Some. split; [done|]. unfold alive. simpl. by apply Z.ltb_lt. }
  rewrite Hlive in Hcase. unfold bump in Hcase. cbn [from_option fst snd length] in *.
  rewrite (proj2 (Z.leb_gt _ _)), (proj2 (Z.eqb_neq _ _)) in Hcase by lia.
  destruct Hcase as [Hcase _].
  destruct (IH (n + 1) r1) as (r' & Hr' & Hres); [lia | done | lia |].
  exists r'. cbn [failures]. rewrite (svc_bind_run _ _ _ _ _ Hr1), Hr'. split; [done|].
  rewrite Hres. do 2 f_equal. lia.
Qed.

Lemma failures_app cfg ip acct ts t (r : R) r1 :
  failures cfg ip acct ts r = (Ok tt, r1, []) →
  failures cfg ip acct (ts ++ [t]) r = recordFailure cfg t ip acct r1.
Proof.
  revert r. induction ts as [|x ts IH]; intros r; cbn [failures app].
  - unfold mret, svc_ret. intros [= ->]. unfold mbind, svc_bind.
    destruct (recordFailure cfg t ip acct r1) as [[[[]|] ?] ?]; [|done].
    unfold mret, svc_ret. by rewrite app_nil_r.
  - unfold mbind, svc_bind.
    destruct (recordFailure cfg x ip acct r) as [[[[]|] r2] o2]; [|done].
    destruct (failures cfg ip acct ts r2) as [[r3 ?] o3] eqn:Hf. intros [= -> -> Ho].
    apply app_nil in Ho as [-> ->]. rewrite (IH _ Hf).
    by destruct (recordFailure cfg t ip acct r1) as [[??]?].
Qed.

End lemmas.

(** ** Theorems *)

(** the throttle never refuses a sign-in because it is itself out of order:
    counting never throws, the check throws nothing but 429s, and it allows
    when Redis cannot be asked, whatever Redis does. *)
Theorem throttle_fails_open {R : Type} `{Redis R} (cfg : config) (now : Z)
    (ip : option string) (acct : string) (r : R) :
  run_result (recordFailure cfg now ip acct) r = Ok tt ∧
  run_result (recordSuccess now acct) r = Ok tt ∧
  (∀ e, run_result (assertAllowed cfg now ip acct) r = Err e →
     ∃ msg, e = TooManyRequests msg) ∧
  ((exec (Ttl (lockKey acct)) now r).1 = None →
     run_result (assertAllowed cfg now ip acct) r = Ok tt).
Proof.
  split_and!.
  - by apply rescue_total.
  - by apply rescue_total.
  - intros e. unfold run_result, assertAllowed, rescue, throw_if, rethrow, mbind, svc_bind,
      redis, throw, tell, mret, svc_ret.
    repeat (case_match; simplify_eq/=); intros; simplify_eq;
      unfold too_many_failures, too_many_attempts; eauto.
  - intros Hdown. unfold run_result, assertAllowed, rescue.
    rewrite (svc_bind_throw _ _ _ None (exec (Ttl (lockKey acct)) now r).2 []); [done|].
    unfold redis. destruct (exec _ _ r) as [o r']. simpl in Hdown. by subst o.
Qed.

(** [failMax] failures on one account within the window of the first lock
    it: while Redis answers, every attempt on the account is refused with a 429
    from then on, wherever it comes from, until the last second of the lock. *)
Theorem failMax_failures_lock {R : Type} `{RedisLaws R} (cfg : config)
    (ip ip' : option string) (acct : string) (t0 tn t : Z) (earlier : list Z) (r : R) :
  reachable_redis (R := R) → 0 < ipWindow cfg → 0 < lockSeconds cfg →
  Z.of_nat (length (earlier ++ [tn])) = failMax cfg →
  head (earlier ++ [tn]) = Some t0 →
  Forall (λ x, x < t0 + lockSeconds cfg * 1000) (earlier ++ [tn]) →
  lookup_live t0 (failKey acct) (contents r) = None →
  tn ≤ t → t + 1000 ≤ tn + lockSeconds cfg * 1000 →
  ∃ r' n, failures cfg ip acct (earlier ++ [tn]) r = (Ok tt, r', []) ∧ 0 < n ∧
    run_result (assertAllowed cfg t ip' acct) r' = Err (too_many_failures n).
Proof.
  intros Hup Hw Hl Hlen Hhd Hin Hnone Htn Ht.
  (* the failures before the last leave the count just below the limit *)
  assert (Hearly : ∃ r1, failures cfg ip acct earlier r = (Ok tt, r1, []) ∧
    failMax cfg <= (bump tn (lockSeconds cfg)
      (lookup_live tn (failKey acct) (contents r1))).1).
  { destruct earlier as [|x rest]; simplify_eq/=.
    { exists r. split; [done|]. rewrite Hnone. simpl. lia. }
    destruct (recordFailure_ok Hup cfg t0 ip acct r Hw Hl) as (r1 & Hr1 & Hcase).
    rewrite Hnone in Hcase. rewrite length_app in Hlen. simpl in Hlen.
    rewrite (proj2 (Z.leb_gt _ _)) in Hcase by (simpl; lia).
    destruct Hcase as [Hfail _]. apply Forall_cons in Hin as [_ Hin].
    apply Forall_app in Hin as [Hin [Hlast _]%Forall_cons].
    destruct (failures_count Hup cfg ip acct t0 1 rest r1) as (r2 & Hr2 & Hcount);
      [done | done | lia | done | done | lia |].
    exists r2. rewrite (svc_bind_run _ _ _ _ _ Hr1), Hr2. split; [done|].
    rewrite (proj2 (lookup_live_Some _ _ _ _) (conj Hcount (proj2 (Z.ltb_lt _ _) Hlast))).
    simpl. lia. }
  destruct Hearly as (r1 & Hr1 & Hmax).
  destruct (recordFailure_ok Hup cfg tn ip acct r1 Hw Hl) as (r2 & Hr2 & Hcase).
  rewrite (proj2 (Z.leb_le _ _)) in Hcase by done. destruct Hcase as (_ & Hlock & _).
  destruct (redis_ok Hup (Ttl (lockKey acct)) t r2) as (v & r3 & Hv & Hrep & _).
  cbn [redis_reply] in Hrep.
  assert (Hlive : lookup_live t (lockKey acct) (contents r2) =
    Some (1, Some (tn + lockSeconds cfg * 1000))).
  { apply lookup_live_Some. split; [exact Hlock|]. apply Z.ltb_lt. lia. }
  rewrite Hlive in Hrep.
  destruct Hrep as (n & -> & Hn0 & Hn). exists r2, n.
  assert (0 < n) by lia.
  split; [by rewrite (failures_app _ _ _ _ _ _ _ Hr1) | split; [done|]].
  unfold run_result, assertAllowed, rescue. rewrite (svc_bind_run _ _ _ _ _ Hv).
  assert (Hget : ∃ v r4, (if truthy ip' then redis t (Get (ipKey (default ""%string ip')))
      else mret RNil) r3 = (Ok v, r4, [])).
  { destruct (truthy ip'); [|by eauto].
    destruct (redis_ok Hup (Get (ipKey (default ""%string ip'))) t r3) as (v & r4 & ? & _).
    eauto. }
  destruct Hget as (v & r4 & Hget). rewrite (svc_bind_run _ _ _ _ _ Hget). simpl.
  rewrite (proj2 (Z.ltb_lt 0 n)) by done. done.
Qed.

(** The map-backed keyspace obeys the laws and always answers. *)
#[export] Instance map_redis : Redis keyspace := map_exec.

#[export] Instance map_redis_laws : RedisLaws keyspace.
Proof.
  refine {| contents := λ m, m |}. intros c now r v r' [= <- <-]. split; [|done].
  destruct c; simpl; try done.
  destruct (lookup_live now key r) as [[n [t|]]|] eqn:Hl; [|done|done].
  apply lookup_live_Some in Hl as [_ Ha]. unfold alive in Ha. simpl in Ha.
  apply Z.ltb_lt in Ha. exists ((t - now) / 1000). split; [done|].
  pose proof (Z.div_mod (t - now) 1000 ltac:(lia)).
  pose proof (Z.mod_pos_bound (t - now) 1000 ltac:(lia)).
  pose proof (Z.div_pos (t - now) 1000 ltac:(lia) ltac:(lia)). lia.
Defined.

Lemma failMax_failures_lock_witness :
  ∃ r' n,
    failures (config_of None None (Some 3) None) (Some "10.0.0.9"%string) "a@b"
      ([0; 1000] ++ [2000]) ∅ = (Ok tt, r', []) ∧ 0 < n ∧
    run_result (assertAllowed (config_of None None (Some 3) None) 5000 None "a@b") r' =
      Err (too_many_failures n).
Proof.
  apply (failMax_failures_lock (config_of None None (Some 3) None)
    (Some "10.0.0.9"%string) None "a@b" 0 2000 5000 [0; 1000]).
  - intros c now r. eexists _, _. reflexivity.
  - reflexivity.
  - reflexivity.
  - reflexivity.
  - reflexivity.
  - repeat constructor; vm_compute; reflexivity.
  - reflexivity.
  - lia.
  - vm_compute. discriminate.
Defined.
