(* ===== verification/LoginFlow.v ===== *)
(** * Signing in, [auth/auth.controller.ts]

    The controller composes the IP policy, the throttle, the password check and
    the second factor, and owns the session: a challenge waiting for its code,
    or an authenticated user.  Session-store failures are not modelled. *)

From S2P Require Import Prelude JsText Crypto Accounts Totp LoginThrottle IpPolicy.
#[local] Set Default Proof Using "Type*".
Local Open Scope Z_scope.

Definition MFA_CHALLENGE_TTL_MS : Z := 5 * 60 * 1000.
Definition MFA_MAX_ATTEMPTS : Z := 5.

Record pendingMfa := Pending { p_userId : string; expiresAt : Z; attempts : Z }.
Record session := Session { s_userId : option string; s_pending : option pendingMfa }.

Definition new_session : session := Session None None.

Section controller.
Context `{Bcrypt} `{Vault} `{Otp} {R : Type} `{Redis R}.

(** Everything a sign-in request touches; [sess] is its own session. *)
Record world := World {
  accounts : db;
  throttle : R;
  policy : LocalLoginPolicyService.state;
  sess : session
}.

Abbreviation act := (svc world output http_error).

Definition on_accounts {A} (m : svc db output http_error A) : act A :=
  focus accounts (λ x w, World x (throttle w) (policy w) (sess w)) m.
Definition on_throttle {A} (m : svc R output http_error A) : act A :=
  focus throttle (λ x w, World (accounts w) x (policy w) (sess w)) m.
Definition on_policy {A} (m : svc LocalLoginPolicyService.state output http_error A) : act A :=
  focus policy (λ x w, World (accounts w) (throttle w) x (sess w)) m.
Definition set_session (s : session) : act unit :=
  modify (λ w, World (accounts w) (throttle w) (policy w) s).

(** [req.session.regenerate] then the one property: [login_],
    [beginMfaChallenge_] and [clearPendingMfa_]. *)
Definition login_ (userId : string) : act unit := set_session (Session (Some userId) None).
Definition beginMfaChallenge_ (now : Z) (userId : string) : act unit :=
  set_session (Session None (Some (Pending userId (now + MFA_CHALLENGE_TTL_MS) 0))).
Definition clearPendingMfa_ : act unit :=
  s ← gets sess; set_session (Session (s_userId s) None).

Definition setup (roleId userId salt email password name : string) : act unit :=
  i ← on_accounts (AuthService.createInitialAdmin roleId userId salt email name password);
  login_ i.

Inductive login_result := LoggedIn | MfaRequired.

Definition login (cfg : config) (now : Z) (ip : option string) (email password : string) :
    act login_result :=
  on_policy (LocalLoginPolicyService.assertAllowed now ip (Some email)) ;;
  on_throttle (assertAllowed cfg now ip email) ;;
  found ← on_accounts (AuthService.validateLocal now email password);
  match found with
  | None =>
      on_throttle (recordFailure cfg now ip email) ;;
      tell (OAudit (Audit None (Some email) "auth.login_failed" (Some email))) ;;
      throw (Unauthorized "Invalid email or password.")
  | Some userId =>
      status ← on_accounts (getStatus userId);
      if fst (status : bool * bool) then beginMfaChallenge_ now userId ;; mret MfaRequired
      else
        on_throttle (recordSuccess now email) ;;
        login_ userId ;;
        tell (OAudit (Audit (Some userId) (Some email) "auth.login" None)) ;;
        mret LoggedIn
  end.

Definition acct (userId : string) : string := "uid:" +:+ userId.

Definition loginTotp (cfg : config) (now : Z) (ip : option string) (code : string) : act unit :=
  s ← gets sess;
  pending ← or_throw (s_pending s)
    (Unauthorized "No sign-in is awaiting a code. Start over.");
  if expiresAt pending <? now then
    clearPendingMfa_ ;; throw (Unauthorized "The sign-in request expired. Start over.")
  else if MFA_MAX_ATTEMPTS <=? attempts pending then
    clearPendingMfa_ ;; throw (Unauthorized "Too many incorrect codes. Start over.")
  else
    on_policy (LocalLoginPolicyService.assertAllowed now ip None) ;;
    on_throttle (assertAllowed cfg now ip (acct (p_userId pending))) ;;
    ok ← on_accounts (verifyForLogin now (p_userId pending) code);
    if (ok : bool) then
      on_throttle (recordSuccess now (acct (p_userId pending))) ;;
      login_ (p_userId pending) ;;
      tell (OAudit (Audit (Some (p_userId pending)) None "auth.login" None))
    else
      set_session (Session (s_userId s)
        (Some (Pending (p_userId pending) (expiresAt pending) (attempts pending + 1)))) ;;
      on_throttle (recordFailure cfg now ip (acct (p_userId pending))) ;;
      throw (Unauthorized "That code is incorrect.").

Definition logout (user : option string) : act unit :=
  (match user with
   | Some u => tell (OAudit (Audit (Some u) None "auth.logout" None))
   | None => mret tt
   end) ;;
  set_session new_session.

(** The requests one browser session can make. *)
Inductive request :=
| Login (now : Z) (ip : option string) (email password : string)
| LoginTotp (now : Z) (ip : option string) (code : string)
| Logout (user : option string).

Definition handle (cfg : config) (r : request) (w : world) : world :=
  match r with
  | Login now ip email password => run_state (login cfg now ip email password) w
  | LoginTotp now ip code => run_state (loginTotp cfg now ip code) w
  | Logout u => run_state (logout u) w
  end.

(** ** Lemmas *)

(** A composed service leaves a part of the world alone. *)
Definition keeps {A B} (part : world → B) (m : act A) : Prop :=
  ∀ w r w' o, m w = (r, w', o) → part w' = part w.

Lemma on_accounts_keeps {A} (m : svc db output http_error A) : keeps sess (on_accounts m).
Proof. intros w r w' o. unfold on_accounts, focus. destruct (m _) as [[??]?]. by intros [= _ <- _]. Qed.

Lemma on_throttle_keeps {A} (m : svc R output http_error A) : keeps sess (on_throttle m).
Proof. intros w r w' o. unfold on_throttle, focus. destruct (m _) as [[??]?]. by intros [= _ <- _]. Qed.

Lemma on_throttle_accounts {A} (m : svc R output http_error A) : keeps accounts (on_throttle m).
Proof. intros w r w' o. unfold on_throttle, focus. destruct (m _) as [[??]?]. by intros [= _ <- _]. Qed.

Lemma on_policy_keeps {A} (m : svc _ output http_error A) : keeps sess (on_policy m).
Proof. intros w r w' o. unfold on_policy, focus. destruct (m _) as [[??]?]. by intros [= _ <- _]. Qed.

Lemma on_policy_accounts {A} (m : svc _ output http_error A) : keeps accounts (on_policy m).
Proof. intros w r w' o. unfold on_policy, focus. destruct (m _) as [[??]?]. by intros [= _ <- _]. Qed.

(** Either the first part throws, or the rest runs after it. *)
Lemma bind_cases {A B} (m : act A) (k : A → act B) w r w' o :
  (m ≫= k) w = (r, w', o) →
  (∃ e, r = Err e ∧ m w = (Err e, w', o)) ∨
  (∃ a w1 o1 o2, m w = (Ok a, w1, o1) ∧ k a w1 = (r, w', o2)).
Proof.
  unfold mbind, svc_bind. destruct (m w) as [[[a|e] w1] o1].
  - destruct (k a w1) as [[r2 w2] o2] eqn:Hk. intros [= -> -> _]. right.
    by exists a, w1, o1, o2.
  - intros [= <- <- <-]. left. by exists e.
Qed.

(** What the password check accepted. *)
Definition password_ok (s : db) (mail password userId : string) : Prop :=
  ∃ u h, u ∈ users s ∧ email u = toLowerCase mail ∧ user_id u = userId ∧
    disabled u = false ∧ passwordHash u = Some h ∧ bcrypt_compare password h = true.

Lemma validateLocal_Some now mail password s i s' o :
  AuthService.validateLocal now mail password s = (Ok (Some i), s', o) →
  password_ok s mail password i ∧
  s' = with_users (updateMany (has_id i) (set_lastLogin now)) s.
Proof.
  unfold AuthService.validateLocal. svc_run.
  destruct (findFirst _ (users s)) as [u|] eqn:Hf; [|done].
  apply findFirst_Some in Hf as [Hin He]. apply bool_decide_eq_true in He.
  destruct (disabled u) eqn:Hd; [done|]. destruct (passwordHash u) as [h|] eqn:Hh; [|done].
  case_bool_decide; [done|]. destruct (bcrypt_compare password h) eqn:Hb; [|done].
  unfold update_user. svc_run. unfold mret, svc_ret. intros [= <- <- _].
  split; [|done]. exists u, h. auto 10.
Qed.

Definition mfa_enabled (s : db) (userId : string) : Prop :=
  ∃ u, find_user userId s = Some u ∧ Totp.enabled u = true.

Lemma find_user_lastLogin i j now s :
  find_user i (with_users (updateMany (has_id j) (set_lastLogin now)) s) =
  (λ u, if has_id j u then set_lastLogin now u else u) <$> find_user i s.
Proof.
  unfold find_user, findFirst, updateMany. simpl.
  induction (users s) as [|u l IH]; [done|]. rewrite fmap_cons, !filter_cons.
  assert (has_id i (if has_id j u then set_lastLogin now u else u) = has_id i u) as ->
    by by destruct (has_id j u).
  by case_decide.
Qed.

Lemma getStatus_ok i s b s' o :
  getStatus i s = (Ok b, s', o) → s' = s ∧ (b.1 = true ↔ mfa_enabled s i).
Proof.
  unfold getStatus. svc_run. unfold mfa_enabled.
  destruct (find_user i s) as [u|] eqn:Hu; [|done].
  unfold mret, svc_ret. intros [= <- <- _]. split; [done|]. simpl. split.
  - intros He. by exists u.
  - by intros (u' & [= <-] & He).
Qed.

Lemma mfa_enabled_lastLogin i j now s :
  mfa_enabled (with_users (updateMany (has_id j) (set_lastLogin now)) s) i ↔ mfa_enabled s i.
Proof.
  unfold mfa_enabled. rewrite find_user_lastLogin.
  destruct (find_user i s) as [u|]; simpl; split; intros (u' & [= <-] & He).
  - exists u. split; [done|]. by destruct (has_id j u).
  - eexists. split; [done|]. by destruct (has_id j u).
Qed.

(** What each answer of [login] means for the session. *)
Lemma login_session cfg now ip mail password w r w' o :
  login cfg now ip mail password w = (r, w', o) →
  match r with
  | Ok LoggedIn => ∃ u, password_ok (accounts w) mail password u ∧
      ¬ mfa_enabled (accounts w) u ∧ sess w' = Session (Some u) None
  | Ok MfaRequired => ∃ u, password_ok (accounts w) mail password u ∧
      mfa_enabled (accounts w) u ∧
      sess w' = Session None (Some (Pending u (now + MFA_CHALLENGE_TTL_MS) 0))
  | Err _ => sess w' = sess w
  end.
Proof.
  unfold login. intros [(e & -> & Hp)|([] & w1 & o1 & o2 & Hp & Hr1)]%bind_cases.
  { by apply on_policy_keeps in Hp. }
  pose proof (on_policy_keeps _ _ _ _ _ Hp) as Hs1.
  pose proof (on_policy_accounts _ _ _ _ _ Hp) as Ha1.
  apply bind_cases in Hr1 as [(e & -> & Ht)|([] & w2 & o3 & o4 & Ht & Hr2)].
  { apply on_throttle_keeps in Ht. congruence. }
  pose proof (on_throttle_keeps _ _ _ _ _ Ht) as Hs2.
  pose proof (on_throttle_accounts _ _ _ _ _ Ht) as Ha2.
  rewrite Ha1 in Ha2. clear Hp Ht.
  apply bind_cases in Hr2 as [(e & -> & Hv)|(found & w3 & o5 & o6 & Hv & Hr3)].
  { apply on_accounts_keeps in Hv. congruence. }
  pose proof (on_accounts_keeps _ _ _ _ _ Hv) as Hs3.
  destruct found as [u|].
  2: { revert Hr3. intros [(e & -> & Hf)|([] & w4 & o7 & o8 & Hf & Hr4)]%bind_cases;
    apply on_throttle_keeps in Hf; [congruence|].
    revert Hr4. svc_run. unfold throw. intros [= <- <- _]. congruence. }
  unfold on_accounts, focus in Hv.
  destruct (AuthService.validateLocal now mail password (accounts w2))
    as [[rv s3] ov] eqn:Hval. injection Hv as -> <- _.
  apply validateLocal_Some in Hval as [Hpw ->]. simpl in Hs3.
  apply bind_cases in Hr3 as [(e & -> & Hg)|(status & w4 & o7 & o8 & Hg & Hr4)].
  { apply on_accounts_keeps in Hg. simpl in Hg. congruence. }
  pose proof (on_accounts_keeps _ _ _ _ _ Hg) as Hs4. simpl in Hs4.
  unfold on_accounts, focus in Hg. cbn [accounts] in Hg.
  destruct (getStatus u _) as [[rg s4] og] eqn:Hst. injection Hg as -> <- _.
  apply getStatus_ok in Hst as [-> Hmfa]. rewrite mfa_enabled_lastLogin in Hmfa.
  rewrite Ha2 in *. destruct (fst status).
  - revert Hr4. unfold beginMfaChallenge_, set_session. svc_run. unfold mret, svc_ret.
    intros [= <- <- _]. exists u. split_and!; [done | by apply Hmfa | done].
  - apply bind_cases in Hr4 as [(e & -> & Hf)|([] & w5 & o9 & o10 & Hf & Hr5)].
    { apply on_throttle_keeps in Hf. simpl in Hf. congruence. }
    revert Hr5. unfold login_, set_session. svc_run. unfold mret, svc_ret.
    intros [= <- <- _]. exists u. split_and!; [done | | done].
    intros Hm. by apply Hmfa in Hm.
Qed.

(** What each answer of [loginTotp] means for the session. *)
Lemma loginTotp_session cfg now ip code w r w' o :
  loginTotp cfg now ip code w = (r, w', o) →
  match r with
  | Ok _ => ∃ p, s_pending (sess w) = Some p ∧ now ≤ expiresAt p ∧
      attempts p < MFA_MAX_ATTEMPTS ∧
      run_result (verifyForLogin now (p_userId p) code) (accounts w) = Ok true ∧
      sess w' = Session (Some (p_userId p)) None
  | Err _ => s_userId (sess w') = s_userId (sess w) ∧
      (s_pending (sess w') = s_pending (sess w) ∨ s_pending (sess w') = None ∨
       ∃ p, s_pending (sess w) = Some p ∧ attempts p < MFA_MAX_ATTEMPTS ∧
         s_pending (sess w') = Some (Pending (p_userId p) (expiresAt p) (attempts p + 1)))
  end.
Proof.
  unfold loginTotp, clearPendingMfa_, set_session. svc_run.
  destruct (s_pending (sess w)) as [p|] eqn:Hpend; [|intros [= <- <- _]; auto].
  destruct (Z.ltb_spec (expiresAt p) now); [svc_run; intros [= <- <- _]; simpl; auto|].
  destruct (Z.leb_spec MFA_MAX_ATTEMPTS (attempts p)); [svc_run; intros [= <- <- _]; simpl; auto|].
  intros [(e & -> & Hp)|([] & w1 & o1 & o2 & Hp & Hr1)]%bind_cases.
  { apply on_policy_keeps in Hp as ->. auto. }
  pose proof (on_policy_keeps _ _ _ _ _ Hp) as Hs1.
  pose proof (on_policy_accounts _ _ _ _ _ Hp) as Ha1.
  apply bind_cases in Hr1 as [(e & -> & Ht)|([] & w2 & o3 & o4 & Ht & Hr2)].
  { apply on_throttle_keeps in Ht as ->. rewrite Hs1. auto. }
  pose proof (on_throttle_keeps _ _ _ _ _ Ht) as Hs2.
  pose proof (on_throttle_accounts _ _ _ _ _ Ht) as Ha2.
  rewrite Ha1 in Ha2. rewrite Hs1 in Hs2. clear Hp Ht.
  apply bind_cases in Hr2 as [(e & -> & Hv)|(ok & w3 & o5 & o6 & Hv & Hr3)].
  { apply on_accounts_keeps in Hv as ->. rewrite Hs2. auto. }
  pose proof (on_accounts_keeps _ _ _ _ _ Hv) as Hs3. rewrite Hs2 in Hs3.
  unfold on_accounts, focus in Hv. rewrite Ha2 in Hv.
  destruct (verifyForLogin now (p_userId p) code (accounts w)) as [[rv s3] ov] eqn:Hver.
  injection Hv as -> Hw3 _. destruct ok.
  - apply bind_cases in Hr3 as [(e & -> & Hf)|([] & w5 & o9 & o10 & Hf & Hr5)].
    { apply on_throttle_keeps in Hf as ->. rewrite Hs3. auto. }
    revert Hr5. unfold login_, set_session. svc_run. intros [= <- <- _].
    exists p. unfold run_result. rewrite Hver. auto.
  - revert Hr3. svc_run.
    intros [(e & -> & Hf)|([] & w5 & o9 & o10 & Hf & Hr5)]%bind_cases.
    + apply on_throttle_keeps in Hf as ->. simpl. split; [done|]. right. right. by exists p.
    + injection Hr5 as <- <- _. apply on_throttle_keeps in Hf as ->. simpl.
      split; [done|]. right. right. by exists p.
Qed.
(** ** A session's history

    One browser's requests, with anything at all happening to the tables, the
    throttle and the policy in between. *)
Inductive event :=
| Req (r : request)
| Env (a : db) (t : R) (p : LocalLoginPolicyService.state).

Definition react (cfg : config) (e : event) (w : world) : world :=
  match e with
  | Req r => handle cfg r w
  | Env a t p => World a t p (sess w)
  end.

Definition run (cfg : config) (es : list event) (w : world) : world :=
  foldl (λ w e, react cfg e w) w es.

(** Somewhere in the history the account's password was presented. *)
Definition password_proved (cfg : config) (es : list event) (w : world) (u : string) : Prop :=
  ∃ pre post now ip mail password,
    es = pre ++ Req (Login now ip mail password) :: post ∧
    password_ok (accounts (run cfg pre w)) mail password u.

(** It was presented while the account had no second factor, or a code of the
    second factor was accepted after it. *)
Definition authenticated (cfg : config) (es : list event) (w : world) (u : string) : Prop :=
  (∃ pre post now ip mail password,
     es = pre ++ Req (Login now ip mail password) :: post ∧
     password_ok (accounts (run cfg pre w)) mail password u ∧
     ¬ mfa_enabled (accounts (run cfg pre w)) u) ∨
  (∃ pre post now ip code,
     es = pre ++ Req (LoginTotp now ip code) :: post ∧
     password_proved cfg pre w u ∧
     run_result (verifyForLogin now u code) (accounts (run cfg pre w)) = Ok true).

Lemma run_snoc cfg es e w : run cfg (es ++ [e]) w = react cfg e (run cfg es w).
Proof. unfold run. by rewrite foldl_app. Qed.

Lemma password_proved_snoc cfg es e w u :
  password_proved cfg es w u → password_proved cfg (es ++ [e]) w u.
Proof.
  intros (pre & post & now & ip & mail & pw & -> & Hok).
  exists pre, (post ++ [e]), now, ip, mail, pw. by rewrite <-(assoc_L (++)).
Qed.

Lemma authenticated_snoc cfg es e w u :
  authenticated cfg es w u → authenticated cfg (es ++ [e]) w u.
Proof.
  intros [(pre & post & now & ip & mail & pw & -> & ? & ?)|
    (pre & post & now & ip & code & -> & ? & ?)]; [left|right].
  - exists pre, (post ++ [e]), now, ip, mail, pw. by rewrite <-(assoc_L (++)).
  - exists pre, (post ++ [e]), now, ip, code. by rewrite <-(assoc_L (++)).
Qed.

Definition session_sound (cfg : config) (es : list event) (w : world) : Prop :=
  let s := sess (run cfg es w) in
  (∀ u, s_userId s = Some u → authenticated cfg es w u) ∧
  (∀ p, s_pending s = Some p →
     password_proved cfg es w (p_userId p) ∧ 0 ≤ attempts p ≤ MFA_MAX_ATTEMPTS).

Lemma session_sound_keep cfg es e w :
  session_sound cfg es w →
  (s_userId (sess (react cfg e (run cfg es w))) = s_userId (sess (run cfg es w)) ∨
   s_userId (sess (react cfg e (run cfg es w))) = None) →
  (∀ p, s_pending (sess (react cfg e (run cfg es w))) = Some p →
    ∃ p0, s_pending (sess (run cfg es w)) = Some p0 ∧ p_userId p = p_userId p0 ∧
      (attempts p0 ≤ attempts p ∧
       (attempts p ≤ MFA_MAX_ATTEMPTS ∨ attempts p = attempts p0))) →
  session_sound cfg (es ++ [e]) w.
Proof.
  intros [Hu Hp] Hku Hkp. unfold session_sound. rewrite run_snoc. split.
  - intros u Hs. apply authenticated_snoc, Hu.
    destruct Hku as [Hk|Hk]; congruence.
  - intros p Hs. destruct (Hkp p Hs) as (p0 & Hs0 & Hid & Hle & Hat).
    destruct (Hp p0 Hs0) as [Hpw [? ?]]. rewrite Hid.
    split; [by apply password_proved_snoc | lia].
Qed.

Lemma session_sound_snoc cfg es e w :
  session_sound cfg es w → session_sound cfg (es ++ [e]) w.
Proof.
  intros Hs. destruct e as [r|a t p].
  2: { apply session_sound_keep; [done | by left |]. intros p' Hp. exists p'.
       split_and!; [done | done | done | by right]. }
  destruct r as [now ip mail pw|now ip code|u].
  - destruct (login cfg now ip mail pw (run cfg es w)) as [[r w'] o] eqn:Hl.
    assert (Hr : react cfg (Req (Login now ip mail pw)) (run cfg es w) = w')
      by (simpl; unfold run_state; by rewrite Hl).
    apply login_session in Hl. destruct r as [[|]|e].
    + destruct Hl as (u & Hpw & Hm & Hw). unfold session_sound. rewrite run_snoc, Hr, Hw.
      split; [|done]. intros u' [= <-]. left. by exists es, [], now, ip, mail, pw.
    + destruct Hl as (u & Hpw & Hm & Hw). unfold session_sound. rewrite run_snoc, Hr, Hw.
      split; [done|]. intros p [= <-]. simpl. split; [|unfold MFA_MAX_ATTEMPTS; lia].
      by exists es, [], now, ip, mail, pw.
    + apply session_sound_keep; [done | rewrite Hr, Hl; by left |].
      rewrite Hr, Hl. intros p Hp. exists p. split_and!; [done | done | done | by right].
  - destruct (loginTotp cfg now ip code (run cfg es w)) as [[r w'] o] eqn:Hl.
    assert (Hr : react cfg (Req (LoginTotp now ip code)) (run cfg es w) = w')
      by (simpl; unfold run_state; by rewrite Hl).
    apply loginTotp_session in Hl. destruct r as [[]|e].
    + destruct Hl as (p & Hp & _ & _ & Hver & Hw). unfold session_sound.
      rewrite run_snoc, Hr, Hw. split; [|done]. intros u' [= <-]. right.
      destruct Hs as [_ Hs]. destruct (Hs p Hp) as [Hpw _].
      by exists es, [], now, ip, code.
    + destruct Hl as [Hu Hp].
      apply session_sound_keep; [done | rewrite Hr; by left |]. rewrite Hr.
      intros p Hpe. destruct Hp as [Hp|[Hp|(p0 & Hp0 & Hlt & Hp)]].
      * exists p. rewrite <-Hp. split_and!; [done | done | done | by right].
      * congruence.
      * exists p0. rewrite Hp in Hpe. injection Hpe as <-. simpl.
        split_and!; [done | done | lia | left; lia].
  - assert (Hr : sess (react cfg (Req (Logout u)) (run cfg es w)) = new_session).
    { simpl. unfold run_state, logout, set_session. by destruct u. }
    apply session_sound_keep; [done | rewrite Hr; by right | by rewrite Hr].
Qed.


End controller.

(** A full sign-in with a second factor, for the witness. *)
Section witness.
#[local] Existing Instances plain_bcrypt toy_vault toy_otp.

Definition start : world (R := keyspace) :=
  World enrolled_db ∅ (LocalLoginPolicyService.State None ∅) new_session.

End witness.
