(* ===== verification/Bearer.v ===== *)
(** * Bearer credentials: [auth/oauth-token.service.ts],
    [auth/token-auth.service.ts], [auth/auth.guard.ts], [tokens/tokens.service.ts]

    API tokens, signed access tokens and machine clients, all resolved to a
    principal whose permissions are clamped, and the guard in front of every
    route. *)

From S2P Require Import Prelude JsText Rbac Net Accounts.
#[local] Set Default Proof Using "Type*".

(** ** Hashing and the [jsonwebtoken] package *)
Class Digest := {
  sha256_hex : string → string;
  unhex : string → string          (** [Buffer.from(s, 'hex')] *)
}.
Class DigestLaws `{Digest} := {
  unhex_sha256 a b : unhex (sha256_hex a) = unhex (sha256_hex b) → a = b
}.

(** The claims of an access token; a verified token may lack any of them. *)
Record claims := Claims {
  sub : string;
  sub_type : option string;
  scope : string;
  client_id : string;
  aud : option string
}.

Record decoded := Decoded {
  d_sub : option string;
  d_sub_type : option string;
  d_scope : option string;
  d_client_id : string;
  d_aud : option string
}.

Definition decoded_of (c : claims) : decoded :=
  Decoded (Some (sub c)) (sub_type c) (Some (scope c)) (client_id c) (aud c).

Class Jwt := {
  jwt_sign : claims → string → Z → Z → option string → string → string;
    (** payload, secret, issued at, lifetime in seconds, issuer, token id *)
  jwt_verify : string → string → Z → option string → option decoded
    (** token, secret, now, issuer *)
}.
(** A token verifies until it expires, for the secret and issuer it was signed with. *)
Class JwtLaws `{Jwt} := {
  jwt_verify_sign c secret t ttl iss jti now :
    (now < t + ttl * 1000)%Z →
    jwt_verify (jwt_sign c secret t ttl iss jti) secret now iss = Some (decoded_of c)
}.

(** ** The tables *)
Record ApiToken := {
  at_id : string;
  at_userId : string;
  at_name : string;
  at_prefix : string;
  at_hash : string;
  at_scopes : list Permission;
  at_lastUsedAt : option Z;
  at_expiresAt : option Z;
  at_revokedAt : option Z
}.

Record OAuthClient := {
  oc_id : string;
  oc_clientId : string;
  oc_name : string;
  oc_type : string;
  oc_clientSecretHash : option string;
  oc_redirectUris : list string;
  oc_disabled : bool;
  oc_allowedScopes : list Permission;
  oc_ipAllowlist : list string;
  oc_lastUsedAt : option Z;
  oc_secretRotatedAt : option Z
}.

(** The tables, the vault entry of the signing secret and its cache. *)
Record bdb := BDb {
  accounts : db;
  apiTokens : list ApiToken;
  oauthClients : list OAuthClient;
  storedSecret : option string;
  secretCache : option string
}.

Abbreviation bcall := (svc bdb output http_error).

Definition with_tokens (f : list ApiToken → list ApiToken) (s : bdb) : bdb :=
  BDb (accounts s) (f (apiTokens s)) (oauthClients s) (storedSecret s) (secretCache s).
Definition with_clients (f : list OAuthClient → list OAuthClient) (s : bdb) : bdb :=
  BDb (accounts s) (apiTokens s) (f (oauthClients s)) (storedSecret s) (secretCache s).

(** ** [auth/oauth-token.service.ts] *)
Module OAuthTokenService.
Section service.
Context `{Jwt}.

Definition ACCESS_TOKEN_TTL_SEC : Z := 60 * 60.
Definition MACHINE_TOKEN_TTL_SEC : Z := 15 * 60.
Definition MCP_RESOURCE_PATH : string := "/mcp".
Definition AGENT_CATALOG_RESOURCE_PATH : string := "/api/v1/agents".

(** [process.env.APP_URL || undefined] *)
Definition issuer (APP_URL : option string) : option string :=
  if truthy APP_URL then APP_URL else None.

(** [random] is what the generator would draw for a first secret. *)
Definition signingSecret (random : string) : bcall string :=
  s ← get;
  if truthy (secretCache s) then mret (default "" (secretCache s))
  else if truthy (storedSecret s) then
    put (BDb (accounts s) (apiTokens s) (oauthClients s) (storedSecret s) (storedSecret s)) ;;
    mret (default "" (storedSecret s))
  else
    put (BDb (accounts s) (apiTokens s) (oauthClients s) (Some random) (Some random)) ;;
    tell (OLog Info "OAuthTokenService" "Generated a new OAuth JWT signing secret.") ;;
    mret random.

Record sign_input := {
  si_userId : string;
  si_clientId : string;
  si_scopes : list Permission;
  si_resource : option string;
  si_machine : bool;
  si_ttlSec : option Z
}.

Definition payload (i : sign_input) : claims :=
  Claims (si_userId i) (if si_machine i then Some "client" else None)
    (join " " (si_scopes i)) (si_clientId i)
    (if truthy (si_resource i) then si_resource i else None).

Definition signAccessToken (env : option string) (random jti : string) (now : Z)
    (i : sign_input) : bcall (string * Z) :=
  secret ← signingSecret random;
  let ttl := default ACCESS_TOKEN_TTL_SEC (si_ttlSec i) in
  mret (jwt_sign (payload i) secret now ttl (issuer env) jti, ttl).

(** [s.replace(/\/$/, '')] *)
Definition strip_slash (s : string) : string :=
  if endsWith "/" s then slice_to (String.length s - 1) s else s.

Definition audienceFor (env : option string) (path : string) : option string :=
  (λ i, strip_slash i +:+ path) <$> issuer env.

Definition known_audiences (env : option string) : list (option string) :=
  [audienceFor env MCP_RESOURCE_PATH; audienceFor env AGENT_CATALOG_RESOURCE_PATH].

Definition verifyAccessToken (env : option string) (random : string) (now : Z)
    (token : string) : bcall (option claims) :=
  secret ← signingSecret random;
  mret match jwt_verify token secret now (issuer env) with
  | None => None
  | Some d =>
      if negb (truthy (d_sub d)) then None
      else if truthy (d_aud d) && bool_decide (is_Some (issuer env)) &&
              negb (includes (strip_slash <$> d_aud d) (known_audiences env))
      then None
      else Some (Claims (default "" (d_sub d))
        (if bool_decide (d_sub_type d = Some "client") then Some "client" else None)
        (default "" (d_scope d)) (d_client_id d) (d_aud d))
  end.

End service.
End OAuthTokenService.

(** ** [auth/token-auth.service.ts] *)
Module TokenAuthService.
Import OAuthTokenService.
Section service.
Context `{Digest} `{Jwt}.

Record TokenPrincipal := Principal {
  user : SessionUser;
  tokenId : option string;
  oauthClientId : option string;
  machineClient : bool
}.

Definition TOKEN_PREFIX : string := "cbro_".
Definition LAST_USED_THROTTLE_MS : Z := 60000.

(** [prefix] and [secret] are the drawn random segments. *)
Definition generate (prefix secret : string) : string * string * string :=
  (TOKEN_PREFIX +:+ prefix +:+ "_" +:+ secret, prefix, sha256_hex secret).

Definition extractBearer (authHeader : option string) : option string :=
  if negb (truthy authHeader) then None
  else
    let parts := split " "%char (default "" authHeader) in
    let scheme := default "" (parts !! 0%nat) in
    let value := default "" (parts !! 1%nat) in
    if bool_decide (value = "") || negb (bool_decide (toLowerCase scheme = "bearer"))
    then None else Some (trim value).

Definition hashMatches (secret storedHash : string) : bool :=
  bool_decide (unhex (sha256_hex secret) = unhex storedHash).

(** [current && now - current < LAST_USED_THROTTLE_MS] *)
Definition recently (now : Z) (current : option Z) : bool :=
  from_option (λ t, (now - t <? LAST_USED_THROTTLE_MS)%Z) false current.

Definition stamp_token (now : Z) (t : ApiToken) : ApiToken :=
  {| at_id := at_id t; at_userId := at_userId t; at_name := at_name t;
     at_prefix := at_prefix t; at_hash := at_hash t; at_scopes := at_scopes t;
     at_lastUsedAt := Some now; at_expiresAt := at_expiresAt t;
     at_revokedAt := at_revokedAt t |}.

Definition touchLastUsed (now : Z) (id : string) (current : option Z) : bcall unit :=
  when (negb (recently now current))
    (modify (with_tokens (updateMany (λ t, bool_decide (at_id t = id)) (stamp_token now)))).

Definition stamp_client (now : Z) (c : OAuthClient) : OAuthClient :=
  {| oc_id := oc_id c; oc_clientId := oc_clientId c; oc_name := oc_name c;
     oc_type := oc_type c; oc_clientSecretHash := oc_clientSecretHash c;
     oc_redirectUris := oc_redirectUris c; oc_disabled := oc_disabled c;
     oc_allowedScopes := oc_allowedScopes c; oc_ipAllowlist := oc_ipAllowlist c;
     oc_lastUsedAt := Some now; oc_secretRotatedAt := oc_secretRotatedAt c |}.

Definition warn (m : string) : bcall unit := tell (OLog Warn "auth" m).

Definition reject (m : string) : bcall (option TokenPrincipal) := warn m ;; mret None.

(** [scope.split(' ').filter(Boolean)] *)
Definition scope_words (scope : string) : list string :=
  filter (λ w, w ≠ "") (split " "%char scope).

Definition find_client (clientId : string) (s : bdb) : option OAuthClient :=
  findFirst (λ c, bool_decide (oc_clientId c = clientId)) (oauthClients s).

Definition resolveMachineClient (now : Z) (clientId scope : string) (ip : option string) :
    bcall (option TokenPrincipal) :=
  s ← get;
  match find_client clientId s with
  | Some c =>
      if negb (bool_decide (oc_type c = "machine")) || oc_disabled c then
        reject "Machine client token rejected: client missing, disabled or not a machine client."
      else
        allowed ← or_throw (IpAllowlist.ipAllowed (oc_ipAllowlist c) ip)
          (Internal "Invalid address");
        if negb allowed then
          reject "Machine client token rejected: source address not in the client's IP allowlist."
        else
          let scopes := scope_words scope in
          let permissions := filter (λ p, includes p scopes && includes p (oc_allowedScopes c) = true)
            MACHINE_CLIENT_SCOPES in
          when (negb (recently now (oc_lastUsedAt c)))
            (modify (with_clients (updateMany (λ x, bool_decide (oc_id x = oc_id c))
              (stamp_client now)))) ;;
          mret (Some (Principal
            {| su_id := "oauth-client:" +:+ oc_clientId c;
               su_email := oc_clientId c +:+ "@oauth-client.local";
               su_displayName := oc_name c; su_roleSlug := "machine-client";
               su_roleName := "Machine client"; su_permissions := permissions;
               su_authProvider := "local" |}
            None (Some (oc_clientId c)) true))
  | None =>
      reject "Machine client token rejected: client missing, disabled or not a machine client."
  end.

Definition resolveOAuth (env : option string) (random : string) (now : Z) (raw : string)
    (ip : option string) : bcall (option TokenPrincipal) :=
  if negb (length (split "."%char raw) =? 3)%nat then
    reject "Bearer token rejected: not a Cerebro credential."
  else
    verified ← verifyAccessToken env random now raw;
    match verified with
    | None => reject "Bearer JWT rejected: failed verification."
    | Some c =>
        if bool_decide (sub_type c = Some "client")
        then resolveMachineClient now (sub c) (scope c) ip
        else
          s ← get;
          match AuthService.buildSessionUser (sub c) (accounts s) with
          | None => reject "OAuth token rejected: subject user missing or disabled."
          | Some owner =>
              mret (Some (Principal
                (with_permissions (clamp (su_permissions owner) (scope_words (scope c))) owner)
                None (Some (client_id c)) false))
          end
    end.

Definition find_token (prefix : string) (s : bdb) : option ApiToken :=
  findFirst (λ t, bool_decide (at_prefix t = prefix)) (apiTokens s).

(** The two segments of [cbro_<prefix>_<secret>], cut at the first underscore
    that is not the first character. *)
Definition token_parts (raw : string) : string * string :=
  let body := slice_from (String.length TOKEN_PREFIX) raw in
  match indexOf "_" body with
  | Some (S _ as sep) => (slice_to sep body, slice_from (sep + 1) body)
  | _ => ("", "")
  end.

Definition resolve (env : option string) (random : string) (now : Z)
    (authHeader ip : option string) : bcall (option TokenPrincipal) :=
  match extractBearer authHeader with
  | None => mret None
  | Some raw =>
      if bool_decide (raw = "") then mret None
      else if negb (startsWith TOKEN_PREFIX raw) then resolveOAuth env random now raw ip
      else
        let '(prefix, secret) := token_parts raw in
        if bool_decide (prefix = "") || bool_decide (secret = "") then
          reject "API token rejected: malformed (expected cbro_<prefix>_<secret>)."
        else
          s ← get;
          match find_token prefix s with
          | None => reject "API token rejected: no token with this prefix."
          | Some t =>
              if bool_decide (is_Some (at_revokedAt t)) then
                reject "API token rejected: revoked."
              else if from_option (λ e, (e <=? now)%Z) false (at_expiresAt t) then
                reject "API token rejected: expired."
              else if negb (hashMatches secret (at_hash t)) then
                reject "API token rejected: secret does not match."
              else match AuthService.buildSessionUser (at_userId t) (accounts s) with
              | None => reject "API token rejected: owner account missing or disabled."
              | Some owner =>
                  touchLastUsed now (at_id t) (at_lastUsedAt t) ;;
                  mret (Some (Principal
                    (with_permissions (clamp (su_permissions owner) (at_scopes t)) owner)
                    (Some (at_id t)) None false))
              end
          end
  end.

End service.
End TokenAuthService.

(** ** [tokens/tokens.service.ts] *)
Module TokensService.
Section service.
Context `{Digest}.

Definition validate_scope (u : SessionUser) (sc : string) : result http_error unit :=
  if negb (includes sc GRANTABLE_TOKEN_SCOPES) then
    Err (BadRequest ("Scope " +:+ quoted sc +:+ " cannot be granted to a token."))
  else if negb (includes sc (su_permissions u)) then
    Err (BadRequest ("You do not hold the " +:+ quoted sc +:+ " permission."))
  else Ok tt.

Fixpoint validate_all (u : SessionUser) (scs : list string) : result http_error unit :=
  match scs with
  | [] => Ok tt
  | sc :: scs' => validate_scope u sc ;; validate_all u scs'
  end.

Definition validateScopes (u : SessionUser) (requested : list string) :
    result http_error (list string) :=
  match requested with
  | [] => Err (BadRequest "At least one scope is required.")
  | _ => validate_all u (uniq requested) ;; mret (uniq requested)
  end.

(** The expiry as the client sent it: absent, unreadable, or a time. *)
Inductive expiry := NoExpiry | BadDate | At (t : Z).

(** [id], [prefix] and [secret] are drawn by the database and the generator. *)
Definition create (now : Z) (id prefix secret : string) (u : SessionUser) (name : option string)
    (requested : list string) (e : expiry) : bcall string :=
  let name := trim (default "" name) in
  throw_if (bool_decide (name = "")) (BadRequest "A token name is required.") ;;
  scopes ← lift (validateScopes u requested);
  expiresAt ← lift match e with
    | NoExpiry => Ok None
    | BadDate => Err (BadRequest "Invalid expiry date.")
    | At t => if (t <=? now)%Z then Err (BadRequest "Expiry must be in the future.")
              else Ok (Some t)
    end;
  let '(plaintext, prefix, hash) := TokenAuthService.generate prefix secret in
  modify (with_tokens (createRow
    {| at_id := id; at_userId := su_id u; at_name := name; at_prefix := prefix;
       at_hash := hash; at_scopes := scopes; at_lastUsedAt := None;
       at_expiresAt := expiresAt; at_revokedAt := None |})) ;;
  tell (OAudit (Audit (Some (su_id u)) (Some (su_email u)) "tokens.created" (Some name))) ;;
  mret plaintext.

Definition revoke_row (now : Z) (t : ApiToken) : ApiToken :=
  {| at_id := at_id t; at_userId := at_userId t; at_name := at_name t;
     at_prefix := at_prefix t; at_hash := at_hash t; at_scopes := at_scopes t;
     at_lastUsedAt := at_lastUsedAt t; at_expiresAt := at_expiresAt t;
     at_revokedAt := Some now |}.

Definition revocable (u : SessionUser) (id : string) (t : ApiToken) : bool :=
  bool_decide (at_id t = id) && bool_decide (at_userId t = su_id u) &&
  bool_decide (at_revokedAt t = None).

Definition revoke (now : Z) (u : SessionUser) (id : string) : bcall unit :=
  s ← get;
  t ← or_throw (findFirst (revocable u id) (apiTokens s)) (NotFound "Token not found.");
  modify (with_tokens (updateMany (λ t, bool_decide (at_id t = id)) (revoke_row now))) ;;
  tell (OAudit (Audit (Some (su_id u)) (Some (su_email u)) "tokens.revoked" (Some (at_name t)))).

(** Active tokens of the user (newest first in the source; order is display). *)
Definition list_tokens (u : SessionUser) (s : bdb) : list ApiToken :=
  findMany (λ t, bool_decide (at_userId t = su_id u) && bool_decide (at_revokedAt t = None))
    (apiTokens s).

End service.
End TokensService.

(** ** [auth/auth.guard.ts] *)
Module SessionAuthGuard.
Import TokenAuthService.
Section guard.
Context `{Digest} `{Jwt}.

Definition CATALOG_PATH : string := "/api/v1/agents".
Definition isCatalogPath (path : string) : bool :=
  bool_decide (path = CATALOG_PATH) || startsWith (CATALOG_PATH +:+ "/") path.

Record request := Request {
  rq_userId : option string;            (** [req.session.userId] *)
  rq_authorization : option string;
  rq_ip : option string;
  rq_method : string;
  rq_path : string;
  rq_protocol : string;
  rq_host : string
}.

(** How a request got through.  (That a stale session is destroyed on the way
    out is an effect on the session store, which is not modelled.) *)
Inductive access := Open | BySession (u : SessionUser) | ByToken (p : TokenPrincipal).

(** The value of the discovery header. *)
Definition challenge (env : option string) (rq : request) : string :=
  "Bearer resource_metadata=" +:+ quoted (OAuthTokenService.strip_slash
    (if truthy env then default "" env else rq_protocol rq +:+ "://" +:+ rq_host rq) +:+
    "/.well-known/oauth-protected-resource").

Definition rejected (rq : request) (why : string) : string :=
  "Rejected " +:+ rq_method rq +:+ " " +:+ rq_path rq +:+ ": " +:+ why.

Definition canActivate (env : option string) (random : string) (now : Z)
    (isPublic sessionOnly : bool) (rq : request) : bcall access :=
  if isPublic then mret Open
  else if truthy (rq_userId rq) then
    s ← get;
    match AuthService.buildSessionUser (default "" (rq_userId rq)) (accounts s) with
    | None =>
        warn (rejected rq "session no longer valid (user deleted or disabled).") ;;
        throw (Unauthorized "Session no longer valid")
    | Some u => mret (BySession u)
    end
  else
    principal ← resolve env random now (rq_authorization rq) (rq_ip rq);
    match principal with
    | Some p =>
        if machineClient p && negb (isCatalogPath (rq_path rq)) then
          warn (rejected rq "machine OAuth clients may only call /api/v1/agents.") ;;
          throw (Forbidden "This client may only read the agent catalog (/api/v1/agents).")
        else if sessionOnly then
          warn (rejected rq "this route requires an interactive session, not a bearer token.") ;;
          throw (Forbidden "This action requires an interactive session, not an API token.")
        else mret (ByToken p)
    | None =>
        tell (if truthy (rq_authorization rq)
          then OLog Warn "auth" (rejected rq "credential presented but not accepted (see the preceding reason).")
          else OLog Debug "auth" ("Unauthenticated " +:+ rq_method rq +:+ " " +:+ rq_path rq +:+
            ": no credential — sent discovery challenge.")) ;;
        tell (OHeader "WWW-Authenticate" (challenge env rq)) ;;
        throw (Unauthorized "Not authenticated")
    end.

End guard.
End SessionAuthGuard.

(** ** Lemmas *)
Section lemmas.
Context `{Digest} `{Jwt}.
Import OAuthTokenService TokenAuthService SessionAuthGuard.

Lemma buildSessionUser_id i s u :
  AuthService.buildSessionUser i s = Some u → su_id u = i.
Proof.
  unfold AuthService.buildSessionUser. destruct (find_user i s) as [x|] eqn:Hx; [|done].
  apply find_user_Some in Hx as [_ Hi]. simpl. destruct (disabled x); [done|].
  destruct (findFirst _ _); [|done]. intros [= <-]. done.
Qed.

(** What a resolved principal is worth, at the moment it was resolved. *)
Definition machine_principal (ip : option string) (s : bdb) (p : TokenPrincipal) : Prop :=
  machineClient p = true ∧ ∃ c, c ∈ oauthClients s ∧ oc_type c = "machine" ∧
    oc_disabled c = false ∧ IpAllowlist.ipAllowed (oc_ipAllowlist c) ip = Some true ∧
    oauthClientId p = Some (oc_clientId c) ∧
    ∀ q, q ∈ su_permissions (user p) → q ∈ MACHINE_CLIENT_SCOPES ∧ q ∈ oc_allowedScopes c.

Definition live_token (now : Z) (t : ApiToken) : Prop :=
  at_revokedAt t = None ∧ ∀ e, at_expiresAt t = Some e → (now < e)%Z.

Definition user_principal (now : Z) (s : bdb) (p : TokenPrincipal) : Prop :=
  machineClient p = false ∧ ∃ owner,
    AuthService.buildSessionUser (su_id (user p)) (accounts s) = Some owner ∧
    (∀ q, q ∈ su_permissions (user p) → q ∈ su_permissions owner) ∧
    (∀ id, tokenId p = Some id → ∃ t, t ∈ apiTokens s ∧ at_id t = id ∧
      at_userId t = su_id owner ∧ live_token now t ∧
      ∀ q, q ∈ su_permissions (user p) → q ∈ at_scopes t).

Lemma reject_None m s r s' o : reject m s = (Ok (Some r), s', o) → False.
Proof. unfold reject, warn. svc_run. by intros [=]. Qed.

Lemma signingSecret_ok random s : ∃ x s' o,
  signingSecret random s = (Ok x, s', o) ∧ accounts s' = accounts s ∧
  apiTokens s' = apiTokens s ∧ oauthClients s' = oauthClients s.
Proof.
  unfold signingSecret. svc_run. case_match; [by eexists _, _, _|].
  case_match; svc_run; by eexists _, _, _.
Qed.

Lemma verifyAccessToken_ok env random now tok s : ∃ x s' o,
  verifyAccessToken env random now tok s = (Ok x, s', o) ∧ accounts s' = accounts s ∧
  apiTokens s' = apiTokens s ∧ oauthClients s' = oauthClients s.
Proof.
  unfold verifyAccessToken.
  destruct (signingSecret_ok random s) as (x & s' & o & Hs & ? & ? & ?).
  unfold mbind, svc_bind. rewrite Hs. by eexists _, _, _.
Qed.

Lemma resolveMachineClient_ok now cid sc ip s p s' o :
  resolveMachineClient now cid sc ip s = (Ok (Some p), s', o) → machine_principal ip s p.
Proof.
  unfold resolveMachineClient. svc_run.
  destruct (find_client cid s) as [c|] eqn:Hc; [|by intros ?%reject_None].
  apply findFirst_Some in Hc as [Hin _].
  case_match eqn:Ht; [by intros ?%reject_None|].
  apply orb_false_iff in Ht as [Hty%negb_false_iff Hdis]. apply bool_decide_eq_true in Hty.
  svc_run. destruct (IpAllowlist.ipAllowed _ ip) as [[]|] eqn:Hip;
    svc_run; [|by intros ?%reject_None|done].
  assert (Hperm : ∀ q, q ∈ filter (λ p, includes p (scope_words sc) &&
      includes p (oc_allowedScopes c) = true) MACHINE_CLIENT_SCOPES →
    q ∈ MACHINE_CLIENT_SCOPES ∧ q ∈ oc_allowedScopes c).
  { intros q [[_ Hq]%andb_true_iff ?]%list_elem_of_filter. by apply includes_true in Hq. }
  case_match; svc_run; unfold mret, svc_ret; intros [= <- _ _];
    (split; [done | exists c; by split_and!]).
Qed.

Lemma clamp_incl owner scopes :
  let perms := su_permissions (with_permissions (clamp (su_permissions owner) scopes) owner) in
  (∀ q, q ∈ perms → q ∈ su_permissions owner) ∧ (∀ q, q ∈ perms → q ∈ scopes).
Proof. split; simpl; intros q [? ?]%elem_of_clamp; done. Qed.

Lemma resolveOAuth_ok env random now raw ip s p s' o :
  resolveOAuth env random now raw ip s = (Ok (Some p), s', o) →
  machine_principal ip s p ∨ user_principal now s p.
Proof.
  unfold resolveOAuth. case_match; [by intros ?%reject_None|].
  intros (x & s1 & o1 & o2 & Hv & Hk & _)%svc_bind_ok.
  destruct (verifyAccessToken_ok env random now raw s) as (x' & s1' & o1' & Hv' & Ha & _ & Hc).
  rewrite Hv in Hv'. injection Hv' as <- <- <-.
  destruct x as [c|]; [|by apply reject_None in Hk].
  case_match.
  - left. apply resolveMachineClient_ok in Hk as (? & cl & Hin & Hrest). split; [done|].
    exists cl. by rewrite <-Hc.
  - revert Hk. svc_run.
    destruct (AuthService.buildSessionUser _ _) as [owner|] eqn:Ho; [|by intros ?%reject_None].
    unfold mret, svc_ret. intros [= <- _ _]. right. split; [done|]. exists owner.
    simpl. apply buildSessionUser_id in Ho as Hid. rewrite Hid, <-Ha. split; [done|].
    split; [apply clamp_incl | done].
Qed.

Lemma resolve_ok env random now hdr ip s p s' o :
  resolve env random now hdr ip s = (Ok (Some p), s', o) →
  machine_principal ip s p ∨ user_principal now s p.
Proof.
  unfold resolve. destruct (extractBearer hdr) as [raw|]; [|done].
  case_match; [done|]. case_match; [apply resolveOAuth_ok|].
  destruct (token_parts raw) as [prefix secret].
  case_match; [by intros ?%reject_None|]. svc_run.
  destruct (find_token prefix s) as [t|] eqn:Ht; [|by intros ?%reject_None].
  apply findFirst_Some in Ht as [Hin _].
  case_match eqn:Hrev; [by intros ?%reject_None|].
  case_match eqn:Hexp; [by intros ?%reject_None|].
  case_match; [by intros ?%reject_None|].
  destruct (AuthService.buildSessionUser _ _) as [owner|] eqn:Ho; [|by intros ?%reject_None].
  unfold touchLastUsed. svc_run.
  apply buildSessionUser_id in Ho as Hid.
  assert (Huser : user_principal now s (Principal (with_permissions
    (clamp (su_permissions owner) (at_scopes t)) owner) (Some (at_id t)) None false)).
  { split; [done|]. exists owner. simpl. rewrite Hid. split; [done|].
    split; [apply clamp_incl|]. intros id [= <-]. exists t. rewrite <-Hid.
    split_and!; [done | done | done | | apply clamp_incl]. split.
    - by apply bool_decide_eq_false, eq_None_not_Some in Hrev.
    - intros e He. rewrite He in Hexp. simpl in Hexp. lia. }
  case_match; svc_run; unfold mret, svc_ret; intros [= <- _ _]; by right.
Qed.

End lemmas.

(** ** Theorems *)
Section theorems.
Context `{DigestLaws} `{Jwt}.
Import OAuthTokenService TokenAuthService SessionAuthGuard.

Definition user_of (a : access) : option SessionUser :=
  match a with Open => None | BySession u => Some u | ByToken p => Some (user p) end.

(** C2: what the two global guards admit together.  A bearer token never
    reaches a session-only route, a machine client nothing but the agent
    catalog; a token's owner is enabled and holds, at this moment, every
    permission the route requires, and an API token was granted them, is not
    revoked and not expired. *)
Theorem guards_confine_bearers (env : option string) (random : string) (now : Z)
    (isPublic sessionOnly : bool) (rq : request) (s s' : bdb) (a : access)
    (o : list output) (required : list Permission) :
  canActivate env random now isPublic sessionOnly rq s = (Ok a, s', o) →
  permissions_canActivate (Some required) (user_of a) = Ok true →
  match a with
  | Open => isPublic = true ∧ required = []
  | BySession u =>
      AuthService.buildSessionUser (default "" (rq_userId rq)) (accounts s) = Some u ∧
      ∀ q, q ∈ required → q ∈ su_permissions u
  | ByToken p =>
      sessionOnly = false ∧
      ((machineClient p = true ∧ isCatalogPath (rq_path rq) = true ∧
        machine_principal (rq_ip rq) s p ∧ ∀ q, q ∈ required → q = "agents:read") ∨
       (∃ owner,
          AuthService.buildSessionUser (su_id (user p)) (accounts s) = Some owner ∧
          (∀ q, q ∈ required → q ∈ su_permissions owner) ∧
          ∀ id, tokenId p = Some id → ∃ t, t ∈ apiTokens s ∧ at_id t = id ∧
            live_token now t ∧ ∀ q, q ∈ required → q ∈ at_scopes t))
  end.
Proof.
  intros Hact Hperm. rewrite canActivate_ok in Hperm.
  assert (Hheld : ∀ q, q ∈ required → ∃ u, user_of a = Some u ∧ q ∈ su_permissions u).
  { intros q Hq. specialize (Hperm _ q eq_refl Hq).
    apply hasPermission_true in Hperm as (g & Hg & Hin).
    destruct (user_of a) as [u|]; [|done]. exists u. split; [done|].
    simpl in Hg. congruence. }
  revert Hact. unfold canActivate. destruct isPublic.
  { unfold mret, svc_ret. intros [= <- _ _]. split; [done|].
    destruct required as [|q req]; [done|].
    by destruct (Hheld q (list_elem_of_here _ _)) as (? & ? & _). }
  destruct (truthy (rq_userId rq)).
  { svc_run. destruct (AuthService.buildSessionUser _ _) as [u|]; [|by unfold warn; svc_run].
    unfold mret, svc_ret. intros [= <- _ _]. split; [done|].
    intros q Hq. destruct (Hheld q Hq) as (u' & [= <-] & ?). done. }
  intros (p & s1 & o1 & o2 & Hres & Hk & _)%svc_bind_ok.
  destruct p as [p|]; [|by revert Hk; unfold warn; svc_run].
  apply resolve_ok in Hres.
  destruct (machineClient p && negb (isCatalogPath (rq_path rq))) eqn:Hcat;
    [by revert Hk; unfold warn; svc_run|].
  destruct sessionOnly; [by revert Hk; unfold warn; svc_run|].
  injection Hk as <- _ _. split; [done|].
  assert (Hp : ∀ q, q ∈ required → q ∈ su_permissions (user p)).
  { intros q Hq. destruct (Hheld q Hq) as (u' & [= <-] & ?). done. }
  destruct Hres as [Hm|(Hm & owner & Hb & Hin & Ht)]; [left|right].
  - destruct Hm as [Hmc Hm]. rewrite Hmc in Hcat. apply negb_false_iff in Hcat.
    split_and!; [done | done | done |]. intros q Hq.
    destruct Hm as (c & _ & _ & _ & _ & _ & Hq'). destruct (Hq' q (Hp q Hq)) as [Hq'' _].
    by apply list_elem_of_singleton in Hq''.
  - exists owner. split_and!; [done | by auto |]. intros id Hid.
    destruct (Ht id Hid) as (t & ? & ? & ? & ? & ?). exists t. auto 10.
Qed.

Lemma validate_all_ok u scs :
  TokensService.validate_all u scs = Ok tt →
  ∀ sc, sc ∈ scs → sc ∈ GRANTABLE_TOKEN_SCOPES ∧ sc ∈ su_permissions u.
Proof.
  induction scs as [|x scs IH]; simpl; [by intros _ ? ?%elem_of_nil|].
  unfold TokensService.validate_scope.
  destruct (includes x GRANTABLE_TOKEN_SCOPES) eqn:Hg; [|done].
  destruct (includes x (su_permissions u)) eqn:Hp; [|done]. simpl.
  intros Hrest sc [->|Hin]%elem_of_cons; [|by apply IH].
  by apply includes_true in Hg, Hp.
Qed.

(** Text the generator may draw for a segment. *)
Definition segment (x : string) : Prop :=
  x ≠ "" ∧ ∀ c, c ∈ chars x → is_space c = false ∧ c ≠ " "%char.

Lemma extractBearer_token x : segment x → extractBearer (Some ("Bearer " +:+ x)) = Some x.
Proof.
  intros [Hne Hx]. unfold extractBearer.
  assert (Hs : split " "%char ("Bearer " +:+ x) = ["Bearer"; x]).
  { change ("Bearer " +:+ x) with ("Bearer" +:+ String " " x).
    rewrite split_app, split_no_sep; [done | by intros [_ []]%Hx |].
    apply (bool_decide_unpack _). by vm_compute. }
  change (default "" (Some ("Bearer " +:+ x))) with ("Bearer " +:+ x).
  rewrite Hs. simpl. rewrite bool_decide_eq_false_2 by done. simpl.
  rewrite trim_id; [done|]. intros c Hc. by apply Hx.
Qed.

(** The drawn prefix is hexadecimal, so it has no underscore. *)
Lemma token_parts_generate prefix secret :
  prefix ≠ "" → "_"%char ∉ chars prefix →
  token_parts (TOKEN_PREFIX +:+ prefix +:+ "_" +:+ secret) = (prefix, secret).
Proof.
  intros Hne Hc. unfold token_parts.
  assert (Hb : slice_from (String.length TOKEN_PREFIX)
    (TOKEN_PREFIX +:+ prefix +:+ "_" +:+ secret) = prefix +:+ String "_" secret)
    by apply of_chars_chars.
  rewrite Hb, indexOf_char by done.
  destruct (slice_app prefix secret "_"%char) as (H1' & H2' & _).
  destruct (String.length prefix) as [|n] eqn:Hn; [by destruct prefix|].
  by rewrite H1', H2'.
Qed.

Definition issued (prefix secret : string) : string := TOKEN_PREFIX +:+ prefix +:+ "_" +:+ secret.

Lemma extractBearer_issued prefix secret :
  segment prefix → segment secret → extractBearer (Some ("Bearer " +:+ issued prefix secret)) = Some (issued prefix secret).
Proof.
  intros Hp Hs. apply extractBearer_token. split; [done|]. intros c. unfold issued.
  rewrite !chars_app, !elem_of_app. intros [Hc|[Hc|[Hc|Hc]]]; [| by apply Hp | | by apply Hs].
  - assert (Hall : every (λ c, negb (is_space c)) (chars TOKEN_PREFIX) = true) by done.
    rewrite every_true in Hall. specialize (Hall c Hc). apply negb_true_iff in Hall.
    split; [done|]. by intros ->.
  - by apply list_elem_of_singleton in Hc as ->.
Qed.

(** The checks that remain once an issued text has been taken apart. *)
Lemma resolve_issued env random now prefix secret ip s row :
  segment prefix → segment secret → "_"%char ∉ chars prefix → find_token prefix s = Some row →
  let answer := run_result (resolve env random now (Some ("Bearer " +:+ issued prefix secret)) ip) s in
  (is_Some (at_revokedAt row) → answer = Ok None) ∧
  ∀ owner, at_revokedAt row = None → (∀ x, at_expiresAt row = Some x → (now < x)%Z) →
    hashMatches secret (at_hash row) = true →
    AuthService.buildSessionUser (at_userId row) (accounts s) = Some owner →
    answer = Ok (Some (Principal
      (with_permissions (clamp (su_permissions owner) (at_scopes row)) owner) (Some (at_id row)) None false)).
Proof.
  intros Hp Hs Hu Hfind answer. subst answer. unfold run_result, resolve.
  rewrite extractBearer_issued by done. unfold issued. rewrite token_parts_generate, startsWith_app by (done || apply Hp).
  destruct Hp as [Hpne _], Hs as [Hsne _].
  rewrite (bool_decide_eq_false_2 (TOKEN_PREFIX +:+ prefix +:+ "_" +:+ secret = "")) by done.
  rewrite (bool_decide_eq_false_2 (prefix = "")), (bool_decide_eq_false_2 (secret = "")) by done.
  cbn [negb orb]. svc_run. rewrite Hfind. split.
  - intros Hr. rewrite bool_decide_eq_true_2 by done. done.
  - intros owner Hr He Hh Ho. rewrite Hr, bool_decide_eq_false_2 by by intros [? ?].
    assert (from_option (λ e, (e <=? now)%Z) false (at_expiresAt row) = false) as ->.
    { destruct (at_expiresAt row) as [x|]; [|done]. specialize (He x eq_refl). simpl. lia. }
    rewrite Hh. cbn [negb]. rewrite Ho. unfold touchLastUsed. svc_run. by case_match.
Qed.

Lemma create_token_ok now id prefix secret u name requested e s plaintext s' o :
  TokensService.create now id prefix secret u name requested e s = (Ok plaintext, s', o) →
  plaintext = issued prefix secret ∧
  (∀ sc, sc ∈ requested → sc ∈ GRANTABLE_TOKEN_SCOPES ∧ sc ∈ su_permissions u) ∧
  ∃ row, s' = with_tokens (createRow row) s ∧ at_id row = id ∧ at_prefix row = prefix ∧
    at_userId row = su_id u ∧ at_hash row = sha256_hex secret ∧ at_scopes row = uniq requested ∧
    at_revokedAt row = None ∧ ∀ x, at_expiresAt row = Some x → e = TokensService.At x.
Proof.
  unfold TokensService.create. svc_run. case_match; [done|].
  destruct (TokensService.validateScopes u requested) as [scopes|] eqn:Hv; [|done].
  assert (scopes = uniq requested ∧ ∀ sc, sc ∈ requested →
    sc ∈ GRANTABLE_TOKEN_SCOPES ∧ sc ∈ su_permissions u) as [-> Hsc].
  { unfold TokensService.validateScopes in Hv. destruct requested as [|r rs]; [done|].
    destruct (TokensService.validate_all u (uniq (r :: rs))) as [[]|] eqn:Ha; [|done].
    injection Hv as <-. split; [done|]. intros sc Hsc.
    apply (validate_all_ok u _ Ha). by apply elem_of_uniq. }
  svc_run. match goal with |- context [match ?X with Ok _ => _ | Err _ => _ end] =>
    destruct X as [ex|] eqn:He; [|done] end.
  unfold TokenAuthService.generate. svc_run. unfold mret at 1, svc_ret at 1.
  match goal with |- context [createRow ?R] => set (row := R) end.
  intros [= <- <- _]. split_and!; [done..|]. exists row. split_and!; [done..|].
  intros x Hx. cbn in Hx. subst ex. destruct e as [| |t]; simplify_eq. by case_match; simplify_eq.
Qed.

(** A row found under its id in the table of its owner, revoked. *)
Lemma revoke_created later u row s :
  at_id row ∉ at_id <$> apiTokens s → at_userId row = su_id u → at_revokedAt row = None →
  find_token (at_prefix row) (with_tokens (createRow row) s) = Some row →
  find_token (at_prefix row) (run_state (TokensService.revoke later u (at_id row)) (with_tokens (createRow row) s)) =
    Some (TokensService.revoke_row later row).
Proof.
  intros Hid Hu Hr Hfind.
  assert (Hrev : findFirst (TokensService.revocable u (at_id row))
    (apiTokens (with_tokens (createRow row) s)) = Some row).
  { apply findFirst_createRow.
    - apply findFirst_None. intros t Ht. unfold TokensService.revocable.
      rewrite bool_decide_eq_false_2; [done|]. intros Hid'. apply Hid.
      rewrite <-Hid'. by apply list_elem_of_fmap_2.
    - unfold TokensService.revocable. by rewrite !bool_decide_eq_true_2. }
  unfold run_state, TokensService.revoke. svc_run. rewrite Hrev. cbn [or_throw]. svc_run. cbn.
  unfold find_token in *. cbn [apiTokens with_tokens] in *.
  rewrite findFirst_updateMany, Hfind by done. simpl. by rewrite bool_decide_eq_true_2.
Qed.

(** C14: a token works as it was granted and no further.  Creating one succeeds
    only for scopes the catalog lets tokens hold and the owner holds; the text
    it returns then authenticates as its owner with exactly those scopes that
    the owner's role still holds at that time; and once revoked it
    authenticates nothing. *)
Theorem token_lifecycle (env : option string) (random : string) (now later : Z)
    (id prefix secret : string) (u owner : SessionUser) (name : option string)
    (requested : list string) (e : TokensService.expiry) (ip : option string)
    (s s' : bdb) (o : list output) (plaintext : string) :
  TokensService.create now id prefix secret u name requested e s = (Ok plaintext, s', o) →
  segment prefix → segment secret → "_"%char ∉ chars prefix →
  find_token prefix s = None → id ∉ at_id <$> apiTokens s →
  AuthService.buildSessionUser (su_id u) (accounts s) = Some owner →
  (∀ t, e = TokensService.At t → (later < t)%Z) →
  (∀ sc, sc ∈ requested → sc ∈ GRANTABLE_TOKEN_SCOPES ∧ sc ∈ su_permissions u) ∧
  run_result (resolve env random later (Some ("Bearer " +:+ plaintext)) ip) s' =
    Ok (Some (Principal
      (with_permissions (clamp (su_permissions owner) (uniq requested)) owner)
      (Some id) None false)) ∧
  run_result (resolve env random later (Some ("Bearer " +:+ plaintext)) ip)
    (run_state (TokensService.revoke later u id) s') = Ok None.
Proof.
  intros (-> & Hsc & row & -> & Hi & Hpre & Hui & Hh & Hsco & Hr & He)%create_token_ok Hp Hs Hu Hfree Hid Howner Hexp.
  subst id prefix. split; [done|].
  assert (Hfind : find_token (at_prefix row) (with_tokens (createRow row) s) = Some row).
  { apply findFirst_createRow; [done|]. by apply bool_decide_eq_true. }
  split.
  - destruct (resolve_issued env random later (at_prefix row) secret ip _ row Hp Hs Hu Hfind) as [_ H2].
    rewrite (H2 owner); [by rewrite Hsco|done|intros x Hx; by apply Hexp, He| |].
    + unfold hashMatches. by rewrite Hh, bool_decide_eq_true_2.
    + by rewrite Hui.
  - eapply resolve_issued; [done..|by apply revoke_created|]. by eexists.
Qed.
End theorems.

(** ** Witnesses: a digest that writes its input, a JWT that is its subject *)
Section witnesses.
Definition toy_digest : Digest := {| sha256_hex := λ s, s; unhex := λ s, s |}.
Definition toy_jwt : Jwt := {|
  jwt_sign := λ c sec t ttl iss jti, (if bool_decide (sub_type c = Some "client")
    then "m.a." else "u.a.") +:+ sub c;
  jwt_verify := λ tok sec now iss,
    if startsWith "m.a." tok
    then Some (Decoded (Some (slice_from 4 tok)) (Some "client") (Some "agents:read") "c" None)
    else Some (Decoded (Some (slice_from 4 tok)) None (Some "logs:read users:write") "c" None)
|}.
#[local] Existing Instances toy_digest toy_jwt.
#[local] Instance toy_digest_laws : DigestLaws.
Proof. by split. Qed.

Definition sample_owner : SessionUser :=
  {| su_id := "u1"; su_email := "u1@x"; su_displayName := "u1"; su_roleSlug := "admin";
     su_roleName := br_name admin; su_permissions := br_permissions admin;
     su_authProvider := "local" |}.
Definition sample_bdb : bdb := BDb sample_db [] [] None None.

Lemma token_lifecycle_witness :
  let made := TokensService.create 10 "t1" "ab12" "S3cret" sample_owner (Some "cron")
    ["logs:read"; "monitors:write"; "logs:read"] (TokensService.At 500) sample_bdb in
  (∀ sc, sc ∈ ["logs:read"; "monitors:write"; "logs:read"] →
     sc ∈ GRANTABLE_TOKEN_SCOPES ∧ sc ∈ su_permissions sample_owner) ∧
  run_result (TokenAuthService.resolve None "k" 99 (Some ("Bearer " +:+ "cbro_ab12_S3cret")) None)
    made.1.2 =
    Ok (Some (TokenAuthService.Principal
      (with_permissions (clamp (su_permissions sample_owner)
        (uniq ["logs:read"; "monitors:write"; "logs:read"])) sample_owner)
      (Some "t1") None false)) ∧
  run_result (TokenAuthService.resolve None "k" 99 (Some ("Bearer " +:+ "cbro_ab12_S3cret")) None)
    (run_state (TokensService.revoke 99 sample_owner "t1") made.1.2) = Ok None.
Proof.
  intros made.
  apply (token_lifecycle None "k" 10 99 "t1" "ab12" "S3cret" sample_owner sample_owner
    (Some "cron") ["logs:read"; "monitors:write"; "logs:read"] (TokensService.At 500) None
    sample_bdb made.1.2 made.2 "cbro_ab12_S3cret").
  - vm_compute. reflexivity.
  - split; [done|]. apply Forall_forall. repeat constructor; done.
  - split; [done|]. apply Forall_forall. repeat constructor; done.
  - apply (bool_decide_unpack _). vm_compute. exact I.
  - reflexivity.
  - intros H. by apply elem_of_nil in H.
  - vm_compute. reflexivity.
  - intros t H. injection H as <-. lia.
Defined.

Lemma guards_confine_bearers_witness :
  let s := run_state (TokensService.create 10 "t1" "ab12" "S3cret" sample_owner (Some "cron")
    ["logs:read"] TokensService.NoExpiry) sample_bdb in
  ∃ owner, AuthService.buildSessionUser "u1" (accounts s) = Some owner ∧
    "logs:read" ∈ su_permissions owner.
Proof.
  set (s := run_state _ _).
  set (rq := SessionAuthGuard.Request None (Some "Bearer cbro_ab12_S3cret") None
    "GET" "/api/logs" "https" "h").
  set (r := SessionAuthGuard.canActivate None "k" 99 false false rq s).
  set (p := TokenAuthService.Principal (with_permissions ["logs:read"] sample_owner)
    (Some "t1") None false).
  pose proof (guards_confine_bearers None "k" 99 false false rq s r.1.2
    (SessionAuthGuard.ByToken p) r.2 ["logs:read"]) as H.
  destruct H as [_ [[Hm _]|(owner & Hb & Hq & _)]];
    [vm_compute; reflexivity | vm_compute; reflexivity | discriminate Hm |].
  exists owner. split; [exact Hb|]. apply Hq. by left.
Defined.
End witnesses.
