(* ===== verification/OAuth.v ===== *)
(** * The OAuth authorization server: [oauth/oauth-client.service.ts] and
    [oauth/oauth-flow.service.ts]

    The client registry, authorization codes with PKCE, refresh-token rotation
    with reuse detection, client credentials and grants.  URL parsing is a type
    class; random values and database ids are arguments. *)

From S2P Require Import Prelude JsText RateLimiter Rbac Net Accounts Bearer.
#[local] Set Default Proof Using "Type*".

(** ** The WHATWG [URL] of the runtime, and the digest PKCE uses *)
Record url := Url { protocol : string; hostname : string; pathname : string }.
Class UrlApi := {
  parse_url : string → option url;                       (** [None]: [new URL] throws *)
  set_params : string → list (string * string) → string  (** [searchParams.set], [toString] *)
}.
Class Pkce := base64urlSha256 : string → string.

(** ** The tables *)
Record AuthCode := {
  ac_id : string;
  ac_codeHash : string;
  ac_clientId : string;
  ac_userId : string;
  ac_scopes : list Permission;
  ac_redirectUri : string;
  ac_codeChallenge : string;
  ac_resource : option string;
  ac_expiresAt : Z;
  ac_consumedAt : option Z
}.

Record RefreshToken := {
  rt_id : string;
  rt_tokenHash : string;
  rt_clientId : string;
  rt_userId : string;
  rt_scopes : list Permission;
  rt_resource : option string;
  rt_expiresAt : Z;
  rt_revokedAt : option Z;
  rt_rotatedTo : option string
}.

Record Grant := {
  g_userId : string;
  g_clientId : string;
  g_scopes : list Permission;
  g_revokedAt : option Z
}.

Record odb := ODb {
  base : bdb;
  authCodes : list AuthCode;
  refreshes : list RefreshToken;
  grants : list Grant;
  rates : gmap string window
}.

Definition with_base (f : bdb → bdb) (s : odb) : odb :=
  ODb (f (base s)) (authCodes s) (refreshes s) (grants s) (rates s).
Definition with_authCodes (f : list AuthCode → list AuthCode) (s : odb) : odb :=
  ODb (base s) (f (authCodes s)) (refreshes s) (grants s) (rates s).
Definition with_refreshes (f : list RefreshToken → list RefreshToken) (s : odb) : odb :=
  ODb (base s) (authCodes s) (f (refreshes s)) (grants s) (rates s).
Definition with_grants (f : list Grant → list Grant) (s : odb) : odb :=
  ODb (base s) (authCodes s) (refreshes s) (f (grants s)) (rates s).
Definition with_rates (w : gmap string window) (s : odb) : odb :=
  ODb (base s) (authCodes s) (refreshes s) (grants s) w.

Definition on_base {E A} (m : svc bdb output E A) : svc odb output E A :=
  focus base (λ b s, with_base (λ _, b) s) m.

(** ** [oauth/oauth-client.service.ts] *)
Module OAuthClientService.
Section service.
Context `{Digest} `{UrlApi}.

Abbreviation ccall := (svc bdb output http_error).

Definition is_loopback (host : string) : bool :=
  includes host ["localhost"; "127.0.0.1"; "[::1]"; "::1"].

Definition validate_uri (uri : string) : result http_error unit :=
  match parse_url uri with
  | None => Err (BadRequest ("Invalid redirect URI: " +:+ uri))
  | Some p =>
      if negb (bool_decide (protocol p = "https:")) &&
         negb (bool_decide (protocol p = "http:") && is_loopback (hostname p))
      then Err (BadRequest ("Redirect URI must be https (or http on loopback): " +:+ uri))
      else Ok tt
  end.

Fixpoint validate_uris (uris : list string) : result http_error unit :=
  match uris with
  | [] => Ok tt
  | u :: us => validate_uri u ;; validate_uris us
  end.

(** [xs.map((s) => s.trim()).filter(Boolean)], without duplicates. *)
Definition clean_texts (xs : list string) : list string :=
  uniq (filter (λ s, s ≠ "") (trim <$> xs)).

Definition validateRedirectUris (uris : list string) : result http_error (list string) :=
  match uris with
  | [] => Err (BadRequest "At least one redirect URI is required.")
  | _ => validate_uris (clean_texts uris) ;; mret (clean_texts uris)
  end.

Definition validateScopes (scopes : list string) : result http_error (list string) :=
  let cleaned := clean_texts scopes in
  let bad := filter (λ s, includes s MACHINE_CLIENT_SCOPES = false) cleaned in
  if negb (bool_decide (bad = [])) then
    Err (BadRequest ("Machine clients may only hold: " +:+ join ", " MACHINE_CLIENT_SCOPES +:+ "."))
  else if bool_decide (cleaned = []) then
    Err (BadRequest "A machine client needs at least one scope.")
  else Ok cleaned.

Definition validateIps (entries : list string) : result http_error (list string) :=
  match IpAllowlist.cleanIpAllowlist (JArr (JStr <$> entries)) with
  | Ok l => Ok l
  | Err e => Err (BadRequest e)
  end.

Record create_input := {
  ci_name : option string;
  ci_redirectUris : option (list string);
  ci_type : option string;
  ci_allowedScopes : option (list string);
  ci_ipAllowlist : option (list string)
}.

Definition client_type (t : option string) : string :=
  if bool_decide (t = Some "confidential") then "confidential"
  else if bool_decide (t = Some "machine") then "machine" else "public".

(** [random] is the hex of the client id, [secret] the drawn client secret. *)
Definition create (id random secret : string) (i : create_input) :
    ccall (OAuthClient * option string) :=
  let name := trim (default "" (ci_name i)) in
  throw_if (bool_decide (name = "")) (BadRequest "A client name is required.") ;;
  let type := client_type (ci_type i) in
  let machine := bool_decide (type = "machine") in
  redirectUris ← lift (if machine then Ok []
    else validateRedirectUris (default [] (ci_redirectUris i)));
  allowedScopes ← lift (if machine
    then validateScopes (default MACHINE_CLIENT_SCOPES (ci_allowedScopes i)) else Ok []);
  ipAllowlist ← lift (if machine then validateIps (default [] (ci_ipAllowlist i)) else Ok []);
  let clientId := "oc_" +:+ random in
  let clientSecret := if bool_decide (type = "public") then None else Some ("ocs_" +:+ secret) in
  let row := {| oc_id := id; oc_clientId := clientId; oc_name := name; oc_type := type;
                oc_clientSecretHash := sha256_hex <$> clientSecret;
                oc_redirectUris := redirectUris; oc_disabled := false;
                oc_allowedScopes := allowedScopes; oc_ipAllowlist := ipAllowlist;
                oc_lastUsedAt := None; oc_secretRotatedAt := None |} in
  modify (with_clients (createRow row)) ;;
  mret (row, clientSecret).

Definition by_id (id : string) (c : OAuthClient) : bool := bool_decide (oc_id c = id).

Definition getOrThrow (id : string) : ccall OAuthClient :=
  s ← get;
  or_throw (findFirst (by_id id) (oauthClients s)) (NotFound "OAuth client not found.").

Record update_input := {
  ui_name : option string;
  ui_redirectUris : option (list string);
  ui_disabled : option bool;
  ui_allowedScopes : option (list string);
  ui_ipAllowlist : option (list string)
}.

(** [if (patch.x !== undefined && c) data.x = validate(patch.x)] *)
Definition patch {A B} (c : bool) (v : A → result http_error B) (x : option A) :
    ccall (option B) :=
  match x with
  | Some x => if c then y ← lift (v x); mret (Some y) else mret None
  | None => mret None
  end.

Definition clean_name (n : string) : result http_error string :=
  if bool_decide (trim n = "") then Err (BadRequest "A client name is required.")
  else Ok (trim n).

Definition update (id : string) (p : update_input) : ccall unit :=
  current ← getOrThrow id;
  let machine := bool_decide (oc_type current = "machine") in
  name ← patch true clean_name (ui_name p);
  uris ← patch (negb machine) validateRedirectUris (ui_redirectUris p);
  scopes ← patch machine validateScopes (ui_allowedScopes p);
  ips ← patch machine validateIps (ui_ipAllowlist p);
  modify (with_clients (updateMany (by_id id) (λ c,
    {| oc_id := oc_id c; oc_clientId := oc_clientId c; oc_name := default (oc_name c) name;
       oc_type := oc_type c; oc_clientSecretHash := oc_clientSecretHash c;
       oc_redirectUris := default (oc_redirectUris c) uris;
       oc_disabled := default (oc_disabled c) (ui_disabled p);
       oc_allowedScopes := default (oc_allowedScopes c) scopes;
       oc_ipAllowlist := default (oc_ipAllowlist c) ips;
       oc_lastUsedAt := oc_lastUsedAt c; oc_secretRotatedAt := oc_secretRotatedAt c |}))).

Definition rotateSecret (now : Z) (id secret : string) : ccall string :=
  current ← getOrThrow id;
  throw_if (bool_decide (oc_type current = "public"))
    (BadRequest "Public clients have no secret.") ;;
  let clientSecret := "ocs_" +:+ secret in
  modify (with_clients (updateMany (by_id id) (λ c,
    {| oc_id := oc_id c; oc_clientId := oc_clientId c; oc_name := oc_name c;
       oc_type := oc_type c; oc_clientSecretHash := Some (sha256_hex clientSecret);
       oc_redirectUris := oc_redirectUris c; oc_disabled := oc_disabled c;
       oc_allowedScopes := oc_allowedScopes c; oc_ipAllowlist := oc_ipAllowlist c;
       oc_lastUsedAt := oc_lastUsedAt c; oc_secretRotatedAt := Some now |}))) ;;
  mret clientSecret.

Definition remove (id : string) : ccall unit :=
  getOrThrow id ;; modify (with_clients (deleteMany (by_id id))).

Inductive request :=
| Create (id random secret : string) (i : create_input)
| Update (id : string) (p : update_input)
| Rotate (now : Z) (id secret : string)
| Remove (id : string).

Definition handle (r : request) (s : bdb) : bdb :=
  match r with
  | Create id random secret i => run_state (create id random secret i) s
  | Update id p => run_state (update id p) s
  | Rotate now id secret => run_state (rotateSecret now id secret) s
  | Remove id => run_state (remove id) s
  end.

End service.
End OAuthClientService.

(** ** [oauth/oauth-flow.service.ts] *)

Record flow_error := FlowError {
  code : string;
  description : string;
  redirectable : bool;
  clientName : option string
}.

Definition refused (code description : string) : flow_error :=
  FlowError code description false None.
Definition redirected (code description : string) : flow_error :=
  FlowError code description true None.

Module OAuthFlowService.
Import OAuthTokenService TokenAuthService.
Section service.
Context `{Digest} `{Jwt} `{UrlApi} `{Pkce} (env : option string) (random : string).

Abbreviation fcall := (svc odb output flow_error).

Definition CODE_TTL_MS : Z := 60000.
Definition REFRESH_TTL_MS : Z := 30 * 24 * 60 * 60 * 1000.

Record TokenResponse := {
  access_token : string;
  expires_in : Z;
  refresh_token : option string;
  granted_scope : string
}.

Definition getEnabledClient (clientId : string) (s : odb) : option OAuthClient :=
  if bool_decide (clientId = "") then None
  else
    c ← find_client clientId (base s);
    if oc_disabled c then None else Some c.

Definition loopback (host : string) : bool := OAuthClientService.is_loopback host.

Definition redirectUriMatches (registered : list string) (presented : string) : bool :=
  match parse_url presented with
  | None => false
  | Some p =>
      some (λ r,
        if bool_decide (r = presented) then true
        else match parse_url r with
        | None => false
        | Some ru =>
            if negb (loopback (hostname ru)) || negb (loopback (hostname p)) then false
            else bool_decide (protocol ru = protocol p) &&
                 bool_decide (hostname ru = hostname p) &&
                 bool_decide (pathname ru = pathname p)
        end) registered
  end.

Definition client_failed : flow_error := refused "invalid_client" "Client authentication failed.".
Definition unknown_client : flow_error := refused "invalid_client" "Unknown or disabled client.".

Definition authenticateClient (c : OAuthClient) (presentedSecret : option string) :
    result flow_error unit :=
  if bool_decide (oc_type c = "public") then Ok tt
  else if negb (truthy (oc_clientSecretHash c)) || negb (truthy presentedSecret)
  then Err client_failed
  else if hashMatches (default "" presentedSecret) (default "" (oc_clientSecretHash c))
  then Ok tt else Err client_failed.

(** [split(/\s+/).filter(Boolean)] *)
Fixpoint words (l w : list ascii) : list (list ascii) :=
  match l with
  | [] => if bool_decide (w = []) then [] else [reverse w]
  | c :: l' =>
      if is_space c then (if bool_decide (w = []) then [] else [reverse w]) ++ words l' []
      else words l' (c :: w)
  end.

Definition parseScopes (scope : option string) : list Permission :=
  uniq (of_chars <$> words (chars (default "" scope)) []).

Definition effectiveScopes (userPermissions requested : list Permission) : list Permission :=
  filter (λ s, includes s GRANTABLE_TOKEN_SCOPES && includes s userPermissions = true) requested.

Record authorize_query := {
  q_client_id : option string;
  q_redirect_uri : option string;
  q_response_type : option string;
  q_code_challenge : option string;
  q_code_challenge_method : option string
}.

Definition validateAuthorize (q : authorize_query) : fcall (OAuthClient * string) :=
  s ← get;
  c ← or_throw (getEnabledClient (default "" (q_client_id q)) s) unknown_client;
  throw_if (bool_decide (oc_type c = "machine"))
    (refused "unauthorized_client" "Machine clients use the client_credentials grant only.") ;;
  let redirectUri := default "" (q_redirect_uri q) in
  throw_if (bool_decide (redirectUri = "") ||
      negb (redirectUriMatches (oc_redirectUris c) redirectUri))
    (refused "invalid_request" "redirect_uri is not registered for this client.") ;;
  throw_if (negb (bool_decide (q_response_type q = Some "code")))
    (redirected "unsupported_response_type" "Only response_type=code is supported.") ;;
  throw_if (negb (truthy (q_code_challenge q)))
    (redirected "invalid_request" "PKCE code_challenge is required.") ;;
  throw_if (negb (bool_decide (default "plain" (q_code_challenge_method q) = "S256")))
    (redirected "invalid_request" "Only code_challenge_method=S256 is supported.") ;;
  mret (c, redirectUri).

Definition grant_of (userId clientId : string) (g : Grant) : bool :=
  bool_decide (g_userId g = userId) && bool_decide (g_clientId g = clientId).

Definition hasRememberedGrant (userId clientId : string) (scopes : list Permission) (s : odb) :
    bool :=
  match findFirst (grant_of userId clientId) (grants s) with
  | Some g => bool_decide (g_revokedAt g = None) && every (λ x, includes x (g_scopes g)) scopes
  | None => false
  end.

Definition rememberGrant (userId clientId : string) (scopes : list Permission) : fcall unit :=
  s ← get;
  let existing := findFirst (grant_of userId clientId) (grants s) in
  let old := match existing with
             | Some g => if bool_decide (g_revokedAt g = None) then g_scopes g else []
             | None => [] end in
  let merged := uniq (old ++ scopes) in
  let row := {| g_userId := userId; g_clientId := clientId; g_scopes := merged;
                g_revokedAt := None |} in
  modify (with_grants (λ t, match existing with
    | Some _ => updateMany (grant_of userId clientId) (λ _, row) t
    | None => createRow row t end)).

Record code_input := {
  ic_clientId : string;
  ic_userId : string;
  ic_scopes : list Permission;
  ic_redirectUri : string;
  ic_codeChallenge : string;
  ic_resource : option string
}.

Definition issueCode (now : Z) (id drawn : string) (i : code_input) : fcall string :=
  let code := "oca_" +:+ drawn in
  modify (with_authCodes (createRow
    {| ac_id := id; ac_codeHash := sha256_hex code; ac_clientId := ic_clientId i;
       ac_userId := ic_userId i; ac_scopes := ic_scopes i; ac_redirectUri := ic_redirectUri i;
       ac_codeChallenge := ic_codeChallenge i; ac_resource := ic_resource i;
       ac_expiresAt := (now + CODE_TTL_MS)%Z; ac_consumedAt := None |})) ;;
  mret code.

Definition buildRedirect (redirectUri : string) (params : list (string * option string)) : string :=
  set_params redirectUri (omap (λ kv, (λ v, (kv.1, v)) <$> kv.2) params).

(** What one token response draws: the JWT id, the refresh token and its row. *)
Record draws := Draws { jti : string; drawn_refresh : string; refresh_id : string }.

Definition sign (now : Z) (d : draws) (i : sign_input) : fcall (string * Z) :=
  on_base (rescue (signAccessToken env random (jti d) now i)
    (λ _, throw (refused "server_error" ""))).

Definition issueTokens (now : Z) (d : draws) (userId clientId : string)
    (scopes : list Permission) (resource : option string) : fcall TokenResponse :=
  signed ← sign now d {| si_userId := userId; si_clientId := clientId; si_scopes := scopes;
    si_resource := resource; si_machine := false; si_ttlSec := None |};
  let refreshToken := "ocr_" +:+ drawn_refresh d in
  modify (with_refreshes (createRow
    {| rt_id := refresh_id d; rt_tokenHash := sha256_hex refreshToken; rt_clientId := clientId;
       rt_userId := userId; rt_scopes := scopes; rt_resource := resource;
       rt_expiresAt := (now + REFRESH_TTL_MS)%Z; rt_revokedAt := None;
       rt_rotatedTo := None |})) ;;
  mret {| access_token := (signed : string * Z).1; expires_in := (signed : string * Z).2;
          refresh_token := Some refreshToken; granted_scope := join " " scopes |}.

Record exchange_input := {
  ei_clientId : option string;
  ei_clientSecret : option string;
  ei_code : option string;
  ei_redirectUri : option string;
  ei_codeVerifier : option string
}.

Definition grant_failed (d : string) : flow_error := refused "invalid_grant" d.

Definition by_code (c : string) (r : AuthCode) : bool :=
  bool_decide (ac_codeHash r = sha256_hex c).

(** The checks of [exchangeAuthCode]; its writes are the commit.  Other
    requests may run between the two. *)
Definition exchange_check (now : Z) (i : exchange_input) : fcall (OAuthClient * AuthCode) :=
  s ← get;
  c ← or_throw (getEnabledClient (default "" (ei_clientId i)) s) unknown_client;
  lift (authenticateClient c (ei_clientSecret i)) ;;
  throw_if (negb (truthy (ei_code i)) || negb (truthy (ei_codeVerifier i)) ||
      negb (truthy (ei_redirectUri i)))
    (refused "invalid_request" "code, redirect_uri and code_verifier are required.") ;;
  match findFirst (by_code (default "" (ei_code i))) (authCodes s) with
  | None => throw (grant_failed "Invalid authorization code.")
  | Some row =>
      throw_if (negb (bool_decide (ac_clientId row = oc_clientId c)))
        (grant_failed "Invalid authorization code.") ;;
      throw_if (bool_decide (is_Some (ac_consumedAt row)))
        (grant_failed "Authorization code already used.") ;;
      throw_if (ac_expiresAt row <=? now)%Z (grant_failed "Authorization code expired.") ;;
      throw_if (negb (bool_decide (ac_redirectUri row = default "" (ei_redirectUri i))))
        (grant_failed "redirect_uri mismatch.") ;;
      throw_if (negb (bool_decide
          (base64urlSha256 (default "" (ei_codeVerifier i)) = ac_codeChallenge row)))
        (grant_failed "PKCE verification failed.") ;;
      mret (c, row)
  end.

Definition consume_code (now : Z) (r : AuthCode) : AuthCode :=
  {| ac_id := ac_id r; ac_codeHash := ac_codeHash r; ac_clientId := ac_clientId r;
     ac_userId := ac_userId r; ac_scopes := ac_scopes r; ac_redirectUri := ac_redirectUri r;
     ac_codeChallenge := ac_codeChallenge r; ac_resource := ac_resource r;
     ac_expiresAt := ac_expiresAt r; ac_consumedAt := Some now |}.

Definition exchange_commit (now : Z) (d : draws) (c : OAuthClient) (row : AuthCode) :
    fcall TokenResponse :=
  modify (with_authCodes (updateMany (λ r, bool_decide (ac_id r = ac_id row))
    (consume_code now))) ;;
  issueTokens now d (ac_userId row) (oc_clientId c) (ac_scopes row) (ac_resource row).

Definition exchangeAuthCode (now : Z) (d : draws) (i : exchange_input) : fcall TokenResponse :=
  cr ← exchange_check now i;
  exchange_commit now d (fst (cr : OAuthClient * AuthCode)) (snd (cr : OAuthClient * AuthCode)).

Definition revoke_refresh (now : Z) (r : RefreshToken) : RefreshToken :=
  {| rt_id := rt_id r; rt_tokenHash := rt_tokenHash r; rt_clientId := rt_clientId r;
     rt_userId := rt_userId r; rt_scopes := rt_scopes r; rt_resource := rt_resource r;
     rt_expiresAt := rt_expiresAt r; rt_revokedAt := Some now;
     rt_rotatedTo := rt_rotatedTo r |}.

Definition link_refresh (succ : option string) (r : RefreshToken) : RefreshToken :=
  {| rt_id := rt_id r; rt_tokenHash := rt_tokenHash r; rt_clientId := rt_clientId r;
     rt_userId := rt_userId r; rt_scopes := rt_scopes r; rt_resource := rt_resource r;
     rt_expiresAt := rt_expiresAt r; rt_revokedAt := rt_revokedAt r;
     rt_rotatedTo := succ |}.

Definition has_rt_id (id : string) (r : RefreshToken) : bool := bool_decide (rt_id r = id).

Definition revoke_id (now : Z) (id : string) (t : list RefreshToken) : list RefreshToken :=
  updateMany (has_rt_id id) (revoke_refresh now) t.

(** The loop of [revokeRefreshChain]; [None] is running out of fuel. *)
Fixpoint revoke_loop (fuel : nat) (now : Z) (id : option string) (seen : list string)
    (t : list RefreshToken) : option (list RefreshToken) :=
  match id with
  | None => Some t
  | Some cur =>
      if includes cur seen then Some t
      else match fuel with
      | 0 => None
      | S fuel' =>
          match findFirst (has_rt_id cur) t with
          | None => Some t
          | Some r =>
              revoke_loop fuel' now (rt_rotatedTo r) (cur :: seen)
                (if bool_decide (rt_revokedAt r = None) then revoke_id now cur t else t)
          end
      end
  end.

(** One more iteration than there are tokens is enough ([revoke_loop_total]). *)
Definition revokeRefreshChain (now : Z) (startId : string) (t : list RefreshToken) :
    list RefreshToken :=
  default t (revoke_loop (S (length t)) now (Some startId) [] t).

Record refresh_input := {
  ri_clientId : option string;
  ri_clientSecret : option string;
  ri_refreshToken : option string
}.

Definition by_token (tok : string) (r : RefreshToken) : bool :=
  bool_decide (rt_tokenHash r = sha256_hex tok).

(** Reuse of a rotated token: kill what descends from it, then refuse. *)
Definition kill_and_refuse {A} (now : Z) (rotatedTo : option string) : fcall A :=
  match rotatedTo with
  | Some next =>
      if bool_decide (next = "") then throw (grant_failed "Refresh token revoked.")
      else modify (with_refreshes (revokeRefreshChain now next)) ;;
           throw (grant_failed "Refresh token revoked.")
  | None => throw (grant_failed "Refresh token revoked.")
  end.

(** The checks of [refreshTokens], up to its conditional write. *)
Definition refresh_check (now : Z) (i : refresh_input) : fcall (OAuthClient * RefreshToken) :=
  s ← get;
  c ← or_throw (getEnabledClient (default "" (ri_clientId i)) s) unknown_client;
  lift (authenticateClient c (ri_clientSecret i)) ;;
  throw_if (bool_decide (oc_type c = "machine"))
    (refused "unauthorized_client" "Machine clients use the client_credentials grant only.") ;;
  throw_if (negb (truthy (ri_refreshToken i)))
    (refused "invalid_request" "refresh_token is required.") ;;
  match findFirst (by_token (default "" (ri_refreshToken i))) (refreshes s) with
  | None => throw (grant_failed "Invalid refresh token.")
  | Some row =>
      throw_if (negb (bool_decide (rt_clientId row = oc_clientId c)))
        (grant_failed "Invalid refresh token.") ;;
      if bool_decide (is_Some (rt_revokedAt row)) then kill_and_refuse now (rt_rotatedTo row)
      else
        throw_if (rt_expiresAt row <=? now)%Z (grant_failed "Refresh token expired.") ;;
        mret (c, row)
  end.

(** The claim (one conditional [updateMany]) and what follows it. *)
Definition refresh_commit (now : Z) (d : draws) (c : OAuthClient) (row : RefreshToken) :
    fcall TokenResponse :=
  s ← get;
  let claimable r := has_rt_id (rt_id row) r && bool_decide (rt_revokedAt r = None) in
  modify (with_refreshes (updateMany claimable (revoke_refresh now))) ;;
  if (countWhere claimable (refreshes s) =? 0)%nat then
    s' ← get;
    kill_and_refuse now (findFirst (has_rt_id (rt_id row)) (refreshes s') ≫= rt_rotatedTo)
  else
    issued ← issueTokens now d (rt_userId row) (oc_clientId c) (rt_scopes row) (rt_resource row);
    s' ← get;
    let successor := findFirst (by_token (default "" (refresh_token issued))) (refreshes s') in
    modify (with_refreshes (updateMany (has_rt_id (rt_id row))
      (link_refresh (rt_id <$> successor)))) ;;
    mret issued.

Definition refreshTokens (now : Z) (d : draws) (i : refresh_input) : fcall TokenResponse :=
  cr ← refresh_check now i;
  refresh_commit now d (fst (cr : OAuthClient * RefreshToken))
    (snd (cr : OAuthClient * RefreshToken)).

Definition revokeToken (now : Z) (clientId clientSecret token : option string) : fcall unit :=
  s ← get;
  c ← or_throw (getEnabledClient (default "" clientId) s) unknown_client;
  lift (authenticateClient c clientSecret) ;;
  if negb (truthy token) then mret tt
  else match findFirst (by_token (default "" token)) (refreshes s) with
  | Some row =>
      when (bool_decide (rt_clientId row = oc_clientId c) && bool_decide (rt_revokedAt row = None))
        (modify (with_refreshes (revoke_id now (rt_id row))))
  | None => mret tt
  end.

(** A grant with the name of its client and its live refresh tokens. *)
Definition listUserGrants (now : Z) (userId : string) (s : odb) :
    list (string * string * list Permission * nat) :=
  (λ g, (g_clientId g,
         from_option oc_name (g_clientId g) (find_client (g_clientId g) (base s)),
         g_scopes g,
         countWhere (λ r, bool_decide (rt_userId r = userId) &&
           bool_decide (rt_clientId r = g_clientId g) && bool_decide (rt_revokedAt r = None) &&
           (now <? rt_expiresAt r)%Z) (refreshes s))) <$>
  findMany (λ g, bool_decide (g_userId g = userId) && bool_decide (g_revokedAt g = None)) (grants s).

Definition revoke_grant (now : Z) (g : Grant) : Grant :=
  {| g_userId := g_userId g; g_clientId := g_clientId g; g_scopes := g_scopes g;
     g_revokedAt := Some now |}.

Definition revokeUserGrant (now : Z) (userId clientId : string) : fcall unit :=
  modify (with_grants (updateMany
    (λ g, grant_of userId clientId g && bool_decide (g_revokedAt g = None)) (revoke_grant now))) ;;
  modify (with_refreshes (updateMany
    (λ r, bool_decide (rt_userId r = userId) && bool_decide (rt_clientId r = clientId) &&
          bool_decide (rt_revokedAt r = None)) (revoke_refresh now))).

Definition machine_rate (key : string) (now : Z) (ws : gmap string window) :=
  RateLimiter.hit 10 60000 key now ws.

Definition clientCredentials (now : Z) (d : draws) (clientId clientSecret scope ip : option string) :
    fcall (TokenResponse * string) :=
  s ← get;
  c ← or_throw (getEnabledClient (default "" clientId) s) unknown_client;
  throw_if (negb (bool_decide (oc_type c = "machine")))
    (refused "unauthorized_client" "Only machine clients may use client_credentials.") ;;
  let allowed := filter (λ s, includes s (oc_allowedScopes c) = true) MACHINE_CLIENT_SCOPES in
  let requested := parseScopes scope in
  let scopes := if bool_decide (requested = []) then allowed else requested in
  rescue
    (w ← get;
     let '(retryAfter, rates') := machine_rate (oc_clientId c) now (rates w) in
     modify (with_rates rates') ;;
     (match retryAfter with
      | Some n => throw (refused "slow_down" ("Too many token requests; retry in " +:+ num_to_string n +:+ "s."))
      | None => mret tt
      end) ;;
     lift (authenticateClient c clientSecret) ;;
     ok ← or_throw (IpAllowlist.ipAllowed (oc_ipAllowlist c) ip) (refused "server_error" "");
     throw_if (negb ok) (refused "access_denied" "This address is not in the client's IP allowlist.") ;;
     throw_if (bool_decide (scopes = []) || some (λ s, negb (includes s allowed)) scopes)
       (refused "invalid_scope" ("This client may request: " +:+
         (if bool_decide (join " " allowed = "") then "nothing" else join " " allowed) +:+ ".")))
    (λ e, throw (FlowError (code e) (description e) (redirectable e) (Some (oc_name c)))) ;;
  signed ← sign now d {| si_userId := oc_clientId c; si_clientId := oc_clientId c;
    si_scopes := scopes; si_resource := audienceFor env AGENT_CATALOG_RESOURCE_PATH;
    si_machine := true; si_ttlSec := Some MACHINE_TOKEN_TTL_SEC |};
  modify (with_base (with_clients (updateMany (λ x, bool_decide (oc_id x = oc_id c))
    (stamp_client now)))) ;;
  mret ({| access_token := (signed : string * Z).1; expires_in := (signed : string * Z).2;
           refresh_token := None; granted_scope := join " " scopes |}, oc_name c).

(** The state-changing requests of the authorization server. *)
Inductive request :=
| IssueCode (now : Z) (id drawn : string) (i : code_input)
| Exchange (now : Z) (d : draws) (i : exchange_input)
| Refresh (now : Z) (d : draws) (i : refresh_input)
| RevokeToken (now : Z) (clientId clientSecret token : option string)
| RevokeGrant (now : Z) (userId clientId : string)
| RememberGrant (userId clientId : string) (scopes : list Permission)
| ClientCredentials (now : Z) (d : draws) (clientId clientSecret scope ip : option string).

Definition handle (r : request) (s : odb) : odb :=
  match r with
  | IssueCode now id drawn i => run_state (issueCode now id drawn i) s
  | Exchange now d i => run_state (exchangeAuthCode now d i) s
  | Refresh now d i => run_state (refreshTokens now d i) s
  | RevokeToken now c cs t => run_state (revokeToken now c cs t) s
  | RevokeGrant now u c => run_state (revokeUserGrant now u c) s
  | RememberGrant u c sc => run_state (rememberGrant u c sc) s
  | ClientCredentials now d c cs sc ip => run_state (clientCredentials now d c cs sc ip) s
  end.

End service.
End OAuthFlowService.

(** ** Refresh chains *)
Section chains.
Import OAuthTokenService TokenAuthService OAuthFlowService.
Implicit Types t : list RefreshToken.

Definition find_rt (id : string) t : option RefreshToken := findFirst (has_rt_id id) t.

(** The link [rotatedTo] a table records for an id. *)
Definition next_rt t (id : string) : option string := find_rt id t ≫= rt_rotatedTo.

Definition revoked t (id : string) : Prop :=
  ∃ r, find_rt id t = Some r ∧ rt_revokedAt r ≠ None.

Lemma find_revoke_id now cur id t :
  find_rt id (revoke_id now cur t) =
  (λ r, if has_rt_id cur r then revoke_refresh now r else r) <$> find_rt id t.
Proof. unfold find_rt, revoke_id. by apply findFirst_updateMany. Qed.

Lemma next_revoke_id now cur id t : next_rt (revoke_id now cur t) id = next_rt t id.
Proof.
  unfold next_rt. rewrite find_revoke_id. destruct (find_rt id t) as [r|]; [|done].
  simpl. by destruct (has_rt_id cur r).
Qed.

Lemma revoked_revoke_id now cur id t : revoked t id → revoked (revoke_id now cur t) id.
Proof.
  intros (r & Hr & Hrev). unfold revoked. rewrite find_revoke_id, Hr. simpl.
  eexists. split; [done|]. by destruct (has_rt_id cur r).
Qed.

Lemma find_rt_in id t r : find_rt id t = Some r → id ∈ rt_id <$> t.
Proof.
  intros [Hin Hid%bool_decide_eq_true]%findFirst_Some. rewrite <-Hid.
  by apply list_elem_of_fmap_2.
Qed.

(** The table after visiting [cur]. *)
Definition visit now cur r t : list RefreshToken :=
  if bool_decide (rt_revokedAt r = None) then revoke_id now cur t else t.

Lemma visit_spec now cur r t :
  find_rt cur t = Some r →
  revoked (visit now cur r t) cur ∧ length (visit now cur r t) = length t ∧
  rt_id <$> visit now cur r t = rt_id <$> t ∧
  (∀ y, next_rt (visit now cur r t) y = next_rt t y) ∧
  (∀ y, find_rt y (visit now cur r t) = None ↔ find_rt y t = None) ∧
  (∀ y, revoked t y → revoked (visit now cur r t) y).
Proof.
  intros Hr. unfold visit. case_bool_decide as Hrev.
  - split_and!.
    + unfold revoked. rewrite find_revoke_id, Hr. simpl. eexists. split; [done|].
      apply findFirst_Some in Hr as [_ ->]. done.
    + apply length_fmap.
    + by apply fmap_updateMany.
    + intros y. apply next_revoke_id.
    + intros y. rewrite find_revoke_id. by destruct (find_rt y t).
    + intros y. apply revoked_revoke_id.
  - split_and!; try done. by exists r.
Qed.

Lemma revoke_loop_total fuel now id seen t :
  NoDup seen → (∀ y, y ∈ seen → y ∈ rt_id <$> t) → length t < fuel + length seen →
  is_Some (revoke_loop fuel now id seen t).
Proof.
  revert id seen t. induction fuel as [|fuel IH]; intros id seen t Hnd Hin Hf.
  - exfalso. assert (length seen ≤ length (rt_id <$> t)).
    { apply submseteq_length, NoDup_submseteq; [done | exact Hin]. }
    rewrite length_fmap in *. lia.
  - simpl. destruct id as [cur|]; [|by eauto].
    destruct (includes cur seen) eqn:Hs; [by eauto|]. apply includes_false in Hs.
    destruct (findFirst (has_rt_id cur) t) as [r|] eqn:Hr; [|by eauto].
    fold (visit now cur r t). destruct (visit_spec now cur r t Hr) as (_ & Hlen & Hids & _).
    apply IH; [by constructor | | simpl; lia].
    rewrite Hids. intros y [->|Hy]%elem_of_cons; [by eapply find_rt_in | by apply Hin].
Qed.

(** What the loop leaves: a set closed under the links, all of it revoked. *)
Lemma revoke_loop_spec fuel now id seen t t' :
  revoke_loop fuel now id seen t = Some t' →
  (∀ y, y ∈ seen → revoked t y) →
  (∀ y z, y ∈ seen → next_rt t y = Some z → z ∈ seen ∨ id = Some z) →
  ∃ S : list string,
    (∀ y, y ∈ seen → y ∈ S) ∧
    (∀ x, id = Some x → x ∈ S ∨ find_rt x t = None) ∧
    (∀ y, y ∈ S → revoked t' y) ∧
    (∀ y z, y ∈ S → next_rt t y = Some z → z ∈ S ∨ find_rt z t = None) ∧
    (∀ y, find_rt y t' = None ↔ find_rt y t = None).
Proof.
  revert id seen t. induction fuel as [|fuel IH]; intros id seen t Hl Hrev Hcl.
  - simpl in Hl. destruct id as [cur|].
    + destruct (includes cur seen) eqn:Hs; [|done]. injection Hl as <-.
      apply includes_true in Hs. exists seen. split_and!; [done| |done| |done].
      * intros x [= <-]. by left.
      * intros y z Hy Hz. destruct (Hcl y z Hy Hz) as [?|[= <-]]; by left.
    + injection Hl as <-. exists seen. split_and!; [done|done|done| |done].
      intros y z Hy Hz. by destruct (Hcl y z Hy Hz); [left|].
  - simpl in Hl. destruct id as [cur|].
    2: { injection Hl as <-. exists seen. split_and!; [done|done|done| |done].
      intros y z Hy Hz. by destruct (Hcl y z Hy Hz); [left|]. }
    destruct (includes cur seen) eqn:Hs.
    { injection Hl as <-. apply includes_true in Hs. exists seen.
      split_and!; [done| |done| |done].
      - intros x [= <-]. by left.
      - intros y z Hy Hz. destruct (Hcl y z Hy Hz) as [?|[= <-]]; by left. }
    destruct (findFirst (has_rt_id cur) t) as [r|] eqn:Hr; cycle 1.
    { injection Hl as <-. exists seen. split_and!; [done| |done| |done].
      - intros x [= <-]. by right.
      - intros y z Hy Hz. destruct (Hcl y z Hy Hz) as [?|[= <-]]; [by left | by right]. }
    fold (visit now cur r t) in Hl.
    destruct (visit_spec now cur r t Hr) as (Hcur & _ & _ & Hnext & Hnone & Hkeep).
    destruct (IH _ _ _ Hl) as (S & HS1 & HS2 & HS3 & HS4 & HS5).
    + intros y [->|Hy]%elem_of_cons; [done | by apply Hkeep, Hrev].
    + intros y z Hy. rewrite Hnext. apply elem_of_cons in Hy as [->|Hy].
      * unfold next_rt, find_rt. rewrite Hr. simpl. intros ->. by right.
      * intros Hz. left. destruct (Hcl y z Hy Hz) as [?|[= <-]]; [by right | by left].
    + exists S. split_and!.
      * intros y Hy. apply HS1. by right.
      * intros x [= <-]. left. apply HS1. by left.
      * done.
      * intros y z Hy Hz. rewrite <-(Hnone z). apply HS4 with y; [done|]. by rewrite Hnext.
      * intros y. by rewrite HS5, Hnone.
Qed.

(** Everything the chain links to from [start] ends revoked. *)
Lemma revokeRefreshChain_spec now start t x r :
  rtc (λ a b, next_rt t a = Some b) start x →
  find_rt x (revokeRefreshChain now start t) = Some r → rt_revokedAt r ≠ None.
Proof.
  unfold revokeRefreshChain.
  destruct (revoke_loop_total (S (length t)) now (Some start) [] t) as [t' Ht'];
    [apply NoDup_nil_2 | by intros ? ?%elem_of_nil | simpl; lia |].
  rewrite Ht'. simpl.
  destruct (revoke_loop_spec _ _ _ _ _ _ Ht') as (S & _ & Hst & Hrev & Hcl & Hnone);
    [by intros ? ?%elem_of_nil | by intros ? ? ?%elem_of_nil |].
  intros Hreach.
  assert (Hx : x ∈ S ∨ find_rt x t = None).
  { specialize (Hst start eq_refl). clear Ht'.
    induction Hreach as [x|a b x Hab _ IH]; [done|].
    apply IH. destruct Hst as [Ha|Ha].
    - by apply (Hcl a).
    - unfold next_rt in Hab. by rewrite Ha in Hab. }
  intros Hr. destruct Hx as [Hx|Hx].
  - destruct (Hrev x Hx) as (r' & Hr' & ?). congruence.
  - apply Hnone in Hx. congruence.
Qed.
End chains.

(** ** Theorems on the flow *)
Section flow.
Context `{DigestLaws} `{Jwt} `{UrlApi} `{Pkce} (env : option string) (random : string).
Import OAuthTokenService TokenAuthService OAuthFlowService.

(** Who a request authenticates as, when it does. *)
Definition presents (c : OAuthClient) (clientId clientSecret : option string) (s : odb) : Prop :=
  getEnabledClient (default "" clientId) s = Some c ∧ authenticateClient c clientSecret = Ok tt.

(** C3: presenting a refresh token that was already rotated away is refused
    and kills the chain: afterwards no token it was rotated into, directly or
    through any number of rotations, is live. *)
Theorem reuse_revokes_descendants (now : Z) (d : draws) (i : refresh_input) (s : odb)
    (c : OAuthClient) (row : RefreshToken) (next : string) :
  presents c (ri_clientId i) (ri_clientSecret i) s → oc_type c ≠ "machine" →
  truthy (ri_refreshToken i) = true →
  findFirst (by_token (default "" (ri_refreshToken i))) (refreshes s) = Some row →
  rt_clientId row = oc_clientId c → is_Some (rt_revokedAt row) →
  rt_rotatedTo row = Some next → next ≠ "" →
  run_result (refreshTokens env random now d i) s = Err (grant_failed "Refresh token revoked.") ∧
  ∀ x r, rtc (λ a b, next_rt (refreshes s) a = Some b) next x →
    find_rt x (refreshes (run_state (refreshTokens env random now d i) s)) = Some r →
    rt_revokedAt r ≠ None.
Proof.
  intros [Hc Ha] Hm Ht Hrow Hcl Hrev Hrot Hne.
  assert (Hrun : refreshTokens env random now d i s =
    (Err (grant_failed "Refresh token revoked."),
     with_refreshes (revokeRefreshChain now next) s, [])).
  { unfold refreshTokens, refresh_check. svc_run. rewrite Hc. svc_run. rewrite Ha.
    rewrite bool_decide_eq_false_2, Ht, Hrow by done. svc_run.
    rewrite (bool_decide_eq_true_2 (rt_clientId row = oc_clientId c)) by done. svc_run.
    rewrite bool_decide_eq_true_2 by done. unfold kill_and_refuse. rewrite Hrot.
    rewrite bool_decide_eq_false_2 by done. svc_run. done. }
  unfold run_result, run_state. rewrite Hrun. split; [done|].
  intros x r Hreach. simpl. by apply revokeRefreshChain_spec.
Qed.

Lemma sign_ok now d i s : ∃ x s' o,
  sign env random now d i s = (Ok x, s', o) ∧ authCodes s' = authCodes s ∧
  refreshes s' = refreshes s ∧ grants s' = grants s ∧ oauthClients (base s') = oauthClients (base s).
Proof.
  unfold sign, on_base, focus, rescue, signAccessToken.
  destruct (signingSecret_ok random (base s)) as (sec & b & o & Hs & _ & _ & Hcl).
  unfold mbind, svc_bind. rewrite Hs. by eexists _, _, _.
Qed.

(** What [issueTokens] adds: one live refresh token with the given scopes. *)
Definition fresh_refresh (now : Z) (d : draws) (userId clientId : string)
    (scopes : list Permission) (resource : option string) : RefreshToken :=
  {| rt_id := refresh_id d; rt_tokenHash := sha256_hex ("ocr_" +:+ drawn_refresh d);
     rt_clientId := clientId; rt_userId := userId; rt_scopes := scopes;
     rt_resource := resource; rt_expiresAt := (now + REFRESH_TTL_MS)%Z;
     rt_revokedAt := None; rt_rotatedTo := None |}.

Lemma issueTokens_ok now d u c sc res s : ∃ x s' o,
  issueTokens env random now d u c sc res s = (Ok x, s', o) ∧
  refresh_token x = Some ("ocr_" +:+ drawn_refresh d) ∧ granted_scope x = join " " sc ∧
  authCodes s' = authCodes s ∧ grants s' = grants s ∧
  oauthClients (base s') = oauthClients (base s) ∧
  refreshes s' = refreshes s ++ [fresh_refresh now d u c sc res].
Proof.
  unfold issueTokens.
  destruct (sign_ok now d {| si_userId := u; si_clientId := c; si_scopes := sc;
    si_resource := res; si_machine := false; si_ttlSec := None |} s)
    as (x & s1 & o1 & Hs & H1' & H2' & H3' & H4').
  unfold mbind, svc_bind. rewrite Hs. simpl. eexists _, _, _.
  split; [reflexivity|]. simpl. rewrite H2'. auto 10.
Qed.

(** The checks pass exactly for a live code of this client, with its redirect
    URI and the verifier of its challenge. *)
Lemma exchange_check_ok now i s c row s' o :
  exchange_check now i s = (Ok (c, row), s', o) →
  s' = s ∧ presents c (ei_clientId i) (ei_clientSecret i) s ∧ truthy (ei_code i) = true ∧
  findFirst (by_code (default "" (ei_code i))) (authCodes s) = Some row ∧
  ac_clientId row = oc_clientId c ∧ ac_consumedAt row = None ∧ (now < ac_expiresAt row)%Z ∧
  ei_redirectUri i = Some (ac_redirectUri row) ∧
  base64urlSha256 (default "" (ei_codeVerifier i)) = ac_codeChallenge row.
Proof.
  unfold exchange_check. svc_run.
  destruct (getEnabledClient _ s) as [c'|] eqn:Hc; [|done]. svc_run.
  destruct (authenticateClient c' _) as [[]|] eqn:Ha; [|done].
  destruct (truthy (ei_code i)) eqn:Htc; [|done]. simpl orb.
  destruct (truthy (ei_codeVerifier i)) eqn:Hv; [|done]. simpl orb.
  destruct (truthy (ei_redirectUri i)) eqn:Hr; [|done]. simpl orb.
  destruct (findFirst _ _) as [row'|] eqn:Hrow; [|done]. svc_run.
  case_bool_decide as Hcl; [|done]. svc_run.
  case_bool_decide as Hcon; [done|]. svc_run.
  destruct (Z.leb_spec (ac_expiresAt row') now); [done|].
  case_bool_decide as Huri; [|done]. svc_run.
  case_bool_decide as Hpk; [|done]. svc_run.
  unfold mret, svc_ret. intros [= <- <- <- _].
  split_and!; try done.
  - by apply eq_None_not_Some.
  - destruct (ei_redirectUri i); simpl in *; congruence.
Qed.


Lemma refresh_check_ok now i s c row s' o :
  refresh_check now i s = (Ok (c, row), s', o) →
  s' = s ∧ presents c (ri_clientId i) (ri_clientSecret i) s ∧ oc_type c ≠ "machine" ∧
  truthy (ri_refreshToken i) = true ∧
  findFirst (by_token (default "" (ri_refreshToken i))) (refreshes s) = Some row ∧
  rt_clientId row = oc_clientId c ∧ rt_revokedAt row = None ∧ (now < rt_expiresAt row)%Z.
Proof.
  unfold refresh_check. svc_run.
  destruct (getEnabledClient _ s) as [c'|] eqn:Hc; [|done]. svc_run.
  destruct (authenticateClient c' _) as [[]|] eqn:Ha; [|done].
  case_bool_decide as Hm; [done|].
  destruct (truthy (ri_refreshToken i)) eqn:Ht; [|done]. svc_run.
  destruct (findFirst _ _) as [row'|] eqn:Hrow; [|done]. svc_run.
  case_bool_decide as Hcl; [|done]. svc_run.
  case_bool_decide as Hrev.
  { unfold kill_and_refuse. destruct (rt_rotatedTo row') as [n|]; [|done].
    case_bool_decide; [done|]. svc_run. done. }
  svc_run. destruct (Z.leb_spec (rt_expiresAt row') now); [done|].
  unfold mret, svc_ret. intros [= <- <- <- _]. split_and!; try done.
  by apply eq_None_not_Some.
Qed.

(** The claim goes through and the pair is issued. *)
Lemma refresh_commit_ok now d c row s :
  NoDup (rt_id <$> refreshes s) → row ∈ refreshes s → rt_revokedAt row = None →
  refresh_id d ∉ rt_id <$> refreshes s →
  sha256_hex ("ocr_" +:+ drawn_refresh d) ∉ rt_tokenHash <$> refreshes s →
  let new := fresh_refresh now d (rt_userId row) (oc_clientId c) (rt_scopes row)
    (rt_resource row) in
  ∃ resp s' o, refresh_commit env random now d c row s = (Ok resp, s', o) ∧
    refresh_token resp = Some ("ocr_" +:+ drawn_refresh d) ∧
    granted_scope resp = join " " (rt_scopes row) ∧
    oauthClients (base s') = oauthClients (base s) ∧
    find_rt (rt_id row) (refreshes s') =
      Some (link_refresh (Some (refresh_id d)) (revoke_refresh now row)) ∧
    find_rt (refresh_id d) (refreshes s') = Some new ∧
    ∀ tok, findFirst (by_token tok) (refreshes s) = Some row →
      findFirst (by_token tok) (refreshes s') =
        Some (link_refresh (Some (refresh_id d)) (revoke_refresh now row)).
Proof.
  intros Hnd Hin Hlive Hid Hhash new. unfold refresh_commit. svc_run.
  set (claimable := λ r, has_rt_id (rt_id row) r && bool_decide (rt_revokedAt r = None)).
  assert (Hclaim : claimable row = true).
  { unfold claimable, has_rt_id. by rewrite !bool_decide_eq_true_2. }
  destruct (Nat.eqb_spec (countWhere claimable (refreshes s)) 0) as [H0'|_].
  { exfalso. assert (Hr : row ∈ findMany claimable (refreshes s)) by by apply elem_of_findMany.
    unfold countWhere in H0'. apply length_zero_iff_nil in H0'.
    rewrite H0' in Hr. by apply elem_of_nil in Hr. }
  set (s1 := with_refreshes _ s).
  destruct (issueTokens_ok now d (rt_userId row) (oc_clientId c) (rt_scopes row)
    (rt_resource row) s1) as (x & s2 & o2 & Hi & Hx & Hg & _ & _ & Hcl & Hrf).
  fold new in Hrf.
  assert (Hrt : refreshes s1 = updateMany claimable (revoke_refresh now) (refreshes s)) by done.
  assert (Hsucc : findFirst (by_token ("ocr_" +:+ drawn_refresh d)) (refreshes s2) = Some new).
  { rewrite Hrf, findFirst_app, Hrt, findFirst_updateMany by done.
    replace (findFirst _ (refreshes s)) with (@None RefreshToken); simpl.
    - rewrite findFirst_cons. unfold by_token. simpl. by rewrite bool_decide_eq_true_2.
    - symmetry. apply findFirst_None. intros r Hr. apply bool_decide_eq_false.
      intros He. apply Hhash. rewrite <-He. by apply list_elem_of_fmap_2. }
  assert (Hfind : ∀ p, (∀ r, p (revoke_refresh now r) = p r) →
    (∀ u r, p (link_refresh u r) = p r) → findFirst p (refreshes s) = Some row →
    findFirst p (updateMany (has_rt_id (rt_id row)) (link_refresh (Some (refresh_id d)))
      (refreshes s2)) = Some (link_refresh (Some (refresh_id d)) (revoke_refresh now row))).
  { intros p Hp1 Hp2 Hp. rewrite findFirst_updateMany, Hrf, findFirst_app by auto.
    rewrite Hrt, findFirst_updateMany, Hp by done. cbn [fmap option_fmap option_map].
    rewrite Hclaim. unfold has_rt_id. simpl. by rewrite bool_decide_eq_true_2. }
  unfold mbind at 1, svc_bind at 1. rewrite Hi. svc_run. rewrite Hx. cbn [default from_option id].
  rewrite Hsucc. simpl. unfold mret, svc_ret. eexists _, _, _. split; [reflexivity|].
  simpl. split_and!; [done | done | done | | |].
  - apply Hfind; [done | done |]. by apply findFirst_key.
  - unfold find_rt. rewrite findFirst_updateMany, Hrf, findFirst_app by done.
    rewrite Hrt, findFirst_updateMany by done.
    replace (findFirst (has_rt_id (refresh_id d)) (refreshes s)) with (@None RefreshToken); simpl.
    + rewrite findFirst_cons. unfold has_rt_id. simpl. rewrite bool_decide_eq_true_2 by done.
      simpl. rewrite bool_decide_eq_false_2; [done|]. intros He. apply Hid. rewrite He.
      by apply list_elem_of_fmap_2.
    + symmetry. apply findFirst_None. intros r Hr. apply bool_decide_eq_false.
      intros He. apply Hid. rewrite <-He. by apply list_elem_of_fmap_2.
  - intros tok Htok. by apply Hfind.
Qed.

(** refreshing rotates: the token presented, live and of this client, is
    revoked and points at its successor, the one new live token, which has the
    same user, client and scopes, so a chain never gains a scope.  Presenting
    the old token again is refused and takes the successor down with it. *)
Theorem refresh_rotates (now : Z) (d : draws) (i : refresh_input) (s s' : odb)
    (resp : TokenResponse) (o : list output) :
  NoDup (rt_id <$> refreshes s) → refresh_id d ∉ rt_id <$> refreshes s →
  sha256_hex ("ocr_" +:+ drawn_refresh d) ∉ rt_tokenHash <$> refreshes s →
  refresh_id d ≠ "" →
  refreshTokens env random now d i s = (Ok resp, s', o) →
  ∃ c row, presents c (ri_clientId i) (ri_clientSecret i) s ∧ row ∈ refreshes s ∧
    rt_tokenHash row = sha256_hex (default "" (ri_refreshToken i)) ∧
    rt_clientId row = oc_clientId c ∧ rt_revokedAt row = None ∧ (now < rt_expiresAt row)%Z ∧
    find_rt (rt_id row) (refreshes s') =
      Some (link_refresh (Some (refresh_id d)) (revoke_refresh now row)) ∧
    find_rt (refresh_id d) (refreshes s') =
      Some (fresh_refresh now d (rt_userId row) (oc_clientId c) (rt_scopes row)
        (rt_resource row)) ∧
    ∀ now' d',
      run_result (refreshTokens env random now' d' i) s' =
        Err (grant_failed "Refresh token revoked.") ∧
      ∀ r, find_rt (refresh_id d)
        (refreshes (run_state (refreshTokens env random now' d' i) s')) = Some r →
        rt_revokedAt r ≠ None.
Proof.
  intros Hnd Hid Hhash Hne. unfold refreshTokens at 1.
  intros ([c row] & s1 & o1 & o2 & Hck & Hcm & _)%svc_bind_ok. simpl in Hcm.
  apply refresh_check_ok in Hck
    as (-> & [Hc Ha] & Hm & Ht & Hrow & Hcl & Hlive & Hexp).
  pose proof (findFirst_Some _ _ _ Hrow) as [Hin Hh%bool_decide_eq_true].
  destruct (refresh_commit_ok now d c row s) as (x & s2 & o3 & Hrun & _ & _ & Hclients &
    Hold & Hnew & Htok); [done | done | done | done | done |].
  rewrite Hrun in Hcm. injection Hcm as <- <- _.
  exists c, row. split_and!; try done.
  intros now' d'. specialize (Htok _ Hrow).
  assert (Hc' : getEnabledClient (default "" (ri_clientId i)) s2 = Some c).
  { unfold getEnabledClient, find_client in *. by rewrite Hclients. }
  assert (Hrun' : refreshTokens env random now' d' i s2 =
    (Err (grant_failed "Refresh token revoked."),
     with_refreshes (revokeRefreshChain now' (refresh_id d)) s2, [])).
  { unfold refreshTokens, refresh_check. svc_run. rewrite Hc'. svc_run. rewrite Ha.
    rewrite bool_decide_eq_false_2, Ht, Htok by done. svc_run. cbn [rt_clientId link_refresh revoke_refresh].
    rewrite (bool_decide_eq_true_2 (rt_clientId row = oc_clientId c)) by done. svc_run.
    cbn. rewrite bool_decide_eq_false_2 by done. svc_run. done. }
  unfold run_result, run_state. rewrite Hrun'. split; [done|]. simpl. intros r.
  apply revokeRefreshChain_spec. apply rtc_refl.
Qed.

(** the checks of a code exchange and its write are separate steps: two
    requests with the same code whose checks both run before either write both
    succeed, and leave two live refresh tokens for one code. *)
Theorem interleaved_exchanges_both_succeed (now1 now2 : Z) (d1 d2 : draws)
    (i1 i2 : exchange_input) (c1 c2 : OAuthClient) (row1 row2 : AuthCode) (s : odb)
    (o1 o2 : list output) (s1 s2 : odb) :
  exchange_check now1 i1 s = (Ok (c1, row1), s1, o1) →
  exchange_check now2 i2 s1 = (Ok (c2, row2), s2, o2) →
  ∃ resp1 resp2 s3 s4 o3 o4,
    exchange_commit env random now1 d1 c1 row1 s2 = (Ok resp1, s3, o3) ∧
    exchange_commit env random now2 d2 c2 row2 s3 = (Ok resp2, s4, o4) ∧
    refreshes s4 = refreshes s ++
      [fresh_refresh now1 d1 (ac_userId row1) (oc_clientId c1) (ac_scopes row1) (ac_resource row1);
       fresh_refresh now2 d2 (ac_userId row2) (oc_clientId c2) (ac_scopes row2) (ac_resource row2)].
Proof.
  intros (-> & _)%exchange_check_ok (-> & _)%exchange_check_ok.
  assert (Hcommit : ∀ now d c row w, ∃ resp w' o,
    exchange_commit env random now d c row w = (Ok resp, w', o) ∧
    refreshes w' = refreshes w ++
      [fresh_refresh now d (ac_userId row) (oc_clientId c) (ac_scopes row) (ac_resource row)]).
  { intros now d c row w. unfold exchange_commit. svc_run.
    destruct (issueTokens_ok now d (ac_userId row) (oc_clientId c) (ac_scopes row)
      (ac_resource row) (with_authCodes (updateMany (λ r, bool_decide (ac_id r = ac_id row))
        (consume_code now)) w)) as (x & w' & o & Hi & _ & _ & _ & _ & _ & Hrf).
    by exists x, w', o. }
  destruct (Hcommit now1 d1 c1 row1 s) as (r1 & s3 & o3 & H1' & Hr1).
  destruct (Hcommit now2 d2 c2 row2 s3) as (r2 & s4 & o4 & H2' & Hr2).
  exists r1, r2, s3, s4, o3, o4. split_and!; [done | done |].
  by rewrite Hr2, Hr1, <-(assoc_L (++)).
Qed.

(** a machine client gets a token only for itself, with its secret, from an
    allowed address, while enabled; the scopes are non-empty and both in the
    machine catalog and allowed to the client; and there is no refresh token. *)
Theorem clientCredentials_confined (now : Z) (d : draws)
    (clientId clientSecret scope ip : option string) (s s' : odb) (resp : TokenResponse)
    (name : string) (o : list output) :
  clientCredentials env random now d clientId clientSecret scope ip s = (Ok (resp, name), s', o) →
  ∃ c scopes, presents c clientId clientSecret s ∧ oc_type c = "machine" ∧
    hashMatches (default "" clientSecret) (default "" (oc_clientSecretHash c)) = true ∧
    IpAllowlist.ipAllowed (oc_ipAllowlist c) ip = Some true ∧
    granted_scope resp = join " " scopes ∧ scopes ≠ [] ∧
    (∀ x, x ∈ scopes → x ∈ MACHINE_CLIENT_SCOPES ∧ x ∈ oc_allowedScopes c) ∧
    refresh_token resp = None ∧ refreshes s' = refreshes s.
Proof.
  unfold clientCredentials. svc_run.
  destruct (getEnabledClient _ s) as [c|] eqn:Hc; [|done]. svc_run.
  case_bool_decide as Hm; [|done]. svc_run.
  set (allowed := filter _ MACHINE_CLIENT_SCOPES).
  set (scopes := if bool_decide (parseScopes scope = []) then allowed else parseScopes scope).
  intros ([] & s1 & o1 & o2 & Hchk & Hk & _)%svc_bind_ok.
  unfold rescue in Hchk. revert Hchk. svc_run.
  destruct (machine_rate (oc_clientId c) now (rates s)) as [retry w].
  svc_run. destruct retry as [n|]; [by svc_run|]. svc_run.
  destruct (authenticateClient c clientSecret) as [[]|] eqn:Ha; [|done]. svc_run.
  destruct (IpAllowlist.ipAllowed (oc_ipAllowlist c) ip) as [[]|] eqn:Hip;
    svc_run; [|done|done].
  unfold throw_if.
  destruct (bool_decide (scopes = []) || some (λ s, negb (includes s allowed)) scopes) eqn:Hsc;
    [done|].
  unfold mret, svc_ret. intros [= <- _].
  apply orb_false_iff in Hsc as [Hne Hall].
  apply bool_decide_eq_false in Hne. rewrite some_false in Hall.
  destruct (sign_ok now d {| si_userId := oc_clientId c; si_clientId := oc_clientId c;
    si_scopes := scopes; si_resource := audienceFor env AGENT_CATALOG_RESOURCE_PATH;
    si_machine := true; si_ttlSec := Some MACHINE_TOKEN_TTL_SEC |} (with_rates w s))
    as (x & s2 & o3 & Hs & _ & Hrf & _).
  apply svc_bind_ok in Hk as (x' & s3 & o4 & o5 & Hs' & Hk & _).
  rewrite Hs in Hs'. injection Hs' as <- <- <-.
  revert Hk. svc_run. unfold mret, svc_ret. intros [= <- <- <- _].
  exists c, scopes. split_and!; try done.
  - unfold authenticateClient in Ha. rewrite Hm in Ha. cbn in Ha.
    destruct (negb _ || negb _); [done|]. by destruct (hashMatches _ _).
  - intros y Hy. specialize (Hall y Hy). apply negb_false_iff, includes_true in Hall.
    unfold allowed in Hall. by apply list_elem_of_filter in Hall as [?%includes_true ?].
Qed.

End flow.

(** ** The client registry *)
Section registry.
Context `{Digest} `{UrlApi}.
Import OAuthClientService.

(** What the three kinds of client look like. *)
Definition well_formed_client (c : OAuthClient) : Prop :=
  (oc_type c = "machine" ∧ oc_redirectUris c = [] ∧ oc_allowedScopes c ≠ [] ∧
   (∀ x, x ∈ oc_allowedScopes c → x ∈ MACHINE_CLIENT_SCOPES) ∧
   is_Some (oc_clientSecretHash c) ∧
   ∀ e, e ∈ oc_ipAllowlist c → is_Some (IpAllowlist.entry_rule e)) ∨
  ((oc_type c = "public" ∧ oc_clientSecretHash c = None ∨
    oc_type c = "confidential" ∧ is_Some (oc_clientSecretHash c)) ∧
   oc_allowedScopes c = [] ∧ oc_ipAllowlist c = [] ∧
   ∀ u, u ∈ oc_redirectUris c → validate_uri u = Ok tt).

Definition registry_ok (s : bdb) : Prop := ∀ c, c ∈ oauthClients s → well_formed_client c.

Lemma validateScopes_ok l l' :
  validateScopes l = Ok l' → l' ≠ [] ∧ ∀ x, x ∈ l' → x ∈ MACHINE_CLIENT_SCOPES.
Proof.
  unfold validateScopes. case_bool_decide as Hbad; simpl; [|done].
  case_bool_decide as Hne; [done|]. intros [= <-]. split; [done|]. intros x Hx.
  destruct (includes x MACHINE_CLIENT_SCOPES) eqn:Hin; [by apply includes_true|].
  assert (x ∈ filter (λ s, includes s MACHINE_CLIENT_SCOPES = false) (clean_texts l)) as Hb
    by by apply list_elem_of_filter.
  rewrite Hbad in Hb. by apply elem_of_nil in Hb.
Qed.

Lemma validateRedirectUris_ok l l' :
  validateRedirectUris l = Ok l' → ∀ u, u ∈ l' → validate_uri u = Ok tt.
Proof.
  unfold validateRedirectUris. destruct l as [|x l]; [done|].
  destruct (validate_uris (clean_texts (x :: l))) as [[]|] eqn:Hv; [|done].
  intros [= <-]. revert Hv. induction (clean_texts (x :: l)) as [|y ys IH]; simpl.
  - by intros _ u ?%elem_of_nil.
  - destruct (validate_uri y) as [[]|] eqn:Hy; [|done]. simpl.
    intros Hys u [->|Hu]%elem_of_cons; auto.
Qed.
Lemma validateIps_ok l l' :
  validateIps l = Ok l' → ∀ e, e ∈ l' → is_Some (IpAllowlist.entry_rule e).
Proof.
  unfold validateIps. destruct (IpAllowlist.cleanIpAllowlist _) as [x|] eqn:Hx; [|done].
  intros [= <-]. by eapply cleanIpAllowlist_ok.
Qed.

(** [patch] as a pure check. *)
Definition patched {A B} (c : bool) (v : A → result http_error B) (x : option A) :
    result http_error (option B) :=
  match x with
  | Some x => if c then y ← v x; Ok (Some y) else Ok None
  | None => Ok None
  end.

Lemma run_patch {A B C} (c : bool) (v : A → result http_error B) x
    (k : option B → bcall C) s :
  (patch c v x ≫= k) s = match patched c v x with Ok y => k y s | Err e => (Err e, s, []) end.
Proof.
  unfold patch, patched. destruct x as [x|]; [|by svc_run]. destruct c; [|by svc_run].
  svc_run. destruct (v x); svc_run; done.
Qed.

Lemma patched_ok {A B} (c : bool) (v : A → result http_error B) x y :
  patched c v x = Ok (Some y) → c = true ∧ ∃ x', v x' = Ok y.
Proof.
  unfold patched. destruct x as [x|]; [|done]. destruct c; [|done].
  destruct (v x) eqn:Hv; [|done]. intros [= <-]. eauto.
Qed.

Lemma create_ok id random secret i s :
  registry_ok s → registry_ok (handle (Create id random secret i) s).
Proof.
  intros Hs. simpl. unfold run_state, create. svc_run. case_match; [done|]. svc_run.
  assert (Htype : client_type (ci_type i) = "confidential" ∨
    client_type (ci_type i) = "machine" ∨ client_type (ci_type i) = "public").
  { unfold client_type. by repeat case_bool_decide; auto. }
  destruct Htype as [->|[->| ->]]; cbn; svc_run.
  - destruct (validateRedirectUris _) as [uris|] eqn:Hu; [|exact Hs]. svc_run.
    intros c [Hc| ->%list_elem_of_singleton]%elem_of_app; [by apply Hs|]. right. simpl.
    split_and!; [by right; split; eauto | done | done |]. by eapply validateRedirectUris_ok.
  - destruct (validateScopes _) as [sc|] eqn:Hsc; [|exact Hs]. svc_run.
    destruct (validateIps _) as [ips|] eqn:Hips; [|exact Hs]. svc_run.
    intros c [Hc| ->%list_elem_of_singleton]%elem_of_app; [by apply Hs|]. left. simpl.
    apply validateScopes_ok in Hsc as [? ?].
    split_and!; try done. by eapply validateIps_ok.
  - destruct (validateRedirectUris _) as [uris|] eqn:Hu; [|exact Hs]. svc_run.
    intros c [Hc| ->%list_elem_of_singleton]%elem_of_app; [by apply Hs|]. right. simpl.
    split_and!; [by left | done | done |]. by eapply validateRedirectUris_ok.
Qed.
Lemma getOrThrow_ok id s c s' o :
  getOrThrow id s = (Ok c, s', o) → s' = s ∧ findFirst (by_id id) (oauthClients s) = Some c.
Proof.
  unfold getOrThrow. svc_run. destruct (findFirst _ _); [|done]. by intros [= <- <- _].
Qed.

(** Updating rows found by id keeps the registry well formed if each updated row is. *)
Lemma registry_update id f s c0 :
  NoDup (oc_id <$> oauthClients s) → findFirst (by_id id) (oauthClients s) = Some c0 →
  registry_ok s → well_formed_client (f c0) →
  registry_ok (with_clients (updateMany (by_id id) f) s).
Proof.
  intros Hnd Hc0 Hs Hf c Hc. simpl in Hc.
  apply elem_of_updateMany in Hc as (c1 & Hc1 & ->).
  destruct (by_id id c1) eqn:Hi; [|by apply Hs].
  apply findFirst_Some in Hc0 as [Hin Hi0]. apply bool_decide_eq_true in Hi, Hi0.
  assert (c1 = c0) as -> by (by eapply (NoDup_key oc_id); [..|congruence]). done.
Qed.

Lemma update_ok id p s :
  NoDup (oc_id <$> oauthClients s) → registry_ok s → registry_ok (handle (Update id p) s).
Proof.
  intros Hnd Hs. simpl. unfold run_state, update, getOrThrow. svc_run.
  destruct (findFirst (by_id id) (oauthClients s)) as [c|] eqn:Hc; svc_run; [|exact Hs].
  rewrite run_patch. destruct (patched true _ _) as [name|] eqn:Hname; [|exact Hs].
  rewrite run_patch. destruct (patched (negb _) _ _) as [uris|] eqn:Huris; [|exact Hs].
  rewrite run_patch. destruct (patched _ _ (ui_allowedScopes p)) as [sc|] eqn:Hsc; [|exact Hs].
  rewrite run_patch. destruct (patched _ _ (ui_ipAllowlist p)) as [ips|] eqn:Hips; [|exact Hs].
  apply (registry_update _ _ _ c); [done | done | done |].
  apply findFirst_Some in Hc as [Hin _]. specialize (Hs c Hin).
  destruct Hs as [(Hm & Hu & Hne & Hsub & Hsec & Hip)|(Ht & Hno & Hnoip & Hu)].
  - left. simpl. rewrite Hm in *. simpl in *.
    assert (uris = None) as -> by (destruct (ui_redirectUris p); by injection Huris).
    destruct sc as [sc|]; simpl.
    + apply patched_ok in Hsc as (_ & x & Hx). apply validateScopes_ok in Hx as [? ?].
      split_and!; try done. destruct ips as [ips|]; simpl; [|done].
      apply patched_ok in Hips as (_ & y & Hy). by eapply validateIps_ok.
    + split_and!; try done. destruct ips as [ips|]; simpl; [|done].
      apply patched_ok in Hips as (_ & y & Hy). by eapply validateIps_ok.
  - right. simpl.
    assert (Hmf : bool_decide (oc_type c = "machine") = false).
    { apply bool_decide_eq_false. by destruct Ht as [[-> _]|[-> _]]. }
    rewrite Hmf in *. simpl in *.
    assert (sc = None) as -> by (destruct (ui_allowedScopes p); by injection Hsc).
    assert (ips = None) as -> by (destruct (ui_ipAllowlist p); by injection Hips).
    split_and!; try done. destruct uris as [uris|]; simpl; [|done].
    apply patched_ok in Huris as (_ & x & Hx). by eapply validateRedirectUris_ok.
Qed.

Lemma rotate_ok now id secret s :
  NoDup (oc_id <$> oauthClients s) → registry_ok s → registry_ok (handle (Rotate now id secret) s).
Proof.
  intros Hnd Hs. simpl. unfold run_state, rotateSecret, getOrThrow. svc_run.
  destruct (findFirst (by_id id) (oauthClients s)) as [c|] eqn:Hc; svc_run; [|exact Hs].
  case_bool_decide as Hpub; [exact Hs|]. svc_run.
  apply (registry_update _ _ _ c); [done | done | done |].
  apply findFirst_Some in Hc as [Hin _].
  destruct (Hs c Hin) as [(? & ? & ? & ? & ? & ?)|([[? _]|[? ?]] & ? & ? & ?)]; [left|done|right];
    simpl; split_and!; eauto.
Qed.

(** Ids and secrets the server draws are new. *)
Definition fresh_client (r : request) (s : bdb) : Prop :=
  match r with Create id _ _ _ => id ∉ oc_id <$> oauthClients s | _ => True end.

Fixpoint fresh_clients (rs : list request) (s : bdb) : Prop :=
  match rs with [] => True | r :: rs' => fresh_client r s ∧ fresh_clients rs' (handle r s) end.

Lemma handle_unique r s :
  fresh_client r s → NoDup (oc_id <$> oauthClients s) → NoDup (oc_id <$> oauthClients (handle r s)).
Proof.
  intros Hf Hnd. destruct r as [id random secret i|id p|now id secret|id]; simpl; unfold run_state.
  - unfold create. svc_run. case_match; [done|]. svc_run.
    repeat match goal with |- context [match ?X with Ok _ => _ | Err _ => _ end] =>
      destruct X; svc_run; [|exact Hnd] end.
    simpl. unfold createRow. rewrite fmap_app. apply NoDup_app. simpl in Hf.
    split_and!; [done | by intros x Hx ->%list_elem_of_singleton | apply NoDup_singleton].
  - unfold update, getOrThrow. svc_run. destruct (findFirst _ _); svc_run; [|exact Hnd].
    do 4 (rewrite run_patch; destruct (patched _ _ _); [|exact Hnd]).
    simpl. by rewrite fmap_updateMany.
  - unfold rotateSecret, getOrThrow. svc_run. destruct (findFirst _ _); svc_run; [|exact Hnd].
    case_bool_decide; [exact Hnd|]. svc_run. simpl. by rewrite fmap_updateMany.
  - unfold remove, getOrThrow. svc_run. destruct (findFirst _ _); svc_run; [|exact Hnd].
    simpl. by apply NoDup_fmap_filter.
Qed.

End registry.

(** ** Witnesses *)
Section witnesses.
Import OAuthTokenService TokenAuthService OAuthFlowService.
#[local] Existing Instances toy_digest toy_jwt toy_digest_laws.
#[local] Instance toy_url : UrlApi :=
  {| parse_url := λ s, Some (Url "https:" "app.example" s);
     set_params := λ u ps, u |}.
#[local] Instance toy_pkce : Pkce := λ s, s.

Definition toy_client (id clientId type : string) (secret : option string)
    (scopes : list string) : OAuthClient :=
  {| oc_id := id; oc_clientId := clientId; oc_name := clientId; oc_type := type;
     oc_clientSecretHash := secret; oc_redirectUris := ["https://app/cb"];
     oc_disabled := false; oc_allowedScopes := scopes; oc_ipAllowlist := [];
     oc_lastUsedAt := None; oc_secretRotatedAt := None |}.

Definition oauth0 : odb :=
  ODb (BDb sample_db [] [toy_client "k1" "oc_1" "public" None [];
      toy_client "k2" "oc_2" "machine" (Some "ocs_s") ["agents:read"]] None (Some "sec"))
    [] [] [] ∅.

Definition toy_exchange : exchange_input :=
  {| ei_clientId := Some "oc_1"; ei_clientSecret := None; ei_code := Some "oca_c";
     ei_redirectUri := Some "https://app/cb"; ei_codeVerifier := Some "ver" |}.
Definition toy_draw (n : string) : draws := Draws "jti" n ("r" +:+ n).
Definition toy_refresh (n : string) : refresh_input :=
  {| ri_clientId := Some "oc_1"; ri_clientSecret := None; ri_refreshToken := Some ("ocr_" +:+ n) |}.

Definition oauth1 : odb :=
  run_state (issueCode 0 "code1" "c"
    {| ic_clientId := "oc_1"; ic_userId := "u1"; ic_scopes := ["logs:read"];
       ic_redirectUri := "https://app/cb"; ic_codeChallenge := "ver"; ic_resource := None |})
    oauth0.
Definition exchanged := exchangeAuthCode None "rnd" 10 (toy_draw "a") toy_exchange oauth1.
Definition oauth2 : odb := exchanged.1.2.
Definition refreshed := refreshTokens None "rnd" 20 (toy_draw "b") (toy_refresh "a") oauth2.
Definition oauth3 : odb := refreshed.1.2.


Lemma refresh_rotates_witness :
  run_result (refreshTokens None "rnd" 30 (toy_draw "y") (toy_refresh "a")) oauth3 =
    Err (grant_failed "Refresh token revoked.") ∧
  ∀ r, find_rt "rb" (refreshes (run_state
    (refreshTokens None "rnd" 30 (toy_draw "y") (toy_refresh "a")) oauth3)) = Some r →
    rt_revokedAt r ≠ None.
Proof.
  assert (H : refreshed = (refreshed.1.1, oauth3, refreshed.2)) by (vm_compute; reflexivity).
  destruct refreshed.1.1 as [resp|] eqn:Hr; [|vm_compute in Hr; discriminate Hr].
  destruct (refresh_rotates None "rnd" 20 (toy_draw "b") (toy_refresh "a") oauth2 oauth3 resp
    refreshed.2) as (c & row & _ & _ & _ & _ & _ & _ & _ & _ & Hlater).
  - apply (bool_decide_unpack _). vm_compute. exact I.
  - apply (bool_decide_unpack _). vm_compute. exact I.
  - apply (bool_decide_unpack _). vm_compute. exact I.
  - discriminate.
  - exact H.
  - exact (Hlater 30%Z (toy_draw "y")).
Defined.

Lemma reuse_revokes_descendants_witness :
  let s := run_state (refreshTokens None "rnd" 25 (toy_draw "c") (toy_refresh "b")) oauth3 in
  let s' := run_state (refreshTokens None "rnd" 30 (toy_draw "y") (toy_refresh "a")) s in
  is_Some (find_rt "rc" (refreshes s')) ∧
  ∀ r, find_rt "rc" (refreshes s') = Some r → rt_revokedAt r ≠ None.
Proof.
  set (s := run_state _ _). cbv zeta.
  destruct (reuse_revokes_descendants None "rnd" 30 (toy_draw "y") (toy_refresh "a") s
    (toy_client "k1" "oc_1" "public" None [])
    (link_refresh (Some "rb") (revoke_refresh 20 (fresh_refresh 10 (toy_draw "a") "u1" "oc_1"
      ["logs:read"] None))) "rb") as [_ H];
    [split; vm_compute; reflexivity | discriminate | reflexivity | vm_compute; reflexivity
    | reflexivity | by eexists | reflexivity | discriminate |].
  split; [by vm_compute; eexists|].
  intros r. apply H. apply rtc_once. vm_compute. reflexivity.
Defined.

Lemma interleaved_exchanges_both_succeed_witness :
  ∃ row resp1 resp2 s3 s4 o3 o4,
    exchange_commit None "rnd" 10 (toy_draw "a") (toy_client "k1" "oc_1" "public" None []) row
      oauth1 = (Ok resp1, s3, o3) ∧
    exchange_commit None "rnd" 11 (toy_draw "b") (toy_client "k1" "oc_1" "public" None []) row
      s3 = (Ok resp2, s4, o4) ∧
    refreshes s4 = refreshes oauth1 ++
      [fresh_refresh 10 (toy_draw "a") (ac_userId row) "oc_1" (ac_scopes row) (ac_resource row);
       fresh_refresh 11 (toy_draw "b") (ac_userId row) "oc_1" (ac_scopes row) (ac_resource row)].
Proof.
  eexists.
  apply (interleaved_exchanges_both_succeed None "rnd" 10 11 (toy_draw "a") (toy_draw "b")
    toy_exchange toy_exchange (toy_client "k1" "oc_1" "public" None [])
    (toy_client "k1" "oc_1" "public" None []) _ _ oauth1 [] [] oauth1 oauth1);
    vm_compute; reflexivity.
Defined.

Lemma clientCredentials_confined_witness :
  let run := clientCredentials None "rnd" 10 (toy_draw "a") (Some "oc_2") (Some "ocs_s")
    (Some " agents:read ") None oauth0 in
  ∃ c (scopes : list Permission), presents c (Some "oc_2") (Some "ocs_s") oauth0 ∧ oc_type c = "machine" ∧
    (∀ x, x ∈ scopes → x ∈ MACHINE_CLIENT_SCOPES ∧ x ∈ oc_allowedScopes c) ∧
    refreshes run.1.2 = refreshes oauth0.
Proof.
  set (run := clientCredentials _ _ _ _ _ _ _ _ _). cbv zeta.
  assert (H : run = (run.1.1, run.1.2, run.2)) by (vm_compute; reflexivity).
  destruct run.1.1 as [[resp name]|] eqn:Hr; [|vm_compute in Hr; discriminate Hr].
  destruct (clientCredentials_confined None "rnd" 10 (toy_draw "a") (Some "oc_2")
    (Some "ocs_s") (Some " agents:read ") None oauth0 run.1.2 resp name run.2 H)
    as (c & scopes & Hp & Hm & _ & _ & _ & _ & Hs & _ & Hrf).
  exists c, scopes. split; [exact Hp | split; [exact Hm | split; [exact Hs | exact Hrf]]].
Defined.

End witnesses.
