(* ===== verification/StreamMux.v ===== *)
(** * The tunnel multiplexer, [fabric/stream-mux.ts]

    One agent connection: stream ids, promises waiting for the agent to dial,
    live streams and their consumers.  Every event of the socket, of the timers
    and of the consumers is one step; callbacks, promise settlements and frames
    are the outputs, in order. *)

From S2P Require Import Prelude.
Local Open Scope Z_scope.

Abbreviation bytes := (list Z).

(** A [TunnelStream]: which callbacks are attached, and what it buffers. *)
Record tstream := TStream {
  ts_id : Z;
  closed : bool;
  hasOnClose : bool;
  closedBeforeHandler : bool;
  hasOnData : bool;
  preBuffer : list bytes
}.

(** Promises and stream objects are numbered in creation order: an object
    outlives its entry in the maps, and an id may be used again. *)
Record mux := Mux {
  streams : gmap Z nat;
  pending : gmap Z nat;
  timers : gmap nat Z;           (** live open timers: promise, its stream id *)
  objects : gmap nat tstream;
  nextId : Z;
  disposed : bool;
  promises : nat;                (** how many promises were made *)
  made : nat                     (** how many stream objects were made *)
}.

Definition new_mux : mux := Mux ∅ ∅ ∅ ∅ 1 false 0 0.

Inductive effect :=
| SendOpen (id : Z) (host : string) (port : Z)
| SendClose (id : Z)
| SendBinary (b : bytes)
| Resolve (p o : nat)
| Reject (p : nat) (e : string)
| OnData (o : nat) (b : bytes)
| OnClose (o : nat).

(** ** [TunnelStream] *)

Definition set_onData (o : nat) (attach : bool) (s : tstream) : tstream * list effect :=
  if attach then
    (TStream (ts_id s) (closed s) (hasOnClose s) (closedBeforeHandler s) true [],
     OnData o <$> preBuffer s)
  else (TStream (ts_id s) (closed s) (hasOnClose s) (closedBeforeHandler s) false (preBuffer s), []).

Definition set_onClose (o : nat) (attach : bool) (s : tstream) : tstream * list effect :=
  if attach && closedBeforeHandler s then
    (TStream (ts_id s) (closed s) true false (hasOnData s) (preBuffer s), [OnClose o])
  else (TStream (ts_id s) (closed s) attach (closedBeforeHandler s) (hasOnData s) (preBuffer s), []).

Definition peerClosed (o : nat) (s : tstream) : tstream * list effect :=
  if closed s then (s, [])
  else if hasOnClose s then
    (TStream (ts_id s) true true (closedBeforeHandler s) (hasOnData s) (preBuffer s), [OnClose o])
  else (TStream (ts_id s) true false true (hasOnData s) (preBuffer s), []).

Definition deliver (o : nat) (data : bytes) (s : tstream) : tstream * list effect :=
  if hasOnData s then (s, [OnData o data])
  else (TStream (ts_id s) (closed s) (hasOnClose s) (closedBeforeHandler s) false
          (preBuffer s ++ [data]), []).

(** ** [StreamMux] *)

Definition set_object (o : nat) (s : tstream) (m : mux) : mux :=
  Mux (streams m) (pending m) (timers m) (<[o := s]> (objects m)) (nextId m) (disposed m)
    (promises m) (made m).
Definition set_streams (x : gmap Z nat) (m : mux) : mux :=
  Mux x (pending m) (timers m) (objects m) (nextId m) (disposed m) (promises m) (made m).
Definition set_waiting (x : gmap Z nat) (y : gmap nat Z) (m : mux) : mux :=
  Mux (streams m) x y (objects m) (nextId m) (disposed m) (promises m) (made m).

(** Run a method of one stream object. *)
Definition on_object (o : nat) (f : tstream → tstream * list effect) (m : mux) :
    mux * list effect :=
  match objects m !! o with
  | Some s => let '(s', e) := f s in (set_object o s' m, e)
  | None => (m, [])
  end.

(** The 4-byte big-endian header. *)
Definition header (id : Z) : bytes :=
  [Z.shiftr id 24 mod 256; Z.shiftr id 16 mod 256; Z.shiftr id 8 mod 256; id mod 256].

(** [streamId >>> 0] *)
Definition uint32 (n : Z) : Z := n mod 2 ^ 32.

Definition sendData (id : Z) (payload : bytes) : list effect :=
  [SendBinary (header (uint32 id) ++ payload)].

Definition openStream (host : string) (port : Z) (m : mux) : mux * list effect :=
  let p := promises m in
  if disposed m then
    (Mux (streams m) (pending m) (timers m) (objects m) (nextId m) true (S p) (made m),
     [Reject p "agent disconnected"])
  else
    let id := nextId m in
    let next := if 4294967295 <? id + 1 then 1 else id + 1 in
    (Mux (streams m) (<[id := p]> (pending m)) (<[p := id]> (timers m)) (objects m) next false
       (S p) (made m),
     [SendOpen id host port]).

(** The timer of promise [p] fires. *)
Definition openTimeout (p : nat) (m : mux) : mux * list effect :=
  match timers m !! p with
  | Some id =>
      (set_waiting (delete id (pending m)) (delete p (timers m)) m,
       [SendClose id; Reject p "tunnel open timed out"])
  | None => (m, [])
  end.

(** [streams.get(id)] closed by the peer, after its entry is dropped. *)
Definition drop_stream (id : Z) (m : mux) : mux * list effect :=
  match streams m !! id with
  | Some o => on_object o (peerClosed o) (set_streams (delete id (streams m)) m)
  | None => (m, [])
  end.

(** The pending open with this id fails. *)
Definition fail_pending (id : Z) (p : nat) (e : string) (m : mux) : mux * list effect :=
  (set_waiting (delete id (pending m)) (delete p (timers m)) m, [Reject p e]).

Inductive frame := StreamOpened | StreamError (e : string) | CloseStream | OtherFrame.

(** [frame.error || 'tunnel open failed'] *)
Definition error_text (e : string) : string :=
  if bool_decide (e = "")%string then "tunnel open failed" else e.

Definition handleControl (f : frame) (streamId : option Z) (m : mux) : mux * list effect :=
  match streamId with
  | None => (m, [])
  | Some id =>
      match f with
      | StreamOpened =>
          match pending m !! id with
          | Some p =>
              let o := made m in
              (Mux (<[id := o]> (streams m)) (delete id (pending m)) (delete p (timers m))
                 (<[o := TStream id false false false false []]> (objects m)) (nextId m)
                 (disposed m) (promises m) (S o),
               [Resolve p o])
          | None => (m, [])
          end
      | StreamError e =>
          match pending m !! id with
          | Some p => fail_pending id p (error_text e) m
          | None => drop_stream id m
          end
      | CloseStream =>
          let '(m1, e1) := match pending m !! id with
            | Some p => fail_pending id p "tunnel closed by agent" m
            | None => (m, []) end in
          let '(m2, e2) := drop_stream id m1 in (m2, e1 ++ e2)
      | OtherFrame => (m, [])
      end
  end.

Definition handleData (id : Z) (payload : bytes) (m : mux) : mux * list effect :=
  match streams m !! id with
  | Some o => on_object o (deliver o payload) m
  | None => (m, [])
  end.

Definition closeLocal (id : Z) (notifyPeer : bool) (m : mux) : mux * list effect :=
  (set_streams (delete id (streams m)) m, if notifyPeer then [SendClose id] else []).

(** The consumer's [write] and [close]. *)
Definition write (o : nat) (data : bytes) (m : mux) : mux * list effect :=
  match objects m !! o with
  | Some s => (m, if closed s then [] else sendData (ts_id s) data)
  | None => (m, [])
  end.

Definition close (o : nat) (m : mux) : mux * list effect :=
  match objects m !! o with
  | Some s =>
      if closed s then (m, [])
      else closeLocal (ts_id s) true (set_object o
        (TStream (ts_id s) true (hasOnClose s) (closedBeforeHandler s) (hasOnData s) (preBuffer s)) m)
  | None => (m, [])
  end.

(** Apply a step to each of a list, in order. *)
Fixpoint each {A} (f : A → mux → mux * list effect) (xs : list A) (m : mux) :
    mux * list effect :=
  match xs with
  | [] => (m, [])
  | x :: xs' => let '(m1, e1) := f x m in let '(m2, e2) := each f xs' m1 in (m2, e1 ++ e2)
  end.

(** The timers of [clearTimeout] for every pending promise. *)
Definition clear_timers (ps : list nat) (t : gmap nat Z) : gmap nat Z := foldr delete t ps.

(** (A JavaScript [Map] is walked in insertion order; the order in which
    [dispose] rejects and closes is not modelled.) *)
Definition dispose (m : mux) : mux * list effect :=
  let ps := snd <$> map_to_list (pending m) in
  let m1 := Mux (streams m) ∅ (clear_timers ps (timers m)) (objects m) (nextId m) true
    (promises m) (made m) in
  let e1 := (λ p, Reject p "agent disconnected") <$> ps in
  let '(m2, e2) := each (λ o, on_object o (peerClosed o)) (snd <$> map_to_list (streams m)) m1 in
  (set_streams ∅ m2, e1 ++ e2).

(** Everything that can happen on a connection. *)
Inductive event :=
| Open (host : string) (port : Z)
| Timeout (p : nat)
| Control (f : frame) (streamId : option Z)
| Data (id : Z) (payload : bytes)
| AttachData (o : nat) (attach : bool)
| AttachClose (o : nat) (attach : bool)
| Write (o : nat) (data : bytes)
| Close (o : nat)
| Dispose.

Definition step (e : event) (m : mux) : mux * list effect :=
  match e with
  | Open host port => openStream host port m
  | Timeout p => openTimeout p m
  | Control f id => handleControl f id m
  | Data id b => handleData id b m
  | AttachData o a => on_object o (set_onData o a) m
  | AttachClose o a => on_object o (set_onClose o a) m
  | Write o b => write o b m
  | Close o => close o m
  | Dispose => dispose m
  end.

Fixpoint run (es : list event) (m : mux) : mux * list effect :=
  match es with
  | [] => (m, [])
  | e :: es' => let '(m1, o1) := step e m in let '(m2, o2) := run es' m1 in (m2, o1 ++ o2)
  end.

(** ** Lemmas *)

(** Ids name live objects, and a promise waits in [pending] only while its
    timer runs. *)
Record wf (m : mux) : Prop := {
  wf_pending id p : pending m !! id = Some p → timers m !! p = Some id;
  wf_timers p id : timers m !! p = Some id → (p < promises m)%nat;
  wf_streams id o : streams m !! id = Some o → is_Some (objects m !! o);
  wf_objects o s : objects m !! o = Some s → (o < made m)%nat
}.

Lemma wf_new : wf new_mux.
Proof. by split. Qed.

Lemma wf_set_object o s0 s m : objects m !! o = Some s0 → wf m → wf (set_object o s m).
Proof.
  intros Ho [H1 H2 H3 H4]. split; simpl; try done.
  - intros id o' Ho'. destruct (decide (o = o')) as [->|]; [by rewrite lookup_insert_eq; eauto|].
    rewrite lookup_insert_ne by done. by eapply H3.
  - intros o' s'. destruct (decide (o = o')) as [->|].
    + intros _. by eapply H4.
    + rewrite lookup_insert_ne by done. apply H4.
Qed.

Lemma wf_on_object o f m : wf m → wf (on_object o f m).1.
Proof.
  intros Hm. unfold on_object. destruct (objects m !! o) as [s|] eqn:Ho; [|done].
  destruct (f s) as [s' e]. by eapply wf_set_object.
Qed.

Lemma wf_delete_stream id m : wf m → wf (set_streams (delete id (streams m)) m).
Proof.
  intros [H1 H2 H3 H4]. split; simpl; try done.
  intros id' o [_ Ho]%lookup_delete_Some. by eapply H3.
Qed.

Lemma wf_drop_stream id m : wf m → wf (drop_stream id m).1.
Proof.
  intros Hm. unfold drop_stream. destruct (streams m !! id); [|done].
  by apply wf_on_object, wf_delete_stream.
Qed.

Lemma wf_unwait id p m :
  timers m !! p = Some id → wf m →
  wf (set_waiting (delete id (pending m)) (delete p (timers m)) m).
Proof.
  intros Hp [H1 H2 H3 H4]. split; simpl; try done.
  - intros id' p' [Hne Hp']%lookup_delete_Some. apply H1 in Hp'.
    rewrite lookup_delete_ne; [done|]. intros <-. congruence.
  - intros p' id' [_ Hp']%lookup_delete_Some. by eapply H2.
Qed.

Lemma wf_fail id p e m : pending m !! id = Some p → wf m → wf (fail_pending id p e m).1.
Proof. intros Hp Hm. apply wf_unwait; [by eapply wf_pending | done]. Qed.

Lemma wf_each {A} (f : A → mux → mux * list effect) xs m :
  (∀ x m, wf m → wf (f x m).1) → wf m → wf (each f xs m).1.
Proof.
  intros Hf. revert m. induction xs as [|x xs IH]; intros m Hm; [done|]. simpl.
  specialize (Hf x m Hm). destruct (f x m) as [m1 e1]. specialize (IH m1 Hf).
  by destruct (each f xs m1).
Qed.

Lemma lookup_clear_timers ps t p :
  clear_timers ps t !! p = if bool_decide (p ∈ ps) then None else t !! p.
Proof.
  unfold clear_timers. case_bool_decide.
  - by apply lookup_foldr_delete.
  - by apply lookup_foldr_delete_not_elem_of.
Qed.

Lemma wf_step e m : wf m → wf (step e m).1.
Proof.
  intros Hm. destruct e as [host port|p|f id|id b|o a|o a|o b|o|]; simpl.
  - unfold openStream. destruct Hm as [H1 H2 H3 H4]. destruct (disposed m).
    + split; simpl; try done. intros p id Hp. specialize (H2 _ _ Hp). lia.
    + split; simpl; try done.
      * intros id p Hp. apply lookup_insert_Some in Hp as [[<- <-]|[Hne Hp]].
        { by rewrite lookup_insert_eq. }
        apply H1 in Hp. rewrite lookup_insert_ne; [done|].
        intros <-. apply H2 in Hp. lia.
      * intros p id [[<- _]|[_ Hp]]%lookup_insert_Some; [lia|]. specialize (H2 _ _ Hp). lia.
  - unfold openTimeout. destruct (timers m !! p) eqn:Hp; [|done]. by apply wf_unwait.
  - unfold handleControl. destruct id as [id|]; [|done]. destruct f as [|e| |]; try done.
    + destruct (pending m !! id) as [p|] eqn:Hp; [|done].
      apply (wf_unwait id p) in Hm as Hm'; [|by apply Hm]. destruct Hm' as [H1 H2 H3 H4].
      split; simpl; try done.
      * intros id' o [[<- <-]|[Hne Ho]]%lookup_insert_Some; [by rewrite lookup_insert_eq; eauto|].
        destruct (H3 _ _ Ho) as [s Hs]. specialize (H4 _ _ Hs). simpl in *.
        rewrite lookup_insert_ne by lia. by eauto.
      * intros o s [[<- _]|[_ Ho]]%lookup_insert_Some; [lia|]. specialize (H4 _ _ Ho).
        simpl in *. lia.
    + destruct (pending m !! id) as [p|] eqn:Hp; [by apply wf_fail | by apply wf_drop_stream].
    + destruct (pending m !! id) as [p|] eqn:Hp.
      * pose proof (wf_fail id p "tunnel closed by agent" m Hp Hm) as Hf.
        destruct (fail_pending id p _ m) as [m1 e1].
        pose proof (wf_drop_stream id m1 Hf). by destruct (drop_stream id m1).
      * pose proof (wf_drop_stream id m Hm). by destruct (drop_stream id m).
  - unfold handleData. destruct (streams m !! id); [by apply wf_on_object | done].
  - by apply wf_on_object.
  - by apply wf_on_object.
  - unfold write. by destruct (objects m !! o).
  - unfold close. destruct (objects m !! o) as [s|] eqn:Ho; [|done].
    destruct (closed s); [done|]. simpl.
    apply (wf_delete_stream (ts_id s) (set_object o _ m)). by eapply wf_set_object.
  - unfold dispose.
    set (m1 := Mux _ _ _ _ _ _ _ _).
    assert (Hm1 : wf m1).
    { destruct Hm as [H1 H2 H3 H4]. split; simpl; try done.
      intros p id. rewrite lookup_clear_timers. case_bool_decide; [done|]. apply H2. }
    pose proof (wf_each (λ o, on_object o (peerClosed o)) (snd <$> map_to_list (streams m)) m1
      (λ o m, wf_on_object o (peerClosed o) m) Hm1) as Hw.
    destruct (each _ _ m1) as [m2 e2]. destruct Hw as [H1 H2 H3 H4]. by split.
Qed.

(** ** Promises *)

Definition settles (p : nat) (e : effect) : bool :=
  match e with Resolve q _ | Reject q _ => bool_decide (q = p) | _ => false end.

Definition waiting (m : mux) (p : nat) : bool := bool_decide (is_Some (timers m !! p)).

(** The settlements a promise has left: one if it waits, or is still to be made. *)
Definition left_to_settle (m : mux) (p : nat) : nat :=
  if waiting m p || (promises m <=? p)%nat then 1 else 0.

(** A step that does not touch promises. *)
Lemma on_object_promises o f m :
  (∀ s p, countWhere (settles p) (f s).2 = 0%nat) →
  timers (on_object o f m).1 = timers m ∧ promises (on_object o f m).1 = promises m ∧
  pending (on_object o f m).1 = pending m ∧
  ∀ p, countWhere (settles p) (on_object o f m).2 = 0%nat.
Proof.
  intros Hf. unfold on_object. destruct (objects m !! o) as [s|]; [|done].
  specialize (Hf s). destruct (f s) as [s' e]. simpl in *. done.
Qed.

Lemma peerClosed_settles o s p : countWhere (settles p) (peerClosed o s).2 = 0%nat.
Proof. unfold peerClosed. by repeat case_match. Qed.

Lemma drop_stream_promises id m :
  timers (drop_stream id m).1 = timers m ∧ promises (drop_stream id m).1 = promises m ∧
  ∀ p, countWhere (settles p) (drop_stream id m).2 = 0%nat.
Proof.
  unfold drop_stream. destruct (streams m !! id) as [o|]; [|done].
  destruct (on_object_promises o (peerClosed o) (set_streams (delete id (streams m)) m))
    as (H1 & H2 & _ & H3); [intros; apply peerClosed_settles|]. done.
Qed.

Lemma each_closed_promises os m :
  let r := each (λ o, on_object o (peerClosed o)) os m in
  timers r.1 = timers m ∧ promises r.1 = promises m ∧ ∀ p, countWhere (settles p) r.2 = 0%nat.
Proof.
  revert m. induction os as [|o os IH]; intros m; simpl; [done|].
  destruct (on_object_promises o (peerClosed o) m) as (H1 & H2 & _ & H3);
    [intros; apply peerClosed_settles|].
  destruct (on_object o (peerClosed o) m) as [m1 e1]. simpl in *.
  specialize (IH m1). destruct (each _ os m1) as [m2 e2]. simpl in *.
  destruct IH as (H4 & H5 & H6). split_and!; [congruence | congruence |].
  intros p. by rewrite countWhere_app, H3, H6.
Qed.

Lemma count_reject p ps msg :
  NoDup ps → countWhere (settles p) ((λ q, Reject q msg) <$> ps) =
    if bool_decide (p ∈ ps) then 1%nat else 0%nat.
Proof.
  induction ps as [|q ps IH]; intros Hnd; [done|].
  apply NoDup_cons in Hnd as [Hq Hnd]. rewrite fmap_cons, countWhere_cons, IH by done. simpl.
  destruct (decide (q = p)) as [->|Hne].
  - rewrite (bool_decide_eq_true_2 (p = p)), bool_decide_eq_false_2 by done.
    by rewrite bool_decide_eq_true_2 by by left.
  - rewrite (bool_decide_eq_false_2 (q = p)) by done. simpl.
    apply (f_equal (λ b : bool, if b then 1%nat else 0%nat)), bool_decide_ext.
    rewrite elem_of_cons. naive_solver.
Qed.

(** A promise leaving [timers] is settled at that step. *)
Lemma unwait_settles id p q m m' :
  wf m → timers m !! p = Some id → timers m' = delete p (timers m) →
  promises m' = promises m →
  left_to_settle m q = ((if bool_decide (p = q) then 1 else 0) + left_to_settle m' q)%nat.
Proof.
  intros Hm Hp Ht Hn. unfold left_to_settle, waiting. rewrite Ht, Hn.
  pose proof (wf_timers m Hm p id Hp) as Hlt.
  destruct (decide (p = q)) as [->|Hne].
  - rewrite lookup_delete_eq, Hp, (proj2 (Nat.leb_gt _ _) Hlt).
    rewrite (bool_decide_eq_true_2 (q = q)), (bool_decide_eq_true_2 (is_Some (Some id))) by eauto.
    by rewrite bool_decide_eq_false_2 by by intros [? ?].
  - rewrite lookup_delete_ne by done. by rewrite (bool_decide_eq_false_2 (p = q)).
Qed.

Lemma step_settles e m p :
  wf m →
  left_to_settle m p = (countWhere (settles p) (step e m).2 + left_to_settle (step e m).1 p)%nat.
Proof.
  intros Hm.
  assert (Hsame : ∀ m', timers m' = timers m → promises m' = promises m →
    left_to_settle m p = left_to_settle m' p).
  { intros m' H1 H2. unfold left_to_settle, waiting. by rewrite H1, H2. }
  assert (Hnil : countWhere (settles p) [] = 0%nat) by done.
  destruct e as [host port|q|f id|id b|o a|o a|o b|o|]; simpl.
  - unfold openStream, left_to_settle, waiting.
    destruct (disposed m); cbn [fst snd timers promises].
    + rewrite countWhere_cons, Hnil.
      cbn [settles]. destruct (timers m !! p) as [i|] eqn:Hp.
      * pose proof (wf_timers m Hm p i Hp). rewrite bool_decide_eq_true_2 by eauto.
        by rewrite bool_decide_eq_false_2 by lia.
      * rewrite bool_decide_eq_false_2 by by intros [? ?]. cbn [orb].
        case_bool_decide; destruct (Nat.leb_spec (promises m) p),
          (Nat.leb_spec (S (promises m)) p); lia.
    + destruct (decide (promises m = p)) as [<-|Hne].
      * rewrite lookup_insert_eq. rewrite (bool_decide_eq_true_2 (is_Some (Some _))) by eauto.
        by rewrite (proj2 (Nat.leb_le _ _)), orb_true_r by lia.
      * rewrite lookup_insert_ne by done. case_bool_decide; [done|]. cbn [orb].
        rewrite countWhere_cons, Hnil.
        cbn [settles].
        destruct (Nat.leb_spec (promises m) p), (Nat.leb_spec (S (promises m)) p); lia.
  - unfold openTimeout. destruct (timers m !! q) as [i|] eqn:Hq; [|done].
    rewrite (unwait_settles i q p m (set_waiting (delete i (pending m)) (delete q (timers m)) m))
      by done.
    simpl. rewrite !countWhere_cons. simpl. by case_bool_decide.
  - unfold handleControl. destruct id as [id|]; [|done]. destruct f as [|e| |]; try done.
    + destruct (pending m !! id) as [q|] eqn:Hq; [|done]. simpl.
      rewrite (unwait_settles id q p m (set_waiting (delete id (pending m)) (delete q (timers m)) m))
        by (done || by eapply wf_pending).
      rewrite countWhere_cons. simpl. by case_bool_decide.
    + destruct (pending m !! id) as [q|] eqn:Hq.
      * simpl. rewrite (unwait_settles id q p m (set_waiting (delete id (pending m)) (delete q (timers m)) m))
          by (done || by eapply wf_pending).
        rewrite countWhere_cons. simpl. by case_bool_decide.
      * destruct (drop_stream_promises id m) as (H1 & H2 & H3). rewrite H3. by apply Hsame.
    + destruct (pending m !! id) as [q|] eqn:Hq.
      * simpl.
        destruct (drop_stream_promises id (set_waiting (delete id (pending m))
          (delete q (timers m)) m)) as (H1 & H2 & H3).
        destruct (drop_stream id _) as [m2 e2]. simpl in *.
        rewrite countWhere_cons, H3.
        rewrite (unwait_settles id q p m m2) by (done || by eapply wf_pending).
        simpl. by case_bool_decide.
      * destruct (drop_stream_promises id m) as (H1 & H2 & H3).
        destruct (drop_stream id m) as [m2 e2]. simpl in *. rewrite H3. by apply Hsame.
  - unfold handleData. destruct (streams m !! id) as [o|]; [|done].
    destruct (on_object_promises o (deliver o b) m) as (H1 & H2 & _ & H3).
    + intros s q. unfold deliver. by case_match.
    + rewrite H3. by apply Hsame.
  - destruct (on_object_promises o (set_onData o a) m) as (H1 & H2 & _ & H3).
    + intros s q. unfold set_onData. destruct a; [|done]. simpl.
      apply countWhere_0. by intros r (x & -> & _)%list_elem_of_fmap.
    + rewrite H3. by apply Hsame.
  - destruct (on_object_promises o (set_onClose o a) m) as (H1 & H2 & _ & H3).
    + intros s q. unfold set_onClose. by case_match.
    + rewrite H3. by apply Hsame.
  - unfold write. destruct (objects m !! o); [|done]. by case_match.
  - unfold close. destruct (objects m !! o) as [s|]; [|done]. destruct (closed s); [done|].
    simpl. by apply Hsame.
  - unfold dispose. set (ps := snd <$> map_to_list (pending m)).
    set (m1 := Mux _ _ _ _ _ _ _ _).
    destruct (each_closed_promises (snd <$> map_to_list (streams m)) m1) as (H1 & H2 & H3).
    destruct (each _ _ m1) as [m2 e2]. simpl in *.
    assert (Hps : ∀ q, q ∈ ps ↔ ∃ id, pending m !! id = Some q).
    { intros q. unfold ps. rewrite list_elem_of_fmap. split.
      - intros ([id q'] & -> & Hin%elem_of_map_to_list). eauto.
      - intros [id Hid]. exists (id, q). split; [done|]. by apply elem_of_map_to_list. }
    assert (Hnd : NoDup ps).
    { apply NoDup_fmap_2_strong; [|apply NoDup_map_to_list].
      intros [i q] [j q'] Hi%elem_of_map_to_list Hj%elem_of_map_to_list. simpl. intros ->.
      apply (wf_pending m Hm) in Hi, Hj. congruence. }
    rewrite countWhere_app, count_reject, H3 by done.
    unfold left_to_settle, waiting. simpl. rewrite H1, H2. simpl. rewrite lookup_clear_timers.
    destruct (decide (p ∈ ps)) as [Hp|Hp].
    + rewrite (bool_decide_eq_true_2 (p ∈ ps)) by done.
      apply Hps in Hp as [id Hid]. apply (wf_pending m Hm) in Hid.
      pose proof (wf_timers m Hm p id Hid).
      rewrite (proj2 (Nat.leb_gt _ _)) by done.
      rewrite bool_decide_eq_true_2 by eauto. by rewrite bool_decide_eq_false_2 by by intros [? ?].
    + rewrite (bool_decide_eq_false_2 (p ∈ ps)) by done. done.
Qed.

(** C38: every [openStream] promise settles exactly once or is still waiting on
    its timer, under any interleaving of frames, timers, consumers and a
    disconnect: it is never settled twice, and one that waits settles at the
    latest when its timer fires. *)
Theorem promises_settle_once (es : list event) (p : nat) :
  let m := (run es new_mux).1 in
  (p < promises m)%nat →
  (countWhere (settles p) (run es new_mux).2 + (if waiting m p then 1 else 0) = 1)%nat ∧
  (waiting m p = true → countWhere (settles p) (step (Timeout p) m).2 = 1%nat).
Proof.
  assert (Hrun : ∀ m, wf m → let '(m', o) := run es m in
    wf m' ∧ left_to_settle m p = (countWhere (settles p) o + left_to_settle m' p)%nat).
  { induction es as [|e es IH]; intros m Hm; simpl; [done|].
    pose proof (wf_step e m Hm) as Hm1. pose proof (step_settles e m p Hm) as Hs.
    destruct (step e m) as [m1 o1]. specialize (IH m1 Hm1).
    destruct (run es m1) as [m2 o2]. destruct IH as [Hm2 IH]. split; [done|].
    simpl in Hs. rewrite countWhere_app. lia. }
  specialize (Hrun new_mux wf_new). destruct (run es new_mux) as [m o]. simpl.
  destruct Hrun as [Hm Hl]. intros Hp. split.
  - unfold left_to_settle in Hl at 2. rewrite (proj2 (Nat.leb_gt _ _)), orb_false_r in Hl by done.
    assert (left_to_settle new_mux p = 1%nat) by done. lia.
  - intros Hw. unfold waiting in Hw. apply bool_decide_eq_true in Hw as [id Hid].
    unfold openTimeout. rewrite Hid. cbn [snd]. rewrite !countWhere_cons.
    cbn [settles]. by rewrite bool_decide_eq_true_2.
Qed.

Lemma promises_settle_once_witness :
  let es := [Open "h" 22; Open "h" 23; Control StreamOpened (Some 1); Timeout 0; Dispose] in
  let m := (run es new_mux).1 in
  (countWhere (settles 1) (run es new_mux).2 + (if waiting m 1 then 1 else 0) = 1)%nat ∧
  (waiting m 1 = true → countWhere (settles 1) (step (Timeout 1) m).2 = 1%nat).
Proof.
  apply (promises_settle_once
    [Open "h" 22; Open "h" 23; Control StreamOpened (Some 1); Timeout 0; Dispose] 1).
  vm_compute. lia.
Defined.

(** ** Inbound bytes *)

Definition delivered (o : nat) (l : list effect) : list bytes :=
  omap (λ e, match e with OnData o' b => if bool_decide (o' = o) then Some b else None
             | _ => None end) l.

Definition buffer (m : mux) (o : nat) : list bytes := from_option preBuffer [] (objects m !! o).

(** The chunks an event brings for a stream object. *)
Definition routed (e : event) (m : mux) (o : nat) : list bytes :=
  match e with
  | Data id b => if bool_decide (streams m !! id = Some o) then [b] else []
  | _ => []
  end.

Fixpoint received (o : nat) (es : list event) (m : mux) : list bytes :=
  match es with
  | [] => []
  | e :: es' => routed e m o ++ received o es' (step e m).1
  end.

(** A consumer that is attached has nothing left in the buffer. *)
Definition flushed_stream (s : tstream) : Prop := hasOnData s = true → preBuffer s = [].
Definition flushed (m : mux) : Prop :=
  ∀ o s, objects m !! o = Some s → flushed_stream s.

Lemma delivered_app o l l' : delivered o (l ++ l') = delivered o l ++ delivered o l'.
Proof. apply omap_app. Qed.

(** A method that moves the chunks [inp] through one stream. *)
Definition moves (o : nat) (inp : list bytes) (f : tstream → tstream * list effect) : Prop :=
  ∀ s, flushed_stream s →
    flushed_stream (f s).1 ∧ delivered o (f s).2 ++ preBuffer (f s).1 = preBuffer s ++ inp ∧
    ∀ o', o' ≠ o → delivered o' (f s).2 = [].

Lemma moves_deliver o b : moves o [b] (deliver o b).
Proof.
  intros s Hs. unfold deliver. destruct (hasOnData s) eqn:Hd; simpl.
  - rewrite bool_decide_eq_true_2, (Hs Hd) by done. split_and!; [done | done |].
    intros o' Ho. by rewrite bool_decide_eq_false_2.
  - by split.
Qed.

Lemma moves_peerClosed o : moves o [] (peerClosed o).
Proof.
  intros s Hs. unfold peerClosed. rewrite app_nil_r. by repeat case_match.
Qed.

Lemma moves_onClose o a : moves o [] (set_onClose o a).
Proof. intros s Hs. unfold set_onClose. rewrite app_nil_r. by case_match. Qed.

Lemma delivered_fmap o o' l :
  delivered o' (OnData o <$> l) = if bool_decide (o = o') then l else [].
Proof.
  case_bool_decide as Ho; unfold delivered; (induction l as [|b l IH]; [done|]);
    cbn -[bool_decide].
  - rewrite bool_decide_eq_true_2 by done. f_equal. exact IH.
  - rewrite bool_decide_eq_false_2 by done. exact IH.
Qed.

Lemma moves_onData o a : moves o [] (set_onData o a).
Proof.
  intros s Hs. unfold set_onData. rewrite app_nil_r. destruct a; simpl; [|done].
  rewrite delivered_fmap, bool_decide_eq_true_2, app_nil_r by done. split_and!; [done | done |].
  intros o' Ho. by rewrite delivered_fmap, bool_decide_eq_false_2.
Qed.

Lemma on_object_moves o inp f m :
  moves o inp f → flushed m →
  flushed (on_object o f m).1 ∧
  ∀ o', delivered o' (on_object o f m).2 ++ buffer (on_object o f m).1 o' =
    buffer m o' ++ (if bool_decide (o' = o ∧ is_Some (objects m !! o)) then inp else []).
Proof.
  intros Hf Hm. unfold on_object. destruct (objects m !! o) as [s|] eqn:Ho.
  - destruct (Hf s (Hm o s Ho)) as (H1 & H2 & H3). destruct (f s) as [s' e]. simpl in *. split.
    + intros o' s0. simpl. intros [[<- <-]|[_ Hs0]]%lookup_insert_Some; [done | by eapply Hm].
    + intros o'. unfold buffer. simpl. destruct (decide (o' = o)) as [->|Hne].
      * rewrite lookup_insert_eq, Ho. by rewrite bool_decide_eq_true_2 by eauto.
      * rewrite lookup_insert_ne, H3, bool_decide_eq_false_2 by naive_solver.
        by rewrite app_nil_r.
  - split; [done|]. intros o'. simpl. rewrite bool_decide_eq_false_2, app_nil_r; [done|].
    by intros [_ [? ?]].
Qed.

(** Nothing in, nothing lost. *)
Definition neutral (r : mux * list effect) (m : mux) : Prop :=
  flushed r.1 ∧ ∀ o, delivered o r.2 ++ buffer r.1 o = buffer m o.

Lemma on_object_neutral o f m : moves o [] f → flushed m → neutral (on_object o f m) m.
Proof.
  intros Hf Hm. destruct (on_object_moves o [] f m Hf Hm) as [H1 H2]. split; [done|].
  intros o'. rewrite H2. case_match; by rewrite app_nil_r.
Qed.

Lemma same_neutral m m' : objects m' = objects m → flushed m → neutral (m', []) m.
Proof.
  intros Ho Hm. split; [intros o s; simpl; rewrite Ho; apply Hm|].
  intros o. unfold buffer. simpl. by rewrite Ho.
Qed.

Lemma drop_stream_neutral id m : flushed m → neutral (drop_stream id m) m.
Proof.
  intros Hm. unfold drop_stream. destruct (streams m !! id) as [o|]; [|by apply same_neutral].
  by apply (on_object_neutral o (peerClosed o) (set_streams _ m)); [apply moves_peerClosed|].
Qed.

Lemma each_closed_neutral os m :
  flushed m → neutral (each (λ o, on_object o (peerClosed o)) os m) m.
Proof.
  revert m. induction os as [|o os IH]; intros m Hm; simpl; [by apply same_neutral|].
  destruct (on_object_neutral o (peerClosed o) m (moves_peerClosed o) Hm) as [H1 H2].
  destruct (on_object o (peerClosed o) m) as [m1 e1]. simpl in *.
  destruct (IH m1 H1) as [H3 H4]. destruct (each _ os m1) as [m2 e2]. split; [done|].
  simpl in *. intros o'. by rewrite delivered_app, <-(assoc_L (++)), H4, H2.
Qed.

(** Effects that are not data. *)
Lemma neutral_effects m m' l r :
  neutral (m', r) m → (∀ o, delivered o l = []) → neutral (m', l ++ r) m.
Proof.
  intros [H1 H2] Hl. split; [done|]. intros o. cbn [fst snd]. rewrite delivered_app, Hl. apply H2.
Qed.

Lemma delivered_rejects o ps msg : delivered o ((λ q, Reject q msg) <$> ps) = [].
Proof. by induction ps. Qed.

Lemma step_data e m :
  wf m → flushed m →
  flushed (step e m).1 ∧
  ∀ o, delivered o (step e m).2 ++ buffer (step e m).1 o = buffer m o ++ routed e m o.
Proof.
  intros Hw Hm.
  assert (Hn : ∀ r, neutral r m → (∀ o, routed e m o = []) →
    flushed r.1 ∧ ∀ o, delivered o r.2 ++ buffer r.1 o = buffer m o ++ routed e m o).
  { intros r [H1 H2] He. split; [done|]. intros o. by rewrite H2, He, app_nil_r. }
  destruct e as [host port|q|f id|id b|o a|o a|o b|o|]; simpl step.
  - apply Hn; [|done]. unfold openStream. destruct (disposed m); split; done.
  - apply Hn; [|done]. unfold openTimeout. destruct (timers m !! q); split; done.
  - apply Hn; [|done]. unfold handleControl. destruct id as [id|]; [|by apply same_neutral].
    destruct f as [|e| |]; [| | |by apply same_neutral].
    + destruct (pending m !! id) as [p|]; [|by apply same_neutral]. split.
      * intros o s. simpl. intros [[<- <-]|[_ Ho]]%lookup_insert_Some; [done | by eapply Hm].
      * intros o. unfold buffer. simpl. destruct (decide (made m = o)) as [<-|Hne].
        -- rewrite lookup_insert_eq. destruct (objects m !! made m) as [s|] eqn:Ho; [|done].
           apply (wf_objects m Hw) in Ho. lia.
        -- by rewrite lookup_insert_ne.
    + destruct (pending m !! id) as [p|]; [by split | by apply drop_stream_neutral].
    + destruct (pending m !! id) as [p|].
      * simpl. pose proof (drop_stream_neutral id (set_waiting (delete id (pending m))
          (delete p (timers m)) m) Hm) as Hd.
        destruct (drop_stream id _) as [m2 e2].
        by apply (neutral_effects m m2 [Reject p "tunnel closed by agent"]).
      * pose proof (drop_stream_neutral id m Hm). by destruct (drop_stream id m).
  - unfold handleData, routed. destruct (streams m !! id) as [o|] eqn:Hs.
    + destruct (on_object_moves o [b] (deliver o b) m (moves_deliver o b) Hm) as [H1 H2].
      split; [done|]. intros o'. rewrite H2. f_equal.
      assert (Hex : is_Some (objects m !! o)) by by eapply wf_streams.
      destruct (decide (o' = o)) as [->|Hne].
      * by rewrite !bool_decide_eq_true_2.
      * by rewrite !bool_decide_eq_false_2 by naive_solver.
    + split; [done|]. intros o'. by rewrite bool_decide_eq_false_2, app_nil_r.
  - apply Hn; [|done]. apply on_object_neutral; [apply moves_onData | done].
  - apply Hn; [|done]. apply on_object_neutral; [apply moves_onClose | done].
  - apply Hn; [|done]. unfold write. destruct (objects m !! o) as [s|]; [|by apply same_neutral].
    destruct (closed s); split; done.
  - apply Hn; [|done]. unfold close. destruct (objects m !! o) as [s|] eqn:Ho; [|by apply same_neutral].
    destruct (closed s); [by apply same_neutral|]. split.
    + intros o' s'. simpl. intros [[<- <-]|[_ Ho']]%lookup_insert_Some; [|by eapply Hm].
      intros Hd. by apply (Hm o s Ho).
    + intros o'. unfold buffer. simpl. destruct (decide (o = o')) as [<-|Hne].
      * by rewrite lookup_insert_eq, Ho.
      * by rewrite lookup_insert_ne.
  - apply Hn; [|done]. unfold dispose. set (m1 := Mux _ _ _ _ _ _ _ _).
    destruct (each_closed_neutral (snd <$> map_to_list (streams m)) m1 Hm) as [H1 H2].
    destruct (each _ _ m1) as [m2 e2].
    apply (neutral_effects m (set_streams ∅ m2)); [by split|].
    intros o. apply delivered_rejects.
Qed.

(** no inbound byte is lost, duplicated or reordered: for every stream,
    what its consumer was handed, followed by what is buffered, is exactly what
    the agent sent for it, in order, whenever the consumer attached; and an
    attached consumer has been handed everything. *)
Theorem inbound_bytes_in_order (es : list event) (o : nat) :
  let '(m, l) := run es new_mux in
  delivered o l ++ buffer m o = received o es new_mux ∧
  (∀ s, objects m !! o = Some s → hasOnData s = true → delivered o l = received o es new_mux).
Proof.
  assert (Hrun : ∀ m, wf m → flushed m → let '(m', l) := run es m in
    flushed m' ∧ delivered o l ++ buffer m' o = buffer m o ++ received o es m).
  { induction es as [|e es IH]; intros m Hw Hm; simpl; [by rewrite app_nil_r|].
    pose proof (wf_step e m Hw) as Hw1. destruct (step_data e m Hw Hm) as [Hm1 Hs].
    specialize (Hs o). destruct (step e m) as [m1 o1]. specialize (IH m1 Hw1 Hm1).
    simpl in *. destruct (run es m1) as [m2 o2]. destruct IH as [Hm2 IH]. split; [done|].
    by rewrite delivered_app, <-(assoc_L (++)), IH, (assoc_L (++)), Hs, <-(assoc_L (++)). }
  specialize (Hrun new_mux wf_new). destruct (run es new_mux) as [m l].
  destruct Hrun as [Hm Heq]; [done|].
  change (buffer new_mux o) with (@nil bytes) in Heq. rewrite app_nil_l in Heq. split; [done|].
  intros s Hs Hd. rewrite <-Heq. unfold buffer. rewrite Hs. simpl.
  by rewrite (Hm o s Hs Hd), app_nil_r.
Qed.
