(* ===== verification/FabricApproval.v ===== *)
(** * Four-eyes approval of sessions, [fabric/fabric-approval.service.ts]

    Held requests, their timers and decisions.  [approve] awaits the mint of
    the session, so it is two steps with other requests and timers in between;
    the other handlers change state in one step. *)

From S2P Require Import Prelude JsText Rbac.
Local Open Scope Z_scope.

Definition APPROVAL_TTL_MS : Z := 5 * 60 * 1000.

Inductive approval_state := Pending | Approved | Denied | Expired | Failed.

#[export] Instance approval_state_eq_dec : EqDecision approval_state.
Proof. solve_decision. Defined.

Definition state_name (s : approval_state) : string :=
  match s with
  | Pending => "pending" | Approved => "approved" | Denied => "denied"
  | Expired => "expired" | Failed => "error"
  end.

Record meta := Meta {
  agentId : string;
  agentName : string;
  kind : string;
  target : string;
  user : SessionUser
}.

(** The timer of a record: to expire it, or to drop it. *)
Inductive timer := ExpireTimer | CleanupTimer.

Record approval := Approval {
  ap_meta : meta;
  createdAt : Z;
  expiresAt : Z;
  ap_state : approval_state;
  minting : bool;
  decidedBy : option string;
  ticket : option string;
  ap_error : option string;
  ap_timer : option timer;
  in_map : bool                 (** still registered under its id *)
}.

(** The records by id (a resolved closure outlives its registration), and the
    approvals whose mint is awaited. *)
Record state := State {
  records : gmap string approval;
  awaiting : list (string * SessionUser)
}.

(** A mint was started, or what [output] has. *)
Inductive effect :=
| Mint (id : string) (approver : SessionUser)
| Out (o : output).

Abbreviation call := (svc state effect http_error).

Definition set_record (id : string) (p : approval) (s : state) : state :=
  State (<[id := p]> (records s)) (awaiting s).

Definition with_state (st : approval_state) (p : approval) : approval :=
  Approval (ap_meta p) (createdAt p) (expiresAt p) st (minting p) (decidedBy p) (ticket p)
    (ap_error p) (ap_timer p) (in_map p).
Definition with_result (t e : option string) (p : approval) : approval :=
  Approval (ap_meta p) (createdAt p) (expiresAt p) (ap_state p) (minting p) (decidedBy p) t e
    (ap_timer p) (in_map p).
Definition with_decider (m : bool) (d : string) (p : approval) : approval :=
  Approval (ap_meta p) (createdAt p) (expiresAt p) (ap_state p) m (Some d) (ticket p)
    (ap_error p) (ap_timer p) (in_map p).

(** [scheduleCleanup]: whatever timer ran is replaced. *)
Definition scheduleCleanup (p : approval) : approval :=
  Approval (ap_meta p) (createdAt p) (expiresAt p) (ap_state p) (minting p) (decidedBy p)
    (ticket p) (ap_error p) (Some CleanupTimer) (in_map p).

Definition find (id : string) (s : state) : option approval :=
  p ← records s !! id; if in_map p then Some p else None.

Definition audit_line (u : SessionUser) (action agent : string) : effect :=
  Out (OAudit (Audit (Some (su_id u)) (Some (su_email u)) action (Some agent))).

(** [id] is a fresh UUID. *)
Definition request (id : string) (now : Z) (m : meta) : call string :=
  let p := Approval m now (now + APPROVAL_TTL_MS) Pending false None None None
    (Some ExpireTimer) true in
  modify (set_record id p) ;;
  tell (audit_line (user m) "fabric.approval.requested" (agentId m)) ;;
  tell (Out (OAlert (Alert "fabric.approval_requested"
    ("Approval needed: " +:+ toUpperCase (kind m) +:+ " via " +:+ agentName m)
    (su_email (user m) +:+ " requested a " +:+ toUpperCase (kind m) +:+ " session to " +:+
      target m +:+ " through " +:+ agentName m +:+ ".")
    (Some ("fabric-approval:" +:+ id)) None None))) ;;
  mret id.

(** The timer of record [id] fires. *)
Definition fire (id : string) (s : state) : state :=
  match records s !! id with
  | Some p =>
      match ap_timer p with
      | Some ExpireTimer =>
          set_record id (scheduleCleanup
            (if bool_decide (ap_state p = Pending)
             then with_result (ticket p) (Some "Approval request expired.") (with_state Expired p)
             else p)) s
      | Some CleanupTimer =>
          set_record id (Approval (ap_meta p) (createdAt p) (expiresAt p) (ap_state p)
            (minting p) (decidedBy p) (ticket p) (ap_error p) None false) s
      | None => s
      end
  | None => s
  end.

(** Pending requests, for the approver's list. *)
Definition listPending (s : state) : list (string * approval) :=
  filter (λ kp, in_map kp.2 = true ∧ ap_state kp.2 = Pending) (map_to_list (records s)).

Record poll := Poll {
  po_state : approval_state;
  po_ticket : option string;
  po_error : option string;
  po_decidedBy : option string
}.

Definition not_found : http_error := NotFound "Approval request not found or expired.".

Definition status (id : string) (u : SessionUser) : call poll :=
  s ← get;
  p ← or_throw (find id s) not_found;
  throw_if (negb (bool_decide (su_id (user (ap_meta p)) = su_id u)))
    (Forbidden "Not your request.") ;;
  mret (Poll (ap_state p)
    (if bool_decide (ap_state p = Approved) then ticket p else None) (ap_error p) (decidedBy p)).

(** [approve] up to [await p.mint()]. *)
Definition approve (id : string) (u : SessionUser) : call unit :=
  s ← get;
  p ← or_throw (find id s) not_found;
  throw_if (negb (bool_decide (ap_state p = Pending)))
    (Forbidden ("This request is already " +:+ state_name (ap_state p) +:+ ".")) ;;
  throw_if (minting p) (Forbidden "This request is already being approved.") ;;
  throw_if (bool_decide (su_id (user (ap_meta p)) = su_id u))
    (Forbidden "You cannot approve your own session request.") ;;
  modify (λ s, State (<[id := with_decider true (su_email u) p]> (records s))
    (awaiting s ++ [(id, u)])) ;;
  tell (Mint id u).

(** The rest of [approve], when the mint settles. *)
Definition minted (id : string) (u : SessionUser) (outcome : result string string) : call unit :=
  s ← get;
  p ← or_throw (records s !! id) not_found;
  let p' := scheduleCleanup match outcome with
    | Ok t => with_result (Some t) None (with_state Approved p)
    | Err e => with_result None (Some e) (with_state Failed p)
    end in
  put (State (<[id := p']> (records s))
    (filter (λ a, a.1 ≠ id) (awaiting s))) ;;
  tell (audit_line u
    (if is_ok outcome then "fabric.approval.approved" else "fabric.approval.mint_failed")
    (agentId (ap_meta p))).

Definition deny (id : string) (u : SessionUser) : call unit :=
  s ← get;
  p ← or_throw (find id s) not_found;
  throw_if (negb (bool_decide (ap_state p = Pending)))
    (Forbidden ("This request is already " +:+ state_name (ap_state p) +:+ ".")) ;;
  modify (set_record id (scheduleCleanup
    (with_result None (Some ("Denied by " +:+ su_email u +:+ "."))
      (with_decider (minting p) (su_email u) (with_state Denied p))))) ;;
  tell (audit_line u "fabric.approval.denied" (agentId (ap_meta p))).

(** ** The service as a transition system *)

Inductive event :=
| Request (id : string) (now : Z) (m : meta)
| Fire (id : string)
| Approve (id : string) (u : SessionUser)
| Minted (id : string) (outcome : result string string)
| Deny (id : string) (u : SessionUser).

(** A mint settles only while it is awaited; an id is drawn once. *)
Inductive step : state → event → state → list effect → Prop :=
| step_request s id now m :
    records s !! id = None →
    step s (Request id now m) (run_state (request id now m) s) (run_out (request id now m) s)
| step_fire s id : step s (Fire id) (fire id s) []
| step_approve s id u :
    step s (Approve id u) (run_state (approve id u) s) (run_out (approve id u) s)
| step_minted s id u outcome :
    (id, u) ∈ awaiting s →
    step s (Minted id outcome) (run_state (minted id u outcome) s)
      (run_out (minted id u outcome) s)
| step_deny s id u :
    step s (Deny id u) (run_state (deny id u) s) (run_out (deny id u) s).

Inductive steps : state → list event → state → list effect → Prop :=
| steps_nil s : steps s [] s []
| steps_snoc s es s1 o1 e s2 o2 :
    steps s es s1 o1 → step s1 e s2 o2 → steps s (es ++ [e]) s2 (o1 ++ o2).

Definition initial : state := State ∅ [].

(** ** Lemmas *)

Definition is_mint (id : string) (e : effect) : bool :=
  match e with Mint i _ => bool_decide (i = id) | Out _ => false end.

(** What holds of every record, given the effects so far. *)
Definition sound (s : state) (l : list effect) : Prop :=
  (∀ id, countWhere (is_mint id) l =
    from_option (λ p, if minting p then 1%nat else 0%nat) 0%nat (records s !! id)) ∧
  (∀ id p, records s !! id = Some p → minting p = true ∨ ticket p = None) ∧
  (∀ id u, Mint id u ∈ l → ∃ p, records s !! id = Some p ∧ su_id (user (ap_meta p)) ≠ su_id u) ∧
  (∀ id u, (id, u) ∈ awaiting s → Mint id u ∈ l).

(** A step that keeps who asked, the latch and the awaited mints, and adds no
    ticket to a record that was never minted. *)
Lemma sound_update s s' l o id p p' :
  records s !! id = Some p → records s' = <[id := p']> (records s) →
  ap_meta p' = ap_meta p → minting p' = minting p →
  (minting p = true ∨ ticket p' = None) →
  (∀ x, x ∈ awaiting s' → x ∈ awaiting s) →
  (∀ i u, Mint i u ∉ o) → sound s l → sound s' (l ++ o).
Proof.
  intros Hp Hr Hm Hmin Ht Haw Ho (H1 & H2 & H3 & H4).
  assert (Hcount : ∀ i, countWhere (is_mint i) o = 0%nat).
  { intros i. apply countWhere_0. intros [j u|x] Hin; [by apply Ho in Hin | done]. }
  split_and!.
  - intros i. rewrite countWhere_app, Hcount, Nat.add_0_r, H1, Hr.
    destruct (decide (id = i)) as [<-|]; [by rewrite lookup_insert_eq, Hp; simpl; rewrite Hmin|].
    by rewrite lookup_insert_ne.
  - intros i q. rewrite Hr. intros [[<- <-]|[_ Hq]]%lookup_insert_Some; [|by eapply H2].
    by rewrite Hmin.
  - intros i u [Hin|Hin]%elem_of_app; [|by apply Ho in Hin].
    destruct (H3 i u Hin) as (q & Hq & Hne). rewrite Hr.
    destruct (decide (id = i)) as [<-|].
    + rewrite lookup_insert_eq. exists p'. split; [done|]. by rewrite Hm; simplify_eq.
    + rewrite lookup_insert_ne by done. eauto.
  - intros i u Hin. apply elem_of_app. left. by apply H4, Haw.
Qed.

Lemma sound_same s l o : (∀ i u, Mint i u ∉ o) → sound s l → sound s (l ++ o).
Proof.
  intros Ho (H1 & H2 & H3 & H4). split_and!; [|done| |].
  - intros i. rewrite countWhere_app, H1, (countWhere_0 _ o); [lia|].
    intros [j u|x] Hin; [by apply Ho in Hin | done].
  - intros i u [Hin|Hin]%elem_of_app; [by apply H3 | by apply Ho in Hin].
  - intros i u Hin. apply elem_of_app. left. by apply H4.
Qed.

Lemma sound_nil s l : sound s l → sound s (l ++ []).
Proof. apply sound_same. by intros i u ?%elem_of_nil. Qed.

Lemma find_Some id s p : find id s = Some p → records s !! id = Some p ∧ in_map p = true.
Proof.
  unfold find. destruct (records s !! id) as [q|]; [|done]. simpl.
  destruct (in_map q) eqn:Hq; [|done]. by intros [= <-].
Qed.

Lemma sound_step s e s' l o : sound s l → step s e s' o → sound s' (l ++ o).
Proof.
  intros Hs Hstep. destruct Hstep as [s id now m Hfresh|s id|s id u|s id u outcome Haw|s id u].
  - unfold run_state, run_out, request. svc_run. unfold mret, svc_ret. simpl.
    destruct Hs as (H1 & H2 & H3 & H4). split_and!.
    + intros i. rewrite countWhere_app, H1. simpl.
      destruct (decide (id = i)) as [<-|]; [by rewrite lookup_insert_eq, Hfresh|].
      rewrite lookup_insert_ne by done. apply Nat.add_0_r.
    + intros i q. simpl. intros [[<- <-]|[_ Hq]]%lookup_insert_Some; [by right | by eapply H2].
    + intros i u. rewrite elem_of_app. simpl. intros [Hin|Hin].
      * destruct (H3 i u Hin) as (q & Hq & Hne). exists q.
        by rewrite lookup_insert_ne by congruence.
      * by apply elem_of_cons in Hin as [?|[?|[]%elem_of_nil]%elem_of_cons].
    + intros i u Hin. apply elem_of_app. left. by apply H4.
  - unfold fire. destruct (records s !! id) as [p|] eqn:Hp; [|by apply sound_nil].
    destruct (ap_timer p) as [[]|]; [| |by apply sound_nil].
    + eapply sound_update; [exact Hp | reflexivity | | | | done | by intros ? ? ?%elem_of_nil | done].
      * by case_bool_decide.
      * by case_bool_decide.
      * destruct Hs as (_ & H2 & _). specialize (H2 id p Hp). by case_bool_decide.
    + eapply sound_update; [exact Hp | reflexivity | done | done | | done | by intros ? ? ?%elem_of_nil | done].
      destruct Hs as (_ & H2 & _). by apply (H2 id p).
  - unfold run_state, run_out, approve. svc_run.
    destruct (find id s) as [p|] eqn:Hf; svc_run; [|by apply sound_nil].
    apply find_Some in Hf as [Hp Hin].
    case_bool_decide as Hst; svc_run; [|by apply sound_nil].
    destruct (minting p) eqn:Hm; svc_run; [by apply sound_nil|].
    case_bool_decide as Hself; svc_run; [by apply sound_nil|]. simpl.
    destruct Hs as (H1 & H2 & H3 & H4). split_and!.
    + intros i. rewrite countWhere_app, countWhere_cons, H1. simpl.
      change (countWhere (is_mint i) []) with 0%nat.
      destruct (decide (id = i)) as [<-|Hne].
      * rewrite lookup_insert_eq, Hp, bool_decide_eq_true_2 by done. simpl. by rewrite Hm.
      * rewrite lookup_insert_ne, bool_decide_eq_false_2 by done. lia.
    + intros i q. simpl. intros [[<- <-]|[_ Hq]]%lookup_insert_Some; [by left | by eapply H2].
    + intros i v. simpl. rewrite elem_of_app, list_elem_of_singleton.
      intros [Hmi|[= -> ->]].
      * destruct (H3 i v Hmi) as (q & Hq & Hne). destruct (decide (id = i)) as [<-|].
        -- rewrite lookup_insert_eq. eexists. split; [done|]. simpl. congruence.
        -- rewrite lookup_insert_ne by done. eauto.
      * rewrite lookup_insert_eq. by eexists.
    + intros i v. simpl. rewrite elem_of_app, list_elem_of_singleton.
      intros [Hin'|[= -> ->]]; apply elem_of_app; [left; by apply H4 | right; by left].
  - unfold run_state, run_out, minted. svc_run.
    destruct (records s !! id) as [p|] eqn:Hp; svc_run; [|by apply sound_nil].
    assert (Hmin : minting p = true).
    { destruct Hs as (H1 & _ & _ & H4). specialize (H4 id u Haw). specialize (H1 id).
      rewrite Hp in H1. simpl in H1. destruct (minting p); [done|].
      assert (Hin : Mint id u ∈ findMany (is_mint id) l).
      { apply elem_of_findMany. split; [|done]. simpl. by apply bool_decide_eq_true. }
      unfold countWhere in H1. apply length_zero_iff_nil in H1. rewrite H1 in Hin.
      by apply elem_of_nil in Hin. }
    eapply sound_update; [exact Hp | reflexivity | by destruct outcome | by destruct outcome
      | by left | | | done].
    + simpl. intros x [_ Hx]%list_elem_of_filter. done.
    + intros i v [?|[]%elem_of_nil]%elem_of_cons. done.
  - unfold run_state, run_out, deny. svc_run.
    destruct (find id s) as [p|] eqn:Hf; svc_run; [|by apply sound_nil].
    apply find_Some in Hf as [Hp Hin].
    case_bool_decide as Hst; svc_run; [|by apply sound_nil]. simpl.
    eapply sound_update; [exact Hp | reflexivity | done | done | by right | done | | done].
    intros i v [?|[]%elem_of_nil]%elem_of_cons. done.
Qed.

Lemma sound_steps es s l : steps initial es s l → sound s l.
Proof.
  remember initial as s0 eqn:Hs0. induction 1 as [s|s es s1 o1 e s2 o2 _ IH Hstep]; subst.
  - split_and!; [intros i; reflexivity | by intros i q Hq; destruct (lookup_empty_Some i q Hq)
      | by intros i u ?%elem_of_nil | by intros i u ?%elem_of_nil].
  - by eapply sound_step; [apply IH|].
Qed.

(** C6: four eyes hold under every interleaving of requests, decisions, timers
    and settling mints: a session is minted at most once per request, only by
    someone other than the requester; and a poll hands a ticket to nobody but
    the requester of an approved request, one that was minted. *)
Theorem four_eyes (es : list event) (s : state) (l : list effect) :
  steps initial es s l →
  (∀ id, (countWhere (is_mint id) l ≤ 1)%nat) ∧
  (∀ id u, Mint id u ∈ l → ∃ p, records s !! id = Some p ∧ su_id (user (ap_meta p)) ≠ su_id u) ∧
  (∀ id u po t, run_result (status id u) s = Ok po → po_ticket po = Some t →
     ∃ p, records s !! id = Some p ∧ su_id (user (ap_meta p)) = su_id u ∧
       ap_state p = Approved ∧ countWhere (is_mint id) l = 1%nat).
Proof.
  intros Hsteps. destruct (sound_steps _ _ _ Hsteps) as (H1 & H2 & H3 & _).
  split_and!; [|done|].
  - intros id. rewrite H1. destruct (records s !! id) as [p|]; simpl; [|lia].
    destruct (minting p); lia.
  - intros id u po t. unfold run_result, status. svc_run.
    destruct (find id s) as [p|] eqn:Hf; svc_run; [|done].
    apply find_Some in Hf as [Hp _].
    case_bool_decide as Hu; svc_run; [|done]. unfold mret, svc_ret. simpl. intros [= <-]. simpl.
    case_bool_decide as Ha; [|done]. intros Ht. exists p. split_and!; try done.
    rewrite H1, Hp. simpl. destruct (H2 id p Hp) as [->|]; [done | congruence].
Qed.

(** ** A denial that does not hold *)

Definition operator (i : string) : SessionUser :=
  {| su_id := i; su_email := i +:+ "@x"; su_displayName := i; su_roleSlug := "admin";
     su_roleName := "Admin"; su_permissions := ["fabric:approve"]; su_authProvider := "local" |}.

Definition sample_meta : meta := Meta "agent" "Agent" "vnc" "10.0.0.5:5900" (operator "req").

Definition denied_history : list event :=
  [Request "r1" 0 sample_meta; Approve "r1" (operator "a"); Deny "r1" (operator "b");
   Minted "r1" (Ok "ticket")].

(** a denial while an approval's mint is in flight is accepted, reported
    as denied, and then overwritten: the request ends approved, with a ticket
    its requester can read. *)
Theorem denial_during_mint_is_lost :
  ∃ s l, steps initial denied_history s l ∧
    OAudit (Audit (Some "b") (Some "b@x") "fabric.approval.denied" (Some "agent")) ∈
      omap (λ e, match e with Out o => Some o | Mint _ _ => None end) l ∧
    run_result (status "r1" (operator "req")) s =
      Ok (Poll Approved (Some "ticket") None (Some "b@x")).
Proof.
  set (s1 := run_state (request "r1" 0 sample_meta) initial).
  set (s2 := run_state (approve "r1" (operator "a")) s1).
  set (s3 := run_state (deny "r1" (operator "b")) s2).
  exists (run_state (minted "r1" (operator "a") (Ok "ticket")) s3). eexists.
  split_and!.
  - unfold denied_history.
    apply (steps_snoc _ [Request "r1" 0 sample_meta; Approve "r1" (operator "a");
      Deny "r1" (operator "b")] s3); [|apply step_minted; vm_compute; left].
    apply (steps_snoc _ [Request "r1" 0 sample_meta; Approve "r1" (operator "a")] s2);
      [|apply step_deny].
    apply (steps_snoc _ [Request "r1" 0 sample_meta] s1); [|apply step_approve].
    apply (steps_snoc _ [] initial); [constructor | by apply step_request].
  - vm_compute. right. right. left.
  - vm_compute. reflexivity.
Qed.

Lemma four_eyes_witness :
  ∃ s l, steps initial [Request "r1" 0 sample_meta; Approve "r1" (operator "a")] s l ∧
    countWhere (is_mint "r1") l = 1%nat ∧ (∀ id, (countWhere (is_mint id) l ≤ 1)%nat).
Proof.
  set (s1 := run_state (request "r1" 0 sample_meta) initial).
  set (s2 := run_state (approve "r1" (operator "a")) s1).
  assert (H : steps initial [Request "r1" 0 sample_meta; Approve "r1" (operator "a")] s2
    (([] ++ run_out (request "r1" 0 sample_meta) initial) ++ run_out (approve "r1" (operator "a")) s1)).
  { apply (steps_snoc _ [Request "r1" 0 sample_meta] s1); [|apply step_approve].
    apply (steps_snoc _ [] initial); [constructor | by apply step_request]. }
  exists s2. eexists. split; [exact H|]. split; [vm_compute; reflexivity|].
  exact (proj1 (four_eyes _ _ _ H)).
Defined.
