(* ===== verification/Monitors.v ===== *)
(** * Uptime monitoring

    [monitors/monitor-scheduler.service.ts], the part of
    [monitors/monitors.service.ts] that changes state, and
    [monitors/monitor-retention.service.ts].

    The scheduler keeps the rows of its last load as shared objects: a check
    holds a reference to the row it was started for, which a reload replaces.
    So rows live in a heap, the cache is a list of addresses, and a check in
    progress names the address it works on.  A check is cut at its two awaits
    (the probe, the transaction), and other operations run in between. *)
From S2P Require Import Prelude JsText.
From stdpp Require Import gmap strings pretty options.

#[local] Open Scope Z_scope.
#[local] Set Default Proof Using "Type*".

(** ** Data *)

Inductive MonitorStatus := up | down | pending | paused.

#[export] Instance MonitorStatus_eq_dec : EqDecision MonitorStatus.
Proof. solve_decision. Defined.

Record Monitor := {
  m_id : string;
  m_name : string;
  m_type : string;
  config : json;
  m_enabled : bool;
  intervalSec : Z;
  retryIntervalSec : Z;
  timeoutSec : Z;
  retries : Z;
  resendEveryN : Z;
  upsideDown : bool;
  description : option string;
  tags : list string;
  m_status : MonitorStatus;
  lastChangeAt : option Z;
  lastCheckAt : option Z;
  lastLatencyMs : option Z;
  lastMessage : option string;
  certExpiresAt : option Z
}.

Record ProbeCert := Cert { validTo : string; daysLeft : Z; subject : option string }.

Record ProbeResult := Probed {
  pr_ok : bool;
  latencyMs : option Z;
  pr_message : string;
  pr_cert : option ProbeCert
}.

Record MonitorHeartbeat := Beat {
  b_monitorId : string;
  b_status : MonitorStatus;
  b_latencyMs : option Z;
  b_message : string;
  b_important : bool;
  b_at : Z
}.

(** The part of a check that is known once its probe has settled. *)
Record verdict := Verdict {
  v_prev : MonitorStatus;
  v_status : MonitorStatus;
  v_result : ProbeResult;
  v_message : string;
  v_cert : option Z;
  v_now : Z
}.

Inductive phase := Probing | Committing (v : verdict).

Record check := Check { ck_addr : nat; ck_id : string; ck_phase : phase }.

(** What the scheduler asks of the probe registry (the described target of a
    known type), and of the platform's dates. *)
Class Probes := describeTarget : string → option (json → string).
Class DateText := {
  parse_date : string → Z;
  toUTCString : string → string
}.

Record state := State {
  monitors : list Monitor;
  heartbeats : list MonitorHeartbeat;
  heap : list Monitor;
  cache : list nat;
  cacheAt : Z;
  dirty : bool;
  firstLoad : bool;
  nextDue : gmap string Z;
  inFlight : gset string;
  retriesLeft : gmap string Z;
  downCount : gmap string Z;
  certAlerted : gmap string string;
  checks : list check
}.

Abbreviation call := (svc state output http_error).

Definition CACHE_TTL_MS : Z := 60000.

(** Setters. *)
Definition with_tables (ms : list Monitor) (bs : list MonitorHeartbeat) (s : state) : state :=
  State ms bs (heap s) (cache s) (cacheAt s) (dirty s) (firstLoad s) (nextDue s) (inFlight s)
    (retriesLeft s) (downCount s) (certAlerted s) (checks s).
Definition with_cache (h : list Monitor) (c : list nat) (t : Z) (d : bool) (s : state) : state :=
  State (monitors s) (heartbeats s) h c t d (firstLoad s) (nextDue s) (inFlight s)
    (retriesLeft s) (downCount s) (certAlerted s) (checks s).
Definition with_heap (h : list Monitor) : state → state :=
  λ s, with_cache h (cache s) (cacheAt s) (dirty s) s.
Definition with_maps (due left dc : gmap string Z) (ca : gmap string string) (s : state) : state :=
  State (monitors s) (heartbeats s) (heap s) (cache s) (cacheAt s) (dirty s) (firstLoad s) due
    (inFlight s) left dc ca (checks s).
Definition with_firstLoad (b : bool) (s : state) : state :=
  State (monitors s) (heartbeats s) (heap s) (cache s) (cacheAt s) (dirty s) b (nextDue s)
    (inFlight s) (retriesLeft s) (downCount s) (certAlerted s) (checks s).
Definition with_checks (f : gset string) (cs : list check) (s : state) : state :=
  State (monitors s) (heartbeats s) (heap s) (cache s) (cacheAt s) (dirty s) (firstLoad s)
    (nextDue s) f (retriesLeft s) (downCount s) (certAlerted s) cs.
Definition set_due (id : string) (t : Z) (s : state) : state :=
  with_maps (<[id := t]> (nextDue s)) (retriesLeft s) (downCount s) (certAlerted s) s.
Definition set_retries (id : string) (n : Z) (s : state) : state :=
  with_maps (nextDue s) (<[id := n]> (retriesLeft s)) (downCount s) (certAlerted s) s.
Definition set_downCount (id : string) (n : option Z) (s : state) : state :=
  with_maps (nextDue s) (retriesLeft s) (partial_alter (λ _, n) id (downCount s))
    (certAlerted s) s.
Definition set_certAlerted (id v : string) (s : state) : state :=
  with_maps (nextDue s) (retriesLeft s) (downCount s) (<[id := v]> (certAlerted s)) s.

(** What a check writes to a monitor, row or object. *)
Definition checked (v : verdict) (m : Monitor) : Monitor :=
  {| m_id := m_id m; m_name := m_name m; m_type := m_type m; config := config m;
     m_enabled := m_enabled m; intervalSec := intervalSec m;
     retryIntervalSec := retryIntervalSec m; timeoutSec := timeoutSec m; retries := retries m;
     resendEveryN := resendEveryN m; upsideDown := upsideDown m;
     description := description m; tags := tags m; m_status := v_status v;
     lastChangeAt := if bool_decide (v_status v = v_prev v) then lastChangeAt m
                     else Some (v_now v);
     lastCheckAt := Some (v_now v); lastLatencyMs := latencyMs (v_result v);
     lastMessage := Some (v_message v); certExpiresAt := v_cert v |}.

Definition has_id (i : string) (m : Monitor) : bool := bool_decide (m_id m = i).

(** ** The scheduler *)

Module MonitorSchedulerService.
Section service.
Context `{Probes} `{DateText}.

Definition invalidate (id : option string) (s : state) : state :=
  let s := with_cache (heap s) (cache s) (cacheAt s) true s in
  match id with
  | Some i =>
      with_maps (<[i := 0]> (nextDue s)) (delete i (retriesLeft s)) (delete i (downCount s))
        (certAlerted s) s
  | None => s
  end.

(** Entries of monitors that are gone are dropped, by the keys of [nextDue]. *)
Definition forget (live : list string) (s : state) : state :=
  let gone {A} (m : gmap string A) : gmap string A :=
    filter (λ kv, kv.1 ∈ live ∨ nextDue s !! kv.1 = None) m in
  with_maps (gone (nextDue s)) (gone (retriesLeft s)) (gone (downCount s))
    (gone (certAlerted s)) s.

(** [refresh]: [loaded] is whether the query succeeds. *)
Definition refresh (now : Z) (loaded : bool) : call unit :=
  s ← get;
  if negb (dirty s) && (now - cacheAt s <? CACHE_TTL_MS) then mret tt
  else if loaded then
    modify (λ s, with_cache (heap s ++ monitors s)
      (seq (length (heap s)) (length (monitors s))) now false s) ;;
    modify (forget (m_id <$> monitors s))
  else tell (OLog Error "monitors" "Could not load monitors").

(** One row of the loop in [tick]: the due time is drawn at first sight. *)
Definition scan_row (now : Z) (jitter : string → Z) (a : nat) (acc : state * list nat) :
    state * list nat :=
  let '(s, due) := acc in
  match heap s !! a with
  | Some m =>
      if m_enabled m then
        let fresh := now + (if firstLoad s then jitter (m_id m) else 0) in
        let at_ := default fresh (nextDue s !! m_id m) in
        let s' := match nextDue s !! m_id m with
                  | None => set_due (m_id m) fresh s
                  | Some _ => s
                  end in
        (s', if (at_ <=? now) && bool_decide (m_id m ∉ inFlight s) then due ++ [a] else due)
      else (s, due)
  | None => (s, due)
  end.

Definition scan (now : Z) (jitter : string → Z) (s : state) : state * list nat :=
  foldl (λ acc a, scan_row now jitter a acc) (s, []) (cache s).

(** [check] up to the probe. *)
Definition start (a : nat) (s : state) : state :=
  match heap s !! a with
  | Some m => with_checks ({[m_id m]} ∪ inFlight s) (checks s ++ [Check a (m_id m) Probing]) s
  | None => s
  end.

(** [tick]: [jitter] is the random spread of the first load, in milliseconds. *)
Definition tick (now : Z) (jitter : string → Z) (loaded : bool) : call unit :=
  refresh now loaded ;;
  modify (λ s, let '(s, due) := scan now jitter s in
    foldl (λ s a, start a s) (with_firstLoad false s) due).

Inductive check_reply := NotRunning | Busy | Started.

(** [checkNow] up to the probe of the check it starts. *)
Definition checkNow (now : Z) (loaded : bool) (id : string) : call check_reply :=
  modify (λ s, with_cache (heap s) (cache s) (cacheAt s) true s) ;;
  refresh now loaded ;;
  s ← get;
  match findFirst (λ a, from_option (has_id id) false (heap s !! a)) (cache s) ≫=
        λ a, (a,.) <$> heap s !! a with
  | None => mret NotRunning
  | Some (a, m) =>
      if negb (m_enabled m) then mret NotRunning
      else if bool_decide (id ∈ inFlight s) then mret Busy
      else modify (start a) ;; mret Started
  end.

(** [duration] *)
Definition duration (ms : Z) : string :=
  let s := Z.max 0 (ms / 1000) in
  let d := s / 86400 in
  let h := (s mod 86400) / 3600 in
  let m := (s mod 3600) / 60 in
  if 0 <? d then num_to_string d +:+ "d " +:+ num_to_string h +:+ "h"
  else if 0 <? h then num_to_string h +:+ "h " +:+ num_to_string m +:+ "m"
  else if 0 <? m then num_to_string m +:+ "m"
  else num_to_string s +:+ "s".

Definition dispatch (k title body dedupe id : string) : call unit :=
  tell (OAlert (Alert k title body (Some dedupe) None (Some id))).

(** The status a result gives, and the retries left for the next failure. *)
Definition judge (m : Monitor) (left : option Z) (r : ProbeResult) :
    MonitorStatus * option Z :=
  let ok := if upsideDown m then negb (pr_ok r) else pr_ok r in
  if ok then (up, Some (retries m))
  else
    let left := default (retries m) left in
    if negb (bool_decide (m_status m = down)) && (0 <? left) then (pending, Some (left - 1))
    else (down, None).

Definition warnDays (m : Monitor) : Z :=
  default 0 (Number_json (Some (default (JNum 0) (nullish (json_field "certExpiryDays" (config m)))))).

Definition raise_cert (m : Monitor) (target : string) (r : ProbeResult) : call unit :=
  match pr_cert r with
  | Some c =>
      s ← get;
      when ((0 <? warnDays m) && (daysLeft c <=? warnDays m) &&
            negb (bool_decide (certAlerted s !! m_id m = Some (validTo c))))
        (modify (set_certAlerted (m_id m) (validTo c)) ;;
         dispatch "monitor.cert_expiring"
           ("Certificate " +:+ (if daysLeft c <? 0 then "expired" else "expiring") +:+ ": " +:+
             m_name m)
           (target +:+ nl +:+ "Certificate for " +:+ default target (subject c) +:+ " " +:+
             (if daysLeft c <? 0 then "expired " +:+ num_to_string (- daysLeft c) +:+ " day(s) ago"
              else "expires in " +:+ num_to_string (daysLeft c) +:+ " day(s)") +:+
             " (" +:+ toUTCString (validTo c) +:+ ").")
           ("monitor:" +:+ m_id m +:+ ":cert:" +:+ validTo c) (m_id m))
  | None => mret tt
  end.

Definition raiseAlerts (now : Z) (m : Monitor) (prev status : MonitorStatus) (message : string)
    (r : ProbeResult) : call unit :=
  let target := from_option (λ d, d match config m with JNull => JObj [] | c => c end) ""
    (describeTarget (m_type m)) in
  s ← get;
  (match status, prev with
   | down, down =>
       let n := default 1 (downCount s !! m_id m) + 1 in
       modify (set_downCount (m_id m) (Some n)) ;;
       when ((0 <? resendEveryN m) && (n mod resendEveryN m =? 0))
         (dispatch "monitor.down"
           ("Still down: " +:+ m_name m +:+
             from_option (λ t, " (down for " +:+ duration (now - t) +:+ ")") "" (lastChangeAt m))
           (target +:+ nl +:+ message)
           ("monitor:" +:+ m_id m +:+ ":down:" +:+ num_to_string n) (m_id m))
   | down, _ =>
       modify (set_downCount (m_id m) (Some 1)) ;;
       dispatch "monitor.down" ("Monitor down: " +:+ m_name m) (target +:+ nl +:+ message)
         ("monitor:" +:+ m_id m +:+ ":down") (m_id m)
   | up, down =>
       modify (set_downCount (m_id m) None) ;;
       dispatch "monitor.up" ("Monitor recovered: " +:+ m_name m)
         (target +:+ nl +:+ message +:+ nl +:+ "Back up" +:+
           from_option (λ t, " after " +:+ duration (now - t)) "" (lastChangeAt m) +:+ ".")
         ("monitor:" +:+ m_id m +:+ ":up") (m_id m)
   | _, _ => mret tt
   end) ;;
  raise_cert m target r.

(** Replace the check of monitor [id]; [finally { inFlight.delete(id) }]. *)
Definition set_phase (id : string) (p : phase) (s : state) : state :=
  with_checks (inFlight s)
    ((λ c, if bool_decide (ck_id c = id) then Check (ck_addr c) id p else c) <$> checks s) s.
Definition finish (id : string) (s : state) : state :=
  with_checks (inFlight s ∖ {[id]}) (deleteMany (λ c, bool_decide (ck_id c = id)) (checks s)) s.

Definition find_check (id : string) (s : state) : option (check * Monitor) :=
  c ← findFirst (λ c, bool_decide (ck_id c = id)) (checks s);
  m ← heap s !! ck_addr c;
  Some (c, m).

(** The probe of monitor [id] settles with [r] (a deadline or a throw is a
    failed result); the row is judged and the transaction is sent. *)
Definition settle (now : Z) (id : string) (r : ProbeResult) (s : state) : state :=
  match find_check id s with
  | Some (Check _ _ Probing, m) =>
      let r := match describeTarget (m_type m) with
               | Some _ => r
               | None => Probed false None ("Unknown probe type " +:+ quoted (m_type m)) None
               end in
      let '(status, kept) := judge m (retriesLeft s !! id) r in
      let v := Verdict (m_status m) status r
        (slice_to 500 (if upsideDown m && negb (pr_ok r)
                       then "Unreachable (expected): " +:+ pr_message r else pr_message r))
        (match pr_cert r with
         | Some c => Some (parse_date (validTo c))
         | None => if bool_decide (m_type m = "http") then certExpiresAt m else None
         end) now in
      set_phase id (Committing v)
        (match kept with Some n => set_retries id n s | None => s end)
  | _ => s
  end.

(** The transaction's writes, and what [check] does after it: alerts, then the
    object, then the next due time. *)
Definition store (now : Z) (id : string) (a : nat) (m : Monitor) (v : verdict) : call unit :=
  modify (λ s, with_tables (updateMany (has_id id) (checked v) (monitors s))
    (createRow (Beat id (v_status v) (latencyMs (v_result v)) (v_message v)
      (negb (bool_decide (v_status v = v_prev v))) (v_now v)) (heartbeats s)) s) ;;
  raiseAlerts now m (v_prev v) (v_status v) (v_message v) (v_result v) ;;
  modify (λ s, with_heap (alter (checked v) a (heap s)) s) ;;
  modify (set_due id (now + (if bool_decide (v_status v = pending)
    then retryIntervalSec m else intervalSec m) * 1000)).

(** The transaction of monitor [id] ends; it fails when the database does
    ([stored = false]) or the row is gone. *)
Definition commit (now : Z) (id : string) (stored : bool) : call unit :=
  s ← get;
  match find_check id s with
  | Some (Check a _ (Committing v), m) =>
      (if stored && some (has_id id) (monitors s) then store now id a m v
       else
         tell (OLog Error "monitors" ("Check failed for " +:+ quoted (m_name m))) ;;
         modify (set_due id (now + intervalSec m * 1000))) ;;
      modify (finish id)
  | _ => mret tt
  end.

End service.
End MonitorSchedulerService.

(** ** The monitor requests *)

Module MonitorsService.
Section service.
Context `{Probes} `{DateText}.

Definition MONITOR_MIN_INTERVAL_SEC : Z := 20.

Record MonitorInput := {
  in_name : option string;
  in_type : string;
  in_config : json;
  in_enabled : option bool;
  in_intervalSec : json;
  in_retryIntervalSec : json;
  in_timeoutSec : json;
  in_retries : json;
  in_resendEveryN : json;
  in_upsideDown : bool;
  in_description : option string;
  in_tags : option (list json)
}.

(** What the registry's probe makes of a form: the coerced config or the
    problem it finds. *)
Context (clean_config : string → json → result string json).

Definition clampInt (v : json) (lo hi dflt : Z) : Z :=
  match Number_json (Some v) with
  | Some n => Z.min hi (Z.max lo n)
  | None => dflt
  end.

(** [normalize], as the row data of monitor [id] with the given status. *)
Definition normalize (id : string) (i : MonitorInput) : result http_error Monitor :=
  match describeTarget (in_type i) with
  | None => Err (BadRequest ("Unknown monitor type " +:+ quoted (in_type i)))
  | Some _ =>
      let name := trim (default "" (in_name i)) in
      if bool_decide (name = "") then Err (BadRequest "Name is required.")
      else match clean_config (in_type i) (in_config i) with
           | Err problem => Err (BadRequest problem)
           | Ok c =>
               let enabled := default true (in_enabled i) in
               Ok {| m_id := id; m_name := name; m_type := in_type i; config := c;
                     m_enabled := enabled;
                     intervalSec := clampInt (in_intervalSec i) MONITOR_MIN_INTERVAL_SEC 86400 60;
                     retryIntervalSec :=
                       clampInt (in_retryIntervalSec i) MONITOR_MIN_INTERVAL_SEC 86400 60;
                     timeoutSec := clampInt (in_timeoutSec i) 1 300 10;
                     retries := clampInt (in_retries i) 0 10 1;
                     resendEveryN := clampInt (in_resendEveryN i) 0 1000 0;
                     upsideDown := in_upsideDown i;
                     description :=
                       let d := trim (default "" (in_description i)) in
                       if bool_decide (d = "") then None else Some d;
                     tags := take 20 (uniq (filter (λ t, t ≠ "")
                       ((λ t, trim (js_String t)) <$> default [] (in_tags i))));
                     m_status := if enabled then pending else paused;
                     lastChangeAt := None; lastCheckAt := None; lastLatencyMs := None;
                     lastMessage := None; certExpiresAt := None |}
           end
  end.

Definition find (id : string) : call Monitor :=
  s ← get;
  or_throw (findFirst (has_id id) (monitors s)) (NotFound "Monitor not found").

Definition set_monitors (f : list Monitor → list Monitor) (s : state) : state :=
  with_tables (f (monitors s)) (heartbeats s) s.

Definition create (id : string) (i : MonitorInput) : call unit :=
  row ← lift (normalize id i);
  modify (set_monitors (createRow row)) ;;
  modify (MonitorSchedulerService.invalidate (Some id)) ;;
  tell (OLog Info "monitors" ("Monitor created: " +:+ m_name row +:+ " (" +:+ m_type row +:+ ")")).

(** The columns an update leaves alone: the last-known state, and the status
    unless the monitor is switched on or off. *)
Definition merge (data old : Monitor) : Monitor :=
  {| m_id := m_id old; m_name := m_name data; m_type := m_type data; config := config data;
     m_enabled := m_enabled data; intervalSec := intervalSec data;
     retryIntervalSec := retryIntervalSec data; timeoutSec := timeoutSec data;
     retries := retries data; resendEveryN := resendEveryN data; upsideDown := upsideDown data;
     description := description data; tags := tags data;
     m_status := if Bool.eqb (m_enabled data) (m_enabled old) then m_status old
                 else m_status data;
     lastChangeAt := lastChangeAt old; lastCheckAt := lastCheckAt old;
     lastLatencyMs := lastLatencyMs old; lastMessage := lastMessage old;
     certExpiresAt := certExpiresAt old |}.

Definition update (id : string) (i : MonitorInput) : call unit :=
  find id ;;
  data ← lift (normalize id i);
  modify (set_monitors (updateMany (has_id id) (merge data))) ;;
  modify (MonitorSchedulerService.invalidate (Some id)) ;;
  tell (OLog Info "monitors" ("Monitor updated: " +:+ m_name data)).

Definition switch (now : Z) (enabled : bool) (m : Monitor) : Monitor :=
  {| m_id := m_id m; m_name := m_name m; m_type := m_type m; config := config m;
     m_enabled := enabled; intervalSec := intervalSec m;
     retryIntervalSec := retryIntervalSec m; timeoutSec := timeoutSec m; retries := retries m;
     resendEveryN := resendEveryN m; upsideDown := upsideDown m;
     description := description m; tags := tags m;
     m_status := if enabled then pending else paused;
     lastChangeAt := Some now; lastCheckAt := lastCheckAt m; lastLatencyMs := lastLatencyMs m;
     lastMessage := lastMessage m; certExpiresAt := certExpiresAt m |}.

Definition setEnabled (now : Z) (id : string) (enabled : bool) : call unit :=
  existing ← find id;
  when (negb (Bool.eqb (m_enabled existing) enabled))
    (modify (set_monitors (updateMany (has_id id) (switch now enabled))) ;;
     modify (MonitorSchedulerService.invalidate (Some id)) ;;
     tell (OLog Info "monitors" ("Monitor " +:+ (if enabled then "resumed" else "paused") +:+
       ": " +:+ m_name existing))).

(** Deleting a monitor deletes its heartbeats (the relation cascades). *)
Definition remove (id : string) : call unit :=
  existing ← find id;
  modify (λ s, with_tables (deleteMany (has_id id) (monitors s))
    (deleteMany (λ b, bool_decide (b_monitorId b = id)) (heartbeats s)) s) ;;
  modify (MonitorSchedulerService.invalidate None) ;;
  tell (OLog Info "monitors" ("Monitor deleted: " +:+ m_name existing)).

Definition checkNow (now : Z) (loaded : bool) (id : string) :
    call MonitorSchedulerService.check_reply :=
  find id ;;
  MonitorSchedulerService.checkNow now loaded id.

End service.
End MonitorsService.

(** ** Heartbeat retention *)

Module MonitorRetentionService.

Definition DEFAULT_RAW_DAYS : Z := 7.
Definition DEFAULT_ROLLUP_DAYS : Z := 365.
Definition HOUR : Z := 3600000.

Record MonitorRollup := Rollup {
  ro_monitorId : string;
  ro_bucket : Z;
  ro_total : Z;
  ro_up : Z;
  ro_down : Z;
  ro_avg : option Z;
  ro_min : option Z;
  ro_max : option Z
}.

Record tables := Tables { beats : list MonitorHeartbeat; rollups : list MonitorRollup }.

(** [date_trunc('hour', at)] *)
Definition hour_of (t : Z) : Z := t / HOUR * HOUR.

Definition of_status (st : MonitorStatus) (b : MonitorHeartbeat) : bool :=
  bool_decide (b_status b = st).

(** [avg(...)::int] of non-negative integers, rounding halves up. *)
Definition average (xs : list Z) : option Z :=
  match xs with
  | [] => None
  | _ => let n := Z.of_nat (length xs) in Some ((2 * foldr Z.add 0 xs + n) / (2 * n))
  end.
Definition extremum (f : Z → Z → Z) (xs : list Z) : option Z :=
  match xs with [] => None | x :: xs => Some (foldr f x xs) end.

(** The aggregate of one group of beats. *)
Definition aggregate (id : string) (bucket : Z) (group : list MonitorHeartbeat) : MonitorRollup :=
  let latencies := omap b_latencyMs (findMany (of_status up) group) in
  Rollup id bucket (Z.of_nat (length group)) (Z.of_nat (countWhere (of_status up) group))
    (Z.of_nat (countWhere (of_status down) group)) (average latencies)
    (extremum Z.min latencies) (extremum Z.max latencies).

Definition in_group (id : string) (bucket : Z) (b : MonitorHeartbeat) : bool :=
  bool_decide (b_monitorId b = id ∧ hour_of (b_at b) = bucket).

Definition has_key (k : string * Z) (r : MonitorRollup) : bool :=
  bool_decide ((ro_monitorId r, ro_bucket r) = k).

(** [INSERT … ON CONFLICT (monitorId, bucket) DO UPDATE]. *)
Definition upsert (r : MonitorRollup) (t : list MonitorRollup) : list MonitorRollup :=
  let k := (ro_monitorId r, ro_bucket r) in
  if some (has_key k) t then updateMany (has_key k) (λ _, r) t else createRow r t.

(** The beats the query reads, and the rows it groups them into. *)
Definition window (rawSince hourStart : Z) (bs : list MonitorHeartbeat) :
    list MonitorHeartbeat :=
  findMany (λ b, (rawSince <=? b_at b) && (b_at b <? hourStart)) bs.
Definition grouped (bs : list MonitorHeartbeat) : list MonitorRollup :=
  (λ k : string * Z, aggregate k.1 k.2 (findMany (in_group k.1 k.2) bs)) <$>
    uniq ((λ b, (b_monitorId b, hour_of (b_at b))) <$> bs).

Definition run (now rawDays rollupDays : Z) (t : tables) : tables :=
  let rawSince := now - rawDays * 86400000 in
  let hourStart := hour_of now in
  let rolled := foldl (λ acc r, upsert r acc) (rollups t)
    (grouped (window rawSince hourStart (beats t))) in
  Tables (deleteMany (λ b, b_at b <? rawSince) (beats t))
    (deleteMany (λ r, ro_bucket r <? now - rollupDays * 86400000) rolled).

End MonitorRetentionService.

(** ** Refinement of the alerting discipline

    The abstract monitor counts consecutive failures: up at 0, pending while
    the retries last, down after; it alerts when it goes down, at every
    [N]-th beat that follows, and when it recovers. *)

Definition mark : Type := string * option string.

Definition alert_mark (o : output) : option mark :=
  match o with
  | OAlert al => if bool_decide (al_key al = "monitor.down" ∨ al_key al = "monitor.up")
                 then Some (al_key al, al_dedupeKey al) else None
  | _ => None
  end.

Definition spec_status (R k : Z) : MonitorStatus :=
  if k =? 0 then up else if k <=? R then pending else down.
Definition spec_next (k : Z) (ok : bool) : Z := if ok then 0 else k + 1.
Definition spec_alerts (id : string) (R N k : Z) (ok : bool) : list mark :=
  let prefix := "monitor:" +:+ id in
  if ok then (if R <? k then [("monitor.up", Some (prefix +:+ ":up"))] else [])
  else if k =? R then [("monitor.down", Some (prefix +:+ ":down"))]
  else if (R <? k) && (0 <? N) && ((k + 1 - R) mod N =? 0)
    then [("monitor.down", Some (prefix +:+ ":down:" +:+ num_to_string (k + 1 - R)))]
  else [].

Fixpoint spec_run (id : string) (R N k : Z) (oks : list bool) : Z * list mark :=
  match oks with
  | [] => (k, [])
  | ok :: oks' =>
      let '(k', l) := spec_run id R N (spec_next k ok) oks' in
      (k', spec_alerts id R N k ok ++ l)
  end.

Section kuma.
Context `{Probes} `{DateText}.
Import MonitorSchedulerService.

Record check_round := Round { settle_at : Z; commit_at : Z; outcome : ProbeResult }.

(** One whole check of the row at [a], nothing in between. *)
Definition settled (a : nat) (id : string) (c : check_round) (s : state) : state :=
  settle (settle_at c) id (outcome c) (start a s).
Definition round_state (a : nat) (id : string) (c : check_round) (s : state) : state :=
  run_state (commit (commit_at c) id true) (settled a id c s).
Definition round_out (a : nat) (id : string) (c : check_round) (s : state) : list output :=
  run_out (commit (commit_at c) id true) (settled a id c s).

Fixpoint rounds (a : nat) (id : string) (cs : list check_round) (s : state) :
    state * list output :=
  match cs with
  | [] => (s, [])
  | c :: cs' =>
      let '(s', l) := rounds a id cs' (round_state a id c s) in (s', round_out a id c s ++ l)
  end.

Definition succeeds (inverted : bool) (r : ProbeResult) : bool :=
  if inverted then negb (pr_ok r) else pr_ok r.

Definition settings (m : Monitor) := (m_id m, m_type m, retries m, resendEveryN m, upsideDown m).

(** The service's memory of the monitor stands for [k] consecutive failures. *)
Definition counts (R k : Z) (m : Monitor) (s : state) : Prop :=
  (k = 0 ∧ m_status m ≠ down ∧ default R (retriesLeft s !! m_id m) = R) ∨
  (0 < k ≤ R ∧ m_status m = pending ∧ retriesLeft s !! m_id m = Some (R - k)) ∨
  (R < k ∧ m_status m = down ∧ downCount s !! m_id m = Some (k - R)).

Definition follows (a : nat) (m0 : Monitor) (k : Z) (s : state) : Prop :=
  some (has_id (m_id m0)) (monitors s) = true ∧
  (∀ c, c ∈ checks s → ck_id c ≠ m_id m0) ∧
  ∃ m, heap s !! a = Some m ∧ settings m = settings m0 ∧ counts (retries m0) k m s.

Lemma findFirst_check_end id c (cs : list check) :
  (∀ c, c ∈ cs → ck_id c ≠ id) → ck_id c = id →
  findFirst (λ c, bool_decide (ck_id c = id)) (cs ++ [c]) = Some c.
Proof.
  intros Hcs Hc. rewrite findFirst_app.
  rewrite (proj2 (findFirst_None _ _)); [|intros c' Hc'; apply bool_decide_eq_false_2; by apply Hcs].
  rewrite findFirst_cons. by rewrite bool_decide_eq_true_2.
Qed.

Lemma map_other_checks id (f : check → check) (cs : list check) :
  (∀ c, c ∈ cs → ck_id c ≠ id) →
  ((λ c, if bool_decide (ck_id c = id) then f c else c) <$> cs) = cs.
Proof.
  intros Hcs. rewrite <- (list_fmap_id cs) at 2. apply list_fmap_ext.
  intros i c Hc. rewrite bool_decide_eq_false_2; [done|]. by eapply Hcs, list_elem_of_lookup_2.
Qed.

Lemma settle_started s a m now r :
  heap s !! a = Some m → (∀ c, c ∈ checks s → ck_id c ≠ m_id m) →
  is_Some (describeTarget (m_type m)) →
  ∃ v, settle now (m_id m) r (start a s) =
      with_checks ({[m_id m]} ∪ inFlight s) (checks s ++ [Check a (m_id m) (Committing v)])
        (match (judge m (retriesLeft s !! m_id m) r).2 with
         | Some n => set_retries (m_id m) n s | None => s end) ∧
    v_prev v = m_status m ∧ v_result v = r ∧
    v_status v = (judge m (retriesLeft s !! m_id m) r).1.
Proof.
  intros Hm Hc [d Hd]. unfold settle, start. rewrite Hm. unfold find_check. simpl.
  rewrite findFirst_check_end by done. simpl. rewrite Hm. simpl. rewrite Hd.
  destruct (judge m _ r) as [status [n|]]; simpl; eexists;
    (split; [unfold set_phase; simpl; rewrite fmap_app,
       (map_other_checks _ (λ c, Check (ck_addr c) (m_id m) _)) by done; simpl;
       by rewrite bool_decide_eq_true_2 | done]).
Qed.

(** What the alerts of a beat leave in [downCount], and their marks. *)
Definition next_downs (m : Monitor) (prev status : MonitorStatus) (dc : gmap string Z) :
    gmap string Z :=
  match status, prev with
  | down, down => <[m_id m := default 1 (dc !! m_id m) + 1]> dc
  | down, _ => <[m_id m := 1]> dc
  | up, down => delete (m_id m) dc
  | _, _ => dc
  end.
Definition marks (m : Monitor) (prev status : MonitorStatus) (dc : gmap string Z) : list mark :=
  let prefix := "monitor:" +:+ m_id m in
  match status, prev with
  | down, down =>
      let n := default 1 (dc !! m_id m) + 1 in
      if (0 <? resendEveryN m) && (n mod resendEveryN m =? 0)
      then [("monitor.down", Some (prefix +:+ ":down:" +:+ num_to_string n))] else []
  | down, _ => [("monitor.down", Some (prefix +:+ ":down"))]
  | up, down => [("monitor.up", Some (prefix +:+ ":up"))]
  | _, _ => []
  end.

Lemma raise_cert_run m target r s :
  ∃ ca o, raise_cert m target r s =
    (Ok tt, with_maps (nextDue s) (retriesLeft s) (downCount s) ca s, o) ∧ omap alert_mark o = [].
Proof.
  unfold raise_cert. assert (Hs : s = with_maps (nextDue s) (retriesLeft s) (downCount s)
    (certAlerted s) s) by by destruct s.
  destruct (pr_cert r) as [c|]; svc_run; [|by exists (certAlerted s), []; rewrite <- Hs].
  destruct ((0 <? warnDays m) && _ && _); simpl; [|by exists (certAlerted s), []; rewrite <- Hs].
  svc_run. do 2 eexists. split; [reflexivity|]. done.
Qed.

Lemma raiseAlerts_run now m prev status message r s :
  ∃ ca o, raiseAlerts now m prev status message r s =
    (Ok tt, with_maps (nextDue s) (retriesLeft s) (next_downs m prev status (downCount s)) ca s, o) ∧
    omap alert_mark o = marks m prev status (downCount s).
Proof.
  unfold raiseAlerts. svc_run.
  set (target := from_option _ _ _).
  assert (Hfin : ∀ s1 o1 (mid : call unit),
    mid s = (Ok tt, s1, o1) → (∃ ca, s1 = with_maps (nextDue s) (retriesLeft s)
      (next_downs m prev status (downCount s)) ca s) →
    omap alert_mark o1 = marks m prev status (downCount s) →
    ∃ ca o, (mid ;; raise_cert m target r) s =
      (Ok tt, with_maps (nextDue s) (retriesLeft s) (next_downs m prev status (downCount s)) ca s, o) ∧
      omap alert_mark o = marks m prev status (downCount s)).
  { intros s1 o1 mid Hmid [ca ->] Ho. unfold mbind at 1, svc_bind. rewrite Hmid.
    destruct (raise_cert_run m target r (with_maps (nextDue s)
      (retriesLeft s) (next_downs m prev status (downCount s)) ca s)) as (ca' & o2 & -> & Ho2).
    do 2 eexists. split; [reflexivity|]. by rewrite omap_app, Ho, Ho2, app_nil_r. }
  assert (Hs : s = with_maps (nextDue s) (retriesLeft s) (downCount s) (certAlerted s) s)
    by by destruct s.
  destruct ((0 <? resendEveryN m) && ((default 1 (downCount s !! m_id m) + 1)
    `mod` resendEveryN m =? 0)) eqn:Hresend;
    (destruct status, prev; (eapply Hfin; [svc_run; rewrite ?Hresend; reflexivity| |]);
      try (simpl; exists (certAlerted s); first [done | exact Hs]);
      try done; by simpl; rewrite Hresend).
Qed.

Lemma store_run now a m v s :
  ∃ due ca o, store now (m_id m) a m v s =
    (Ok tt, with_maps due (retriesLeft s) (next_downs m (v_prev v) (v_status v) (downCount s)) ca
      (with_heap (alter (checked v) a (heap s))
        (with_tables (updateMany (has_id (m_id m)) (checked v) (monitors s))
          (createRow (Beat (m_id m) (v_status v) (latencyMs (v_result v)) (v_message v)
            (negb (bool_decide (v_status v = v_prev v))) (v_now v)) (heartbeats s)) s)), o) ∧
    omap alert_mark o = marks m (v_prev v) (v_status v) (downCount s).
Proof.
  unfold store. svc_run. unfold mbind at 1, svc_bind at 1.
  match goal with |- context [raiseAlerts ?n m ?p ?st ?msg ?r ?s2] =>
    destruct (raiseAlerts_run n m p st msg r s2) as (ca & o & -> & Ho) end.
  svc_run. do 3 eexists. split; [reflexivity|]. by rewrite app_nil_r.
Qed.

Lemma delete_check_end id c (cs : list check) :
  (∀ c, c ∈ cs → ck_id c ≠ id) → ck_id c = id →
  deleteMany (λ c, bool_decide (ck_id c = id)) (cs ++ [c]) = cs.
Proof.
  unfold deleteMany. intros Hcs Hc. induction cs as [|c' cs IH]; simpl app.
  - rewrite filter_cons_False; [done|]. by rewrite bool_decide_eq_true_2.
  - rewrite filter_cons_True by (apply bool_decide_eq_false_2, Hcs; left).
    f_equal. apply IH. intros x Hx. apply Hcs. by right.
Qed.

(** A check that settles and is stored: the state and the alerts it leaves. *)
Lemma round_run a s m c :
  heap s !! a = Some m → (∀ c, c ∈ checks s → ck_id c ≠ m_id m) →
  is_Some (describeTarget (m_type m)) → some (has_id (m_id m)) (monitors s) = true →
  let '(status, kept) := judge m (retriesLeft s !! m_id m) (outcome c) in
  let s' := round_state a (m_id m) c s in
  (∃ v, heap s' = alter (checked v) a (heap s) ∧ v_status v = status ∧
     monitors s' = updateMany (has_id (m_id m)) (checked v) (monitors s)) ∧
  checks s' = checks s ∧
  retriesLeft s' = match kept with Some n => <[m_id m := n]> (retriesLeft s)
                   | None => retriesLeft s end ∧
  downCount s' = next_downs m (m_status m) status (downCount s) ∧
  omap alert_mark (round_out a (m_id m) c s) = marks m (m_status m) status (downCount s).
Proof.
  intros Hm Hc Ht Hrow. unfold round_state, round_out, settled, run_state, run_out.
  destruct (settle_started s a m (settle_at c) (outcome c) Hm Hc Ht)
    as (v & -> & Hprev & Hres & Hst).
  destruct (judge m _ _) as [status kept]. simpl in *. unfold commit. svc_run.
  set (s1 := with_checks _ _ _).
  assert (Hs1 : heap s1 = heap s ∧ monitors s1 = monitors s ∧ downCount s1 = downCount s ∧
    retriesLeft s1 = match kept with Some n => <[m_id m := n]> (retriesLeft s)
                     | None => retriesLeft s end ∧
    checks s1 = checks s ++ [Check a (m_id m) (Committing v)]) by by destruct kept.
  clearbody s1. destruct Hs1 as (Hh & Hmo & Hd & Hl & Hch).
  unfold find_check. rewrite Hch, findFirst_check_end by done. simpl. rewrite Hh, Hm. simpl.
  rewrite Hmo, Hrow. cbn [andb]. unfold mbind, svc_bind.
  destruct (store_run (commit_at c) a m v s1) as (due & ca & o & -> & Ho). simpl.
  rewrite app_nil_r, Ho, Hh, Hmo, Hd, Hl, Hch, Hprev, Hst. split_and!; try done.
  - by exists v.
  - by apply delete_check_end.
Qed.

(** One whole check keeps the service in step with the abstract monitor. *)
Lemma follows_round a m0 k s c :
  0 ≤ retries m0 → is_Some (describeTarget (m_type m0)) → 0 ≤ k → follows a m0 k s →
  let ok := succeeds (upsideDown m0) (outcome c) in
  follows a m0 (spec_next k ok) (round_state a (m_id m0) c s) ∧
  omap alert_mark (round_out a (m_id m0) c s) =
    spec_alerts (m_id m0) (retries m0) (resendEveryN m0) k ok.
Proof.
  intros HR Ht Hk (Hrow & Hc & m & Hm & Hset & Hcounts).
  injection Hset as Hid Hty Hre Hres Hup. rewrite <- Hid in Hrow, Hc |- *. rewrite <- Hty in Ht.
  generalize (round_run a s m c Hm Hc Ht Hrow).
  destruct (judge m (retriesLeft s !! m_id m) (outcome c)) as [status kept] eqn:Hj.
  intros ((v & Hh & Hv & Hmo) & Hch & Hl & Hd & Ho). rewrite Ho, <- Hres, <- Hre, <- Hup.
  assert (Hbase : ∀ k', counts (retries m) k' (checked v m) (round_state a (m_id m) c s) →
    follows a m0 k' (round_state a (m_id m) c s)).
  { intros k' Hk'. unfold follows. rewrite <- Hid, <- Hre, Hmo, Hch, Hh, list_lookup_alter, Hm.
    split_and!; [|done|].
    - apply some_true in Hrow as (x & Hx & Hxi). apply some_true. exists (checked v x).
      split; [apply elem_of_updateMany; exists x; by rewrite Hxi | done].
    - exists (checked v m). rewrite decide_True by done. split_and!; [done| |done]. unfold settings. simpl. congruence. }
  rewrite <- Hre in Hcounts, HR.
  unfold judge in Hj. fold (succeeds (upsideDown m) (outcome c)) in Hj.
  unfold counts in Hbase. rewrite Hl, Hd in Hbase. simpl in Hbase. rewrite Hv in Hbase.
  intros ok. subst ok. unfold spec_next, spec_alerts.
  destruct (succeeds (upsideDown m) (outcome c)).
  - injection Hj as <- <-. split.
    { apply Hbase. left. split_and!; [done..|]. by rewrite lookup_insert_eq. }
    destruct Hcounts as [(-> & Hst & _)|[([_ Hle] & -> & _)|(Hlt & -> & _)]].
    + rewrite (proj2 (Z.ltb_ge _ _)) by lia. by destruct (m_status m).
    + by rewrite (proj2 (Z.ltb_ge _ _)) by lia.
    + by rewrite (proj2 (Z.ltb_lt _ _)).
  - destruct Hcounts as [(-> & Hst & Hleft)|[([Hk0 Hle] & Hst & Hleft)|(Hlt & Hst & Hdown)]].
    + rewrite Hleft, bool_decide_eq_false_2 in Hj by done. cbn [negb andb] in Hj.
      destruct (Z.ltb_spec 0 (retries m)); injection Hj as <- <-.
      * split; [apply Hbase; right; left; split_and!; [lia|lia|done|by rewrite lookup_insert_eq]|].
        rewrite (proj2 (Z.eqb_neq _ _)), (proj2 (Z.ltb_ge _ _)) by lia. by destruct (m_status m).
      * assert (retries m = 0) as HR0 by lia. rewrite HR0 in *. split.
        -- apply Hbase. right. right. split_and!; [lia|done|].
           destruct (m_status m); [|done| |]; simpl; by rewrite lookup_insert_eq.
        -- by destruct (m_status m).
    + rewrite Hst, Hleft, bool_decide_eq_false_2 in Hj by done. cbn [negb andb from_option] in Hj; unfold id in Hj.
      destruct (Z.ltb_spec 0 (retries m - k)); injection Hj as <- <-.
      * split.
        -- apply Hbase. right. left. split_and!; [lia|lia|done|].
           rewrite lookup_insert_eq. f_equal. lia.
        -- rewrite (proj2 (Z.eqb_neq _ _)), (proj2 (Z.ltb_ge _ _)) by lia. by rewrite Hst.
      * assert (retries m = k) as HR0 by lia. split.
        -- apply Hbase. right. right. split_and!; [lia|done|]. rewrite Hst. simpl.
           rewrite lookup_insert_eq. f_equal. lia.
        -- by rewrite HR0, Z.eqb_refl, Hst.
    + rewrite Hst, bool_decide_eq_true_2 in Hj by done. injection Hj as <- <-. split.
      * apply Hbase. right. right. split_and!; [lia|done|]. rewrite Hst. simpl.
        rewrite lookup_insert_eq, Hdown. simpl. f_equal. lia.
      * rewrite (proj2 (Z.eqb_neq _ _)), (proj2 (Z.ltb_lt _ _)), Hst by lia. simpl.
        rewrite Hdown. simpl. by replace (k - retries m + 1) with (k + 1 - retries m) by lia.
Qed.

End kuma.

(** ** The monitoring component as a transition system *)

Section system.
Context `{Probes} `{DateText}.
Import MonitorSchedulerService.

Definition initial (rows : list Monitor) : state :=
  State rows [] [] [] 0 true true ∅ ∅ ∅ ∅ ∅ [].

Definition row_id (s : state) (a : nat) : option string := m_id <$> heap s !! a.

(** Checks in progress, the in-flight set and the cache fit together. *)
Record orderly (s : state) : Prop := {
  one_each : NoDup (ck_id <$> checks s);
  flying : ∀ id, id ∈ inFlight s ↔ id ∈ ck_id <$> checks s;
  addressed : ∀ c, c ∈ checks s → row_id s (ck_addr c) = Some (ck_id c);
  keyed : NoDup (m_id <$> monitors s);
  cached : ∀ a, a ∈ cache s → is_Some (heap s !! a);
  cached_once : NoDup (row_id s <$> cache s)
}.

(** Changes to the maps, the flags and the tables alone. *)
Lemma orderly_same s s' :
  orderly s → checks s' = checks s → inFlight s' = inFlight s → cache s' = cache s →
  (∀ a, row_id s' a = row_id s a) → NoDup (m_id <$> monitors s') → orderly s'.
Proof.
  intros [K1 K2 K3 K4 K5 K6] Hc Hf Hca Hr Hk. split; rewrite ?Hc, ?Hf, ?Hca; try done.
  - intros c Hin. rewrite Hr. by apply K3.
  - intros a Ha. specialize (K5 a Ha). specialize (Hr a). unfold row_id in Hr.
    destruct K5 as [m Hm]. rewrite Hm in Hr. by destruct (heap s' !! a).
  - erewrite list_fmap_ext; [exact K6|]. intros. apply Hr.
Qed.

Lemma row_id_loaded (h ms : list Monitor) :
  (λ a, m_id <$> (h ++ ms) !! a) <$> seq (length h) (length ms) = Some <$> (m_id <$> ms).
Proof.
  apply list_eq. intros i. rewrite !list_lookup_fmap.
  destruct (decide (i < length ms)%nat) as [Hi|Hi].
  - rewrite lookup_seq_lt by done. simpl. rewrite lookup_app_r by lia.
    replace (length h + i - length h)%nat with i by lia.
    by destruct (lookup_lt_is_Some_2 ms i Hi) as [m ->].
  - rewrite lookup_seq_ge by lia. by rewrite lookup_ge_None_2 by lia.
Qed.

Lemma orderly_refresh now loaded s : orderly s → orderly (run_state (refresh now loaded) s).
Proof.
  intros Hs. unfold run_state, refresh. svc_run.
  case_match; [done|]. destruct loaded; [|done]. svc_run. unfold modify. simpl.
  destruct Hs as [K1 K2 K3 K4 K5 K6]. split; unfold row_id; simpl; try done.
  - intros c Hin. specialize (K3 c Hin). unfold row_id in K3.
    destruct (heap s !! ck_addr c) as [m|] eqn:Hm; [|done].
    by rewrite (lookup_app_l_Some _ _ _ _ Hm).
  - intros a Ha%elem_of_seq. apply lookup_lt_is_Some_2. rewrite length_app. lia.
  - rewrite row_id_loaded. by apply NoDup_fmap_2; [apply _|].
Qed.

(** What the scan leaves: due times for the rows seen, and the rows to check. *)
Definition scanned (now : Z) (s : state) (seen : list nat) (r : state * list nat) : Prop :=
  let '(s', due) := r in
  (∃ d, s' = with_maps d (retriesLeft s) (downCount s) (certAlerted s) s) ∧
  due `sublist_of` seen ∧
  (∀ a, a ∈ due → ∃ m, heap s !! a = Some m ∧ m_id m ∉ inFlight s) ∧
  (∀ a m t, a ∈ seen → heap s !! a = Some m → m_enabled m = true →
     nextDue s' !! m_id m = Some t → t ≤ now → m_id m ∉ inFlight s → a ∈ due) ∧
  (∀ a m, a ∈ seen → heap s !! a = Some m → m_enabled m = true →
     is_Some (nextDue s' !! m_id m)).

Lemma scan_row_scanned now jitter s seen r a :
  scanned now s seen r → scanned now s (seen ++ [a]) (scan_row now jitter a r).
Proof.
  destruct r as [s' due]. intros ([d ->] & Hsub & Hdue & Hall & Hset). unfold scan_row. simpl.
  destruct (heap s !! a) as [m|] eqn:Hm.
  2: { split_and!; [by eexists | by apply sublist_inserts_r | done | |].
    - intros b m t [Hb|Hb%list_elem_of_singleton]%elem_of_app; [by eapply Hall | congruence].
    - intros b m [Hb|Hb%list_elem_of_singleton]%elem_of_app; [by eapply Hset | congruence]. }
  destruct (m_enabled m) eqn:Hen.
  2: { split_and!; [by eexists | by apply sublist_inserts_r | done | |].
    - intros b m' t [Hb|Hb%list_elem_of_singleton]%elem_of_app; [by eapply Hall | congruence].
    - intros b m' [Hb|Hb%list_elem_of_singleton]%elem_of_app; [by eapply Hset | congruence]. }
  set (fresh := now + _). set (at_ := default fresh (d !! m_id m)).
  set (s1 := match d !! m_id m with Some _ => _ | None => _ end).
  assert (Hs1 : s1 = with_maps (<[m_id m := at_]> d) (retriesLeft s) (downCount s)
    (certAlerted s) s).
  { subst s1 at_. destruct (d !! m_id m) as [t|] eqn:Ht; [|done]. simpl. by rewrite insert_id. }
  rewrite Hs1. clear s1 Hs1. simpl.
  assert (Hkeep : ∀ i t, <[m_id m := at_]> d !! i = Some t → d !! i = Some t ∨ (d !! i = None ∧ i = m_id m)).
  { intros i t [[<- <-]|[_ ?]]%lookup_insert_Some; [|by left].
    subst at_. destruct (d !! m_id m) as [t|]; [by left | by right]. }
  split_and!.
  - by eexists.
  - destruct (_ && _); [by apply sublist_app | by apply sublist_inserts_r].
  - intros b. destruct (at_ <=? now) eqn:Hle; simpl; [|by apply Hdue].
    case_bool_decide; [|by apply Hdue].
    intros [Hb|Hb%list_elem_of_singleton]%elem_of_app; [by apply Hdue|]. subst b. eauto.
  - intros b m' t [Hb|Hb%list_elem_of_singleton]%elem_of_app Hm' Hen' Ht Hle Hfl.
    + assert (b ∈ due); [|destruct (_ && _); [by apply elem_of_app; left | done]].
      destruct (Hset b m' Hb Hm' Hen') as [t' Ht'].
      eapply (Hall b m' t'); try done. apply Hkeep in Ht as [Ht|[Ht _]]; simpl in Ht'; congruence.
    + subst b. rewrite Hm in Hm'. injection Hm' as <-. rewrite lookup_insert_eq in Ht.
      injection Ht as Ht. rewrite (proj2 (Z.leb_le _ _)) by lia.
      rewrite bool_decide_eq_true_2 by done. simpl. apply elem_of_app. right. by left.
  - intros b m' [Hb|Hb%list_elem_of_singleton]%elem_of_app Hm' Hen'.
    + apply lookup_insert_is_Some'. right. by eapply Hset.
    + subst b. rewrite Hm in Hm'. injection Hm' as <-. by rewrite lookup_insert_eq.
Qed.

Lemma scan_scanned now jitter s : scanned now s (cache s) (scan now jitter s).
Proof.
  unfold scan. assert (Hgen : ∀ rest seen r, scanned now s seen r →
    scanned now s (seen ++ rest) (foldl (λ acc a, scan_row now jitter a acc) r rest)).
  { induction rest as [|a rest IH]; intros seen r Hr; simpl; [by rewrite app_nil_r|].
    rewrite cons_middle, (assoc_L (++)). by apply IH, scan_row_scanned. }
  apply (Hgen (cache s) []). split_and!.
  - exists (nextDue s). by destruct s.
  - done.
  - by intros a ?%elem_of_nil.
  - by intros a m t ?%elem_of_nil.
  - by intros a m ?%elem_of_nil.
Qed.

(** Starting checks of distinct monitors that have none. *)
Lemma orderly_start due s :
  orderly s → NoDup (row_id s <$> due) →
  (∀ a, a ∈ due → ∃ m, heap s !! a = Some m ∧ m_id m ∉ inFlight s) →
  orderly (foldl (λ s a, start a s) s due) ∧
  (∀ a m, a ∈ due → heap s !! a = Some m →
     m_id m ∈ inFlight (foldl (λ s a, start a s) s due)).
Proof.
  revert s. induction due as [|a due IH]; intros s Hs Hnd Hdue; simpl; [by split; [|intros ???%elem_of_nil]|].
  apply NoDup_cons in Hnd as [Hna Hnd].
  destruct (Hdue a) as (m & Hm & Hfl); [by left|].
  assert (Hs1 : start a s = with_checks ({[m_id m]} ∪ inFlight s)
    (checks s ++ [Check a (m_id m) Probing]) s) by (unfold start; by rewrite Hm).
  destruct (IH (start a s)) as [Hord Hin].
  - rewrite Hs1. destruct Hs as [K1 K2 K3 K4 K5 K6]. split; try done; simpl.
    + rewrite fmap_app. apply NoDup_app. split_and!; [done| |by apply NoDup_singleton].
      intros i Hi ->%list_elem_of_singleton. by apply Hfl, K2.
    + intros i. rewrite fmap_app, elem_of_app, elem_of_union, elem_of_singleton, K2.
      simpl. rewrite list_elem_of_singleton. tauto.
    + intros c [Hc| ->%list_elem_of_singleton]%elem_of_app; [by apply K3|].
      unfold row_id. simpl. by rewrite Hm.
  - by rewrite Hs1.
  - rewrite Hs1. intros b Hb. destruct (Hdue b) as (m' & Hm' & Hfl'); [by right|].
    exists m'. split; [done|]. simpl. apply not_elem_of_union. split; [|done].
    intros Heq%elem_of_singleton. apply Hna. apply list_elem_of_fmap. exists b. split; [|done].
    unfold row_id. rewrite Hm, Hm'. simpl. by rewrite Heq.
  - split; [done|]. intros b m' [->|Hb]%elem_of_cons Hm'.
    + rewrite Hm in Hm'. injection Hm' as <-.
      assert (Hmono : ∀ due s i, i ∈ inFlight s → i ∈ inFlight (foldl (λ s a, start a s) s due)).
      { clear. induction due as [|a due IH]; intros s i Hi; simpl; [done|]. apply IH.
        unfold start. destruct (heap s !! a); [simpl; set_solver | done]. }
      apply Hmono. rewrite Hs1. simpl. set_solver.
    + apply (Hin b); [done|]. by rewrite Hs1.
Qed.

Lemma orderly_tick now jitter loaded s :
  orderly s →
  let s' := run_state (tick now jitter loaded) s in
  orderly s' ∧
  (∀ a m t, a ∈ cache s' → heap s' !! a = Some m → m_enabled m = true →
     nextDue s' !! m_id m = Some t → t ≤ now → m_id m ∈ inFlight s').
Proof.
  intros Hs. unfold tick, run_state.
  assert (Hok : ∃ o, refresh now loaded s = (Ok tt, run_state (refresh now loaded) s, o)).
  { unfold run_state, refresh. svc_run. case_match; [by eexists|].
    destruct loaded; [svc_run|]; by eexists. }
  destruct Hok as [o Hok]. unfold mbind, svc_bind. rewrite Hok.
  apply (orderly_refresh now loaded) in Hs. revert Hs.
  generalize (run_state (refresh now loaded) s). clear s Hok. intros s Hs. unfold modify.
  generalize (scan_scanned now jitter s). destruct (scan now jitter s) as [s1 due]. simpl.
  intros ([d ->] & Hsub & Hdue & Hall & _).
  set (s2 := with_firstLoad false _).
  assert (Hs2 : orderly s2) by (eapply orderly_same; [exact Hs| |..]; try done; apply Hs).
  destruct (orderly_start due s2) as [Hord Hin].
  - done.
  - apply (sublist_NoDup _ (row_id s <$> cache s)); [apply Hs | by apply fmap_sublist].
  - done.
  - split; [done|].
    assert (Hsame : ∀ due s, let s' := foldl (λ s a, start a s) s due in
      cache s' = cache s ∧ heap s' = heap s ∧ nextDue s' = nextDue s ∧
      ∀ i, i ∈ inFlight s → i ∈ inFlight s').
    { clear. induction due as [|a due IH]; intros s; simpl; [done|].
      destruct (IH (start a s)) as (-> & -> & -> & Hi). unfold start in *.
      destruct (heap s !! a); [simpl in *|done]. split_and!; try done. set_solver. }
    destruct (Hsame due s2) as (-> & -> & -> & Hmono).
    intros a m t Ha Hm Hen Ht Hle.
    destruct (decide (m_id m ∈ inFlight s)) as [Hf|Hf]; [by apply Hmono|].
    apply (Hin a m); [|done]. by eapply Hall.
Qed.
End system.

Section events.
Context `{Probes} `{DateText} (clean_config : string → json → result string json).
Import MonitorSchedulerService.

Inductive event :=
| Tick (now : Z) (jitter : string → Z) (loaded : bool)
| CheckNow (now : Z) (loaded : bool) (id : string)
| Settle (now : Z) (id : string) (r : ProbeResult)
| Commit (now : Z) (id : string) (stored : bool)
| Create (id : string) (i : MonitorsService.MonitorInput)
| Update (id : string) (i : MonitorsService.MonitorInput)
| SetEnabled (now : Z) (id : string) (enabled : bool)
| Remove (id : string).

Definition react (e : event) (s : state) : state :=
  match e with
  | Tick now jitter loaded => run_state (tick now jitter loaded) s
  | CheckNow now loaded id => run_state (MonitorsService.checkNow now loaded id) s
  | Settle now id r => settle now id r s
  | Commit now id stored => run_state (commit now id stored) s
  | Create id i => run_state (MonitorsService.create clean_config id i) s
  | Update id i => run_state (MonitorsService.update clean_config id i) s
  | SetEnabled now id b => run_state (MonitorsService.setEnabled now id b) s
  | Remove id => run_state (MonitorsService.remove id) s
  end.

(** A created row's id is new. *)
Inductive step : state → state → Prop :=
| step_create id i s :
    id ∉ m_id <$> monitors s → step s (react (Create id i) s)
| step_other e s : (∀ id i, e ≠ Create id i) → step s (react e s).


Lemma orderly_fields s s' :
  orderly s → checks s' = checks s → inFlight s' = inFlight s → cache s' = cache s →
  heap s' = heap s → monitors s' = monitors s → orderly s'.
Proof.
  intros Hs ? ? ? Hh Hm. eapply orderly_same; try done.
  - intros a. unfold row_id. by rewrite Hh.
  - rewrite Hm. apply Hs.
Qed.

Lemma orderly_settle now id r s : orderly s → orderly (settle now id r s).
Proof.
  intros Hs. unfold settle. destruct (find_check id s) as [[[a i []] m]|]; try done.
  destruct (judge m _ _) as [status kept].
  assert (Hs1 : orderly (match kept with Some n => set_retries id n s | None => s end))
    by (destruct kept; [by eapply orderly_fields|done]).
  revert Hs1. generalize (match kept with Some n => set_retries id n s | None => s end).
  intros s1 [K1 K2 K3 K4 K5 K6]. unfold set_phase.
  assert (Hids : ∀ v, ck_id <$> ((λ c, if bool_decide (ck_id c = id)
    then Check (ck_addr c) id v else c) <$> checks s1) = ck_id <$> checks s1).
  { intros v. rewrite <- list_fmap_compose. apply list_fmap_ext. intros ? c _. simpl.
    by case_bool_decide. }
  split; simpl; rewrite ?Hids; try done.
  intros c (c0 & -> & Hc0)%list_elem_of_fmap. specialize (K3 c0 Hc0).
  destruct (decide (ck_id c0 = id)) as [Hid|Hid];
    [rewrite (bool_decide_eq_true_2 (ck_id c0 = id)) by done; simpl; rewrite <- Hid; exact K3
    |rewrite (bool_decide_eq_false_2 (ck_id c0 = id)) by done; exact K3].
Qed.

Lemma orderly_finish id s : orderly s → orderly (finish id s).
Proof.
  intros [K1 K2 K3 K4 K5 K6]. unfold finish, deleteMany. split; simpl; try done.
  - eapply sublist_NoDup; [exact K1|]. by apply fmap_sublist, sublist_filter.
  - intros i. rewrite elem_of_difference, elem_of_singleton, K2, !list_elem_of_fmap.
    setoid_rewrite list_elem_of_filter. setoid_rewrite bool_decide_eq_false.
    split; [intros ((c & -> & Hc) & Hne); eauto | intros (c & -> & Hne & Hc); eauto].
  - intros c [_ Hc]%list_elem_of_filter. exact (K3 c Hc).
Qed.

Lemma orderly_commit now id stored s : orderly s → orderly (run_state (commit now id stored) s).
Proof.
  intros Hs. unfold run_state, commit. svc_run.
  destruct (find_check id s) as [[[a i [|v]] m]|] eqn:Hf; try done.
  destruct (stored && _).
  - assert (Hid : m_id m = id).
    { unfold find_check in Hf.
      destruct (findFirst _ (checks s)) as [c|] eqn:Hc; [|done]. simpl in Hf.
      apply findFirst_Some in Hc as [Hin Hc%bool_decide_eq_true].
      apply (addressed s Hs) in Hin. unfold row_id in Hin.
      destruct (heap s !! ck_addr c) as [m'|]; simplify_eq/=. congruence. }
    rewrite <- Hid. destruct (store_run now a m v s) as (due & ca & o & Hrun & _).
    unfold mbind, svc_bind. rewrite Hrun. simpl. apply orderly_finish.
    eapply orderly_same; [exact Hs|done..| |].
    + intros b. unfold row_id. simpl. destruct (decide (b = a)) as [->|].
      * rewrite list_lookup_alter, decide_True by done. by destruct (heap s !! a).
      * by rewrite list_lookup_alter_ne.
    + simpl. rewrite fmap_updateMany by done. apply Hs.
  - svc_run. simpl. apply orderly_finish. by eapply orderly_fields.
Qed.

Lemma orderly_start_one a m s :
  orderly s → heap s !! a = Some m → m_id m ∉ inFlight s → orderly (start a s).
Proof.
  intros Hs Hm Hfl. apply (orderly_start [a] s); [done| |].
  - simpl. apply NoDup_singleton.
  - intros b ->%list_elem_of_singleton. eauto.
Qed.

Lemma orderly_invalidate id s : orderly s → orderly (invalidate id s).
Proof. intros Hs. destruct id; by eapply orderly_fields. Qed.

Lemma orderly_tables ms bs s :
  orderly s → NoDup (m_id <$> ms) → orderly (with_tables ms bs s).
Proof. intros Hs Hn. by eapply orderly_same. Qed.

Lemma orderly_checkNow now loaded id s :
  orderly s → orderly (run_state (checkNow now loaded id) s).
Proof.
  intros Hs. unfold run_state, checkNow. svc_run.
  set (s0 := with_cache _ _ _ _ _).
  assert (Hs0 : orderly s0) by by eapply orderly_fields.
  apply (orderly_refresh now loaded) in Hs0. revert Hs0. generalize s0. clear s0. intros s0.
  unfold run_state, mbind at 1, svc_bind at 1.
  destruct (refresh now loaded s0) as [[[[]|e] s1] o]; simpl; [|done]. intros Hs1.
  svc_run. destruct (findFirst _ (cache s1)) as [a|] eqn:Ha; [|done]. simpl.
  destruct (heap s1 !! a) as [m|] eqn:Hm; [|done]. simpl.
  destruct (m_enabled m); simpl; [|done]. case_bool_decide as Hfl; simpl; [done|].
  apply findFirst_Some in Ha as [_ Ha]. rewrite Hm in Ha. simpl in Ha.
  apply bool_decide_eq_true in Ha. eapply orderly_start_one; [done|done|]. by rewrite Ha.
Qed.

Lemma orderly_step s s' : orderly s → step s s' → orderly s'.
Proof.
  intros Hs Hstep. destruct Hstep as [id i s Hfresh|e s Hne].
  - simpl. unfold run_state, MonitorsService.create. svc_run.
    destruct (MonitorsService.normalize clean_config id i) as [row|] eqn:Hrow; [|done]. svc_run.
    apply orderly_invalidate, orderly_tables; [done|]. unfold createRow. rewrite fmap_app.
    apply NoDup_app. split_and!; [apply Hs| |apply NoDup_singleton].
    intros j Hj ->%list_elem_of_singleton. apply Hfresh.
    assert (m_id row = id) as <-; [|done]. unfold MonitorsService.normalize in Hrow.
    by repeat (case_match; simplify_eq/=).
  - destruct e as [now j l|now l id|now id r|now id b|id i|id i|now id b|id]; simpl.
    + by apply orderly_tick.
    + unfold run_state, MonitorsService.checkNow, MonitorsService.find. svc_run.
      destruct (findFirst _ _); svc_run; [|done]. by apply orderly_checkNow.
    + by apply orderly_settle.
    + by apply orderly_commit.
    + by destruct (Hne id i).
    + unfold run_state, MonitorsService.update, MonitorsService.find. svc_run.
      destruct (findFirst _ _); svc_run; [|done].
      destruct (MonitorsService.normalize _ _ _); svc_run; [|done].
      apply orderly_invalidate, orderly_tables; [done|]. rewrite fmap_updateMany by done. apply Hs.
    + unfold run_state, MonitorsService.setEnabled, MonitorsService.find. svc_run.
      destruct (findFirst _ _); svc_run; [|done]. destruct (negb _); svc_run; [|done].
      apply orderly_invalidate, orderly_tables; [done|]. rewrite fmap_updateMany by done. apply Hs.
    + unfold run_state, MonitorsService.remove, MonitorsService.find. svc_run.
      destruct (findFirst _ _); svc_run; [|done].
      apply orderly_invalidate, orderly_tables; [done|].
      eapply sublist_NoDup; [exact (keyed s Hs)|]. by apply fmap_sublist, sublist_filter.
Qed.

(** however ticks, requests, settling probes and settling transactions
    interleave, a monitor never has two checks in progress, the in-flight set
    is exactly the monitors being checked, and a check works on a row of its
    own monitor; and a tick starts every check that is due. *)
Theorem one_check_per_monitor (rows : list Monitor) (s : state) :
  NoDup (m_id <$> rows) → rtc step (initial rows) s →
  NoDup (ck_id <$> checks s) ∧
  (∀ id, id ∈ inFlight s ↔ id ∈ ck_id <$> checks s) ∧
  (∀ c, c ∈ checks s → row_id s (ck_addr c) = Some (ck_id c)) ∧
  (∀ now jitter loaded a m t,
     let s' := react (Tick now jitter loaded) s in
     a ∈ cache s' → heap s' !! a = Some m → m_enabled m = true →
     nextDue s' !! m_id m = Some t → t ≤ now → m_id m ∈ inFlight s').
Proof.
  intros Hrows Hsteps. assert (Hs : orderly s).
  { assert (H0' : orderly (initial rows)).
    { split; simpl; try done; try apply NoDup_nil_2; [set_solver| |]; by intros ? ?%elem_of_nil. }
    revert H0'. clear Hrows. induction Hsteps as [|x y z Hstep _ IH]; [done|].
    intros Hx. apply IH. by eapply orderly_step. }
  split_and!; [apply Hs..|]. intros now jitter loaded. by apply orderly_tick.
Qed.
End events.

(** ** Two races, and the witnesses *)

Section samples.
Import MonitorSchedulerService.

#[local] Instance toy_probes : Probes := λ t, if bool_decide (t = "http") then Some (λ _, "x") else None.
#[local] Instance toy_dates : DateText := {| parse_date := λ _, 0; toUTCString := λ s, s |}.

Definition sample_monitor (r every : Z) : Monitor :=
  {| m_id := "m1"; m_name := "Site"; m_type := "http"; config := JObj []; m_enabled := true;
     intervalSec := 20; retryIntervalSec := 20; timeoutSec := 60; retries := r;
     resendEveryN := every; upsideDown := false; description := None; tags := [];
     m_status := pending; lastChangeAt := None; lastCheckAt := None; lastLatencyMs := None;
     lastMessage := None; certExpiresAt := None |}.

Definition refused_probe : ProbeResult := Probed false None "ECONNREFUSED" None.
Definition answered : ProbeResult := Probed true (Some 42) "200 OK" None.

Definition play (es : list event) (s : state) : state :=
  foldl (λ s e, react (λ _ c, Ok c) e s) s es.

Lemma play_steps es s :
  Forall (λ e, ∀ id i, e ≠ Create id i) es → rtc (step (λ _ c, Ok c)) s (play es s).
Proof.
  intros Hes. revert s. induction Hes as [|e es He _ IH]; intros s; [apply rtc_refl|].
  eapply rtc_l; [by apply step_other|]. apply IH.
Qed.

Definition no_spread (_ : string) : Z := 0.

(** A reload while a check is in progress: it works on a row the cache has
    dropped, so the next check starts from the status before it. *)
Definition reloaded : state :=
  play [Tick 0 no_spread true; Tick 60000 no_spread true; Settle 61000 "m1" refused_probe;
        Commit 61000 "m1" true; Tick 81000 no_spread true; Settle 82000 "m1" refused_probe]
    (initial [sample_monitor 0 0]).

(** a reload of the monitor list while a check is in flight makes the next
    check compare with a stale status: the monitor goes down twice in a row,
    with a second important heartbeat and a second down alert. *)
Theorem reload_during_check_repeats_the_alert :
  m_status <$> monitors reloaded = [down] ∧
  omap alert_mark (run_out (commit 82000 "m1" true) reloaded) =
    [("monitor.down", Some "monitor:m1:down")] ∧
  (λ b, (b_status b, b_important b)) <$>
    heartbeats (run_state (commit 82000 "m1" true) reloaded) = [(down, true); (down, true)].
Proof. vm_compute. done. Qed.

(** pausing a monitor while its check is in flight does not hold: the
    check then writes its result over the paused status, and as the monitor is
    disabled no later check puts it right. *)
Theorem pause_during_check_is_overwritten :
  let s := play [Tick 0 no_spread true; SetEnabled 10 "m1" false; Settle 20 "m1" answered;
                 Commit 20 "m1" true] (initial [sample_monitor 0 0]) in
  (λ m, (m_enabled m, m_status m)) <$> monitors s = [(false, up)] ∧
  ∀ now, checks (play [Tick now no_spread true] s) = [].
Proof. vm_compute. split; [done|]. intros now. done.
Qed.

Lemma one_check_per_monitor_witness :
  NoDup (ck_id <$> checks reloaded) ∧ ∀ id, id ∈ inFlight reloaded ↔ id ∈ ck_id <$> checks reloaded.
Proof.
  assert (Hsteps : rtc (step (λ _ c, Ok c)) (initial [sample_monitor 0 0]) reloaded).
  { apply play_steps. by repeat constructor. }
  destruct (one_check_per_monitor _ [sample_monitor 0 0] _ (NoDup_singleton _) Hsteps)
    as (H1 & H2 & _). by split.
Defined.

(** One retry, a reminder every second beat: five failures and a recovery. *)
Definition outage : list check_round :=
  (λ r, Round 1 2 r) <$> replicate 5 refused_probe ++ [answered].

End samples.

(** ** What a retention run leaves *)

Section retention.
Import MonitorRetentionService.
Implicit Types (r : MonitorRollup) (t : list MonitorRollup) (b : MonitorHeartbeat).

Definition key r : string * Z := (ro_monitorId r, ro_bucket r).

Lemma has_key_true k r : has_key k r = true ↔ key r = k.
Proof. unfold has_key. apply bool_decide_eq_true. Qed.

Lemma findFirst_upsert k r t :
  findFirst (has_key k) (upsert r t) =
    if bool_decide (key r = k) then Some r else findFirst (has_key k) t.
Proof.
  unfold upsert. destruct (some (has_key (key r)) t) eqn:Hs; unfold key in Hs; rewrite Hs.
  - case_bool_decide as Hk.
    + subst k. apply some_true in Hs as (r0 & Hr0 & Hk0). clear - Hr0 Hk0.
      induction t as [|x t IH]; [by apply elem_of_nil in Hr0|].
      unfold updateMany. simpl. rewrite findFirst_cons. fold (has_key (key r)).
      change (has_key (ro_monitorId r, ro_bucket r)) with (has_key (key r)) in *.
      destruct (has_key (key r) x) eqn:Hx.
      * by rewrite (proj2 (has_key_true _ _)).
      * rewrite Hx. apply elem_of_cons in Hr0 as [->|Hr0]; [congruence|]. by apply IH.
    + clear Hs. induction t as [|x t IH]; [done|]. unfold updateMany. simpl.
      rewrite !findFirst_cons. change (has_key (ro_monitorId r, ro_bucket r)) with (has_key (key r)) in *.
      destruct (has_key (key r) x) eqn:Hx.
      * apply has_key_true in Hx. assert (has_key k r = false) as ->.
        { apply not_true_iff_false. by rewrite has_key_true. }
        assert (has_key k x = false) as ->.
        { apply not_true_iff_false. rewrite has_key_true. congruence. }
        done.
      * by destruct (has_key k x).
  - unfold createRow. rewrite findFirst_app, findFirst_cons.
    change (findFirst (has_key k) []) with (@None MonitorRollup).
    case_bool_decide as Hk.
    + subst k. rewrite (proj2 (findFirst_None _ _)).
      * by rewrite (proj2 (has_key_true _ _)).
      * by apply some_false.
    + assert (has_key k r = false) as ->.
      { apply not_true_iff_false. by rewrite has_key_true. }
      by destruct (findFirst _ t).
Qed.

Lemma findFirst_upserts k rs t :
  NoDup (key <$> rs) →
  findFirst (has_key k) (foldl (λ acc r, upsert r acc) t rs) =
    match findFirst (has_key k) rs with Some r => Some r | None => findFirst (has_key k) t end.
Proof.
  revert t. induction rs as [|r rs IH]; intros t Hnd; simpl; [done|].
  apply NoDup_cons in Hnd as [Hn Hnd]. rewrite IH, findFirst_cons, findFirst_upsert by done.
  destruct (has_key k r) eqn:Hk.
  - apply has_key_true in Hk. rewrite bool_decide_eq_true_2 by done.
    rewrite (proj2 (findFirst_None _ _)); [done|].
    intros x Hx. apply not_true_iff_false. rewrite has_key_true. intros Hxk.
    apply Hn, list_elem_of_fmap. exists x. split; [congruence | done].
  - rewrite bool_decide_eq_false_2; [done|]. rewrite <- has_key_true. congruence.
Qed.

Lemma key_grouped bs : key <$> grouped bs = uniq ((λ b, (b_monitorId b, hour_of (b_at b))) <$> bs).
Proof.
  unfold grouped. rewrite <- list_fmap_compose. rewrite <- (list_fmap_id (uniq _)) at 2.
  apply list_fmap_ext. by intros i [id bucket] _.
Qed.

Lemma findFirst_grouped id bucket bs :
  findFirst (has_key (id, bucket)) (grouped bs) =
    let group := findMany (in_group id bucket) bs in
    if bool_decide (group = []) then None else Some (aggregate id bucket group).
Proof.
  simpl. case_bool_decide as Hg.
  - apply findFirst_None. intros r Hr. apply not_true_iff_false. rewrite has_key_true. intros Hk.
    apply (list_elem_of_fmap_2 key) in Hr. rewrite key_grouped, elem_of_uniq, Hk in Hr.
    apply list_elem_of_fmap in Hr as (b & Hb & Hin). injection Hb as -> ->.
    assert (Hin' : b ∈ findMany (in_group (b_monitorId b) (hour_of (b_at b))) bs)
      by (apply elem_of_findMany; split; [by apply bool_decide_eq_true | done]).
    rewrite Hg in Hin'. by apply elem_of_nil in Hin'.
  - destruct (findFirst _ (grouped bs)) as [r|] eqn:Hf.
    + apply findFirst_Some in Hf as [Hin Hk%has_key_true].
      apply list_elem_of_fmap in Hin as ([i k] & -> & _). unfold key in Hk. simpl in Hk.
      by injection Hk as -> ->.
    + exfalso. rewrite findFirst_None in Hf.
      destruct (findMany (in_group id bucket) bs) as [|b l] eqn:Hl; [done|].
      assert (Hb : b ∈ findMany (in_group id bucket) bs) by (rewrite Hl; by left).
      apply elem_of_findMany in Hb as [Hb%bool_decide_eq_true Hin].
      specialize (Hf (aggregate id bucket (findMany (in_group id bucket) bs))).
      rewrite (proj2 (has_key_true _ _)) in Hf; [|done]. discriminate Hf.
      apply list_elem_of_fmap. exists (id, bucket). split; [done|].
      apply elem_of_uniq, list_elem_of_fmap. exists b. by destruct Hb as [-> ->].
Qed.

Lemma findMany_findMany {A} (p q : A → bool) l :
  findMany p (findMany q l) = findMany (λ x, q x && p x) l.
Proof.
  unfold findMany. rewrite list_filter_filter. apply list_filter_iff. intros x.
  rewrite andb_true_iff. tauto.
Qed.

Lemma findFirst_deleteMany {A} (p d : A → bool) l :
  (∀ x, p x = true → d x = false) → findFirst p (deleteMany d l) = findFirst p l.
Proof.
  intros Hpd. unfold findFirst, deleteMany. rewrite list_filter_filter. f_equal.
  apply list_filter_iff. intros x. split; [tauto|]. auto.
Qed.

(** a retention run keeps exactly the heartbeats of the raw window, and
    the rollup of an hour becomes the aggregate of that hour's stored beats
    whenever the hour lies in the window and has ended (beats at the edge of
    the window count only from the edge on); every other rollup inside the
    rollup window is left as it was. *)
Theorem retention_run_exact (now rawDays rollupDays : Z) (t : tables) (id : string) (bucket : Z) :
  let rawSince := now - rawDays * 86400000 in
  let t' := run now rawDays rollupDays t in
  let inside b := (rawSince <=? b_at b) && (b_at b <? hour_of now) && in_group id bucket b in
  (∀ b, b ∈ beats t' ↔ b ∈ beats t ∧ rawSince ≤ b_at b) ∧
  (now - rollupDays * 86400000 ≤ bucket →
   findFirst (has_key (id, bucket)) (rollups t') =
     if some inside (beats t) then Some (aggregate id bucket (findMany inside (beats t)))
     else findFirst (has_key (id, bucket)) (rollups t)).
Proof.
  intros rawSince t' inside. split.
  - intros b. unfold t', run. simpl. rewrite elem_of_deleteMany, Z.ltb_ge. tauto.
  - intros Hb. unfold t', run. simpl. fold rawSince.
    rewrite findFirst_deleteMany, findFirst_upserts, findFirst_grouped; simpl.
    + unfold window. rewrite findMany_findMany. fold inside.
      destruct (some inside (beats t)) eqn:Hs.
      * apply some_true in Hs as (b & Hin & Hi). rewrite bool_decide_eq_false_2; [done|].
        intros Hnil. apply (elem_of_nil b). rewrite <- Hnil. by apply elem_of_findMany.
      * rewrite some_false in Hs. rewrite bool_decide_eq_true_2; [done|].
        destruct (findMany inside (beats t)) as [|b l] eqn:Hl; [done|].
        assert (Hb' : b ∈ findMany inside (beats t)) by (rewrite Hl; by left).
        apply elem_of_findMany in Hb' as [Hi Hin]. by rewrite Hs in Hi.
    + rewrite key_grouped. apply NoDup_uniq.
    + intros r Hk%has_key_true. injection Hk as _ Hk. apply Z.ltb_ge. lia.
Qed.

(** a run that starts part-way through an hour overwrites the rollup of
    the hour at the edge of the raw window with the beats still inside it, and
    then deletes the rest: a recorded outage disappears from the history. *)
Theorem mid_hour_run_loses_history :
  let beat at_ st := Beat "m1" st (Some 5) "" false at_ in
  let t0 := Tables [beat 600000 down; beat 3000000 up] [] in
  let on_the_hour := run HOUR 7 365 t0 in
  let later := run (7 * 86400000 + 1800000) 7 365 on_the_hour in
  (λ r, (ro_total r, ro_up r, ro_down r)) <$> rollups on_the_hour = [(2, 1, 1)] ∧
  (λ r, (ro_total r, ro_up r, ro_down r)) <$> rollups later = [(1, 1, 0)] ∧
  (b_at <$> beats later) = [3000000].
Proof. vm_compute. done. Qed.

Lemma retention_run_exact_witness :
  let t := Tables [Beat "m1" down None "" true 10; Beat "m1" up (Some 5) "" true 20] [] in
  findFirst (has_key ("m1", 0)) (rollups (run HOUR 7 365 t)) =
    Some (Rollup "m1" 0 2 1 1 (Some 5) (Some 5) (Some 5)).
Proof.
  intros t. destruct (retention_run_exact HOUR 7 365 t "m1" 0) as [_ Hr]. rewrite Hr; [|done].
  vm_compute. done.
Defined.
End retention.
