(* ===== verification/AlertRegistry.v ===== *)
(** * The alert catalog

    [notifications/alerts/alert-registry.ts] and
    [notifications/alerts/metric-thresholds.ts]: the kinds of event the program
    can raise, with their defaults, and the metrics an alert can watch. *)
From S2P Require Import Prelude JsText.
From stdpp Require Import strings options.

(** Least urgent first. *)
Inductive NotificationSeverity := info | warning | critical.

#[export] Instance severity_eq_dec : EqDecision NotificationSeverity.
Proof. solve_decision. Defined.

Definition severityRank (s : NotificationSeverity) : Z :=
  match s with info => 0 | warning => 1 | critical => 2 end.

Record AlertTypeDef := AlertType {
  alert_key : string;
  label : string;
  alert_description : string;
  category : string;
  defaultSeverity : NotificationSeverity;
  defaultEnabled : bool;
  defaultChannels : list string;
  connectorScoped : bool;
  monitorScoped : bool
}.

Record MetricThresholdDef := Metric {
  metric_id : string;
  metricKey : string;
  metric_alertKey : string;
  metric_label : string
}.

(** Backups, Connections, Resources, Cost, Storage. *)
Definition core_alerts : list AlertTypeDef :=
  [
   AlertType "backup.failure" "Backup failed"
     "A scheduled or manual backup finished with an error."
     "Backups" critical true ["email"] true false;
   AlertType "backup.success" "Backup succeeded"
     "A scheduled or manual backup completed successfully."
     "Backups" info false ["email"] true false;
   AlertType "restore.failure" "Restore failed"
     "A restore from backup finished with an error."
     "Backups" critical true ["email"] true false;
   AlertType "restore.success" "Restore completed"
     "A restore from backup completed successfully."
     "Backups" info false ["email"] true false;
   AlertType "backup.stale" "Backup overdue"
     "A scheduled backup has not succeeded for well past its own interval — it may have silently stopped running."
     "Backups" warning true ["email"] true false;
   AlertType "retention.failure" "Retention prune failed"
     "Applying backup retention (pruning old snapshots) failed."
     "Backups" warning true ["email"] true false;
   AlertType "connection.down" "Connector unreachable"
     "A connector failed its connection check (was previously reachable)."
     "Connections" warning true ["email"] true false;
   AlertType "connection.recovered" "Connector recovered"
     "A previously-unreachable connector is responding again."
     "Connections" info true ["email"] true false;
   AlertType "resource.stopped" "Resource stopped"
     "A VM, container, or instance changed to a stopped state."
     "Resources" warning true ["email"] true false;
   AlertType "resource.started" "Resource started"
     "A VM, container, or instance changed to a running state."
     "Resources" info false ["email"] true false;
   AlertType "cost.threshold" "Monthly cost over threshold"
     "A connector's month-to-date spend crossed the limit set on its page."
     "Cost" warning true ["email"] true false;
   AlertType "storage.threshold" "Storage over threshold"
     "A connector's storage size crossed the limit set on its page."
     "Storage" warning true ["email"] true false].

(** Home Assistant, Cloudflare, Technitium DNS. *)
Definition dns_and_edge_alerts : list AlertTypeDef :=
  [
   AlertType "ha.unavailable" "Unavailable entities over threshold"
     "The number of unavailable/unknown Home Assistant entities crossed the limit set on its page."
     "Home Assistant" warning true ["email"] true false;
   AlertType "ha.batteries_low" "Low batteries over threshold"
     "The number of low-battery Home Assistant entities crossed the limit set on its page."
     "Home Assistant" warning true ["email"] true false;
   AlertType "ha.updates" "Updates available over threshold"
     "The number of available Home Assistant updates crossed the limit set on its page."
     "Home Assistant" info true ["email"] true false;
   AlertType "ha.automations_off" "Automations off over threshold"
     "The number of disabled Home Assistant automations crossed the limit set on its page."
     "Home Assistant" warning true ["email"] true false;
   AlertType "ha.integrations" "Degraded integrations over threshold"
     "The number of Home Assistant integrations that failed to set up crossed the limit set on its page."
     "Home Assistant" warning true ["email"] true false;
   AlertType "cloudflare.tunnels_down" "Tunnels down over threshold"
     "The number of Cloudflare Tunnels that are down/degraded/inactive crossed the limit set on its page."
     "Cloudflare" warning true ["email"] true false;
   AlertType "cloudflare.zones_paused" "Zones paused over threshold"
     "The number of paused/deactivated Cloudflare zones crossed the limit set on its page."
     "Cloudflare" warning true ["email"] true false;
   AlertType "cloudflare.certs_expiring" "Certificates expiring over threshold"
     "The number of Cloudflare SSL certificates expiring soon (within ~30 days) crossed the limit set on its page."
     "Cloudflare" warning true ["email"] true false;
   AlertType "cloudflare.tokens_expiring" "Service tokens expiring over threshold"
     "The number of Cloudflare Zero Trust service tokens expiring soon (within ~14 days) crossed the limit set on its page."
     "Cloudflare" warning true ["email"] true false;
   AlertType "cloudflare.threats" "Threats over threshold"
     "The number of threats Cloudflare mitigated in the last 24h crossed the limit set on its page."
     "Cloudflare" info true ["email"] true false;
   AlertType "technitium.zones_expired" "Zones expired over threshold"
     "The number of Technitium DNS zones that have expired (e.g. a secondary zone that failed to transfer) crossed the limit set on its page."
     "Technitium DNS" warning true ["email"] true false;
   AlertType "technitium.server_failures" "Server failures over threshold"
     "The number of SERVFAIL responses Technitium returned in the last hour crossed the limit set on its page — often an upstream/forwarder or DNSSEC problem."
     "Technitium DNS" warning true ["email"] true false;
   AlertType "technitium.block_rate" "Block rate over threshold"
     "The share of DNS queries Technitium blocked in the last hour crossed the percentage set on its page — a sudden spike can mean a device flooding blocked (ad/tracker/malware) domains."
     "Technitium DNS" info true ["email"] true false].

(** UniFi Network. *)
Definition unifi_alerts : list AlertTypeDef :=
  [
   AlertType "unifi.new_device" "New device on the network"
     "A client Cerebro has never seen before joined the network (by MAC address). Review it on the Architecture Map: mark it as known or block it. Devices using a private (randomized) MAC only alert if that is turned on for the UniFi connector."
     "UniFi Network" warning true ["email"] true false;
   AlertType "unifi.devices_offline" "Devices offline over threshold"
     "The number of UniFi devices (APs, switches, gateway) that are offline or missing heartbeats crossed the limit set on its page."
     "UniFi Network" warning true ["email"] true false;
   AlertType "unifi.wan_down" "WAN link down"
     "A UniFi gateway WAN link went down (set the limit to 1 to alert on any down link; on a dual-WAN setup this usually means failover kicked in)."
     "UniFi Network" critical true ["email"] true false;
   AlertType "unifi.wan_latency" "Internet latency over threshold"
     "The UniFi gateway’s measured internet latency crossed the milliseconds set on its page."
     "UniFi Network" warning true ["email"] true false;
   AlertType "unifi.gateway_cpu" "Gateway CPU over threshold"
     "The UniFi gateway’s CPU use crossed the percentage set on its page."
     "UniFi Network" warning true ["email"] true false;
   AlertType "unifi.gateway_mem" "Gateway memory over threshold"
     "The UniFi gateway’s memory use crossed the percentage set on its page."
     "UniFi Network" warning true ["email"] true false;
   AlertType "unifi.gateway_temp" "Gateway temperature over threshold"
     "The UniFi gateway’s hottest temperature sensor crossed the °C set on its page."
     "UniFi Network" warning true ["email"] true false;
   AlertType "unifi.storage" "Console storage over threshold"
     "The UniFi console’s built-in storage use crossed the percentage set on its page."
     "UniFi Network" warning true ["email"] true false;
   AlertType "unifi.alarms" "Active alarms over threshold"
     "The number of un-archived UniFi alarms crossed the limit set on its page."
     "UniFi Network" info true ["email"] true false;
   AlertType "unifi.firmware_updates" "Firmware updates available"
     "The number of UniFi devices with a firmware upgrade available crossed the limit set on its page."
     "UniFi Network" info true ["email"] true false;
   AlertType "unifi.high_events" "High-severity events (24h) over threshold"
     "The number of high/critical entries in the UniFi system log over the last 24h crossed the limit set on its page."
     "UniFi Network" warning true ["email"] true false;
   AlertType "unifi.threats" "Threats blocked (24h) over threshold"
     "The number of threats UniFi intrusion prevention blocked in the last 24h crossed the limit set on its page."
     "UniFi Network" info true ["email"] true false].

(** Monitors. *)
Definition monitor_alerts : list AlertTypeDef :=
  [
   AlertType "monitor.down" "Monitor down"
     "An uptime monitor failed its checks (after retries) and is now down."
     "Monitors" critical true ["email"] false true;
   AlertType "monitor.up" "Monitor recovered"
     "A previously-down uptime monitor is passing again."
     "Monitors" info true ["email"] false true;
   AlertType "monitor.cert_expiring" "Certificate expiring"
     "An HTTPS monitor's TLS certificate expires within its warning window."
     "Monitors" warning true ["email"] false true].

(** Docker. *)
Definition docker_alerts : list AlertTypeDef :=
  [
   AlertType "docker.unhealthy" "Unhealthy containers over threshold"
     "The number of containers reporting an unhealthy healthcheck crossed the limit set on its page."
     "Docker" warning true ["email"] true false;
   AlertType "docker.stopped" "Stopped containers over threshold"
     "The number of stopped containers crossed the limit set on its page."
     "Docker" warning false ["email"] true false;
   AlertType "docker.disk_high" "Docker disk usage over threshold"
     "Docker's disk usage (images + containers + volumes + build cache) crossed the GB limit set on its page."
     "Docker" warning true ["email"] true false;
   AlertType "docker.restart_loop" "Restarting containers over threshold"
     "The number of containers stuck restarting (a crash loop) crossed the limit set on its page."
     "Docker" warning true ["email"] true false;
   AlertType "docker.updates_available" "Image updates available over threshold"
     "The number of running images with a newer version in their registry crossed the limit set on its page."
     "Docker" info false ["email"] true false;
   AlertType "docker.host_disk" "Host root disk usage over threshold"
     "The host root filesystem (/) usage percentage crossed the limit set on its page. Requires SSH configured."
     "Docker" warning true ["email"] true false;
   AlertType "docker.host_mem" "Host memory usage over threshold"
     "The host memory usage percentage crossed the limit set on its page. Requires SSH configured."
     "Docker" warning false ["email"] true false;
   AlertType "docker.host_load" "Host CPU load over threshold"
     "The host CPU load (1-min load average as a percent of cores) crossed the limit set on its page. Requires SSH configured."
     "Docker" warning false ["email"] true false;
   AlertType "jellyfin.transcodes_high" "Transcoding sessions over threshold"
     "The number of active transcoding streams on Jellyfin crossed the limit set on its page (server strain)."
     "Jellyfin" warning true ["email"] true false;
   AlertType "jellyfin.active_streams" "Active streams over threshold"
     "The number of active Jellyfin streams crossed the limit set on its page."
     "Jellyfin" info false ["email"] true false;
   AlertType "jellyfin.tasks_failed" "Failed scheduled tasks over threshold"
     "The number of Jellyfin scheduled tasks whose last run failed crossed the limit set on its page."
     "Jellyfin" warning true ["email"] true false].

(** Nginx Proxy Manager, Automations, Secrets vault, Fabric remoteaccess agents. *)
Definition platform_alerts : list AlertTypeDef :=
  [
   AlertType "npm.certs_expiring" "Certificates expiring over threshold"
     "The number of Nginx Proxy Manager SSL certificates expiring soon (within ~14 days) or already expired crossed the limit set on its page."
     "Nginx Proxy Manager" warning true ["email"] true false;
   AlertType "npm.hosts_errored" "Hosts offline over threshold"
     "The number of proxy hosts Nginx Proxy Manager failed to bring online (bad config or certificate) crossed the limit set on its page."
     "Nginx Proxy Manager" warning true ["email"] true false;
   AlertType "npm.hosts_disabled" "Disabled hosts over threshold"
     "The number of disabled proxy hosts crossed the limit set on its page."
     "Nginx Proxy Manager" info false ["email"] true false;
   AlertType "automation.notify" "Automation notification"
     ("A notification sent by an automation rule's " +:+ dq +:+ "notify" +:+ dq +:+ " action.")
     "Automations" info true ["email"] false false;
   AlertType "secret.rotation_due" "Secret rotation due"
     "A stored credential has passed its rotation-policy age and should be rotated."
     "Secrets" warning true ["email"] false false;
   AlertType "secret.expired" "Secret expired"
     "A stored credential has passed its expiry date."
     "Secrets" critical true ["email"] false false;
   AlertType "fabric.agent_offline" "Fabric agent offline"
     "A remote-access agent stopped checking in (missed its heartbeats or disconnected)."
     "Fabric" warning true ["email"] false false;
   AlertType "fabric.agent_online" "Fabric agent back online"
     "A remote-access agent reconnected after being offline."
     "Fabric" info false ["email"] false false;
   AlertType "fabric.approval_requested" "Fabric session approval requested"
     "An operator requested a session through an agent that requires approval (four-eyes)."
     "Fabric" warning true ["email"] false false].

Definition ALERT_TYPES : list AlertTypeDef :=
  core_alerts ++ dns_and_edge_alerts ++ unifi_alerts ++ monitor_alerts ++ docker_alerts ++ platform_alerts.

Definition METRIC_THRESHOLDS : list MetricThresholdDef :=
  [Metric "cost" "costMtd" "cost.threshold" "Monthly cost";
   Metric "storage" "repoSizeGb" "storage.threshold" "Repository size";
   Metric "haUnavailable" "entitiesUnavailable" "ha.unavailable" "Unavailable entities";
   Metric "haBatteries" "batteriesLow" "ha.batteries_low" "Low batteries";
   Metric "haUpdates" "updatesAvailable" "ha.updates" "Updates available";
   Metric "haAutomationsOff" "automationsOff" "ha.automations_off" "Automations off";
   Metric "haIntegrations" "integrationsDegraded" "ha.integrations" "Degraded integrations";
   Metric "cfTunnelsDown" "tunnelsDown" "cloudflare.tunnels_down" "Tunnels down";
   Metric "cfZonesPaused" "zonesPaused" "cloudflare.zones_paused" "Zones paused";
   Metric "cfCertsExpiring" "certsExpiringSoon" "cloudflare.certs_expiring" "Certificates expiring";
   Metric "cfTokensExpiring" "tokensExpiringSoon" "cloudflare.tokens_expiring" "Service tokens expiring";
   Metric "cfThreats" "threats24h" "cloudflare.threats" "Threats (24h)";
   Metric "dockerUnhealthy" "containersUnhealthy" "docker.unhealthy" "Unhealthy containers";
   Metric "dockerStopped" "containersStopped" "docker.stopped" "Stopped containers";
   Metric "dockerDisk" "diskUsedGb" "docker.disk_high" "Docker disk used";
   Metric "dockerRestarting" "containersRestarting" "docker.restart_loop" "Restarting containers";
   Metric "dockerUpdates" "updatesAvailable" "docker.updates_available" "Image updates available";
   Metric "dockerHostDisk" "hostRootDiskPct" "docker.host_disk" "Host root disk used";
   Metric "dockerHostMem" "hostMemUsedPct" "docker.host_mem" "Host memory used";
   Metric "dockerHostLoad" "hostLoadPct" "docker.host_load" "Host CPU load";
   Metric "jellyfinTranscodes" "transcodes" "jellyfin.transcodes_high" "Transcoding sessions";
   Metric "jellyfinStreams" "activeStreams" "jellyfin.active_streams" "Active streams";
   Metric "jellyfinTasksFailed" "tasksFailed" "jellyfin.tasks_failed" "Failed tasks";
   Metric "npmCertsExpiring" "certsExpiring" "npm.certs_expiring" "Certificates expiring";
   Metric "npmHostsErrored" "erroredHosts" "npm.hosts_errored" "Hosts offline";
   Metric "npmHostsDisabled" "disabledHosts" "npm.hosts_disabled" "Disabled hosts";
   Metric "technitiumZonesExpired" "zonesExpired" "technitium.zones_expired" "Zones expired";
   Metric "technitiumServerFailures" "serverFailures1h" "technitium.server_failures" "Server failures (1h)";
   Metric "technitiumBlockRate" "blockedPct" "technitium.block_rate" "Block rate (%)";
   Metric "unifiDevicesOffline" "unifiDevicesOffline" "unifi.devices_offline" "Devices offline";
   Metric "unifiWanDown" "unifiWanDown" "unifi.wan_down" "WAN links down";
   Metric "unifiWanLatency" "unifiWanLatencyMs" "unifi.wan_latency" "Internet latency (ms)";
   Metric "unifiGatewayCpu" "unifiGatewayCpuPct" "unifi.gateway_cpu" "Gateway CPU (%)";
   Metric "unifiGatewayMem" "unifiGatewayMemPct" "unifi.gateway_mem" "Gateway memory (%)";
   Metric "unifiGatewayTemp" "unifiGatewayTempC" "unifi.gateway_temp" "Gateway temperature (°C)";
   Metric "unifiStorage" "unifiStoragePct" "unifi.storage" "Console storage used (%)";
   Metric "unifiAlarms" "unifiAlarms" "unifi.alarms" "Active alarms";
   Metric "unifiFirmware" "unifiFirmwareUpdates" "unifi.firmware_updates" "Firmware updates";
   Metric "unifiHighEvents" "unifiHighEvents24h" "unifi.high_events" "High-severity events (24h)";
   Metric "unifiThreats" "unifiThreats24h" "unifi.threats" "Threats blocked (24h)"].

Definition getAlertType (key : string) : option AlertTypeDef :=
  findFirst (λ t, bool_decide (alert_key t = key)) ALERT_TYPES.

Definition thresholdByAlertKey (alertKey : string) : option MetricThresholdDef :=
  findFirst (λ t, bool_decide (metric_alertKey t = alertKey)) METRIC_THRESHOLDS.

(** The catalog is a map: one type per key, one metric per id; and the alert
    of every metric is in it, scoped to connectors. *)
Lemma catalog_sound :
  NoDup (alert_key <$> ALERT_TYPES) ∧ NoDup (metric_id <$> METRIC_THRESHOLDS) ∧
  Forall (λ m, connectorScoped <$> getAlertType (metric_alertKey m) = Some true)
    METRIC_THRESHOLDS.
Proof. split_and!; refine (bool_decide_unpack _ _); vm_compute; exact I. Qed.

Lemma getAlertType_key key d : getAlertType key = Some d → alert_key d = key ∧ d ∈ ALERT_TYPES.
Proof. intros [Hin Hk%bool_decide_eq_true]%findFirst_Some. done. Qed.
