(* ===== verification/Notifications.v ===== *)
(** * The notification dispatcher

    [notifications/notifications.service.ts].  Settings rows hold the JSON
    values this service writes; a row of another shape reads as absent.  What
    a channel does with a message is a parameter. *)
From S2P Require Import Prelude JsText Schedule AlertRegistry.
From Stdlib Require Import Sorted.
From stdpp Require Import gmap strings pretty sorting options.

#[local] Open Scope Z_scope.
#[local] Set Default Proof Using "Type*".

Inductive channel := email | textbelt | signal.

#[export] Instance channel_eq_dec : EqDecision channel.
Proof. solve_decision. Defined.

Definition ROUTABLE_CHANNELS : list channel := [email; textbelt; signal].

Definition channel_id (c : channel) : string :=
  match c with email => "email" | textbelt => "textbelt" | signal => "signal" end.
Definition routable (id : string) : option channel :=
  findFirst (λ c, bool_decide (channel_id c = id)) ROUTABLE_CHANNELS.

Definition severity_name (s : NotificationSeverity) : string :=
  match s with info => "info" | warning => "warning" | critical => "critical" end.
Definition severity_of (s : string) : option NotificationSeverity :=
  findFirst (λ x, bool_decide (severity_name x = s)) [info; warning; critical].

Record ChannelConfig := Channel { ch_enabled : bool; recipients : list string }.
Record ChannelView := View { vw_enabled : bool; vw_recipients : string }.

Record QuietConfig := Quiet {
  q_enabled : bool;
  q_start : string;
  q_end : string;
  q_floor : NotificationSeverity;
  q_channels : list string
}.

Record NotificationMessage := Message {
  title : string;
  body : string;
  severity : NotificationSeverity;
  source : string;
  dedupeKey : option string
}.

Inductive delivery := Sent | Failed | Held | Throttled.

Record history_row := History {
  h_alertKey : option string;
  h_title : string;
  h_severity : NotificationSeverity;
  h_source : string;
  h_channel : channel;
  h_status : delivery;
  h_recipients : Z;
  h_connectorId : option string;
  h_detail : option string;
  h_at : Z
}.

Record state := State {
  settings : gmap string json;
  secrets : gmap string string;
  lastSent : gmap string Z;
  history : list history_row
}.

(** Messages that went out, with their time, and the log. *)
Inductive effect :=
| Send (at_ : Z) (c : channel) (m : NotificationMessage) (to : list string)
| Log (l : level) (msg : string).

Abbreviation call := (svc state effect http_error).

(** ** Settings *)

Definition set_setting (k : string) (v : json) (s : state) : state :=
  State (<[k := v]> (settings s)) (secrets s) (lastSent s) (history s).
Definition set_secret (k v : string) (s : state) : state :=
  State (settings s) (<[k := v]> (secrets s)) (lastSent s) (history s).

Definition as_bool (v : option json) : option bool :=
  match v with Some (JBool b) => Some b | _ => None end.
Definition as_num (v : option json) : option Z :=
  match v with Some (JNum n) => Some n | _ => None end.
Definition as_str (v : option json) : option string :=
  match v with Some (JStr x) => Some x | _ => None end.
Definition as_strs (v : option json) : option (list string) :=
  match v with
  | Some (JArr l) => mapM (λ x, match x with JStr y => Some y | _ => None end) l
  | _ => None
  end.
Definition strs (l : list string) : json := JArr (JStr <$> l).

Definition DEFAULT_THROTTLE_SEC : Z := 300.
Definition DEFAULT_QUIET : QuietConfig :=
  Quiet false "22:00" "07:00" critical ["textbelt"; "signal"].

(** [hmToMinutes]; a missing or unreadable part counts as 0. *)
Definition hmToMinutes (s : string) : Z :=
  let parts := parseInt10 <$> JsText.split ":"%char s in
  let part (i : nat) := default 0 (mjoin (parts !! i)) in
  part 0%nat * 60 + part 1%nat.

Definition inQuietWindow (tz now : Z) (start end_ : string) : bool :=
  let cur := getHours tz now * 60 + getMinutes tz now in
  let s := hmToMinutes start in
  let e := hmToMinutes end_ in
  if s =? e then false
  else if s <? e then (s <=? cur) && (cur <? e) else (s <=? cur) || (cur <? e).

Module NotificationsService.
Section service.
Context (tz : Z) (deliver : Z → channel → NotificationMessage → list string → option string).

(** [raw.split(/[\n,]/)], trimmed, blanks dropped. *)
Definition parseRecipients (raw : string) : list string :=
  filter (λ x, x ≠ "") (trim <$> (JsText.split ","%char raw ≫= JsText.split (Ascii.ascii_of_nat 10))).

Definition channelConfig (c : channel) (s : state) : ChannelConfig :=
  let key x := "notify." +:+ channel_id c +:+ "." +:+ x in
  Channel (default false (as_bool (settings s !! key "enabled")))
    (default [] (as_strs (settings s !! key "recipients"))).

Definition view (cfg : ChannelConfig) : ChannelView :=
  View (ch_enabled cfg) (JsText.join ", " (recipients cfg)).

Definition quietConfig (s : state) : QuietConfig :=
  let at_key x := settings s !! ("notify.quiet." +:+ x) in
  Quiet (default (q_enabled DEFAULT_QUIET) (as_bool (at_key "enabled")))
    (default (q_start DEFAULT_QUIET) (as_str (at_key "start")))
    (default (q_end DEFAULT_QUIET) (as_str (at_key "end")))
    (default (q_floor DEFAULT_QUIET) (as_str (at_key "floor") ≫= severity_of))
    (default (q_channels DEFAULT_QUIET) (as_strs (at_key "channels"))).

Definition throttle_window (s : state) : Z :=
  default DEFAULT_THROTTLE_SEC (as_num (settings s !! "notify.throttle.windowSec")).

Record NotificationConfigView := Config {
  c_email : ChannelView;
  c_textbelt : ChannelView;
  c_endpoint : string;
  c_keySet : bool;
  c_signal : ChannelView;
  c_throttleWindowSec : Z;
  c_quiet : QuietConfig
}.

Definition getConfig (s : state) : NotificationConfigView :=
  Config (view (channelConfig email s)) (view (channelConfig textbelt s))
    (default "" (as_str (settings s !! "notify.textbelt.endpoint")))
    (bool_decide (is_Some (secrets s !! "notify.textbelt.key")))
    (view (channelConfig signal s)) (throttle_window s) (quietConfig s).

Record SaveNotificationConfig := Save {
  s_email : ChannelView;
  s_textbelt : ChannelView;
  s_endpoint : option string;
  s_key : option string;
  s_signal : ChannelView;
  s_throttleWindowSec : Z;
  s_quiet : QuietConfig
}.

Definition saveConfig (cfg : SaveNotificationConfig) (s : state) : state :=
  let put_channel c v s :=
    set_setting ("notify." +:+ channel_id c +:+ ".recipients")
      (strs (parseRecipients (vw_recipients v)))
      (set_setting ("notify." +:+ channel_id c +:+ ".enabled") (JBool (vw_enabled v)) s) in
  let s := put_channel email (s_email cfg) s in
  let s := put_channel textbelt (s_textbelt cfg) s in
  let s := set_setting "notify.textbelt.endpoint"
    (JStr (trim (default "" (s_endpoint cfg)))) s in
  let s := if truthy (s_key cfg)
           then set_secret "notify.textbelt.key" (trim (default "" (s_key cfg))) s else s in
  let s := put_channel signal (s_signal cfg) s in
  let s := set_setting "notify.throttle.windowSec" (JNum (Z.max 0 (s_throttleWindowSec cfg))) s in
  let q := s_quiet cfg in
  let s := set_setting "notify.quiet.enabled" (JBool (q_enabled q)) s in
  let s := set_setting "notify.quiet.start" (JStr (q_start q)) s in
  let s := set_setting "notify.quiet.end" (JStr (q_end q)) s in
  let s := set_setting "notify.quiet.floor" (JStr (severity_name (q_floor q))) s in
  set_setting "notify.quiet.channels"
    (strs (filter (λ c, is_Some (routable c)) (q_channels q))) s.

(** ** Rules and mutes *)

Record AlertRule := Rule {
  r_enabled : bool;
  r_severity : NotificationSeverity;
  r_channels : list string
}.

Definition alertRule (def : AlertTypeDef) (s : state) : AlertRule :=
  let at_key x := settings s !! ("notify.alert." +:+ alert_key def +:+ "." +:+ x) in
  Rule (default (defaultEnabled def) (as_bool (at_key "enabled")))
    (default (defaultSeverity def) (as_str (at_key "severity") ≫= severity_of))
    (default (defaultChannels def) (as_strs (at_key "channels"))).

Definition saveAlerts (rules : list (string * AlertRule)) (s : state) : state :=
  foldl (λ s kr,
    match getAlertType kr.1 with
    | None => s
    | Some _ =>
        let key x := "notify.alert." +:+ kr.1 +:+ "." +:+ x in
        set_setting (key "channels")
          (strs (filter (λ c, is_Some (routable c)) (r_channels kr.2)))
          (set_setting (key "severity") (JStr (severity_name (r_severity kr.2)))
            (set_setting (key "enabled") (JBool (r_enabled kr.2)) s))
    end) s rules.

Definition connector_mute_key (id : string) : string :=
  "notify.connector." +:+ id +:+ ".mutedAlerts".
Definition monitor_mute_key (id : string) : string :=
  "notify.monitor." +:+ id +:+ ".mutedAlerts".
Definition thresholdKey (connectorId defId : string) : string :=
  "notify.connector." +:+ connectorId +:+ ".threshold." +:+ defId.

Definition mutedAlerts (connectorId : string) (s : state) : list string :=
  default [] (as_strs (settings s !! connector_mute_key connectorId)).
Definition monitorMutedAlerts (monitorId : string) (s : state) : list string :=
  default [] (as_strs (settings s !! monitor_mute_key monitorId)).

Definition connectorThreshold (connectorId defId : string) (s : state) : Z :=
  match as_num (settings s !! thresholdKey connectorId defId) with
  | Some v => v
  | None =>
      if bool_decide (defId = "cost")
      then default 0 (as_num (settings s !!
             ("notify.connector." +:+ connectorId +:+ ".costThreshold")))
      else 0
  end.

Definition saveConnectorAlertConfig (connectorId : string) (muted : list string)
    (thresholds : option (gmap string Z)) (s : state) : state :=
  let valid := filter (λ k, connectorScoped <$> getAlertType k = Some true) muted in
  let s := set_setting (connector_mute_key connectorId) (strs (uniq valid)) s in
  match thresholds with
  | None => s
  | Some ts =>
      foldl (λ s t, match ts !! metric_id t with
                    | Some v => set_setting (thresholdKey connectorId (metric_id t))
                                  (JNum (Z.max 0 v)) s
                    | None => s
                    end) s METRIC_THRESHOLDS
  end.

Definition saveMonitorMutes (monitorId : string) (muted : list string) (s : state) : state :=
  set_setting (monitor_mute_key monitorId)
    (strs (uniq (filter (λ k, monitorScoped <$> getAlertType k = Some true) muted))) s.

(** ** Dispatch *)

Definition throttleKey (c : channel) (m : NotificationMessage) : string :=
  channel_id c +:+ ":" +:+ default (title m) (dedupeKey m).

Definition isThrottled (now : Z) (c : channel) (m : NotificationMessage) (windowSec : Z)
    (s : state) : bool :=
  if windowSec <=? 0 then false
  else match lastSent s !! throttleKey c m with
       | Some last => now - last <? windowSec * 1000
       | None => false
       end.

Definition markSent (now : Z) (c : channel) (m : NotificationMessage) (s : state) : state :=
  State (settings s) (secrets s) (<[throttleKey c m := now]> (lastSent s)) (history s).

Definition recordHistory (row : history_row) (s : state) : state :=
  State (settings s) (secrets s) (lastSent s) (createRow row (history s)).

Record send_meta := Meta { mt_alertKey : option string; mt_connectorId : option string }.

Definition row_of (now : Z) (c : channel) (m : NotificationMessage) (mt : send_meta)
    (cfg : ChannelConfig) (st : delivery) (detail : option string) : history_row :=
  History (mt_alertKey mt) (title m) (severity m) (source m) c st
    (Z.of_nat (length (recipients cfg))) (mt_connectorId mt) detail now.

(** One turn of the loop in [sendToChannels]. *)
Definition send_one (now : Z) (windowSec : Z) (quiet : QuietConfig) (quietNow : bool)
    (m : NotificationMessage) (mt : send_meta) (id : string) : call unit :=
  match routable id with
  | None => mret tt
  | Some c =>
      s ← get;
      let cfg := channelConfig c s in
      let record st detail := modify (recordHistory (row_of now c m mt cfg st detail)) in
      if negb (ch_enabled cfg) || bool_decide (recipients cfg = []) then mret tt
      else if quietNow && includes id (q_channels quiet) &&
              (severityRank (severity m) <? severityRank (q_floor quiet)) then
        tell (Log Debug ("Quiet hours: held " +:+ id)) ;;
        record Held (Some "Held by quiet hours")
      else if isThrottled now c m windowSec s then
        tell (Log Debug ("Throttled " +:+ id)) ;;
        record Throttled (Some "Suppressed by dedupe window")
      else match deliver now c m (recipients cfg) with
           | None =>
               tell (Send now c m (recipients cfg)) ;;
               modify (markSent now c m) ;;
               tell (Log Info ("Sent " +:+ quoted (title m) +:+ " via " +:+ id)) ;;
               record Sent None
           | Some err =>
               tell (Log Error (id +:+ " send failed for " +:+ quoted (title m) +:+ ": " +:+ err)) ;;
               record Failed (Some err)
           end
  end.

Definition sendToChannels (now : Z) (m : NotificationMessage) (channelIds : list string)
    (mt : send_meta) : call unit :=
  s ← get;
  let quiet := quietConfig s in
  let quietNow := q_enabled quiet && inQuietWindow tz now (q_start quiet) (q_end quiet) in
  for_each channelIds (send_one now (throttle_window s) quiet quietNow m mt).

Record payload := Payload {
  p_title : string;
  p_body : string;
  p_dedupeKey : option string;
  p_connectorId : option string;
  p_monitorId : option string
}.

Definition payload_of (a : alert) : payload :=
  Payload (al_title a) (al_body a) (al_dedupeKey a) (al_connectorId a) (al_monitorId a).

Definition muted_by (scoped : bool) (id : option string) (key : string)
    (muted : string → list string) : bool :=
  match id with
  | Some i => negb (bool_decide (i = "")) && scoped && includes key (muted i)
  | None => false
  end.

Definition dispatchAlert (now : Z) (typeKey : string) (p : payload) : call unit :=
  match getAlertType typeKey with
  | None => tell (Log Warn ("Unknown alert type " +:+ quoted typeKey +:+ " — not sent."))
  | Some def =>
      s ← get;
      let rule := alertRule def s in
      if negb (r_enabled rule) then mret tt
      else if muted_by (connectorScoped def) (p_connectorId p) typeKey (λ i, mutedAlerts i s)
        then tell (Log Debug ("Alert " +:+ quoted typeKey +:+ " muted for connector " +:+
               default "" (p_connectorId p)))
      else if muted_by (monitorScoped def) (p_monitorId p) typeKey (λ i, monitorMutedAlerts i s)
        then tell (Log Debug ("Alert " +:+ quoted typeKey +:+ " muted for monitor " +:+
               default "" (p_monitorId p)))
      else sendToChannels now
        (Message (p_title p) (p_body p) (r_severity rule) (category def)
          (Some (default typeKey (p_dedupeKey p))))
        (r_channels rule) (Meta (Some (alert_key def)) (p_connectorId p))
  end.

Definition sendMessage (now : Z) (t b : string) (sev : option NotificationSeverity)
    (channels : option (list string)) : call (bool * list string) :=
  let requested := match channels with
                   | Some (c :: cs) => c :: cs
                   | _ => channel_id <$> ROUTABLE_CHANNELS
                   end in
  let targets := filter (λ c, is_Some (routable c)) requested in
  sendToChannels now
    (Message (if bool_decide (trim t = "") then "Cerebro notification" else trim t) b
      (default info sev) "assistant" (Some ("adhoc:" +:+ t)))
    targets (Meta (Some "adhoc") None) ;;
  mret (true, targets).

Definition test (now : Z) (c : channel) (to : option string) : call (bool * string) :=
  s ← get;
  let cfg := channelConfig c s in
  let rs := if truthy to then parseRecipients (default "" to) else recipients cfg in
  if bool_decide (rs = []) then mret (false, "No recipients configured for this channel.")
  else
    let m := Message "Cerebro test notification"
      "If you received this, your Cerebro alert channel is configured correctly."
      info "test" None in
    let record st detail :=
      modify (recordHistory (row_of now c m (Meta None None) (Channel true rs) st detail)) in
    match deliver now c m rs with
    | None =>
        tell (Send now c m rs) ;;
        record Sent None ;;
        mret (true, "Test sent via " +:+ channel_id c +:+ " to " +:+ JsText.join ", " rs +:+ ".")
    | Some err =>
        tell (Log Error ("Test " +:+ channel_id c +:+ " failed: " +:+ err)) ;;
        record Failed (Some err) ;;
        mret (false, err)
    end.

End service.
End NotificationsService.

(** ** Settings round trip *)

Section config.
Import NotificationsService.

Definition clean_recipient (r : string) : Prop :=
  r ≠ "" ∧ trim r = r ∧ (","%char ∉ chars r) ∧ Ascii.ascii_of_nat 10 ∉ chars r.

Lemma parseRecipients_clean raw r : r ∈ parseRecipients raw → clean_recipient r.
Proof.
  unfold parseRecipients. intros [Hne (x & -> & Hx)%list_elem_of_fmap]%list_elem_of_filter.
  apply list_elem_of_bind in Hx as (y & Hx & Hy).
  apply split_in in Hx as [Hnl Hxy], Hy as [Hcomma _].
  split_and!; [done | apply trim_idemp | |]; intros Hc%trim_in; [|done].
  by apply Hcomma, Hxy.
Qed.

Lemma string_assoc a b c : a +:+ (b +:+ c) = (a +:+ b) +:+ c.
Proof. apply chars_inj. by rewrite !chars_app, (assoc_L (++)). Qed.

Lemma parse_joined rs : Forall clean_recipient rs → parseRecipients (JsText.join ", " rs) = rs.
Proof.
  assert (Hone : ∀ r, clean_recipient r → ∀ p, (p = "" ∨ p = " ") →
    JsText.split (Ascii.ascii_of_nat 10) (p +:+ r) = [p +:+ r] ∧ trim (p +:+ r) = r ∧
    ","%char ∉ chars (p +:+ r)).
  { intros r (_ & Ht & Hc & Hn) p [-> | ->]; [by simpl; rewrite split_no_sep|].
    assert (Hsp : ∀ c, c ≠ " "%char → c ∉ chars r → c ∉ chars (" " +:+ r)).
    { intros c Hne Hnin [?|?]%elem_of_cons; done. }
    split_and!; [apply split_no_sep; by apply Hsp | exact Ht | by apply Hsp]. }
  assert (Hsplit : ∀ rs p, Forall clean_recipient rs → rs ≠ [] → (p = "" ∨ p = " ") →
    trim <$> (JsText.split ","%char (p +:+ JsText.join ", " rs) ≫= JsText.split (Ascii.ascii_of_nat 10)) = rs).
  { clear rs. induction rs as [|r [|r' rs] IH]; intros p Hrs Hne Hp; [done| |].
    - apply Forall_cons in Hrs as [Hr _]. destruct (Hone r Hr p Hp) as (Hs & Ht & Hc).
      change (JsText.join ", " [r]) with r. rewrite split_no_sep by done. simpl.
      rewrite Hs. simpl. by rewrite Ht.
    - apply Forall_cons in Hrs as [Hr Hrs]. destruct (Hone r Hr p Hp) as (Hs & Ht & Hc).
      change (JsText.join ", " (r :: r' :: rs)) with
        (r +:+ String ","%char (" " +:+ JsText.join ", " (r' :: rs))).
      rewrite string_assoc, split_app by done. rewrite bind_cons, Hs, fmap_app.
      simpl fmap at 1. rewrite Ht, IH by (try done; by right). done. }
  intros Hrs. unfold parseRecipients. destruct rs as [|r rs]; [done|].
  rewrite (Hsplit (r :: rs) "" Hrs ltac:(done) ltac:(by left) :
    trim <$> (JsText.split ","%char (JsText.join ", " (r :: rs)) ≫= _) = _).
  clear Hsplit Hone. induction Hrs as [|x l (Hx & _) _ IH]; [done|].
  rewrite filter_cons_True by done. by rewrite IH.
Qed.

Lemma as_strs_strs l : as_strs (Some (strs l)) = Some l.
Proof.
  unfold as_strs, strs. apply mapM_Some. induction l; simpl; by constructor.
Qed.

Lemma severity_of_name x : severity_of (severity_name x) = Some x.
Proof. by destruct x. Qed.

(** The form that shows a configuration, sent back unchanged. *)
Definition resave (v : NotificationConfigView) : SaveNotificationConfig :=
  Save (c_email v) (c_textbelt v) (Some (c_endpoint v)) None (c_signal v)
    (c_throttleWindowSec v) (c_quiet v).

Definition saved_view (v : ChannelView) : ChannelView :=
  View (vw_enabled v) (JsText.join ", " (parseRecipients (vw_recipients v))).

Lemma set_setting_id k v s : settings s !! k = Some v → set_setting k v s = s.
Proof. destruct s as [st ? ? ?]. unfold set_setting. simpl. intros Hk. by rewrite insert_id. Qed.

(** The rows a save writes, the last write first. *)
Definition saved_rows (cfg : SaveNotificationConfig) : list (string * json) :=
  let q := s_quiet cfg in
  let rs v := strs (parseRecipients (vw_recipients v)) in
  [("notify.quiet.channels", strs (filter (λ c, is_Some (routable c)) (q_channels q)));
   ("notify.quiet.floor", JStr (severity_name (q_floor q)));
   ("notify.quiet.end", JStr (q_end q)); ("notify.quiet.start", JStr (q_start q));
   ("notify.quiet.enabled", JBool (q_enabled q));
   ("notify.throttle.windowSec", JNum (Z.max 0 (s_throttleWindowSec cfg)));
   ("notify.signal.recipients", rs (s_signal cfg));
   ("notify.signal.enabled", JBool (vw_enabled (s_signal cfg)));
   ("notify.textbelt.endpoint", JStr (trim (default "" (s_endpoint cfg))));
   ("notify.textbelt.recipients", rs (s_textbelt cfg));
   ("notify.textbelt.enabled", JBool (vw_enabled (s_textbelt cfg)));
   ("notify.email.recipients", rs (s_email cfg));
   ("notify.email.enabled", JBool (vw_enabled (s_email cfg)))].

Definition put_rows (rows : list (string * json)) (m : gmap string json) : gmap string json :=
  foldr (λ kv, insert kv.1 kv.2) m rows.

Lemma put_rows_lookup rows m k v :
  NoDup rows.*1 → (k, v) ∈ rows → put_rows rows m !! k = Some v.
Proof.
  induction rows as [|[k' v'] rows IH]; simpl; [by intros _ ?%elem_of_nil|].
  intros [Hk Hnd]%NoDup_cons [[= -> ->]|Hin]%elem_of_cons; [by rewrite lookup_insert_eq|].
  rewrite lookup_insert_ne; [by apply IH|]. intros ->. apply Hk, list_elem_of_fmap. by exists (k, v).
Qed.

Lemma put_rows_id rows m :
  (∀ k v, (k, v) ∈ rows → m !! k = Some v) → put_rows rows m = m.
Proof.
  induction rows as [|[k v] rows IH]; intros Hm; simpl; [done|].
  rewrite IH by (intros k' v' Hin; apply Hm; by right). apply insert_id, Hm. by left.
Qed.

Lemma saveConfig_settings cfg s :
  settings (saveConfig cfg s) = put_rows (saved_rows cfg) (settings s).
Proof. unfold saveConfig. by destruct (truthy (s_key cfg)). Qed.

Lemma saved_row cfg s k v :
  (k, v) ∈ saved_rows cfg → settings (saveConfig cfg s) !! k = Some v.
Proof.
  intros Hin. rewrite saveConfig_settings. apply put_rows_lookup; [|done].
  refine (bool_decide_unpack _ _). vm_compute. exact I.
Qed.

(** Find a key in a literal list of rows. *)
Ltac saved_key := first [by left | right; saved_key].

Lemma saved_channel cfg s c :
  channelConfig c (saveConfig cfg s) =
    let v := match c with email => s_email cfg | textbelt => s_textbelt cfg | signal => s_signal cfg end in
    Channel (vw_enabled v) (parseRecipients (vw_recipients v)).
Proof.
  unfold channelConfig.
  destruct c; cbn [channel_id];
    erewrite saved_row by (unfold saved_rows; saved_key);
    erewrite saved_row by (unfold saved_rows; saved_key);
    by rewrite as_strs_strs.
Qed.

Definition saved_config (cfg : SaveNotificationConfig) (s : state) : NotificationConfigView :=
  let q := s_quiet cfg in
  Config (saved_view (s_email cfg)) (saved_view (s_textbelt cfg))
    (trim (default "" (s_endpoint cfg)))
    (truthy (s_key cfg) || bool_decide (is_Some (secrets s !! "notify.textbelt.key")))
    (saved_view (s_signal cfg)) (Z.max 0 (s_throttleWindowSec cfg))
    (Quiet (q_enabled q) (q_start q) (q_end q) (q_floor q)
      (filter (λ c, is_Some (routable c)) (q_channels q))).

Lemma saved_rows_resave cfg s : saved_rows (resave (saved_config cfg s)) = saved_rows cfg.
Proof.
  assert (Hrs : ∀ raw, parseRecipients (JsText.join ", " (parseRecipients raw)) = parseRecipients raw).
  { intros raw. apply parse_joined, Forall_forall. by apply parseRecipients_clean. }
  unfold saved_rows. simpl. rewrite !Hrs, trim_idemp, Z.max_r by lia.
  rewrite list_filter_filter. do 3 f_equal.
  erewrite list_filter_iff; [reflexivity|]. intros c. simpl. tauto.
Qed.

Lemma saveConfig_keyless cfg s :
  s_key cfg = None →
  saveConfig cfg s = State (settings (saveConfig cfg s)) (secrets s) (lastSent s) (history s).
Proof. intros Hk. unfold saveConfig. by rewrite Hk. Qed.

(** saving the notification settings and reading them back gives the
    saved values, recipients cleaned and unknown quiet channels dropped; the
    stored SMS key survives a save without one; and saving what is shown
    changes nothing. *)
Theorem config_round_trip (cfg : SaveNotificationConfig) (s : state) :
  let s' := saveConfig cfg s in
  getConfig s' = saved_config cfg s ∧
  (∀ c r, r ∈ recipients (channelConfig c s') → clean_recipient r) ∧
  saveConfig (resave (getConfig s')) s' = s'.
Proof.
  intros s'. assert (Hget : getConfig s' = saved_config cfg s).
  { unfold getConfig, quietConfig, throttle_window. subst s'. rewrite !saved_channel.
    repeat (erewrite saved_row by (unfold saved_rows; saved_key)).
    rewrite as_strs_strs. cbn [as_str as_bool as_num default from_option mbind option_bind].
    rewrite severity_of_name. unfold id, saved_config. f_equal.
    unfold saveConfig. destruct (truthy (s_key cfg)); [|done]. simpl.
    apply bool_decide_eq_true. rewrite lookup_insert_eq. by eexists. }
  split_and!; [done| |].
  - intros c r. subst s'. rewrite saved_channel. by apply parseRecipients_clean.
  - rewrite Hget.
    assert (Hs : settings (saveConfig (resave (saved_config cfg s)) s') = settings s').
    { rewrite saveConfig_settings, saved_rows_resave. apply put_rows_id.
      intros k v. apply saved_row. }
    rewrite (saveConfig_keyless (resave (saved_config cfg s))), Hs by done. by destruct s'.
Qed.
End config.

(** ** Dispatch: one decision per channel *)

Section dispatch.
Context (tz : Z) (deliver : Z → channel → NotificationMessage → list string → option string).
Import NotificationsService.
Implicit Types (m : NotificationMessage) (mt : send_meta) (s : state).

(** What becomes of a message on one channel, read off the state before the
    dispatch: nothing on a channel that is off or has nobody to send to;
    otherwise one history row. *)
Definition held now m (c : channel) s : bool :=
  let q := quietConfig s in
  q_enabled q && inQuietWindow tz now (q_start q) (q_end q) &&
  includes (channel_id c) (q_channels q) && (severityRank (severity m) <? severityRank (q_floor q)).

Definition decision now m mt s (c : channel) : option (delivery * option string) :=
  let cfg := channelConfig c s in
  if negb (ch_enabled cfg) || bool_decide (recipients cfg = []) then None
  else if held now m c s then Some (Held, Some "Held by quiet hours")
  else if isThrottled now c m (throttle_window s) s
    then Some (Throttled, Some "Suppressed by dedupe window")
  else match deliver now c m (recipients cfg) with
       | None => Some (Sent, None)
       | Some err => Some (Failed, Some err)
       end.

Definition decided_row now m mt s (c : channel) : option history_row :=
  '(st, detail) ← decision now m mt s c;
  Some (row_of now c m mt (channelConfig c s) st detail).

Definition sent_on (e : effect) : option channel :=
  match e with Send _ c _ _ => Some c | Log _ _ => None end.
Definition goes_out now m mt s (c : channel) : bool :=
  match decision now m mt s c with Some (Sent, _) => true | _ => false end.

Lemma routable_spec id c : routable id = Some c ↔ channel_id c = id.
Proof.
  split.
  - by intros [_ Hc%bool_decide_eq_true]%findFirst_Some.
  - intros <-. by destruct c.
Qed.

Lemma throttleKey_inj c c' m m' :
  throttleKey c m = throttleKey c' m' → c = c'.
Proof. by destruct c, c'. Qed.

(** A turn of the loop on a channel's id follows the channel's decision. *)
Lemma send_one_run now m mt s c :
  let quiet := quietConfig s in
  let quietNow := q_enabled quiet && inQuietWindow tz now (q_start quiet) (q_end quiet) in
  ∃ o, send_one deliver now (throttle_window s) quiet quietNow m mt (channel_id c) s =
    (Ok tt,
     State (settings s) (secrets s)
       (if goes_out now m mt s c then <[throttleKey c m := now]> (lastSent s) else lastSent s)
       (history s ++ option_list (decided_row now m mt s c)), o) ∧
    omap sent_on o = if goes_out now m mt s c then [c] else [].
Proof.
  cbv zeta. unfold send_one, goes_out, decided_row, decision.
  rewrite (proj2 (routable_spec _ c)) by done. svc_run. fold (held now m c s).
  assert (Hs : s = State (settings s) (secrets s) (lastSent s) (history s)) by by destruct s.
  destruct (negb _ || _); simpl.
  { exists []. split; [|done]. rewrite app_nil_r. by rewrite <- Hs. }
  destruct (held now m c s); svc_run; [by eexists; split; [reflexivity|]|].
  destruct (isThrottled _ _ _ _ _); svc_run; [by eexists; split; [reflexivity|]|].
  destruct (deliver now c m _) as [err|]; svc_run; by eexists; split; [reflexivity|].
Qed.

(** a dispatched message is decided channel by channel, each from the
    settings and the dedupe times before the dispatch: every enabled channel
    with recipients gets exactly one history row, which says it was held by
    quiet hours, throttled, sent or failed; the messages that leave are those
    recorded as sent; and no failure reaches the caller or the other channels. *)
Theorem channels_decided_independently (now : Z) m (cs : list channel) mt s :
  NoDup cs →
  ∃ o ls, sendToChannels tz deliver now m (channel_id <$> cs) mt s =
    (Ok tt, State (settings s) (secrets s) ls (history s ++ omap (decided_row now m mt s) cs), o) ∧
    omap sent_on o = filter (λ c, goes_out now m mt s c = true) cs.
Proof.
  intros Hnd. unfold sendToChannels. svc_run.
  set (quiet := quietConfig s). set (w := throttle_window s).
  set (quietNow := _ && inQuietWindow _ _ _ _).
  assert (Hgen : ∀ cs ls h, NoDup cs →
    (∀ c, c ∈ cs → ls !! throttleKey c m = lastSent s !! throttleKey c m) →
    ∃ o ls', for_each (channel_id <$> cs) (send_one deliver now w quiet quietNow m mt)
        (State (settings s) (secrets s) ls h) =
      (Ok tt, State (settings s) (secrets s) ls' (h ++ omap (decided_row now m mt s) cs), o) ∧
      omap sent_on o = filter (λ c, goes_out now m mt s c = true) cs).
  { clear Hnd cs. induction cs as [|c cs IH]; intros ls h Hnd Hls.
    { exists [], ls. simpl. by rewrite app_nil_r. }
    rewrite fmap_cons. cbn [for_each].
    apply NoDup_cons in Hnd as [Hc Hnd]. set (s1 := State _ _ ls h).
    destruct (send_one_run now m mt s1 c) as (o1 & Hrun & Ho1).
    assert (Hdec : decision now m mt s1 c = decision now m mt s c).
    { unfold decision, isThrottled. simpl. by rewrite Hls by (by left). }
    assert (Hgo : goes_out now m mt s1 c = goes_out now m mt s c)
      by (unfold goes_out; by rewrite Hdec).
    assert (Hrow : decided_row now m mt s1 c = decided_row now m mt s c)
      by (unfold decided_row; by rewrite Hdec).
    rewrite Hgo in Hrun, Ho1. rewrite Hrow in Hrun.
    change (throttle_window s1) with w in Hrun. change (quietConfig s1) with quiet in Hrun.
    fold quietNow in Hrun. subst s1. cbn [settings secrets lastSent history] in Hrun.
    unfold mbind, svc_bind. rewrite Hrun.
    set (ls1 := if goes_out now m mt s c then _ else _).
    destruct (IH ls1 (h ++ option_list (decided_row now m mt s c)) Hnd) as (o2 & ls' & -> & Ho2).
    { intros c' Hc'. subst ls1. destruct (goes_out now m mt s c); [|by apply Hls; right].
      rewrite lookup_insert_ne; [by apply Hls; right|]. intros ->%throttleKey_inj. done. }
    exists (o1 ++ o2), ls'. split.
    - rewrite <- (assoc_L (++)). simpl. by destruct (decided_row now m mt s c).
    - rewrite omap_app, Ho1, Ho2, filter_cons. by destruct (goes_out now m mt s c). }
  destruct (Hgen cs (lastSent s) (history s) Hnd (λ _ _, eq_refl)) as (o & ls & Hrun & Ho).
  exists o, ls. split; [|done]. by destruct s.
Qed.

(** ** Dispatch: spacing *)

Inductive dispatch_event :=
| Raise (now : Z) (typeKey : string) (p : payload)
| AdHoc (now : Z) (t b : string) (sev : option NotificationSeverity)
    (channels : option (list string)).

Definition react (e : dispatch_event) (s : state) : state * list effect :=
  match e with
  | Raise now k p => let r := dispatchAlert tz deliver now k p s in (r.1.2, r.2)
  | AdHoc now t b sev cs => let r := sendMessage tz deliver now t b sev cs s in (r.1.2, r.2)
  end.

Fixpoint run (es : list dispatch_event) (s : state) : state * list effect :=
  match es with
  | [] => (s, [])
  | e :: es' =>
      let '(s1, o1) := react e s in let '(s2, o2) := run es' s1 in (s2, o1 ++ o2)
  end.

(** The key and time of every message that went out. *)
Definition stamps (l : list effect) : list (string * Z) :=
  omap (λ e, match e with Send t c m _ => Some (throttleKey c m, t) | Log _ _ => None end) l.

Definition apart (W : Z) (x y : string * Z) : Prop := x.1 = y.1 → x.2 + W * 1000 ≤ y.2.

(** What has gone out, [l], fits the dedupe times and is spaced. *)
Definition spaced (W : Z) (s : state) (l : list (string * Z)) : Prop :=
  throttle_window s = W ∧ StronglySorted (apart W) l ∧
  ∀ k t, (k, t) ∈ l → ∃ last, lastSent s !! k = Some last ∧ t ≤ last.

Definition keeps_spaced {A} (f : state → A * state * list effect) : Prop :=
  ∀ W s l, 0 < W → spaced W s l → let '(_, s', o) := f s in spaced W s' (l ++ stamps o).

Lemma keeps_spaced_bind {A B} (f : call A) (k : A → call B) :
  keeps_spaced f → (∀ a, keeps_spaced (k a)) → keeps_spaced (f ≫= k).
Proof.
  intros Hf Hk W s l HW Hs. unfold mbind, svc_bind. specialize (Hf W s l HW Hs).
  destruct (f s) as [[[a|e] s1] o1]; [|done]. specialize (Hk a W s1 _ HW Hf).
  destruct (k a s1) as [[r s2] o2]. unfold stamps. rewrite omap_app. by rewrite (assoc_L (++)).
Qed.

Lemma keeps_spaced_silent {A} (f : call A) :
  (∀ s, settings (f s).1.2 = settings s ∧ lastSent (f s).1.2 = lastSent s ∧ stamps (f s).2 = []) →
  keeps_spaced f.
Proof.
  intros Hf W s l HW (Hw & Hl & Hb). specialize (Hf s).
  destruct (f s) as [[r s'] o]. destruct Hf as (Hset & Hls & Hst). simpl in *.
  rewrite Hst, app_nil_r. unfold spaced, throttle_window. rewrite Hset, Hls. done.
Qed.

Lemma StronglySorted_snoc {A} (R : A → A → Prop) l x :
  StronglySorted R l → Forall (λ y, R y x) l → StronglySorted R (l ++ [x]).
Proof.
  intros Hl Hx. apply StronglySorted_app_2; [|done|by repeat constructor].
  intros y z Hy ->%list_elem_of_singleton. by eapply Forall_forall in Hy; [|exact Hx].
Qed.

Lemma StronglySorted_lookup {A} (R : A → A → Prop) l i j x y :
  StronglySorted R l → (i < j)%nat → l !! i = Some x → l !! j = Some y → R x y.
Proof.
  intros Hl. revert i j. induction Hl as [|z l _ IH Hz]; intros i j Hij; [done|].
  destruct i as [|i], j as [|j]; try lia; simpl.
  - intros [= ->] Hy. by eapply Forall_lookup_1.
  - intros Hx Hy. eapply (IH i j); [lia|done|done].
Qed.

Lemma spaced_nil W s l : spaced W s l → spaced W s (l ++ stamps []).
Proof. by rewrite app_nil_r. Qed.

Lemma keeps_spaced_send now W quiet quietNow m mt id s l :
  0 < W → spaced W s l →
  let '(_, s', o) := send_one deliver now W quiet quietNow m mt id s in
  spaced W s' (l ++ stamps o).
Proof.
  intros HW (Hw & Hl & Hb). unfold send_one.
  destruct (routable id) as [c|]; svc_run; [|by apply spaced_nil].
  assert (Hsame : ∀ h, spaced W (State (settings s) (secrets s) (lastSent s) h) (l ++ [])).
  { intros h. by rewrite app_nil_r. }
  destruct (negb _ || _); svc_run; [by apply spaced_nil|].
  destruct (quietNow && _ && _); svc_run; [apply Hsame|].
  destruct (isThrottled now c m W s) eqn:Hthr; svc_run; [apply Hsame|].
  destruct (deliver now c m _) as [err|]; svc_run; [apply Hsame|].
  unfold isThrottled in Hthr. rewrite (proj2 (Z.leb_gt _ _)) in Hthr by done.
  assert (Hold : ∀ t, (throttleKey c m, t) ∈ l → t + W * 1000 ≤ now).
  { intros t Ht. destruct (Hb _ _ Ht) as (last & Hlast & Hle). rewrite Hlast in Hthr.
    apply Z.ltb_ge in Hthr. lia. }
  split_and!; simpl.
  - done.
  - apply StronglySorted_snoc; [done|]. apply Forall_forall. intros [k t] Hin Hk. simpl in *.
    subst k. by apply Hold.
  - intros k t [Hin|[= -> ->]%list_elem_of_singleton]%elem_of_app.
    + destruct (decide (throttleKey c m = k)) as [<-|Hne].
      * rewrite lookup_insert_eq. exists now. split; [done|]. specialize (Hold t Hin). lia.
      * rewrite lookup_insert_ne by done. by apply Hb.
    + rewrite lookup_insert_eq. by exists now.
Qed.

Lemma keeps_spaced_channels now m ids mt :
  keeps_spaced (sendToChannels tz deliver now m ids mt).
Proof.
  intros W s l HW Hs. unfold sendToChannels. svc_run. destruct Hs as (Hw & Hs).
  assert (Hs' : spaced W s l) by done. revert Hs'. rewrite Hw. clear Hw Hs.
  generalize (quietConfig s). intros quiet. generalize (q_enabled quiet && inQuietWindow tz now
    (q_start quiet) (q_end quiet)). intros quietNow. revert s l.
  induction ids as [|id ids IH]; intros s l Hs; simpl; [by apply spaced_nil|].
  unfold mbind, svc_bind. generalize (keeps_spaced_send now W quiet quietNow m mt id s l HW Hs).
  destruct (send_one _ _ _ _ _ _ _ _ _) as [[[[]|e] s1] o1]; [|done]. intros Hs1.
  specialize (IH s1 _ Hs1). destruct (for_each _ _ _) as [[r s2] o2].
  unfold stamps. rewrite omap_app. by rewrite (assoc_L (++)).
Qed.

(** with a dedupe window of [W] seconds, two messages with the same
    channel and dedupe key never go out less than [W] seconds apart, however
    many alerts and ad-hoc messages are dispatched, and whatever the clock. *)
Theorem same_alert_never_within_window (W : Z) (es : list dispatch_event) (s : state) (i j : nat)
    (k : string) (t1 t2 : Z) :
  0 < W → throttle_window s = W → (i < j)%nat →
  stamps (run es s).2 !! i = Some (k, t1) → stamps (run es s).2 !! j = Some (k, t2) →
  t1 + W * 1000 ≤ t2.
Proof.
  intros HW Hw Hij.
  assert (Hrun : ∀ es s l, spaced W s l → spaced W (run es s).1 (l ++ stamps (run es s).2)).
  { clear es s Hw. induction es as [|e es IH]; intros s l Hs; simpl; [by apply spaced_nil|].
    assert (He : let '(s1, o1) := react e s in spaced W s1 (l ++ stamps o1)).
    { destruct e as [now key p|now t b sev cs]; simpl.
      - assert (Hk : keeps_spaced (dispatchAlert tz deliver now key p)).
        { unfold dispatchAlert. destruct (getAlertType key); [|by apply keeps_spaced_silent].
          apply keeps_spaced_bind; [by apply keeps_spaced_silent|]. intros s0.
          repeat (case_match; try by apply keeps_spaced_silent).
          apply keeps_spaced_channels. }
        specialize (Hk W s l HW Hs). by destruct (dispatchAlert _ _ _ _ _ _) as [[? ?] ?].
      - assert (Hk : keeps_spaced (sendMessage tz deliver now t b sev cs)).
        { unfold sendMessage. apply keeps_spaced_bind; [apply keeps_spaced_channels|].
          intros []. by apply keeps_spaced_silent. }
        specialize (Hk W s l HW Hs). by destruct (sendMessage _ _ _ _ _ _ _ _) as [[? ?] ?]. }
    destruct (react e s) as [s1 o1]. specialize (IH s1 _ He).
    destruct (run es s1) as [s2 o2]. unfold stamps in *. simpl in *.
    by rewrite omap_app, (assoc_L (++)). }
  destruct (Hrun es s []) as (_ & Hsorted & _).
  { split_and!; [done|constructor|by intros ? ? ?%elem_of_nil]. }
  simpl in Hsorted. intros Hi Hj.
  by apply (StronglySorted_lookup _ _ _ _ _ _ Hsorted Hij Hi Hj).
Qed.
End dispatch.

(** ** Witnesses *)

Section witnesses.
Import NotificationsService.

Definition sms_down (_ : Z) (c : channel) (_ : NotificationMessage) (_ : list string) :
    option string := if bool_decide (c = textbelt) then Some "gateway down" else None.

Definition ready : state :=
  State (put_rows
    [("notify.email.enabled", JBool true); ("notify.email.recipients", strs ["a@x"]);
     ("notify.textbelt.enabled", JBool true); ("notify.textbelt.recipients", strs ["555"])] ∅) ∅ ∅ [].

Definition hello : NotificationMessage := Message "Hi" "" critical "test" None.

Lemma channels_decided_independently_witness :
  ∃ o s', sendToChannels 0 sms_down 0 hello (channel_id <$> [textbelt; email]) (Meta None None) ready =
    (Ok tt, s', o) ∧ h_status <$> history s' = [Failed; Sent] ∧ omap sent_on o = [email].
Proof.
  assert (Hnd : NoDup [textbelt; email]) by (apply (bool_decide_unpack _); exact I).
  destruct (channels_decided_independently 0 sms_down 0 hello _ (Meta None None) ready Hnd)
    as (o & ls & Hrun & Ho).
  exists o. eexists. split; [exact Hrun|]. rewrite Ho. split; vm_compute; reflexivity.
Defined.

Definition same_down : payload := Payload "Site down" "" (Some "monitor:m1:down") None (Some "m1").

Lemma same_alert_never_within_window_witness :
  let es := [Raise 0 "monitor.down" same_down; Raise 299000 "monitor.down" same_down;
             Raise 300000 "monitor.down" same_down] in
  stamps (run 0 sms_down es ready).2 =
    [("email:monitor:m1:down", 0); ("email:monitor:m1:down", 300000)] ∧ 0 + 300 * 1000 ≤ 300000.
Proof.
  intros es. assert (Hst : stamps (run 0 sms_down es ready).2 =
    [("email:monitor:m1:down", 0); ("email:monitor:m1:down", 300000)]) by (vm_compute; done).
  split; [exact Hst|].
  apply (same_alert_never_within_window 0 sms_down 300 es ready 0 1 "email:monitor:m1:down");
    rewrite ?Hst; [lia | vm_compute; done | lia | done | done].
Defined.
End witnesses.
