(* ===== verification/Timeline.v ===== *)
(** * The event timeline

    [timeline/timeline.mappers.ts] and the filter of [timeline/timeline-bus.ts]:
    rows of the database become events of one shape, which the live bus hands
    to its subscribers.  An instant stands for its ISO text; [JNum] also stands
    for the counters a row holds. *)
From S2P Require Import Prelude JsText.
From stdpp Require Import strings pretty options.

Record TimelineEvent := Event {
  ev_id : string;
  ts : Z;
  kind : string;
  ev_severity : string;
  ev_title : string;
  detail : option string;
  actor : option (option string * option string);
  ev_source : option string;
  meta : option json
}.

Record AuditRow := {
  ar_id : string; ar_createdAt : Z; ar_actorId : option string; ar_actorEmail : option string;
  ar_action : string; ar_target : option string; ar_meta : option json
}.
Record AppLogRow := {
  lr_id : string; lr_createdAt : Z; lr_level : string; lr_context : string;
  lr_message : string; lr_meta : option json
}.
Record NotificationRow := {
  nr_id : string; nr_createdAt : Z; nr_title : string; nr_severity : string; nr_status : string;
  nr_channel : string; nr_recipients : Z; nr_connectorId : option string;
  nr_source : option string; nr_detail : option string; nr_alertKey : option string
}.
Record RunRow := {
  rr_id : string; rr_startedAt : Z; rr_finishedAt : option Z; rr_instanceId : string;
  rr_trigger : string; rr_status : string; rr_message : option string
}.
Record RestoreRow := {
  rs_id : string; rs_startedAt : Z; rs_finishedAt : option Z; rs_destInstanceId : string;
  rs_sourceStackName : string; rs_destStackName : string; rs_status : string;
  rs_message : option string; rs_snapshotId : string
}.
Record HeartbeatRow := {
  hr_id : Z; hr_at : Z; hr_monitorId : string; hr_status : string;
  hr_latencyMs : option Z; hr_message : option string
}.

(** [x ?? null] inside a JSON value. *)
Definition jstr (x : option string) : json := from_option JStr JNull x.
Definition jnum (x : option Z) : json := from_option JNum JNull x.

Definition capitalize (s : string) : string :=
  match s with EmptyString => s | String c r => String (upper_char c) r end.

(** [auditSeverity] *)
Definition auditSeverity (action : string) : string :=
  let a := toLowerCase action in
  if has_substring "fail" a || has_substring "denied" a || has_substring "error" a then "warning"
  else if has_substring "delete" a || has_substring "revoke" a then "warning"
  else "info".

(** [humanizeAction]: dots and underscores become spaces. *)
Definition humanizeAction (action : string) : string :=
  capitalize (trim (of_chars ((λ c, if bool_decide (c = "."%char ∨ c = "_"%char) then " "%char else c)
    <$> chars action))).

Definition mapAuditRow (r : AuditRow) : TimelineEvent :=
  let m := nullish (ar_meta r) in
  Event ("audit:" +:+ ar_id r) (ar_createdAt r) "audit" (auditSeverity (ar_action r))
    (humanizeAction (ar_action r) +:+
      (if truthy (ar_target r) then " — " +:+ default "" (ar_target r) else ""))
    None
    (if truthy (ar_actorId r) || truthy (ar_actorEmail r)
     then Some (ar_actorId r, ar_actorEmail r) else None)
    (match m ≫= json_field "connectorId" with Some (JStr c) => Some c | _ => None end)
    m.

Definition mapAppLogRow (r : AppLogRow) : TimelineEvent :=
  Event ("app_log:" +:+ lr_id r) (lr_createdAt r) "app_log"
    (if bool_decide (lr_level r = "error") then "critical" else "warning")
    (lr_context r +:+ ": " +:+ lr_message r) None None (Some (lr_context r))
    (nullish (lr_meta r)).

Definition mapNotificationRow (r : NotificationRow) : TimelineEvent :=
  Event ("notification:" +:+ nr_id r) (nr_createdAt r) "notification"
    (if bool_decide (nr_status r = "failed") then "critical"
     else if bool_decide (nr_severity r = "critical") then "critical"
     else if bool_decide (nr_severity r = "warning") then "warning" else "info")
    (nr_title r) (Some (default (nr_channel r +:+ " · " +:+ nr_status r) (nr_detail r)))
    None (match nr_connectorId r with Some c => Some c | None => nr_source r end)
    (Some (JObj [("channel", JStr (nr_channel r)); ("status", JStr (nr_status r));
                 ("recipients", JNum (nr_recipients r)); ("alertKey", jstr (nr_alertKey r))])).

Definition run_severity (st : string) (running : string) : string :=
  if bool_decide (st = "error") then "critical"
  else if bool_decide (st = "success") then "success" else running.

Definition mapStackBackupRunRow (stackName : string) (snapshotId : option string) (r : RunRow) :
    TimelineEvent :=
  Event ("stackbackup:" +:+ rr_id r) (rr_startedAt r) "job" (run_severity (rr_status r) "info")
    (capitalize (rr_trigger r) +:+ " stack backup " +:+ rr_status r +:+ ": " +:+ stackName)
    (rr_message r) None (Some (rr_instanceId r))
    (Some (JObj [("stack", JStr stackName); ("trigger", JStr (rr_trigger r));
                 ("status", JStr (rr_status r)); ("snapshotId", jstr snapshotId);
                 ("finishedAt", jnum (rr_finishedAt r))])).

Definition mapStackRestoreRunRow (r : RestoreRow) : TimelineEvent :=
  Event ("stackrestore:" +:+ rs_id r) (rs_startedAt r) "job" (run_severity (rs_status r) "warning")
    ("Stack restore " +:+ rs_status r +:+ ": " +:+ rs_sourceStackName r +:+ " → " +:+
      rs_destStackName r)
    (rs_message r) None (Some (rs_destInstanceId r))
    (Some (JObj [("sourceStack", JStr (rs_sourceStackName r));
                 ("destStack", JStr (rs_destStackName r)); ("snapshotId", JStr (rs_snapshotId r));
                 ("status", JStr (rs_status r)); ("finishedAt", jnum (rs_finishedAt r))])).

Definition mapBackupRunRow (r : RunRow) : TimelineEvent :=
  Event ("job:" +:+ rr_id r) (rr_startedAt r) "job" (run_severity (rr_status r) "info")
    (capitalize (rr_trigger r) +:+ " job " +:+ rr_status r) (rr_message r) None
    (Some (rr_instanceId r))
    (Some (JObj [("trigger", JStr (rr_trigger r)); ("status", JStr (rr_status r));
                 ("finishedAt", jnum (rr_finishedAt r))])).

Definition mapMonitorHeartbeatRow (r : HeartbeatRow) (monitorName : option string) :
    TimelineEvent :=
  Event ("monitor:" +:+ num_to_string (hr_id r)) (hr_at r) "monitor"
    (if bool_decide (hr_status r = "down") then "critical"
     else if bool_decide (hr_status r = "up") then "success" else "info")
    (default "Monitor" monitorName +:+ " is " +:+ hr_status r) (hr_message r) None
    (Some (hr_monitorId r))
    (Some (JObj [("status", JStr (hr_status r)); ("latencyMs", jnum (hr_latencyMs r))])).

(** ** The bus filter *)

Record TimelineQuery := {
  q_kinds : option (list string);
  q_severities : option (list string);
  q_source : option string;
  q_actorId : option string;
  q_text : option string
}.

(** [xs?.length && !xs.includes(x)] *)
Definition excluded (xs : option (list string)) (x : string) : bool :=
  match xs with Some (y :: ys) => negb (includes x (y :: ys)) | _ => false end.

(** [(a ?? '').toLowerCase().includes(b.toLowerCase())] *)
Definition includes_ci (a : option string) (b : string) : bool :=
  has_substring (toLowerCase b) (toLowerCase (default "" a)).

Definition haystack (e : TimelineEvent) : string := ev_title e +:+ " " +:+ default "" (detail e).

Definition matches (e : TimelineEvent) (q : TimelineQuery) : bool :=
  if excluded (q_kinds q) (kind e) then false
  else if excluded (q_severities q) (ev_severity e) then false
  else if truthy (q_actorId q) &&
          negb (bool_decide ((actor e ≫= fst) = q_actorId q)) then false
  else if truthy (q_source q) && negb (includes_ci (ev_source e) (default "" (q_source q))) then false
  else if truthy (q_text q) && negb (includes_ci (Some (haystack e)) (default "" (q_text q))) then false
  else true.
