(* ===== verification/Automations.v ===== *)
(** * The rules engine

    [automations/automations.service.ts]: WHEN a timeline event (or a schedule)
    fires, IF the conditions hold, DO the actions.  What the other services do
    with an action is behind an interface; alerts go to the dispatcher as an
    effect, which never throws. *)
From S2P Require Import Prelude JsText Schedule IpPolicy Timeline Notifications.
From Stdlib Require Import Sorted.
From stdpp Require Import gmap strings pretty sorting options.

#[local] Open Scope Z_scope.
#[local] Set Default Proof Using "Type*".

(** ** Rules *)

Inductive RuleTrigger :=
| EventTrigger (kinds severities : option (list string)) (source textContains : option string)
    (occurrences : option (Z * Z))
| ScheduleTrigger (cron : string).

Inductive RuleCondition :=
| TimeWindow (start end_ : string)
| SeverityAtLeast (sev : string)
| MetaThreshold (path op : string) (value : json)
| MonitorState (monitorId st : string).

Inductive RuleAction :=
| Notify (title : string) (body : option string)
| ConnectorAction (instanceId kind resourceId actionId : string)
| ConnectorOperation (instanceId operationId : string) (resourceId : option string) (values : json)
| PauseMonitor (monitorId : string)
| ResumeMonitor (monitorId : string)
| Webhook (url : string) (method : option string) (body : option string)
| AskComputer (prompt : string) (title : option string) (agentId : option string)
| OtherAction (type : string).

Record AutomationRule := {
  ru_id : string;
  ru_name : string;
  ru_enabled : bool;
  trigger : RuleTrigger;
  conditions : list RuleCondition;
  actions : list RuleAction;
  cooldownSec : Z;
  lastFiredAt : option Z
}.

Record AutomationRun := Run {
  run_ruleId : string; run_ruleName : string; run_trigger : string;
  run_status : string; run_message : string; run_at : Z
}.

Record url := Url { u_protocol : string; u_hostname : string }.

(** What the engine asks of the rest of the program and of the network:
    connectors, monitors, the assistant, HTTP, name resolution, URL parsing. *)
Class Ports := {
  performAction : string → string → string → string → result string unit;
  startOperation : string → string → option string → json → result string string;
  switchMonitor : string → bool → result string string;
  monitorStatus : string → option string;
  askAssistant : string → option string → option string → option (result string string);
  httpSend : string → string → option string → result string Z;
  resolveHost : string → list string;
  parseUrl : string → option url;
  local_targets_env : option string
}.

Inductive effect :=
| Dispatch (typeKey : string) (p : NotificationsService.payload)
| Http (method url : string) (body : option string)
| AuditTagged (r : AuditRow)
| Audited (actorId actorEmail : option string) (action target : string)
| Fired (at_ : Z) (ruleId : string) (forced : bool).

Record state := State {
  rules : list AutomationRule;
  cache : list AutomationRule;
  lastFired : gmap string Z;
  recentMatches : gmap string (list Z);
  runs : list AutomationRun
}.

Abbreviation call := (svc state effect string).

Definition with_rules (f : list AutomationRule → list AutomationRule) (s : state) : state :=
  State (f (rules s)) (cache s) (lastFired s) (recentMatches s) (runs s).
Definition with_memory (lf : gmap string Z) (rm : gmap string (list Z)) (s : state) : state :=
  State (rules s) (cache s) lf rm (runs s).

(** ** Pure helpers *)

Definition SEV_RANK (s : string) : Z :=
  if bool_decide (s = "warning") then 1 else if bool_decide (s = "critical") then 2 else 0.

Definition matchesEvent (kinds severities : option (list string))
    (source textContains : option string) (e : TimelineEvent) : bool :=
  if excluded kinds (kind e) then false
  else if excluded severities (ev_severity e) then false
  else if truthy source && negb (includes_ci (ev_source e) (default "" source)) then false
  else if truthy textContains &&
          negb (includes_ci (Some (haystack e)) (default "" textContains)) then false
  else true.

Definition syntheticEvent (now : Z) : TimelineEvent :=
  Event "schedule" now "audit" "info" "schedule" None None None (Some (JObj [])).

(** [o[key]] on anything JSON: arrays have their indices and a length. *)
Definition get_key (v : option json) (key : string) : option json :=
  match v with
  | Some (JObj l) => json_field key (JObj l)
  | Some (JArr l) =>
      if bool_decide (key = "length") then Some (JNum (Z.of_nat (length l)))
      else if all_digits key && bool_decide (num_to_string (digits_value key) = key)
      then l !! Z.to_nat (digits_value key) else None
  | _ => None
  end.
Definition getPath (obj : json) (path : string) : option json :=
  foldl get_key (Some obj) (JsText.split "."%char path).

Definition metaThresholdHolds (path op : string) (value : json) (m : option json) : bool :=
  match nullish (getPath (default (JObj []) (nullish m)) path) with
  | None => false
  | Some raw =>
      let num := Number_json (Some raw) in
      let target := Number_json (Some value) in
      let cmp (f : Z → Z → bool) :=
        match num, target with Some a, Some b => f a b | _, _ => false end in
      let same := match num, target with
                  | Some a, Some b => a =? b
                  | _, _ => bool_decide (js_String raw = js_String value)
                  end in
      if bool_decide (op = ">") then cmp (λ a b, b <? a)
      else if bool_decide (op = ">=") then cmp (λ a b, b <=? a)
      else if bool_decide (op = "<") then cmp Z.ltb
      else if bool_decide (op = "<=") then cmp Z.leb
      else if bool_decide (op = "==") then same
      else if bool_decide (op = "!=") then negb same
      else false
  end.

(** [/\{\{\s*(\w+)\s*\}\}/g]: a placeholder at the head of [l], as its key and
    the text after it. *)
Definition word_char (c : ascii) : bool :=
  is_digit c || is_upper c || is_lower c || bool_decide (c = "_"%char).
Fixpoint span_word (l : list ascii) : list ascii * list ascii :=
  match l with
  | c :: l' => if word_char c then let '(w, r) := span_word l' in (c :: w, r) else ([], l)
  | [] => ([], [])
  end.
Definition placeholder (l : list ascii) : option (string * list ascii) :=
  match l with
  | c1 :: c2 :: l1 =>
      if bool_decide (c1 = "{"%char ∧ c2 = "{"%char) then
        let '(w, l2) := span_word (drop_while is_space l1) in
        match w, drop_while is_space l2 with
        | _ :: _, c3 :: c4 :: l3 =>
            if bool_decide (c3 = "}"%char ∧ c4 = "}"%char) then Some (of_chars w, l3) else None
        | _, _ => None
        end
      else None
  | _ => None
  end.
Fixpoint render_chars (fuel : nat) (tokens : string → string) (l : list ascii) : list ascii :=
  match fuel, l with
  | S fuel', c :: l' =>
      match placeholder l with
      | Some (k, rest) => chars (tokens k) ++ render_chars fuel' tokens rest
      | None => c :: render_chars fuel' tokens l'
      end
  | _, _ => l
  end.
Definition token (r : AutomationRule) (e : option TimelineEvent) (k : string) : string :=
  let field (f : TimelineEvent → string) := from_option f "" e in
  if bool_decide (k = "ruleName") then ru_name r
  else if bool_decide (k = "title") then field ev_title
  else if bool_decide (k = "detail") then field (λ e, default "" (detail e))
  else if bool_decide (k = "severity") then field ev_severity
  else if bool_decide (k = "source") then field (λ e, default "" (ev_source e))
  else if bool_decide (k = "kind") then field kind
  else "".
Definition renderTemplate (tpl : string) (r : AutomationRule) (e : option TimelineEvent) : string :=
  of_chars (render_chars (String.length tpl) (token r e) (chars tpl)).

(** [/^(\d{1,2}):(\d{2})$/] *)
Definition toMinutes (hhmm : string) : option Z :=
  match JsText.split ":"%char (trim hhmm) with
  | [h; m] =>
      if all_digits h && (String.length h <=? 2)%nat && all_digits m && (String.length m =? 2)%nat
      then Some (digits_value h * 60 + digits_value m) else None
  | _ => None
  end.
Definition inTimeWindow (tz now : Z) (start end_ : string) : bool :=
  let cur := getHours tz now * 60 + getMinutes tz now in
  match toMinutes start, toMinutes end_ with
  | Some s, Some e =>
      if s <=? e then (s <=? cur) && (cur <=? e) else (s <=? cur) || (cur <=? e)
  | _, _ => true
  end.

(** The parts of a trimmed text between runs of blanks. *)
Fixpoint blank_words (l w : list ascii) : list string :=
  let flush := if bool_decide (w = []) then [] else [of_chars (reverse w)] in
  match l with
  | [] => flush
  | c :: l' => if is_space c then flush ++ blank_words l' [] else blank_words l' (c :: w)
  end.

(** [matchCronField]; [None] is [NaN], which every comparison refuses. *)
Definition matchCronPart (part : string) (value : Z) : bool :=
  let pieces := JsText.split "/"%char part in
  let step := match tail pieces with k :: _ => Number k | [] => Some 1 end in
  let range := default "" (head pieces) in
  if bool_decide (range = "*") then
    match step with Some k => (0 <? k) && (Z.rem value k =? 0) | None => false end
  else if has_substring "-" range then
    match JsText.split "-"%char range with
    | a :: b :: _ =>
        match Number a, Number b with
        | Some a, Some b =>
            let k := match step with Some 0 | None => 1 | Some k => k end in
            (a <=? value) && (value <=? b) && (Z.rem (value - a) k =? 0)
        | _, _ => false
        end
    | _ => false
    end
  else match Number range with Some n => n =? value | None => false end.
Definition matchCronField (spec : string) (value : Z) : bool :=
  if bool_decide (spec = "*") then true
  else some (λ part, matchCronPart part value) (JsText.split ","%char spec).
Definition matchCron (tz : Z) (cron : string) (now : Z) : bool :=
  match blank_words (chars cron) [] with
  | [a; b; c; d; e] =>
      matchCronField a (getMinutes tz now) && matchCronField b (getHours tz now) &&
      matchCronField c (getDate tz now) && matchCronField d (getMonth tz now + 1) &&
      matchCronField e (getDay tz now)
  | _ => false
  end.

Definition describeEvent (e : TimelineEvent) : string :=
  slice_to 200 (kind e +:+ "/" +:+ ev_severity e +:+ ": " +:+ ev_title e).

Definition clampCooldown (v : option Z) : Z :=
  match v with Some n => Z.max 0 (Z.min 86400 n) | None => 60 end.

(** ** The service *)

Module AutomationsService.
Section service.
Context `{Ports} (tz : Z).

Definition refresh (s : state) : state :=
  State (rules s) (findMany ru_enabled (rules s)) (lastFired s) (recentMatches s) (runs s).

Record ActorCtx := Ctx { actorId : option string; actorEmail : option string }.

Definition record (ctx : option ActorCtx) (action target : string) : call unit :=
  match ctx with
  | Some c => when (truthy (actorId c) || truthy (actorEmail c))
                (tell (Audited (actorId c) (actorEmail c) action target))
  | None => mret tt
  end.

Record rule_input := {
  i_name : option string; i_enabled : option bool; i_trigger : option RuleTrigger;
  i_conditions : option (list RuleCondition); i_actions : option (list RuleAction);
  i_cooldownSec : option Z
}.

Definition has_rule_id (i : string) (r : AutomationRule) : bool := bool_decide (ru_id r = i).

Definition create (id name : string) (t : RuleTrigger) (i : rule_input) (ctx : option ActorCtx) :
    call AutomationRule :=
  let r := {| ru_id := id; ru_name := trim name; ru_enabled := default true (i_enabled i);
              trigger := t; conditions := default [] (i_conditions i);
              actions := default [] (i_actions i);
              cooldownSec := clampCooldown (i_cooldownSec i); lastFiredAt := None |} in
  modify (with_rules (createRow r)) ;;
  modify refresh ;;
  record ctx "automation.rule_created" (ru_name r) ;;
  mret r.

Definition patch (i : rule_input) (r : AutomationRule) : AutomationRule :=
  {| ru_id := ru_id r; ru_name := from_option trim (ru_name r) (i_name i);
     ru_enabled := default (ru_enabled r) (i_enabled i);
     trigger := default (trigger r) (i_trigger i);
     conditions := default (conditions r) (i_conditions i);
     actions := default (actions r) (i_actions i);
     cooldownSec := match i_cooldownSec i with
                    | Some c => clampCooldown (Some c) | None => cooldownSec r end;
     lastFiredAt := lastFiredAt r |}.

Definition update (id : string) (i : rule_input) (ctx : option ActorCtx) : call AutomationRule :=
  s ← get;
  r ← or_throw (findFirst (has_rule_id id) (rules s)) "Record to update not found.";
  modify (with_rules (updateMany (has_rule_id id) (patch i))) ;;
  modify refresh ;;
  record ctx "automation.rule_updated" (ru_name (patch i r)) ;;
  mret (patch i r).

Definition remove (id : string) (ctx : option ActorCtx) : call unit :=
  s ← get;
  r ← or_throw (findFirst (has_rule_id id) (rules s)) "Record to delete does not exist.";
  modify (with_rules (deleteMany (has_rule_id id))) ;;
  modify (λ s, with_memory (delete id (lastFired s)) (recentMatches s) s) ;;
  modify refresh ;;
  record ctx "automation.rule_deleted" (ru_name r).

(** ** Evaluation *)

Definition condition_holds (now : Z) (e : TimelineEvent) (c : RuleCondition) : bool :=
  match c with
  | SeverityAtLeast sev => SEV_RANK sev <=? SEV_RANK (ev_severity e)
  | TimeWindow a b => inTimeWindow tz now a b
  | MetaThreshold path op v => metaThresholdHolds path op v (meta e)
  | MonitorState id st =>
      match monitorStatus id with
      | Some a => includes a ["paused"; "up"; "down"] && bool_decide (a = st)
      | None => false
      end
  end.
Definition holds (now : Z) (cs : list RuleCondition) (e : TimelineEvent) : bool :=
  every (condition_holds now e) cs.

Definition occurrencesReached (now : Z) (ruleId : string) (occ : option (Z * Z)) : call bool :=
  match occ with
  | None => mret true
  | Some (count, windowSec) =>
      if (count <=? 1) || (windowSec <=? 0) then mret true
      else
        s ← get;
        let hits := filter (λ t, now - windowSec * 1000 ≤ t)
          (default [] (recentMatches s !! ruleId)) ++ [now] in
        if Z.of_nat (length hits) <? count then
          modify (λ s, with_memory (lastFired s) (<[ruleId := hits]> (recentMatches s)) s) ;;
          mret false
        else
          modify (λ s, with_memory (lastFired s) (<[ruleId := []]> (recentMatches s)) s) ;;
          mret true
  end.

Definition assertWebhookAllowed (rawUrl : string) : result string unit :=
  if SsrfGuard.allowLocalTargets local_targets_env then Ok tt
  else match parseUrl rawUrl with
       | None => Err "webhook URL is invalid"
       | Some u =>
           if negb (includes (u_protocol u) ["http:"; "https:"])
           then Err "webhook URL must be http(s)"
           else
             let host := SsrfGuard.strip_brackets (u_hostname u) in
             match SsrfGuard.hostBlockedReason local_targets_env host with
             | Some why => Err why
             | None =>
                 if Net.isIP host =? 0 then
                   match findFirst SsrfGuard.isBlockedAddress (resolveHost host) with
                   | Some a => Err ("Blocked webhook target " +:+ a +:+
                                 " (loopback/link-local/metadata).")
                   | None => Ok tt
                   end
                 else Ok tt
             end
       end.

Definition alert_payload (t b key : string) : NotificationsService.payload :=
  NotificationsService.Payload t b (Some key) None None.

Definition ask_context (e : TimelineEvent) : string :=
  "kind=" +:+ kind e +:+ "; severity=" +:+ ev_severity e +:+ "; title=" +:+ ev_title e +:+
  "; source=" +:+ default "" (ev_source e) +:+ "; detail=" +:+ default "" (detail e).

Definition runAction (a : RuleAction) (r : AutomationRule) (e : option TimelineEvent) :
    call string :=
  match a with
  | Notify t b =>
      tell (Dispatch "automation.notify"
        (alert_payload t (default "" b) ("automation.notify:" +:+ t))) ;;
      mret ("notified: " +:+ t)
  | ConnectorAction i k res act =>
      match performAction i k res act with
      | Ok _ => mret (act +:+ " " +:+ res)
      | Err m => throw ("action " +:+ act +:+ ": " +:+ m)
      end
  | ConnectorOperation i op res vals =>
      jobId ← lift (startOperation i op res vals);
      mret ("operation " +:+ op +:+ " (job " +:+ slice_to 8 jobId +:+ ")")
  | PauseMonitor id =>
      name ← lift (switchMonitor id false); mret ("paused monitor " +:+ name)
  | ResumeMonitor id =>
      name ← lift (switchMonitor id true); mret ("resumed monitor " +:+ name)
  | Webhook u m b =>
      lift (assertWebhookAllowed u) ;;
      let method := default "POST" m in
      let text := if bool_decide (method = "POST")
                  then Some (renderTemplate (default "" b) r e) else None in
      tell (Http method u text) ;;
      code ← lift (httpSend method u text);
      throw_if (negb ((200 <=? code) && (code <? 300))) ("webhook " +:+ num_to_string code) ;;
      mret ("webhook " +:+ method +:+ " " +:+ num_to_string code)
  | AskComputer p t agent =>
      match askAssistant p (ask_context <$> e) (if truthy agent then agent else None) with
      | None => throw "the Computer is not available"
      | Some res =>
          answer ← lift res;
          tell (Dispatch "automation.ask_computer"
            (alert_payload (default "Computer" t)
              (if bool_decide (answer = "") then "(no answer)" else answer)
              ("automation.ask_computer:" +:+ ru_id r))) ;;
          mret ("computer replied (" +:+ num_to_string (Z.of_nat (String.length answer)) +:+
            " chars)")
      end
  | OtherAction _ => throw "unknown action type"
  end.

Definition run_actions (r : AutomationRule) (e : option TimelineEvent) :
    list RuleAction → call (list (bool * string)) :=
  fix go acts :=
    match acts with
    | [] => mret []
    | a :: acts' =>
        x ← catch (m ← runAction a r e; mret (true, m)) (λ err, mret (false, err));
        xs ← go acts';
        mret (x :: xs)
    end.

Definition run_status_of (results : list (bool * string)) : string :=
  let okCount := length (filter (λ x : bool * string, x.1 = true) results) in
  if bool_decide (results = []) then "skipped"
  else if (okCount =? length results)%nat then "success"
  else if (okCount =? 0)%nat then "error" else "partial".

Definition run_message_of (results : list (bool * string)) : string :=
  let m := JsText.join " · " ((λ x : bool * string, (if x.1 then "✓" else "✗") +:+ " " +:+ x.2) <$> results) in
  if bool_decide (m = "") then "no actions" else m.

Definition stamp_rule (now : Z) (r : AutomationRule) : AutomationRule :=
  {| ru_id := ru_id r; ru_name := ru_name r; ru_enabled := ru_enabled r; trigger := trigger r;
     conditions := conditions r; actions := actions r; cooldownSec := cooldownSec r;
     lastFiredAt := Some now |}.

(** The audit row of a run, marked so that it triggers no rule. *)
Definition run_audit (id : string) (now : Z) (r : AutomationRule) (status desc : string) : AuditRow :=
  {| ar_id := id; ar_createdAt := now; ar_actorId := None; ar_actorEmail := None;
     ar_action := "automation." +:+ status; ar_target := Some (ru_name r);
     ar_meta := Some (JObj [("automation", JBool true); ("ruleId", JStr (ru_id r));
                            ("trigger", JStr desc)]) |}.

Definition fire (now : Z) (r : AutomationRule) (desc : string) (forced : bool)
    (e : option TimelineEvent) : call (string * string) :=
  s ← get;
  if negb forced && (now - default 0 (lastFired s !! ru_id r) <? cooldownSec r * 1000)
  then mret ("skipped", "cooldown")
  else
    modify (λ s, with_memory (<[ru_id r := now]> (lastFired s)) (recentMatches s) s) ;;
    tell (Fired now (ru_id r) forced) ;;
    results ← run_actions r e (actions r);
    let status := run_status_of results in
    let message := run_message_of results in
    modify (λ s, State (updateMany (has_rule_id (ru_id r)) (stamp_rule now) (rules s)) (cache s)
      (lastFired s) (recentMatches s)
      (createRow (Run (ru_id r) (ru_name r) (slice_to 300 desc) status (slice_to 1000 message) now)
        (runs s))) ;;
    tell (AuditTagged (run_audit "" now r status desc)) ;;
    mret (status, message).

Definition test (now : Z) (id : string) : call (string * string) :=
  s ← get;
  r ← or_throw (findFirst (has_rule_id id) (rules s)) "Rule not found.";
  fire now r "Manual test" true None.

Definition from_automation (e : TimelineEvent) : bool :=
  truthy_json (nullish (meta e) ≫= json_field "automation").

Definition offer (now : Z) (e : TimelineEvent) (r : AutomationRule) : call unit :=
  match trigger r with
  | ScheduleTrigger _ => mret tt
  | EventTrigger ks sevs src txt occ =>
      if negb (matchesEvent ks sevs src txt e) then mret tt
      else if negb (holds now (conditions r) e) then mret tt
      else
        reached ← occurrencesReached now (ru_id r) occ;
        when reached (fire now r (describeEvent e) false (Some e) ;; mret tt)
  end.

Definition onEvent (now : Z) (e : TimelineEvent) : call unit :=
  if from_automation e then mret tt
  else s ← get; for_each (cache s) (offer now e).

Definition scheduleTick (now : Z) : call unit :=
  s ← get;
  for_each (cache s) (λ r,
    match trigger r with
    | EventTrigger _ _ _ _ _ => mret tt
    | ScheduleTrigger cron =>
        if negb (holds now (conditions r) (syntheticEvent now)) then mret tt
        else when (matchCron tz cron now)
               (fire now r ("Schedule " +:+ cron) false None ;; mret tt)
    end).

(** The latest runs, newest first. *)
Definition list_runs (ruleId : option string) (limit : nat) (s : state) : list AutomationRun :=
  take (min limit 500) (reverse (match ruleId with
    | Some i => if bool_decide (i = "") then runs s
                else findMany (λ x, bool_decide (run_ruleId x = i)) (runs s)
    | None => runs s
    end)).

End service.
End AutomationsService.

(** ** Cron expressions against a reference *)

Inductive cron_item :=
| Every (step : option Z)
| Span (a b : Z) (step : option Z)
| Value (n : Z).

Definition print_step (step : option Z) : string :=
  from_option (λ k, "/" +:+ num_to_string k) "" step.
Definition print_item (i : cron_item) : string :=
  match i with
  | Every k => "*" +:+ print_step k
  | Span a b k => num_to_string a +:+ "-" +:+ num_to_string b +:+ print_step k
  | Value n => num_to_string n
  end.
Definition print_field (items : list cron_item) : string :=
  JsText.join "," (print_item <$> items).

(** The values an item stands for; a range with step 0 counts every value. *)
Definition item_holds (i : cron_item) (v : Z) : Prop :=
  match i with
  | Every None => True
  | Every (Some k) => 0 < k ∧ (k | v)
  | Span a b k => a ≤ v ≤ b ∧ match k with Some (Zpos p) => (Zpos p | v - a) | _ => True end
  | Value n => v = n
  end.

(** Numbers of at most three digits. *)
Definition small_item (i : cron_item) : Prop :=
  match i with
  | Every k => from_option small True k
  | Span a b k => small a ∧ small b ∧ from_option small True k
  | Value n => small n
  end.

Section cron.

Lemma split_step range step :
  ("/"%char ∉ chars range) → from_option small True step →
  ∃ rest, JsText.split "/"%char (range +:+ print_step step) = range :: rest ∧
    match rest with k :: _ => Number k | [] => Some 1 end = Some (default 1 step).
Proof.
  intros Hr Hs. destruct step as [k|].
  - exists [num_to_string k].
    change (print_step (Some k)) with (String "/"%char (num_to_string k)).
    rewrite split_app by done. rewrite split_no_sep by (by apply not_in_number).
    split; [done|]. by apply small_number.
  - exists []. rewrite split_no_sep.
    + split; [|done]. f_equal. apply chars_inj. by rewrite chars_app, app_nil_r.
    + by rewrite chars_app, app_nil_r.
Qed.

Lemma has_dash a b : has_substring "-" (a +:+ "-" +:+ b) = true.
Proof.
  induction a as [|c a IH]; simpl; [by destruct b|]. rewrite IH. apply orb_true_r.
Qed.
Lemma no_dash a : "-"%char ∉ chars a → has_substring "-" a = false.
Proof.
  induction a as [|c a IH]; [done|]. intros [Hc Ha]%not_elem_of_cons.
  cbn [has_substring]. rewrite IH, orb_false_r by done.
  apply not_true_iff_false. rewrite prefix_chars. intros [l Hl]. by injection Hl as ->.
Qed.

Lemma rem_divide a k : 0 ≤ a → 0 < k → (Z.rem a k =? 0) = true ↔ (k | a).
Proof.
  intros Ha Hk. rewrite Z.rem_mod_nonneg, Z.eqb_eq by lia. by rewrite Z.mod_divide by lia.
Qed.

Lemma part_holds i v : small_item i → 0 ≤ v → matchCronPart (print_item i) v = true ↔ item_holds i v.
Proof.
  intros Hi Hv. unfold matchCronPart. destruct i as [step|a b step|n]; cbn [small_item print_item] in *.
  - destruct (split_step "*" step) as (rest & -> & Hstep);
      [by intros [?|?%elem_of_nil]%elem_of_cons | done|].
    cbn [head tail default from_option]. rewrite Hstep, bool_decide_eq_true_2 by done.
    destruct step as [k|]; cbn [item_holds]; unfold id.
    + rewrite andb_true_iff, Z.ltb_lt. split; intros [Hk Hd]; (split; [done|]);
        by apply (rem_divide v k).
    + split; [done|]. intros _. cbn [default from_option]. unfold id. by rewrite Z.rem_1_r.
  - destruct Hi as (Ha & Hb & Hs). rewrite !string_assoc, <- (string_assoc (num_to_string a)).
    set (range := num_to_string a +:+ "-" +:+ num_to_string b).
    assert (Hdash : has_substring "-" range = true) by apply has_dash.
    destruct (split_step range step) as (rest & -> & Hstep); [|done|].
    { subst range. rewrite !chars_app, !elem_of_app.
      intros [Hin|[[?|?%elem_of_nil]%elem_of_cons|Hin]]; try done; by apply not_in_number in Hin. }
    cbn [head tail default from_option]. unfold id. rewrite Hstep, Hdash.
    rewrite bool_decide_eq_false_2 by (intros Heq; by rewrite Heq in Hdash).
    subst range. change ("-" +:+ num_to_string b) with (String "-"%char (num_to_string b)).
    rewrite split_app, split_no_sep by (by apply not_in_number).
    rewrite (proj1 (small_number a Ha)), (proj1 (small_number b Hb)).
    cbn [item_holds]. rewrite !andb_true_iff, !Z.leb_le.
    destruct step as [[|p|p]|]; cbn [default from_option] in *; unfold id, small in *; [| |lia|].
    + rewrite Z.rem_1_r. tauto.
    + split; intros [Hle Hd]; (split; [done|]).
      * apply (rem_divide (v - a) (Z.pos p)) in Hd; [done|lia|lia].
      * apply (rem_divide (v - a) (Z.pos p)); [lia|lia|done].
    + rewrite Z.rem_1_r. tauto.
  - rewrite split_no_sep by (by apply not_in_number).
    cbn [head tail default from_option]. unfold id.
    rewrite bool_decide_eq_false_2, no_dash, (proj1 (small_number n Hi)), Z.eqb_eq; [done|by apply not_in_number|].
    intros Heq. apply (not_in_number "*"%char n Hi); [done|]. rewrite Heq. by left.
Qed.

Lemma print_item_no_comma i : small_item i → ","%char ∉ chars (print_item i).
Proof.
  assert (Hstep : ∀ step, from_option small True step → ","%char ∉ chars (print_step step)).
  { intros [k|] Hk; [|by intros ?%elem_of_nil]. intros [?|Hin]%elem_of_cons; [done|].
    by apply not_in_number in Hin. }
  destruct i as [step|a b step|n]; cbn [small_item print_item].
  - intros Hs [?|Hin]%elem_of_cons; [done|]. by eapply Hstep.
  - intros (Ha & Hb & Hs). rewrite !chars_app, !elem_of_app.
    intros [Hin|[[?|?%elem_of_nil]%elem_of_cons|[Hin|Hin]]]; try done;
      [by apply not_in_number in Hin .. | by eapply Hstep].
  - intros Hn. by apply not_in_number.
Qed.

(** C40: a cron field written from wildcards, steps, ranges and comma lists
    matches a time component exactly when one of its items stands for that
    value. *)
Theorem cron_field_matches_reference (items : list cron_item) (v : Z) :
  items ≠ [] → Forall small_item items → 0 ≤ v →
  matchCronField (print_field items) v = true ↔ Exists (λ i, item_holds i v) items.
Proof.
  intros Hne Hsm Hv. unfold matchCronField.
  assert (Hsplit : JsText.split ","%char (print_field items) = print_item <$> items).
  { apply split_join; [|by destruct items]. apply Forall_fmap. eapply Forall_impl; [exact Hsm|].
    intros i. apply print_item_no_comma. }
  case_bool_decide as Hstar.
  - split; [intros _|done]. rewrite Hstar in Hsplit.
    destruct items as [|i [|j items]]; [done| |done]. injection Hsplit as Hi.
    apply Forall_cons in Hsm as [Hs _]. constructor. apply part_holds; [done..|].
    rewrite <- Hi. unfold matchCronPart. simpl. by rewrite Z.rem_1_r.
  - rewrite Hsplit, some_true, Exists_exists. setoid_rewrite list_elem_of_fmap.
    rewrite Forall_forall in Hsm. split.
    + intros (x & (i & -> & Hin) & Hx). exists i. split; [done|]. apply part_holds; auto.
    + intros (i & Hin & Hx). exists (print_item i). split; [eauto|]. apply part_holds; auto.
Qed.
End cron.

(** ** Cooldown *)

Section cooldown.
Context `{Ports} (tz : Z).
Import AutomationsService.

Inductive engine_event :=
| OnEvent (now : Z) (e : TimelineEvent)
| ScheduleTick (now : Z)
| TestRule (now : Z) (id : string).

Definition react (e : engine_event) (s : state) : state * list effect :=
  match e with
  | OnEvent now ev => let r := onEvent tz now ev s in (r.1.2, r.2)
  | ScheduleTick now => let r := scheduleTick tz now s in (r.1.2, r.2)
  | TestRule now id => let r := test now id s in (r.1.2, r.2)
  end.

Fixpoint run (es : list engine_event) (s : state) : state * list effect :=
  match es with
  | [] => (s, [])
  | e :: es' =>
      let '(s1, o1) := react e s in let '(s2, o2) := run es' s1 in (s2, o1 ++ o2)
  end.

(** When a rule fired, and whether on demand. *)
Definition firings (id : string) (l : list effect) : list (Z * bool) :=
  omap (λ e, match e with
             | Fired t i forced => if bool_decide (i = id) then Some (t, forced) else None
             | _ => None
             end) l.

(** Each firing by itself comes a cooldown after the one before. *)
Fixpoint cooled (C : Z) (l : list (Z * bool)) : Prop :=
  match l with
  | x :: ((y :: _) as l') => (y.2 = false → x.1 + C * 1000 ≤ y.1) ∧ cooled C l'
  | _ => True
  end.

Lemma cooled_snoc C l x :
  cooled C l → (∀ y, last l = Some y → x.2 = false → y.1 + C * 1000 ≤ x.1) → cooled C (l ++ [x]).
Proof.
  induction l as [|a [|b l] IH]; simpl; [done| |].
  - intros _ Hx. split; [|done]. by apply Hx.
  - intros [Hab Hl] Hx. split; [done|]. by apply IH.
Qed.

(** The engine remembers the last firing of rule [id], whose cooldown is [C]. *)
Definition cooling (id : string) (C : Z) (s : state) (l : list (Z * bool)) : Prop :=
  (∀ r, r ∈ cache s → ru_id r = id → cooldownSec r = C) ∧ cooled C l ∧
  ∀ y, last l = Some y → lastFired s !! id = Some y.1.

Definition keeps_cooling (id : string) (C : Z) {A} (f : call A) : Prop :=
  ∀ s l, cooling id C s l → let '(_, s', o) := f s in cooling id C s' (l ++ firings id o).

Lemma keeps_cooling_bind id C {A B} (f : call A) (k : A → call B) :
  keeps_cooling id C f → (∀ a, keeps_cooling id C (k a)) → keeps_cooling id C (f ≫= k).
Proof.
  intros Hf Hk s l Hs. unfold mbind, svc_bind. specialize (Hf s l Hs).
  destruct (f s) as [[[a|e] s1] o1]; [|done]. specialize (Hk a s1 _ Hf).
  destruct (k a s1) as [[r s2] o2]. unfold firings. rewrite omap_app. by rewrite (assoc_L (++)).
Qed.

Lemma keeps_cooling_quiet id C {A} (f : call A) :
  (∀ s, cache (f s).1.2 = cache s ∧ lastFired (f s).1.2 = lastFired s ∧
        firings id (f s).2 = []) → keeps_cooling id C f.
Proof.
  intros Hf s l (Hc & Hl & Hb). specialize (Hf s).
  destruct (f s) as [[r s'] o]. destruct Hf as (Hca & Hlf & Hfi). simpl in *.
  rewrite Hfi, app_nil_r. unfold cooling. rewrite Hca, Hlf. done.
Qed.

(** Actions leave the engine's memory alone and fire no rule. *)
Definition quiet {A} (f : call A) : Prop :=
  ∀ s, (f s).1.2 = s ∧ ∀ id, firings id (f s).2 = [].

Lemma quiet_bind {A B} (f : call A) (k : A → call B) :
  quiet f → (∀ a, quiet (k a)) → quiet (f ≫= k).
Proof.
  intros Hf Hk s. unfold mbind, svc_bind. destruct (Hf s) as [Hst Hfi].
  destruct (f s) as [[[a|e] s1] o1]; simpl in *; [subst s1|done].
  destruct (Hk a s) as [Hst2 Hfi2]. destruct (k a s) as [[x s2] o2]. simpl in *.
  split; [done|]. intros id. unfold firings in *. by rewrite omap_app, Hfi, Hfi2.
Qed.

Lemma quiet_lift {A} (r : result string A) : quiet (lift r).
Proof. done. Qed.
Lemma quiet_throw_if c m : quiet (throw_if c m).
Proof. by destruct c. Qed.

Lemma runAction_quiet a r e : quiet (runAction a r e).
Proof.
  destruct a; simpl; repeat case_match;
    repeat first [apply quiet_lift | apply quiet_throw_if | apply quiet_bind; [|intros ?] | done].
Qed.

Lemma run_actions_quiet r e acts s :
  ∃ xs o, run_actions r e acts s = (Ok xs, s, o) ∧ length xs = length acts ∧
    ∀ id, firings id o = [].
Proof.
  induction acts as [|a acts IH]; simpl; [by exists [], []|].
  destruct (runAction_quiet a r e s) as [Hst Hfi].
  destruct IH as (xs & o & Hrun & Hlen & Ho).
  unfold mbind, svc_bind, catch. destruct (runAction a r e s) as [[[m|err] s1] o1]; simpl in *;
    subst s1; rewrite Hrun; simpl; eexists _, _; (split; [reflexivity|]); (split; [simpl; congruence|]);
    intros id; unfold firings in *; rewrite !omap_app; by rewrite Hfi, Ho.
Qed.

Lemma cooling_nil id C s l : cooling id C s l → cooling id C s (l ++ firings id []).
Proof. by rewrite app_nil_r. Qed.

Lemma fire_cooling now r desc forced e id C :
  (ru_id r = id → cooldownSec r = C ∨ forced = true) →
  keeps_cooling id C (fire now r desc forced e).
Proof.
  intros Hr s l Hs. unfold fire. svc_run.
  destruct (negb forced && _) eqn:Hcool; svc_run; [by apply cooling_nil|].
  unfold mbind at 1, svc_bind at 1.
  match goal with |- context [run_actions r e (actions r) ?s1] =>
    destruct (run_actions_quiet r e (actions r) s1) as (xs & o & -> & _ & Ho) end.
  svc_run. destruct Hs as (Hc & Hl & Hb). unfold mret, svc_ret. cbn beta iota.
  match goal with |- cooling _ _ _ (l ++ firings id (_ :: o ++ ?tl)) =>
    assert (Hfi : firings id (Fired now (ru_id r) forced :: o ++ tl) =
      if bool_decide (ru_id r = id) then [(now, forced)] else []) end.
  { specialize (Ho id). unfold firings in *. simpl. rewrite omap_app, Ho. simpl.
    by case_bool_decide. }
  rewrite Hfi. clear Hfi. split; [done|]. case_bool_decide as Hid; simpl.
  - split.
    + apply cooled_snoc; [done|]. intros y Hy Hf. simpl in *. subst forced.
      destruct (Hr Hid) as [<-|]; [|done]. rewrite <- Hid in Hb. rewrite (Hb y Hy) in Hcool.
      simpl in Hcool. apply Z.ltb_ge in Hcool. lia.
    + intros y. rewrite last_snoc. intros [= <-]. simpl. by rewrite Hid, lookup_insert_eq.
  - rewrite app_nil_r. split; [done|]. intros y Hy. rewrite lookup_insert_ne by done. by apply Hb.
Qed.

Lemma for_each_cooling id C rs (f : AutomationRule → call unit) :
  (∀ r, r ∈ rs → keeps_cooling id C (f r)) → keeps_cooling id C (for_each rs f).
Proof.
  intros Hf. induction rs as [|r rs IH]; simpl; [by apply keeps_cooling_quiet|].
  apply keeps_cooling_bind; [by apply Hf; left|]. intros _. apply IH.
  intros r' Hr'. apply Hf. by right.
Qed.

Lemma occurrences_cooling now i occ id C : keeps_cooling id C (occurrencesReached now i occ).
Proof.
  apply keeps_cooling_quiet. intros s. unfold occurrencesReached.
  destruct occ as [[count w]|]; [|done]. destruct (_ || _); [done|]. svc_run.
  destruct (_ <? count); svc_run; done.
Qed.

Lemma offer_cooling now e r id C :
  (ru_id r = id → cooldownSec r = C) → keeps_cooling id C (offer tz now e r).
Proof.
  intros Hr. unfold offer. destruct (trigger r); [|by apply keeps_cooling_quiet].
  destruct (negb _); [by apply keeps_cooling_quiet|].
  destruct (negb _); [by apply keeps_cooling_quiet|].
  apply keeps_cooling_bind; [apply occurrences_cooling|]. intros [|]; [|by apply keeps_cooling_quiet].
  apply keeps_cooling_bind; [apply fire_cooling; auto|]. intros _. by apply keeps_cooling_quiet.
Qed.

Lemma keeps_cooling_get id C {B} (k : state → call B) s l :
  cooling id C s l →
  keeps_cooling id C (k s) → let '(_, s', o) := (get ≫= k) s in cooling id C s' (l ++ firings id o).
Proof. intros Hs Hk. svc_run. by apply Hk. Qed.

Lemma react_cooling id C e s l :
  cooling id C s l → let '(s', o) := react e s in cooling id C s' (l ++ firings id o).
Proof.
  intros Hs. assert (Hgen : ∀ A (f : call A),
    (let '(_, s', o) := f s in cooling id C s' (l ++ firings id o)) →
    cooling id C (f s).1.2 (l ++ firings id (f s).2)).
  { intros A f. by destruct (f s) as [[x s'] o]. }
  destruct e as [now ev|now|now i]; simpl; apply Hgen.
  - unfold onEvent. destruct (from_automation ev); [by apply cooling_nil|].
    apply keeps_cooling_get; [done|]. apply for_each_cooling. intros r Hr. apply offer_cooling.
    intros Hid. by apply (proj1 Hs).
  - unfold scheduleTick. apply keeps_cooling_get; [done|]. apply for_each_cooling. intros r Hr.
    destruct (trigger r); [by apply keeps_cooling_quiet|].
    destruct (negb _); [by apply keeps_cooling_quiet|].
    destruct (matchCron _ _ _); [|by apply keeps_cooling_quiet].
    apply keeps_cooling_bind; [|intros _; by apply keeps_cooling_quiet].
    apply fire_cooling. intros Hid. left. by apply (proj1 Hs).
  - unfold test. apply keeps_cooling_get; [done|].
    apply keeps_cooling_bind; [by apply keeps_cooling_quiet; intros s0; destruct (findFirst _ _)|].
    intros r. apply fire_cooling. by right.
Qed.

(** outside of manual tests, a rule never fires before its cooldown has
    passed since it last fired, manual tests included. *)
Theorem cooldown_respected (id : string) (C : Z) (es : list engine_event) (s : state) :
  (∀ r, r ∈ cache s → ru_id r = id → cooldownSec r = C) →
  cooled C (firings id (run es s).2).
Proof.
  intros HC. assert (Hrun : ∀ es s l, cooling id C s l →
    cooling id C (run es s).1 (l ++ firings id (run es s).2)).
  { clear es s HC. induction es as [|e es IH]; intros s l Hs; simpl; [by apply cooling_nil|].
    generalize (react_cooling id C e s l Hs). destruct (react e s) as [s1 o1]. intros He.
    specialize (IH s1 _ He). destruct (run es s1) as [s2 o2]. unfold firings in *. simpl in *.
    by rewrite omap_app, (assoc_L (++)). }
  by apply (Hrun es s []).
Qed.
End cooldown.

(** ** Loops, webhooks and answers *)

Section guards.
Context `{Ports} (tz : Z).
Import AutomationsService.

(** a run's own audit event triggers nothing, as the loop guard means; but
    the history row of the alert a rule sends has no mark, so a rule that
    notifies on every event fires again on its own notification, over and
    over when its cooldown is 0. *)
Theorem notification_escapes_the_loop_guard (now : Z) (r : AutomationRule) (s : state)
    (title : string) (row : NotificationRow) (id status desc : string) :
  cache s = [r] → trigger r = EventTrigger None None None None None → conditions r = [] →
  actions r = [Notify title None] → cooldownSec r = 0 → default 0 (lastFired s !! ru_id r) ≤ now →
  (∃ s', onEvent tz now (mapAuditRow (run_audit id now r status desc)) s = (Ok tt, s', []) ∧ s' = s) ∧
  Dispatch "automation.notify" (alert_payload title "" ("automation.notify:" +:+ title)) ∈
    (onEvent tz now (mapNotificationRow row) s).2.
Proof.
  intros Hc Ht Hco Ha Hcd Hle. split.
  - exists s. done.
  - unfold onEvent, from_automation. simpl. svc_run. rewrite Hc. simpl. unfold offer. rewrite Ht, Hco.
    simpl. svc_run. unfold fire. svc_run. rewrite Hcd, Ha.
    rewrite (proj2 (Z.ltb_ge _ _)) by lia. svc_run. simpl. right. by left.
Qed.

(** the answer of an "ask the Computer" action is handed to the dispatcher
    under an alert type the catalog does not hold: whatever the settings, it is
    dropped with a log line, while the run records a success. *)
Theorem computer_answers_never_delivered (prompt answer : string) (t agent : option string)
    (r : AutomationRule) (e : option TimelineEvent) (s : state) tz' deliver now ns :
  askAssistant prompt (ask_context <$> e) (if truthy agent then agent else None) =
    Some (Ok answer) →
  ∃ p msg, runAction (AskComputer prompt t agent) r e s =
      (Ok msg, s, [Dispatch "automation.ask_computer" p]) ∧
    NotificationsService.dispatchAlert tz' deliver now "automation.ask_computer" p ns =
      (Ok tt, ns, [Log Warn ("Unknown alert type " +:+ quoted "automation.ask_computer" +:+
                             " — not sent.")]).
Proof. intros Hask. simpl. rewrite Hask. svc_run. do 2 eexists. by split. Qed.

(** an action only sends an HTTP request to a target that passed the
    guard: an http(s) URL whose host is not a blocked literal and, for a name,
    resolves to no blocked address (unless local targets are allowed). *)
Theorem webhooks_are_guarded (a : RuleAction) (r : AutomationRule) (e : option TimelineEvent)
    (s : state) (m target : string) (b : option string) :
  Http m target b ∈ (runAction a r e s).2 →
  SsrfGuard.allowLocalTargets local_targets_env = true ∨
  ∃ u, parseUrl target = Some u ∧ u_protocol u ∈ ["http:"; "https:"] ∧
    let host := SsrfGuard.strip_brackets (u_hostname u) in
    SsrfGuard.hostBlockedReason local_targets_env host = None ∧
    (Net.isIP host = 0 → ∀ addr, addr ∈ resolveHost host → SsrfGuard.isBlockedAddress addr = false).
Proof.
  intros Hin. destruct a as [t bo|i k res act|i op res vals|id|id|u me bo|p t ag|ty]; simpl in Hin.
  - by apply elem_of_cons in Hin as [?|?%elem_of_nil].
  - by destruct (performAction _ _ _ _); apply elem_of_nil in Hin.
  - by revert Hin; svc_run; destruct (startOperation _ _ _ _); intros ?%elem_of_nil.
  - by revert Hin; svc_run; destruct (switchMonitor _ _); intros ?%elem_of_nil.
  - by revert Hin; svc_run; destruct (switchMonitor _ _); intros ?%elem_of_nil.
  - revert Hin. svc_run. destruct (assertWebhookAllowed u) as [[]|] eqn:Hok; [|by intros ?%elem_of_nil].
    set (text := if bool_decide _ then _ else _). svc_run. intros Hin.
    assert (u = target) as ->.
    { revert Hin. destruct (httpSend _ u text) as [code|]; [destruct (negb _)|]; simpl;
        by intros [[= _ ->]|?%elem_of_nil]%elem_of_cons. }
    unfold assertWebhookAllowed in Hok.
    destruct (SsrfGuard.allowLocalTargets _); [by left | right].
    destruct (parseUrl target) as [pu|]; [|done]. exists pu. split; [done|].
    destruct (includes (u_protocol pu) _) eqn:Hp; [|done]. apply includes_true in Hp.
    split; [done|]. cbn [negb] in Hok. intros host. fold host in Hok.
    destruct (SsrfGuard.hostBlockedReason _ host); [done|]. split; [done|].
    intros Hip. rewrite Hip in Hok. simpl in Hok.
    destruct (findFirst _ (resolveHost host)) as [x|] eqn:Hf; [done|].
    intros addr Haddr. rewrite findFirst_None in Hf. by apply Hf.
  - revert Hin. destruct (askAssistant _ _ _) as [[answer|]|]; svc_run;
      [by intros [?|?%elem_of_nil]%elem_of_cons|by intros ?%elem_of_nil|by intros ?%elem_of_nil].
  - by apply elem_of_nil in Hin.
Qed.
End guards.

(** ** Debouncing *)

Section debounce.
Context `{Ports}.
Import AutomationsService.

(** The answers to a series of matches at the given times. *)
Fixpoint matches_at (id : string) (occ : option (Z * Z)) (times : list Z) (s : state) : list bool :=
  match times with
  | [] => []
  | t :: times' =>
      let r := occurrencesReached t id occ s in
      match r.1.1 with Ok b => [b] | Err _ => [] end ++ matches_at id occ times' r.1.2
  end.

(** The intent: a match fires when, counting it, [count] matches since the
    last firing fall within the window. *)
Fixpoint fires_at (count windowMs : Z) (since times : list Z) : list bool :=
  match times with
  | [] => []
  | t :: times' =>
      let recent := filter (λ x, t - windowMs ≤ x) (since ++ [t]) in
      if count <=? Z.of_nat (length recent) then true :: fires_at count windowMs [] times'
      else false :: fires_at count windowMs (since ++ [t]) times'
  end.

(** a rule with an occurrences qualifier fires exactly on the matches that
    complete [count] matches within the window since the last firing: the
    pruned list of times the engine keeps loses none that can still count. *)
Theorem debounce_counts_recent_matches (id : string) (count windowSec : Z) (times : list Z)
    (s : state) :
  1 < count → 0 < windowSec → Sorted Z.le times → recentMatches s !! id = None →
  matches_at id (Some (count, windowSec)) times s = fires_at count (windowSec * 1000) [] times.
Proof.
  intros Hc Hw Hsorted Hnone.
  assert (Hgen : ∀ times since s lo, StronglySorted Z.le (lo :: times) →
    default [] (recentMatches s !! id) = filter (λ x, lo - windowSec * 1000 ≤ x) since →
    matches_at id (Some (count, windowSec)) times s =
      fires_at count (windowSec * 1000) since times).
  { clear times s Hsorted Hnone. induction times as [|t times IH]; intros since s lo Hs Hk; simpl; [done|].
    apply StronglySorted_inv in Hs as [Hs Hlo]. apply Forall_cons in Hlo as [Hlo _].
    rewrite (proj2 (Z.leb_gt _ _)), (proj2 (Z.leb_gt _ _)) by lia. cbn [orb]. svc_run.
    assert (Hrec : filter (λ x, t - windowSec * 1000 ≤ x) (default [] (recentMatches s !! id)) ++ [t] =
      filter (λ x, t - windowSec * 1000 ≤ x) (since ++ [t])).
    { rewrite Hk, list_filter_filter, filter_app. f_equal.
      - apply list_filter_iff. intros x. lia.
      - rewrite filter_cons_True by lia. done. }
    rewrite Hrec, Z.ltb_antisym.
    destruct (count <=? _); cbn [negb]; svc_run; simpl; f_equal; apply (IH _ _ t Hs); simpl;
      by rewrite lookup_insert_eq. }
  destruct times as [|t times]; [done|].
  apply (Hgen (t :: times) [] s t).
  - apply Sorted_StronglySorted in Hsorted; [|intros x y z; lia]. constructor; [done|].
    constructor; [lia|]. by apply StronglySorted_inv in Hsorted as [_ ?].
  - by rewrite Hnone.
Qed.
End debounce.

(** ** Witnesses *)

Section witnesses.
Import AutomationsService.

#[local] Instance toy_ports : Ports := {|
  performAction := λ _ _ _ _, Ok tt; startOperation := λ _ _ _ _, Ok "job-0001";
  switchMonitor := λ i _, Ok i; monitorStatus := λ _, Some "up";
  askAssistant := λ _ _ _, Some (Ok "All quiet."); httpSend := λ _ _ _, Ok 200;
  resolveHost := λ h, if bool_decide (h = "hooks.example") then ["93.184.216.34"] else ["127.0.0.1"];
  parseUrl := λ u, Some (Url "https:" (slice_from 8 u)); local_targets_env := None
|}.

Definition rule_with (t : RuleTrigger) (acts : list RuleAction) (cooldown : Z) : AutomationRule :=
  {| ru_id := "r1"; ru_name := "Rule"; ru_enabled := true; trigger := t; conditions := [];
     actions := acts; cooldownSec := cooldown; lastFiredAt := None |}.
Definition engine (r : AutomationRule) : state := State [r] [r] ∅ ∅ [].

Definition any_event : RuleTrigger := EventTrigger None None None None None.
Definition down_event (t : Z) : TimelineEvent :=
  Event "monitor:1" t "monitor" "critical" "Site is down" None None (Some "m1") None.

Lemma cron_field_matches_reference_witness :
  matchCronField "1-5,*/15" 30 = true ∧ Exists (λ i, item_holds i 30) [Span 1 5 None; Every (Some 15)].
Proof.
  assert (Hm : matchCronField "1-5,*/15" 30 = true) by (vm_compute; reflexivity).
  split; [exact Hm|].
  apply (cron_field_matches_reference [Span 1 5 None; Every (Some 15)] 30); [done| |lia|exact Hm].
  repeat constructor; simpl; unfold small; lia.
Defined.

Lemma cooldown_respected_witness :
  let es := (λ t, OnEvent t (down_event t)) <$> [100000; 130000; 170000] in
  firings "r1" (run 0 es (engine (rule_with any_event [] 60))).2 = [(100000, false); (170000, false)] ∧
  cooled 60 (firings "r1" (run 0 es (engine (rule_with any_event [] 60))).2).
Proof.
  intros es. split; [vm_compute; reflexivity|].
  apply (cooldown_respected 0 "r1" 60). by intros r ->%list_elem_of_singleton _.
Defined.

Definition sample_row : NotificationRow :=
  {| nr_id := "n1"; nr_createdAt := 5; nr_title := "again"; nr_severity := "info";
     nr_status := "sent"; nr_channel := "email"; nr_recipients := 1; nr_connectorId := None;
     nr_source := Some "Automations"; nr_detail := None;
     nr_alertKey := Some "automation.notify" |}.

Lemma notification_escapes_witness :
  Dispatch "automation.notify" (alert_payload "again" "" "automation.notify:again") ∈
    (onEvent 0 5 (mapNotificationRow sample_row)
       (engine (rule_with any_event [Notify "again" None] 0))).2.
Proof.
  apply (notification_escapes_the_loop_guard 0 5 (rule_with any_event [Notify "again" None] 0)
    (engine (rule_with any_event [Notify "again" None] 0)) "again" sample_row "a1" "success" "");
    try reflexivity. vm_compute. discriminate.
Defined.

Lemma computer_answers_witness : ∃ p msg,
  runAction (AskComputer "Why?" None None) (rule_with any_event [] 0) None (engine (rule_with any_event [] 0)) =
    (Ok msg, engine (rule_with any_event [] 0), [Dispatch "automation.ask_computer" p]).
Proof.
  destruct (computer_answers_never_delivered "Why?" "All quiet." None None (rule_with any_event [] 0)
    None (engine (rule_with any_event [] 0)) 0 sms_down 0 ready) as (p & msg & Hrun & _);
    [reflexivity|]. by exists p, msg.
Defined.

Lemma webhooks_are_guarded_witness :
  let s := engine (rule_with any_event [] 0) in
  Http "POST" "https://hooks.example" (Some "Rule") ∈
    (runAction (Webhook "https://hooks.example" None (Some "{{ruleName}}")) (rule_with any_event [] 0) None s).2 ∧
  (runAction (Webhook "https://sneaky.example" None None) (rule_with any_event [] 0) None s).2 = [] ∧
  ∀ addr, addr ∈ resolveHost "hooks.example" → SsrfGuard.isBlockedAddress addr = false.
Proof.
  intros s. assert (Hin : Http "POST" "https://hooks.example" (Some "Rule") ∈
    (runAction (Webhook "https://hooks.example" None (Some "{{ruleName}}")) (rule_with any_event [] 0) None s).2)
    by (vm_compute; left).
  split; [exact Hin|]. split; [vm_compute; reflexivity|].
  destruct (webhooks_are_guarded _ _ _ _ _ _ _ Hin) as [Henv|(u & Hu & _ & _ & Haddr)]; [discriminate|].
  injection Hu as <-. apply Haddr. vm_compute. reflexivity.
Defined.

Lemma debounce_counts_witness :
  matches_at "r1" (Some (3, 60)) [0; 50000; 70000; 90000; 95000] (engine (rule_with any_event [] 0)) =
    [false; false; false; true; false].
Proof.
  rewrite (debounce_counts_recent_matches "r1" 3 60); [vm_compute; reflexivity|lia|lia| |done].
  repeat constructor; lia.
Defined.
End witnesses.
