(* ===== verification/StackBackup.v ===== *)
(** * Stack backups and their scheduler

    [stack-backup/stack-backup-scheduler.service.ts] and the policy and run
    bookkeeping of [stack-backup/stack-backup.service.ts].  The capture itself
    (SSH, containers, restic) is not modelled: a run starts here and its
    outcome arrives as an event.  The vault holds the sealing passphrases. *)
From S2P Require Import Prelude JsText Schedule.
From stdpp Require Import gmap strings pretty options.

#[local] Open Scope Z_scope.
#[local] Set Default Proof Using "Type*".

(** ** Data *)

Record StackHook := Hook {
  service : option string;
  container : option string;
  cmd : string;
  captureTo : option string
}.

Record Policy := {
  po_id : string;
  connectorInstanceId : string;
  stackName : string;
  targetId : string;
  po_enabled : bool;
  po_schedule : BackupSchedule;
  quiesce : string;
  transfer : string;
  secretMode : string;
  includeBinds : list string;
  excludes : list string;
  preHooks : list StackHook;
  postHooks : list StackHook;
  lastRunAt : option Z;
  lastStatus : string;
  lastMessage : option string;
  createdAt : Z
}.

Inductive run_trigger := Manual | Scheduled.

Record BackupRun := {
  run_id : string;
  run_policyId : option string;
  run_instanceId : string;
  run_stackName : string;
  run_targetId : string;
  run_trigger_by : run_trigger;
  run_status : string;
  run_message : option string;
  startedAt : Z;
  finishedAt : option Z
}.

Record Target := {
  t_id : string;
  t_name : string;
  keepLast : option Z;
  keepDaily : option Z;
  keepWeekly : option Z;
  keepMonthly : option Z;
  keepWithinDays : option Z
}.

(** A scheduled run the scheduler waits for, with the time it gives up. *)
Record wait := Wait { w_target : string; w_run : string; w_deadline : Z }.

Record state := State {
  policies : list Policy;
  runs : list BackupRun;
  targets : list Target;
  vault : gmap string string;
  active : gset string;
  busyTargets : gset string;
  lastSlot : gmap string string;
  waiting : list wait
}.

Inductive effect :=
| Out (o : output)
| Restic (target : string) (args : list string).

Abbreviation call := (svc state effect http_error).

Definition with_policies (f : list Policy → list Policy) (s : state) : state :=
  State (f (policies s)) (runs s) (targets s) (vault s) (active s) (busyTargets s) (lastSlot s)
    (waiting s).
Definition with_runs (f : list BackupRun → list BackupRun) (s : state) : state :=
  State (policies s) (f (runs s)) (targets s) (vault s) (active s) (busyTargets s) (lastSlot s)
    (waiting s).
Definition with_vault (v : gmap string string) (s : state) : state :=
  State (policies s) (runs s) (targets s) v (active s) (busyTargets s) (lastSlot s) (waiting s).
Definition with_active (a : gset string) (s : state) : state :=
  State (policies s) (runs s) (targets s) (vault s) a (busyTargets s) (lastSlot s) (waiting s).
Definition with_scheduler (b : gset string) (ls : gmap string string) (w : list wait) (s : state) :
    state :=
  State (policies s) (runs s) (targets s) (vault s) (active s) b ls w.

Definition log (l : level) (m : string) : call unit := tell (Out (OLog l "stack-backup" m)).

Definition has_id (i : string) (p : Policy) : bool := bool_decide (po_id p = i).
Definition has_key (inst stack : string) (p : Policy) : bool :=
  bool_decide (connectorInstanceId p = inst ∧ stackName p = stack).

(** ** Policies and runs *)

Module StackBackupService.
Section service.

(** Which connector instances are Docker hosts. *)
Context (is_host : string → bool).

Definition sealKey (policyId : string) : string :=
  "stack-backup:policy:" +:+ policyId +:+ ":passphrase".

Definition duePolicies (tz now : Z) (s : state) : list Policy :=
  filter (λ p, isDue tz (po_schedule p) now = true)
    (findMany (λ p, po_enabled p && negb (bool_decide (frequency (po_schedule p) = off))) (policies s)).

Definition clamp (n lo hi : Z) : Z := Z.min hi (Z.max lo n).

Definition blank (x : option string) : option string := if truthy x then x else None.

(** [hookList] on the hooks of a form: empty names read as absent. *)
Definition hookList (hs : list StackHook) : list StackHook :=
  (λ h, Hook (blank (service h)) (blank (container h)) (cmd h) (blank (captureTo h))) <$> hs.

Definition plain_filename (s : string) : bool :=
  negb (bool_decide (s = "")) &&
  every (λ c, is_digit c || is_upper c || is_lower c || includes c ["."%char; "_"%char; "-"%char])
    (chars s).

Definition hook_problem (h : StackHook) : option http_error :=
  if negb (truthy (service h)) && negb (truthy (container h))
  then Some (BadRequest ("Hook " +:+ quoted (cmd h) +:+ " needs a service or container to run in."))
  else match captureTo h with
       | Some f => if plain_filename f then None
                   else Some (BadRequest ("Hook captureTo must be a plain filename, got " +:+
                          quoted f +:+ "."))
       | None => None
       end.
Definition validateHooks (hs : list StackHook) : result http_error (list StackHook) :=
  let hooks := hookList hs in
  match head (omap hook_problem hooks) with Some e => Err e | None => Ok hooks end.

Record policy_input := {
  in_instance : string; in_stack : string; in_target : string; in_enabled : option bool;
  in_frequency : option BackupFrequency; in_dayOfWeek : option Z; in_dayOfMonth : option Z;
  in_hour : option Z; in_minute : option Z; in_quiesce : option string; in_transfer : option string;
  in_secretMode : option string; in_includeBinds : list string; in_excludes : list string;
  in_preHooks : list StackHook; in_postHooks : list StackHook; in_sealPassphrase : option string
}.

(** The row a save writes; [old] is the row it updates. *)
Definition policy_row (newId : string) (now : Z) (i : policy_input) (pre post : list StackHook)
    (old : option Policy) : Policy :=
  {| po_id := from_option po_id newId old;
     connectorInstanceId := in_instance i; stackName := in_stack i; targetId := in_target i;
     po_enabled := default true (in_enabled i);
     po_schedule := {| frequency := default off (in_frequency i);
                       dayOfWeek := clamp (default 0 (in_dayOfWeek i)) 0 6;
                       dayOfMonth := clamp (default 1 (in_dayOfMonth i)) 1 28;
                       hour := clamp (default 3 (in_hour i)) 0 23;
                       minute := clamp (default 0 (in_minute i)) 0 59 |};
     quiesce := default "hot" (in_quiesce i); transfer := default "direct" (in_transfer i);
     secretMode := default "embed" (in_secretMode i);
     includeBinds := filter (λ p, startsWith "/" p = true) (in_includeBinds i);
     excludes := filter (λ e, e ≠ "") (in_excludes i);
     preHooks := pre; postHooks := post;
     lastRunAt := old ≫= lastRunAt; lastStatus := from_option lastStatus "never" old;
     lastMessage := old ≫= lastMessage; createdAt := from_option createdAt now old |}.

Definition set_frequency (f : BackupFrequency) (p : Policy) : Policy :=
  {| po_id := po_id p; connectorInstanceId := connectorInstanceId p; stackName := stackName p;
     targetId := targetId p; po_enabled := po_enabled p;
     po_schedule := {| frequency := f; dayOfWeek := dayOfWeek (po_schedule p);
                       dayOfMonth := dayOfMonth (po_schedule p); hour := hour (po_schedule p);
                       minute := minute (po_schedule p) |};
     quiesce := quiesce p; transfer := transfer p; secretMode := secretMode p;
     includeBinds := includeBinds p; excludes := excludes p; preHooks := preHooks p;
     postHooks := postHooks p; lastRunAt := lastRunAt p; lastStatus := lastStatus p;
     lastMessage := lastMessage p; createdAt := createdAt p |}.

Definition one_of (x : string) (xs : list string) (e : string) : call unit :=
  throw_if (negb (includes x xs)) (BadRequest e).

Definition has_secret (k : string) (s : state) : bool := bool_decide (is_Some (vault s !! k)).

Definition upsert_policy (row : Policy) (t : list Policy) : list Policy :=
  let k := has_key (connectorInstanceId row) (stackName row) in
  if some k t then updateMany k (λ _, row) t else createRow row t.

Definition savePolicy (newId : string) (now : Z) (i : policy_input) : call Policy :=
  throw_if (bool_decide (in_instance i = "" ∨ in_stack i = ""))
    (BadRequest "A host and stack are required.") ;;
  throw_if (negb (is_host (in_instance i))) (NotFound "Host not found.") ;;
  s ← get;
  throw_if (negb (some (λ t, bool_decide (t_id t = in_target i)) (targets s)))
    (BadRequest "Choose a backup target.") ;;
  one_of (default "hot" (in_quiesce i)) ["hot"; "pause"; "stop"] "Unknown capture mode." ;;
  one_of (default "direct" (in_transfer i)) ["direct"; "relay"] "Unknown transfer mode." ;;
  one_of (default "embed" (in_secretMode i)) ["embed"; "raw"; "reference"] "Unknown secret mode." ;;
  pre ← lift (validateHooks (in_preHooks i));
  post ← lift (validateHooks (in_postHooks i));
  let row := policy_row newId now i pre post
    (findFirst (has_key (in_instance i) (in_stack i)) (policies s)) in
  modify (with_policies (upsert_policy row)) ;;
  modify (λ s, match in_sealPassphrase i with
    | None => s
    | Some "" => with_vault (delete (sealKey (po_id row)) (vault s)) s
    | Some p => with_vault (<[sealKey (po_id row) := p]> (vault s)) s
    end) ;;
  s ← get;
  if negb (bool_decide (frequency (po_schedule row) = off)) &&
     bool_decide (secretMode row = "embed") && negb (has_secret (sealKey (po_id row)) s)
  then
    modify (with_policies (updateMany (has_id (po_id row)) (set_frequency off))) ;;
    throw (BadRequest "A scheduled sealed backup needs a stored sealing passphrase — set one, or switch this stack to raw secrets.")
  else mret row.

Definition removePolicy (id : string) : call unit :=
  s ← get;
  throw_if (negb (some (has_id id) (policies s))) (NotFound "Stack backup not found.") ;;
  modify (with_policies (deleteMany (has_id id))) ;;
  modify (with_runs (updateMany (λ r, bool_decide (run_policyId r = Some id))
    (λ r, {| run_id := run_id r; run_policyId := None; run_instanceId := run_instanceId r;
             run_stackName := run_stackName r; run_targetId := run_targetId r;
             run_trigger_by := run_trigger_by r; run_status := run_status r;
             run_message := run_message r; startedAt := startedAt r; finishedAt := finishedAt r |}))) ;;
  modify (λ s, with_vault (delete (sealKey id) (vault s)) s).

(** [startBackup]; the capture goes on in the background until [finish]. *)
Definition startBackup (runId : string) (now : Z) (policyId : string) (passphrase : option string)
    (by_ : run_trigger) : call BackupRun :=
  s ← get;
  p ← or_throw (findFirst (has_id policyId) (policies s)) (NotFound "Stack backup not found.");
  throw_if (bool_decide (policyId ∈ active s))
    (BadRequest "A backup for this stack is already running.") ;;
  let seal := if bool_decide (secretMode p = "embed") && negb (truthy passphrase)
              then vault s !! sealKey (po_id p) else passphrase in
  throw_if (bool_decide (secretMode p = "embed") && negb (truthy seal))
    (BadRequest "This backup seals its secrets — supply the passphrase, or store one on the policy.") ;;
  let run := {| run_id := runId; run_policyId := Some (po_id p);
                run_instanceId := connectorInstanceId p; run_stackName := stackName p;
                run_targetId := targetId p; run_trigger_by := by_; run_status := "running";
                run_message := None; startedAt := now; finishedAt := None |} in
  modify (with_runs (createRow run)) ;;
  modify (λ s, with_active ({[policyId]} ∪ active s) s) ;;
  mret run.

Definition finish_run (now : Z) (status message : string) (r : BackupRun) : BackupRun :=
  {| run_id := run_id r; run_policyId := run_policyId r; run_instanceId := run_instanceId r;
     run_stackName := run_stackName r; run_targetId := run_targetId r;
     run_trigger_by := run_trigger_by r; run_status := status; run_message := Some message;
     startedAt := startedAt r; finishedAt := Some now |}.
Definition note_run (now : Z) (status message : string) (p : Policy) : Policy :=
  {| po_id := po_id p; connectorInstanceId := connectorInstanceId p; stackName := stackName p;
     targetId := targetId p; po_enabled := po_enabled p; po_schedule := po_schedule p;
     quiesce := quiesce p; transfer := transfer p; secretMode := secretMode p;
     includeBinds := includeBinds p; excludes := excludes p; preHooks := preHooks p;
     postHooks := postHooks p; lastRunAt := Some now; lastStatus := status;
     lastMessage := Some message; createdAt := createdAt p |}.

(** [finish], and the end of the background work. *)
Definition finish (now : Z) (runId policyId : string) (ok : bool) (message : string) : call unit :=
  let status := if ok then "success" else "error" in
  modify (with_runs (updateMany (λ r, bool_decide (run_id r = runId)) (finish_run now status message))) ;;
  modify (with_policies (updateMany (has_id policyId) (note_run now status message))) ;;
  s ← get;
  let p := findFirst (has_id policyId) (policies s) in
  let where_ := from_option stackName "a stack" p in
  tell (Out (OAlert (Alert (if ok then "backup.success" else "backup.failure")
    ((if ok then "Stack backup succeeded: " else "Stack backup FAILED: ") +:+ where_) message
    (Some ("stack-backup:" +:+ policyId +:+ ":" +:+ status)) (connectorInstanceId <$> p) None))) ;;
  modify (λ s, with_active (active s ∖ {[policyId]}) s).

End service.
End StackBackupService.

(** ** The scheduler *)

Module StackBackupScheduler.
Section service.
Context (is_host : string → bool) (tz : Z).
Import StackBackupService.

Definition slot_of (now : Z) : string :=
  num_to_string (getFullYear tz now) +:+ "-" +:+ num_to_string (getMonth tz now) +:+ "-" +:+
  num_to_string (getDate tz now) +:+ "-" +:+ num_to_string (getHours tz now) +:+ "-" +:+
  num_to_string (getMinutes tz now).

(** [minuteStart.setSeconds(0, 0)] *)
Definition minute_start (now : Z) : Z := now - (now + tz) mod 60000.

Definition set_busy (t : string) (s : state) : state :=
  with_scheduler ({[t]} ∪ busyTargets s) (lastSlot s) (waiting s) s.
Definition clear_busy (t : string) (s : state) : state :=
  with_scheduler (busyTargets s ∖ {[t]}) (lastSlot s) (waiting s) s.

Definition AWAIT_MS : Z := 8 * 60 * 60 * 1000.

(** [runOne] up to its wait for the run. *)
Definition runOne (runId : string) (now : Z) (p : Policy) : call unit :=
  modify (set_busy (targetId p)) ;;
  log Info ("[" +:+ stackName p +:+ "] Scheduled backup started (" +:+
    describeSchedule (po_schedule p) +:+ ").") ;;
  catch
    (run ← startBackup runId now (po_id p) None Scheduled;
     modify (λ s, with_scheduler (busyTargets s) (lastSlot s)
       (waiting s ++ [Wait (targetId p) (run_id run) (now + AWAIT_MS)]) s))
    (λ _, log Error ("[" +:+ stackName p +:+ "] Scheduled backup could not start.") ;;
          modify (clear_busy (targetId p))).

(** A poll of [awaitRun]: the run is gone or over, or the deadline passed. *)
Definition over (now : Z) (s : state) (w : wait) : bool :=
  match findFirst (λ r, bool_decide (run_id r = w_run w)) (runs s) with
  | None => true
  | Some r => negb (bool_decide (run_status r = "running")) || (w_deadline w <? now)
  end.
Definition poll (now : Z) (target : string) (s : state) : state :=
  match findFirst (λ w, bool_decide (w_target w = target)) (waiting s) with
  | Some w =>
      if over now s w then
        with_scheduler (busyTargets s ∖ {[target]}) (lastSlot s)
          (deleteMany (λ w, bool_decide (w_target w = target)) (waiting s)) s
      else s
  | None => s
  end.

(** One due policy; [runId] is the id its run would get. *)
Definition consider (now : Z) (runId : string → string) (p : Policy) : call unit :=
  s ← get;
  if bool_decide (lastSlot s !! po_id p = Some (slot_of now)) then mret tt
  else
    modify (λ s, with_scheduler (busyTargets s) (<[po_id p := slot_of now]> (lastSlot s))
      (waiting s) s) ;;
    if some (λ r, bool_decide (run_policyId r = Some (po_id p)) && (minute_start now <=? startedAt r))
         (runs s) then mret tt
    else if bool_decide (targetId p ∈ busyTargets s) then
      log Info ("[" +:+ stackName p +:+
        "] Scheduled backup deferred — another backup is using that repository.")
    else runOne (runId (po_id p)) now p.

Definition tick (now : Z) (runId : string → string) (loaded : bool) : call unit :=
  if negb loaded then log Error "Scheduler could not load policies."
  else s ← get; for_each (duePolicies tz now s) (consider now runId).

(** ** Retention and staleness *)

(** Text after a prefix, and the lines of a text as the [m] flag of a regular
    expression sees them. *)
Fixpoint skip_prefix (p l : list ascii) : option (list ascii) :=
  match p, l with
  | [], _ => Some l
  | c :: p', d :: l' => if bool_decide (c = d) then skip_prefix p' l' else None
  | _ :: _, [] => None
  end.
Definition lines (l : list ascii) : list (list ascii) :=
  split_chars "010"%char ((λ c, if bool_decide (c = "013"%char) then "010"%char else c) <$> l).

Definition keep_flag (flag : string) (v : option Z) (unit_ : string) : list string :=
  match v with
  | Some n => if n =? 0 then [] else [flag; num_to_string n +:+ unit_]
  | None => []
  end.
Definition retentionFlags (t : Target) : list string :=
  keep_flag "--keep-last" (keepLast t) "" ++ keep_flag "--keep-daily" (keepDaily t) "" ++
  keep_flag "--keep-weekly" (keepWeekly t) "" ++ keep_flag "--keep-monthly" (keepMonthly t) "" ++
  keep_flag "--keep-within" (keepWithinDays t) "d".

(** What a restic command prints, or the message of its [ResticError] and whether
    its code is ["locked"]. *)
Definition restic_result : Type := result (string * bool) string.

(** [out.match(/^remove \d+ snapshots/gim)]: the lines that start that way. *)
Definition is_removal (line : list ascii) : bool :=
  match skip_prefix (chars "remove ") (lower_char <$> line) with
  | Some rest =>
      let ds := digit_prefix rest in
      negb (bool_decide (ds = [])) &&
      bool_decide (is_Some (skip_prefix (chars " snapshots") (drop (length ds) rest)))
  | None => false
  end.
Definition removals (out : string) : Z :=
  Z.of_nat (length (filter (λ l, is_removal l = true) (lines (chars out)))).

Definition locked_hint : string :=
  " A previous run may have left a stale lock — run " +:+ quoted "restic unlock" +:+
  " against this repository.".

Section maintenance.

(** [runResticLocal] with the full credential of a target, and whether
    [authFor] finds that credential: its exception's message if not. *)
Context (restic : string → list string → restic_result) (auth_error : string → option string).

Definition forget_args (keep : list string) (p : Policy) : list string :=
  ["forget"; "--tag"; "policy:" +:+ po_id p; "--group-by"; "host,paths"] ++ keep.

Fixpoint forget_all (t : Target) (keep : list string) (ps : list Policy) : call Z :=
  match ps with
  | [] => mret 0
  | p :: ps' =>
      tell (Restic (t_id t) (forget_args keep p)) ;;
      n ← match restic (t_id t) (forget_args keep p) with
          | Ok out => mret (removals out)
          | Err e => log Warn ("Retention failed for " +:+ quoted (stackName p) +:+ ": " +:+ e.1) ;;
                     mret 0
          end;
      m ← forget_all t keep ps';
      mret (n + m)
  end.

Definition retention_failed (t : Target) (e : string * bool) : call unit :=
  log Error ("Retention/prune failed for " +:+ quoted (t_name t) +:+ ": " +:+ e.1) ;;
  tell (Out (OAlert (Alert "retention.failure" ("Backup retention failed: " +:+ t_name t)
    (if e.2 then e.1 +:+ locked_hint else e.1)
    (Some ("stack-backup:retention:" +:+ t_id t)) None None))).

Definition apply_retention (t : Target) (keep : list string) : call unit :=
  match auth_error (t_id t) with
  | Some e => retention_failed t (e, false)
  | None =>
      s ← get;
      let ps := findMany (λ p, bool_decide (targetId p = t_id t)) (policies s) in
      forgotten ← forget_all t keep ps;
      tell (Restic (t_id t) ["prune"]) ;;
      match restic (t_id t) ["prune"] with
      | Ok _ => log Info ("Retention applied to " +:+ quoted (t_name t) +:+ " across " +:+
          num_to_string (Z.of_nat (length ps)) +:+ " stack(s)" +:+
          (if forgotten =? 0 then "" else
             "; " +:+ num_to_string forgotten +:+ " forget pass(es) removed snapshots") +:+
          ", then pruned.")
      | Err e => retention_failed t e
      end
  end.

(** The nightly pass over one target: reserve its repository, work, release. *)
Definition maintain (t : Target) : call unit :=
  s ← get;
  if bool_decide (retentionFlags t = []) then mret tt
  else if bool_decide (t_id t ∈ busyTargets s) then
    log Info ("Retention for " +:+ quoted (t_name t) +:+ " skipped — a backup is using the repository.")
  else
    modify (set_busy (t_id t)) ;;
    apply_retention t (retentionFlags t) ;;
    modify (clear_busy (t_id t)).

Definition maintenance : call unit := s ← get; for_each (targets s) maintain.
End maintenance.

Definition iso_date (t : Z) : string :=
  num_to_string (getFullYear 0 t) +:+ "-" +:+ pad2 (getMonth 0 t + 1) +:+ "-" +:+ pad2 (getDate 0 t).

Definition last_good (p : Policy) (s : state) : option Z :=
  foldr (λ r best, match best with Some b => Some (Z.max b (startedAt r)) | None => Some (startedAt r) end)
    None (findMany (λ r, bool_decide (run_policyId r = Some (po_id p)) &&
                         bool_decide (run_status r = "success")) (runs s)).

(** A policy is overdue after two and a half of its own intervals. *)
Definition overdue (now : Z) (p : Policy) (s : state) : bool :=
  let window2 := intervalMs (po_schedule p) * 5 in
  negb (window2 =? 0) && (window2 <=? 2 * (now - default (createdAt p) (last_good p s))).

Definition stale_alert (now : Z) (p : Policy) (s : state) : alert :=
  let when_ := toLowerCase (describeSchedule (po_schedule p)) in
  let days := (now - default (createdAt p) (last_good p s)) / 86400000 in
  Alert "backup.stale" ("No recent backup: " +:+ stackName p)
    (match last_good p s with
     | Some _ => "The last successful backup of " +:+ quoted (stackName p) +:+ " was " +:+
                 num_to_string days +:+ " day(s) ago, but it is scheduled " +:+ when_ +:+ "."
     | None => quoted (stackName p) +:+ " is scheduled " +:+ when_ +:+
               " but has never completed a successful backup."
     end)
    (Some ("stack-backup:stale:" +:+ po_id p +:+ ":" +:+ iso_date now))
    (Some (connectorInstanceId p)) None.

Definition check_stale (now : Z) (p : Policy) : call unit :=
  s ← get; when (overdue now p s) (tell (Out (OAlert (stale_alert now p s)))).

Definition staleness (now : Z) : call unit :=
  s ← get;
  for_each (findMany (λ p, po_enabled p && negb (bool_decide (frequency (po_schedule p) = off)))
    (policies s)) (check_stale now).

End service.
End StackBackupScheduler.

(** ** Proofs about the policies *)

Import StackBackupService StackBackupScheduler.

Lemma sealKey_inj a b : sealKey a = sealKey b → a = b.
Proof.
  unfold sealKey. intros H%(f_equal chars). rewrite !chars_app in H.
  apply app_inv_head, app_inv_tail in H. by apply chars_inj.
Qed.

Definition policy_key (p : Policy) : string * string := (connectorInstanceId p, stackName p).

(** What the invariant reads of a policy: a run changes nothing of it. *)
Definition shape (p : Policy) : string * (string * string) * BackupSchedule * string :=
  (po_id p, policy_key p, po_schedule p, secretMode p).
Definition view (s : state) := (shape <$> policies s, vault s).

(** A schedule that seals has its passphrase. *)
Definition armed (v : gmap string string) (p : Policy) : Prop :=
  frequency (po_schedule p) ≠ off → secretMode p = "embed" →
  ∃ pw, v !! sealKey (po_id p) = Some pw ∧ pw ≠ "".

Record sealed (s : state) : Prop := {
  sealed_ids : NoDup (po_id <$> policies s);
  sealed_keys : NoDup (policy_key <$> policies s);
  sealed_values : ∀ id, vault s !! sealKey id ≠ Some "";
  sealed_armed : ∀ p, p ∈ policies s → armed (vault s) p
}.

Lemma fmap_shape {A} (f : Policy → A) g (ps : list Policy) : (∀ p, f p = g (shape p)) → f <$> ps = g <$> (shape <$> ps).
Proof. intros Hf. rewrite <-list_fmap_compose. apply list_fmap_ext. intros. apply Hf. Qed.

Lemma view_sealed s s' : view s' = view s → sealed s → sealed s'.
Proof.
  unfold view. intros [= Hps Hv] [Hi Hk Hval Ha].
  assert (Hi' : po_id <$> policies s' = po_id <$> policies s)
    by by rewrite !(fmap_shape po_id (λ x, x.1.1.1)), Hps.
  assert (Hk' : policy_key <$> policies s' = policy_key <$> policies s)
    by by rewrite !(fmap_shape policy_key (λ x, x.1.1.2)), Hps.
  split; [by rewrite Hi' | by rewrite Hk' | by rewrite Hv |].
  intros p Hp. assert (Hsh : shape p ∈ shape <$> policies s).
  { rewrite <-Hps. by apply list_elem_of_fmap_2. }
  apply list_elem_of_fmap in Hsh as (q & Hq & Hin).
  specialize (Ha q Hin). unfold shape in Hq. injection Hq as E1 _ _ E4 E5.
  unfold armed in *. by rewrite Hv, E1, E4, E5.
Qed.

Lemma startBackup_view v runId now id pw by_ :
  preserves (λ s, view s = v) (startBackup runId now id pw by_).
Proof. unfold startBackup. auto 10 with svc. Qed.

Lemma finish_view v now runId id ok m : preserves (λ s, view s = v) (finish now runId id ok m).
Proof.
  unfold finish. apply preserves_bind; [by auto with svc|intros _].
  apply preserves_bind; [|by auto 10 with svc]. apply preserves_modify.
  intros s. unfold view. simpl. by rewrite fmap_updateMany.
Qed.

Lemma poll_view now t s : view (poll now t s) = view s.
Proof. unfold poll. by repeat case_match. Qed.

Lemma runOne_view v runId now p : preserves (λ s, view s = v) (runOne runId now p).
Proof.
  unfold runOne. apply preserves_bind; [auto with svc|intros _].
  apply preserves_bind; [unfold log; auto with svc|intros _]. apply preserves_catch.
  - apply preserves_bind; [apply startBackup_view|]. auto with svc.
  - unfold log. auto with svc.
Qed.

Lemma tick_view tz v now runId loaded : preserves (λ s, view s = v) (tick tz now runId loaded).
Proof.
  unfold tick, log. destruct loaded; simpl; [|auto with svc].
  apply preserves_bind; [auto with svc|intros s0]. apply preserves_for_each. intros p.
  unfold consider. apply preserves_bind; [auto with svc|intros s1].
  case_bool_decide; [auto with svc|]. apply preserves_bind; [auto with svc|intros _].
  case_match; [auto with svc|]. case_bool_decide; [unfold log; auto with svc|].
  apply runOne_view.
Qed.

(** [sealed], but for the schedule of one policy. *)
Record sealed_but (id : string) (s : state) : Prop := {
  but_ids : NoDup (po_id <$> policies s);
  but_keys : NoDup (policy_key <$> policies s);
  but_values : ∀ k, vault s !! sealKey k ≠ Some "";
  but_armed : ∀ p, p ∈ policies s → po_id p ≠ id → armed (vault s) p
}.

Lemma sealed_sealed_but id s : sealed s → sealed_but id s.
Proof. intros [???]. split; auto. Qed.

Lemma has_key_spec inst stack p : has_key inst stack p = bool_decide (policy_key p = (inst, stack)).
Proof. unfold has_key, policy_key. apply bool_decide_ext. naive_solver. Qed.

(** An upsert leaves one row with the key, under the id the row had. *)
Lemma upsert_sealed s newId now i pre post :
  newId ∉ po_id <$> policies s → sealed s →
  let row := policy_row newId now i pre post
    (findFirst (has_key (in_instance i) (in_stack i)) (policies s)) in
  row ∈ upsert_policy row (policies s) ∧
  sealed_but (po_id row) (with_policies (upsert_policy row) s).
Proof.
  intros Hnew [Hi Hk Hval Ha] row. unfold upsert_policy. simpl.
  assert (Hrk : policy_key row = (in_instance i, in_stack i)) by done.
  destruct (findFirst (has_key (in_instance i) (in_stack i)) (policies s)) as [old|] eqn:Hf.
  - pose proof Hf as [Hin Hold]%findFirst_Some.
    assert (Hid : po_id row = po_id old) by done. clearbody row.
    assert (Hsome : some (has_key (in_instance i) (in_stack i)) (policies s) = true)
      by (apply some_true; eauto).
    rewrite has_key_spec, bool_decide_eq_true in Hold.
    destruct (updateMany_key policy_key (policies s) old (λ _, row) Hk Hin) as (l1 & l2 & Hs & Hu).
    assert (updateMany (has_key (in_instance i) (in_stack i)) (λ _, row) (policies s)
      = l1 ++ row :: l2) as Hu'.
    { rewrite <-Hu. apply list_fmap_ext. intros _ p _. by rewrite has_key_spec, Hold. }
    rewrite Hsome, Hu'.
    split; [set_solver|]. rewrite Hs in Hi, Hk, Ha. split; simpl; rewrite ?Hsome, ?Hu'; [| |done|].
    + rewrite fmap_app, fmap_cons in *. by rewrite Hid.
    + rewrite fmap_app, fmap_cons in *. by rewrite Hrk, <-Hold.
    + intros p Hp Hne. apply Ha. rewrite elem_of_app, elem_of_cons in *.
      destruct Hp as [?|[->|?]]; [by left|done|by right; right].
  - assert (Hno : ∀ p, p ∈ policies s → policy_key p ≠ (in_instance i, in_stack i)).
    { intros p Hp Hkey. apply (proj1 (findFirst_None _ _) Hf) in Hp.
      by rewrite has_key_spec, bool_decide_eq_false in Hp. }
    assert (Hsome : some (has_key (in_instance i) (in_stack i)) (policies s) = false).
    { apply some_false. intros p Hp. rewrite has_key_spec, bool_decide_eq_false. auto. }
    assert (Hid : po_id row = newId) by done. clearbody row.
    rewrite Hsome. unfold createRow. split; [set_solver|].
    split; simpl; rewrite ?Hsome; [| |done|].
    + rewrite fmap_app. apply NoDup_app. split_and!; [done| |apply NoDup_singleton].
      intros x Hx ->%list_elem_of_singleton. by rewrite Hid in Hx.
    + rewrite fmap_app. apply NoDup_app. split_and!; [done| |apply NoDup_singleton].
      intros x (p & -> & Hp)%list_elem_of_fmap Hx%list_elem_of_singleton.
      apply (Hno p Hp). by rewrite Hx.
    + intros p [Hp| ->%list_elem_of_singleton]%elem_of_app; auto. done.
Qed.

(** The stored passphrase of one policy changes. *)
Lemma vault_sealed_but id v s :
  (∀ k, k ≠ sealKey id → v !! k = vault s !! k) → v !! sealKey id ≠ Some "" →
  sealed_but id s → sealed_but id (with_vault v s).
Proof.
  intros Hv Hid [Hi Hk Hval Ha]. split; simpl; [done|done| |].
  - intros k. destruct (decide (k = id)) as [->|]; [done|]. rewrite Hv; [done|].
    intros ?%sealKey_inj. done.
  - intros p Hp Hne Hf Hm. rewrite Hv; [by apply Ha|]. intros ?%sealKey_inj. done.
Qed.

Lemma set_frequency_off_sealed id s :
  sealed_but id s → sealed (with_policies (updateMany (has_id id) (set_frequency off)) s).
Proof.
  intros [Hi Hk Hval Ha]. split; simpl; [by rewrite fmap_updateMany| by rewrite fmap_updateMany|done|].
  intros p (q & Hq & ->)%elem_of_updateMany. unfold has_id.
  case_bool_decide; [by intros ?|]. by apply Ha.
Qed.

Lemma sealed_but_sealed row s :
  row ∈ policies s → sealed_but (po_id row) s → armed (vault s) row → sealed s.
Proof.
  intros Hrow [Hi Hk Hval Ha] Harm. split; [done..|]. intros p Hp.
  destruct (decide (po_id p = po_id row)) as [He|]; [|by apply Ha].
  assert (p = row) as ->; [|done].
  pose proof (findFirst_key po_id _ _ Hi Hp) as E1. rewrite He in E1.
  rewrite (findFirst_key po_id _ _ Hi Hrow) in E1. by injection E1.
Qed.

Section policy_requests.
Context (is_host : string → bool) (tz : Z).

(** The operations that touch policies, runs, the vault or the scheduler. *)
Inductive request :=
| RSave (newId : string) (now : Z) (i : policy_input)
| RRemove (id : string)
| RStart (runId : string) (now : Z) (id : string) (passphrase : option string) (by_ : run_trigger)
| RFinish (now : Z) (runId policyId : string) (ok : bool) (message : string)
| RTick (now : Z) (runId : string → string) (loaded : bool)
| RPoll (now : Z) (target : string).

Definition serve (r : request) : call unit :=
  match r with
  | RSave newId now i => savePolicy is_host newId now i ;; mret tt
  | RRemove id => removePolicy id
  | RStart runId now id pw by_ => startBackup runId now id pw by_ ;; mret tt
  | RFinish now runId policyId ok m => finish now runId policyId ok m
  | RTick now runId loaded => tick tz now runId loaded
  | RPoll now target => modify (poll now target)
  end.

(** A row is created under an id no row has. *)
Definition fresh_ids (r : request) (s : state) : Prop :=
  match r with RSave newId _ _ => newId ∉ po_id <$> policies s | _ => True end.

Inductive step (s : state) : state → Prop :=
| step_serve r : fresh_ids r s → step s (run_state (serve r) s).


Lemma savePolicy_sealed newId now i s :
  newId ∉ po_id <$> policies s → sealed s → sealed (run_state (savePolicy is_host newId now i) s).
Proof.
  intros Hnew Hs. unfold savePolicy, one_of, run_state. svc_run.
  do 6 (case_match; [done|]; svc_run).
  destruct (validateHooks (in_preHooks i)) as [pre|]; [|done]. svc_run.
  destruct (validateHooks (in_postHooks i)) as [post|]; [|done]. svc_run.
  destruct (upsert_sealed s newId now i pre post Hnew Hs) as [Hrow Hbut].
  set (row := policy_row _ _ _ _ _ _) in *.
  set (s1 := with_policies _ s) in *.
  set (s2 := match in_sealPassphrase i with Some _ => _ | None => _ end).
  assert (Hbut2 : sealed_but (po_id row) s2 ∧ policies s2 = policies s1).
  { subst s2. case_match eqn:Hp; [|done]. case_match.
    - split; [|done]. apply vault_sealed_but; [|by rewrite lookup_delete_eq|done].
      intros k Hk. by rewrite lookup_delete_ne.
    - split; [|done]. apply vault_sealed_but; [|by rewrite lookup_insert_eq|done].
      intros k Hk. by rewrite lookup_insert_ne. }
  destruct Hbut2 as [Hbut2 Hps]. destruct (_ && _ && _) eqn:Hc; svc_run; simpl.
  - by apply set_frequency_off_sealed.
  - apply (sealed_but_sealed row); [by rewrite Hps|done|].
    intros Hf Hm. rewrite bool_decide_eq_false_2, bool_decide_eq_true_2 in Hc by done.
    simpl in Hc. apply negb_false_iff in Hc. unfold has_secret in Hc.
    apply bool_decide_eq_true in Hc as [pw Hpw]. exists pw. split; [done|].
    intros ->. by apply (but_values _ _ Hbut2 (po_id row)).
Qed.

Lemma removePolicy_sealed id s : sealed s → sealed (run_state (removePolicy id) s).
Proof.
  intros [Hi Hk Hval Ha]. unfold removePolicy, run_state. svc_run.
  case_match; [done|]. svc_run. split; simpl.
  - eapply sublist_NoDup; [exact Hi|]. apply fmap_sublist, sublist_filter.
  - eapply sublist_NoDup; [exact Hk|]. apply fmap_sublist, sublist_filter.
  - intros k. destruct (decide (k = id)) as [->|]; [by rewrite lookup_delete_eq|].
    rewrite lookup_delete_ne; [done|]. by intros ?%sealKey_inj.
  - intros p [Hp Hin]%elem_of_deleteMany Hf Hm. unfold has_id in Hp.
    apply bool_decide_eq_false in Hp. rewrite lookup_delete_ne; [by apply Ha|].
    by intros ?%sealKey_inj.
Qed.

Lemma step_sealed s s' : sealed s → step s s' → sealed s'.
Proof.
  intros Hs [r Hr]. destruct r; simpl in *.
  - pose proof (savePolicy_sealed newId now i s Hr Hs) as H. unfold run_state in *.
    unfold mbind, svc_bind. by destruct (savePolicy is_host newId now i s) as [[[]?]?].
  - by apply removePolicy_sealed.
  - eapply view_sealed, Hs. apply (preserves_bind (λ x, view x = view s)); [|by auto with svc|done].
    apply startBackup_view.
  - eapply view_sealed, Hs. by apply finish_view.
  - eapply view_sealed, Hs. by apply tick_view.
  - eapply view_sealed, Hs. apply poll_view.
Qed.

Definition fresh_store (s : state) : Prop := policies s = [] ∧ ∀ id, vault s !! sealKey id ≠ Some "".

(** C16: no schedule is left armed that cannot run.  In every state the service
    reaches from an empty policy table, a scheduled start of a due policy either
    creates its running row or finds that policy's backup already running: it
    never fails for want of a sealing passphrase or of the policy. *)
Theorem due_policies_can_start (s : state) (now : Z) (p : Policy) (runId : string) :
  reachable fresh_store step s → p ∈ duePolicies tz now s →
  if bool_decide (po_id p ∈ active s)
  then run_result (startBackup runId now (po_id p) None Scheduled) s =
    Err (BadRequest "A backup for this stack is already running.")
  else ∃ run, run_result (startBackup runId now (po_id p) None Scheduled) s = Ok run ∧
    run_policyId run = Some (po_id p) ∧ run_status run = "running" ∧
    runs (run_state (startBackup runId now (po_id p) None Scheduled) s) = runs s ++ [run].
Proof.
  intros Hr Hp. assert (Hs : sealed s).
  { revert s Hr Hp. intros s Hr _. revert s Hr. apply reachable_invariant; [|apply step_sealed].
    intros s [Hps Hv]. split; rewrite ?Hps; [constructor|constructor|done|].
    intros q Hq. by apply elem_of_nil in Hq. }
  unfold duePolicies in Hp. apply list_elem_of_filter in Hp as [_ Hp].
  apply elem_of_findMany in Hp as [Hcond Hin].
  apply andb_true_iff in Hcond as [_ Hfreq%negb_true_iff%bool_decide_eq_false].
  unfold run_result, run_state, startBackup. svc_run.
  assert (findFirst (has_id (po_id p)) (policies s) = Some p) as ->
    by (apply (findFirst_key po_id); [apply Hs|done]).
  case_bool_decide; svc_run; [done|].
  destruct (decide (secretMode p = "embed")) as [Hm|Hm].
  - destruct (sealed_armed s Hs p Hin Hfreq Hm) as (pw & Hpw & Hne).
    rewrite (bool_decide_eq_true_2 (secretMode p = "embed")) by done. simpl. rewrite Hpw. simpl.
    rewrite bool_decide_eq_false_2 by done. svc_run. eexists. split_and!; done.
  - rewrite (bool_decide_eq_false_2 (secretMode p = "embed")) by done. simpl. svc_run.
    eexists. split_and!; done.
Qed.
End policy_requests.

(** A host, a target and a nightly sealed policy, and their witness. *)
Definition nightly : BackupSchedule :=
  {| frequency := daily; dayOfWeek := 0; dayOfMonth := 1; hour := 3; minute := 0 |}.
Definition nightly_input (stack : string) (seal : option string) : policy_input :=
  {| in_instance := "docker1"; in_stack := stack; in_target := "repo"; in_enabled := None;
     in_frequency := Some daily; in_dayOfWeek := None; in_dayOfMonth := None; in_hour := None;
     in_minute := None; in_quiesce := None; in_transfer := None; in_secretMode := None;
     in_includeBinds := []; in_excludes := []; in_preHooks := []; in_postHooks := [];
     in_sealPassphrase := seal |}.
Definition sample_target : Target :=
  {| t_id := "repo"; t_name := "Offsite"; keepLast := None; keepDaily := Some 7; keepWeekly := None;
     keepMonthly := None; keepWithinDays := None |}.
Definition empty_store : state := State [] [] [sample_target] ∅ ∅ ∅ ∅ [].

Lemma due_policies_can_start_witness :
  let s := run_state (serve (λ _, true) 0 (RSave "p1" 0 (nightly_input "web" (Some "pw")))) empty_store in
  ∃ p run, p ∈ duePolicies 0 10800000 s ∧
    run_result (startBackup "r1" 10800000 (po_id p) None Scheduled) s = Ok run.
Proof.
  set (s := run_state _ _). destruct (policies s) as [|p ps] eqn:Hps; [by vm_compute in Hps|].
  assert (Hp : p ∈ duePolicies 0 10800000 s).
  { replace (duePolicies 0 10800000 s) with (policies s) by (vm_compute; reflexivity).
    rewrite Hps. left. }
  assert (Hr : reachable fresh_store (step (λ _, true) 0) s).
  { eapply reach_step; [apply (reach_init _ _ empty_store)|].
    - by split.
    - apply step_serve. apply not_elem_of_nil. }
  pose proof (due_policies_can_start _ 0 s 10800000 p "r1" Hr Hp) as H.
  replace (active s) with (∅ : gset string) in H by (vm_compute; reflexivity).
  destruct H as (run & H & _). exists p, run. by split.
Defined.

(** ** Serialization of the scheduled work *)

Definition holders (x : state * list string) : list string := (w_target <$> waiting x.1) ++ x.2.

Record serialized (x : state * list string) : Prop := {
  serial_one : NoDup (holders x);
  serial_busy : ∀ t, t ∈ busyTargets x.1 ↔ t ∈ holders x
}.

Definition reserved (s : state) := (busyTargets s, waiting s).

Lemma startBackup_reserved v runId now id pw by_ :
  preserves (λ s, reserved s = v) (startBackup runId now id pw by_).
Proof. unfold startBackup. auto 10 with svc. Qed.

Lemma startBackup_result runId now id pw by_ s run s' o :
  startBackup runId now id pw by_ s = (Ok run, s', o) → reserved s' = reserved s ∧ run_id run = runId.
Proof.
  intros H. split.
  - pose proof (startBackup_reserved (reserved s) runId now id pw by_ s eq_refl) as Hr.
    unfold run_state in Hr. by rewrite H in Hr.
  - revert H. unfold startBackup. svc_run. case_match; svc_run; [|done].
    repeat (case_match; svc_run; try done); by intros [= <- _ _].
Qed.

Lemma runOne_serialized m runId now p s :
  targetId p ∉ busyTargets s → serialized (s, m) →
  serialized (run_state (runOne runId now p) s, m).
Proof.
  intros Hfree [Hnd Hb]. unfold runOne, log, run_state. svc_run. simpl.
  unfold mbind, svc_bind, tell, catch.
  destruct (startBackup _ _ _ _ _ _) as [[[run|e] s1] o1] eqn:Hs; simpl in *.
  - apply startBackup_result in Hs as [[= Hbs Hw] _]. simpl in *.
    assert (Hfree' : targetId p ∉ holders (s, m)) by by rewrite <-Hb.
    unfold holders in *. simpl in *. split; unfold holders; simpl.
    + rewrite Hw, fmap_app. simpl. rewrite <-(assoc_L (++)). simpl.
      rewrite <-Permutation_middle. by constructor.
    + intros t. rewrite Hbs, Hw, fmap_app. simpl. set_solver.
  - pose proof (startBackup_reserved (reserved (set_busy (targetId p) s)) runId now (po_id p) None
      Scheduled (set_busy (targetId p) s) eq_refl) as Hr.
    unfold run_state in Hr. rewrite Hs in Hr. injection Hr as Hbs Hw. simpl in *.
    unfold holders in *. split; unfold holders; simpl in *; rewrite Hw; [done|].
    intros t. rewrite Hbs, <-Hb. set_solver.
Qed.

Lemma savePolicy_reserved is_host v newId now i :
  preserves (λ s, reserved s = v) (savePolicy is_host newId now i ;; mret tt).
Proof.
  apply preserves_bind; [|by auto with svc]. unfold savePolicy, one_of.
  repeat first
    [apply preserves_bind; [|intros ?] | case_match | apply preserves_modify; by intros s <-
    | apply preserves_modify; intros s <-; by repeat case_match | auto 3 with svc].
Qed.

Lemma removePolicy_reserved v id : preserves (λ s, reserved s = v) (removePolicy id).
Proof. unfold removePolicy. auto 10 with svc. Qed.

Lemma finish_reserved v now runId id ok m :
  preserves (λ s, reserved s = v) (finish now runId id ok m).
Proof. unfold finish. auto 10 with svc. Qed.

Lemma reserved_serialized s s' m : reserved s' = reserved s → serialized (s, m) → serialized (s', m).
Proof.
  unfold reserved. intros [= Hb Hw] [H1 H2]. unfold holders in *. simpl in *.
  split; unfold holders; simpl; rewrite Hw; [done|]. intros t. by rewrite Hb, H2.
Qed.

Lemma consider_serialized tz m now runId p :
  preserves (λ s, serialized (s, m)) (consider tz now runId p).
Proof.
  intros s Hs. unfold consider, run_state. svc_run. case_bool_decide; [done|]. svc_run.
  case_match; [by apply (reserved_serialized s)|]. svc_run.
  case_bool_decide as Hbusy; [by apply (reserved_serialized s)|].
  apply runOne_serialized; [done|]. by apply (reserved_serialized s).
Qed.

Lemma poll_serialized m now target s : serialized (s, m) → serialized (poll now target s, m).
Proof.
  intros Hs. unfold poll. destruct (findFirst _ _) as [w|] eqn:Hw; [|done].
  case_match; [|done]. apply findFirst_Some in Hw as [Hin <-%bool_decide_eq_true].
  destruct Hs as [Hnd Hb]. unfold holders in *. simpl in *.
  apply NoDup_app in Hnd as (Hnd & Hdisj & Hm).
  assert (Hrest : ∀ t, t ∈ w_target <$> deleteMany (λ v, bool_decide (w_target v = w_target w)) (waiting s)
    ↔ t ∈ w_target <$> waiting s ∧ t ≠ w_target w).
  { intros t. rewrite !list_elem_of_fmap. setoid_rewrite elem_of_deleteMany.
    setoid_rewrite bool_decide_eq_false. naive_solver. }
  assert (Hwt : w_target w ∈ w_target <$> waiting s) by by apply list_elem_of_fmap_2.
  split; unfold holders; simpl.
  - apply NoDup_app. split_and!; [|naive_solver|done].
    eapply sublist_NoDup; [exact Hnd|]. apply fmap_sublist, sublist_filter.
  - intros t. rewrite elem_of_app, Hrest, elem_of_difference, elem_of_singleton, Hb, elem_of_app.
    naive_solver.
Qed.

Section serial.
Context (is_host : string → bool) (tz : Z).

(** The scheduler with its retention passes in progress: a pass reserves its
    target's repository, works while other requests run, and releases it. *)
Inductive scheduled_step : state * list string → state * list string → Prop :=
| sched_serve r s m :
    scheduled_step (s, m) (run_state (serve is_host tz r) s, m)
| sched_reserve t s m : t ∉ busyTargets s → scheduled_step (s, m) (set_busy t s, t :: m)
| sched_release t s m1 m2 : scheduled_step (s, m1 ++ t :: m2) (clear_busy t s, m1 ++ m2).


Lemma scheduled_step_serialized x y : serialized x → scheduled_step x y → serialized y.
Proof.
  intros Hx Hstep. destruct Hstep as [r s m|t s m Hfree|t s m1 m2].
  - destruct r; simpl.
    + apply (reserved_serialized s); [|done]. by apply savePolicy_reserved.
    + apply (reserved_serialized s); [|done]. by apply removePolicy_reserved.
    + apply (reserved_serialized s); [|done].
      apply (preserves_bind (λ x, reserved x = reserved s)); [|by auto with svc|done].
      apply startBackup_reserved.
    + apply (reserved_serialized s); [|done]. by apply finish_reserved.
    + unfold tick, log. destruct loaded; simpl; [|done].
      apply (preserves_bind (λ s, serialized (s, m))); [by auto with svc| |done].
      intros s0. apply preserves_for_each. intros p. apply consider_serialized.
    + by apply poll_serialized.
  - destruct Hx as [Hnd Hb]. unfold holders in *; simpl in *. split; unfold holders; simpl.
    + rewrite <-Permutation_middle. constructor; [|done]. by rewrite <-Hb.
    + set_solver.
  - destruct Hx as [Hnd Hb]. unfold holders in *; simpl in *.
    assert (Hp : (w_target <$> waiting s) ++ m1 ++ t :: m2 ≡ₚ t :: (w_target <$> waiting s) ++ m1 ++ m2)
      by solve_Permutation.
    rewrite Hp in Hnd. apply NoDup_cons in Hnd as [Ht Hnd].
    split; unfold holders; simpl; [done|]. intros t'. rewrite elem_of_difference, elem_of_singleton, Hb.
    set_solver.
Qed.

Definition scheduler_boot (x : state * list string) : Prop :=
  waiting x.1 = [] ∧ busyTargets x.1 = ∅ ∧ x.2 = [].

(** the work the scheduler starts is serialized per repository.  However
    ticks, polls, retention passes, requests and ending runs interleave, no
    repository is held twice by backups the scheduler waits for and retention
    passes in progress, and the reserved repositories are exactly the held ones:
    no reservation leaks, so when nothing is waited for none is reserved. *)
Theorem scheduled_work_serialized (x : state * list string) :
  reachable scheduler_boot scheduled_step x →
  NoDup (holders x) ∧ (∀ t, t ∈ busyTargets x.1 ↔ t ∈ holders x) ∧
  (waiting x.1 = [] → x.2 = [] → busyTargets x.1 = ∅).
Proof.
  intros Hr. assert (Hx : serialized x).
  { revert x Hr. apply reachable_invariant; [|apply scheduled_step_serialized].
    intros x (Hw & Hb & Hm). split; unfold holders; rewrite Hw, ?Hm; [constructor|].
    rewrite Hb. set_solver. }
  destruct Hx as [Hnd Hb]. split_and!; [done..|]. intros Hw Hm.
  apply set_eq. intros t. rewrite Hb. unfold holders. rewrite Hw, Hm. set_solver.
Qed.
End serial.

Definition stored_nightly (stack : string) : request := RSave stack 0 (nightly_input stack (Some "pw")).
Definition two_nightly : state :=
  run_state (serve (λ _, true) 0 (stored_nightly "web") ;; serve (λ _, true) 0 (stored_nightly "db"))
    empty_store.
Definition first_run (policy : string) : string := policy +:+ "#1".

Lemma scheduled_work_serialized_witness :
  let s := run_state (serve (λ _, true) 0 (RTick 10800000 first_run true)) two_nightly in
  w_target <$> waiting s = ["repo"] ∧ busyTargets s = {["repo"]}.
Proof.
  set (s := run_state _ _).
  assert (Hr : reachable scheduler_boot (scheduled_step (λ _, true) 0) (s, [])).
  { eapply reach_step; [|apply sched_serve].
    assert (two_nightly = run_state (serve (λ _, true) 0 (stored_nightly "db"))
      (run_state (serve (λ _, true) 0 (stored_nightly "web")) empty_store)) as ->
      by (vm_compute; reflexivity).
    eapply reach_step; [|apply sched_serve]. eapply reach_step; [|apply sched_serve].
    by apply reach_init. }
  destruct (scheduled_work_serialized _ 0 _ Hr) as (_ & Hb & _). unfold holders in Hb.
  cbn [fst snd] in Hb.
  assert (Hw : w_target <$> waiting s = ["repo"]) by (vm_compute; reflexivity).
  clearbody s. clear Hr. split; [done|]. apply set_eq. intros t. rewrite Hb, Hw. set_solver.
Defined.

(** ** The nightly pass *)

Section nightly_pass.
Context (restic : string → list string → restic_result) (auth_error : string → option string).

Definition restic_command (e : effect) : option (string * list string) :=
  match e with Restic t args => Some (t, args) | Out _ => None end.

(** What the pass should run on one repository. *)
Definition expected_commands (s : state) (t : Target) : list (string * list string) :=
  if bool_decide (retentionFlags t = []) || bool_decide (t_id t ∈ busyTargets s) ||
     bool_decide (is_Some (auth_error (t_id t))) then []
  else ((λ p, (t_id t, forget_args (retentionFlags t) p)) <$>
         findMany (λ p, bool_decide (targetId p = t_id t)) (policies s)) ++
       [(t_id t, ["prune"])].

Lemma forget_all_run t keep ps s :
  ∃ n o, forget_all restic t keep ps s = (Ok n, s, o) ∧
    omap restic_command o = (λ p, (t_id t, forget_args keep p)) <$> ps.
Proof.
  induction ps as [|p ps (n & o & IH & Ho)]; [by exists 0, []|].
  simpl. rewrite run_tell.
  destruct (restic (t_id t) (forget_args keep p)) as [out|e]; svc_run.
  - unfold mbind at 1, svc_bind at 1. rewrite IH. do 2 eexists. split; [done|].
    simpl. by rewrite omap_app, Ho, app_nil_r.
  - unfold log. svc_run. unfold mbind at 1, svc_bind at 1. rewrite IH. do 2 eexists. split; [done|].
    simpl. by rewrite omap_app, Ho, app_nil_r.
Qed.

Lemma apply_retention_run t keep s :
  ∃ o, apply_retention restic auth_error t keep s = (Ok tt, s, o) ∧
    omap restic_command o =
      if bool_decide (is_Some (auth_error (t_id t))) then []
      else ((λ p, (t_id t, forget_args keep p)) <$>
         findMany (λ p, bool_decide (targetId p = t_id t)) (policies s)) ++ [(t_id t, ["prune"])].
Proof.
  unfold apply_retention. destruct (auth_error (t_id t)) as [e|].
  - eexists. split; [reflexivity|done].
  - svc_run. destruct (forget_all_run t keep
      (findMany (λ p, bool_decide (targetId p = t_id t)) (policies s)) s) as (n & o & Hf & Ho).
    unfold mbind at 1, svc_bind at 1. rewrite Hf. simpl. rewrite run_tell.
    destruct (restic (t_id t) ["prune"]) as [out|e]; eexists; (split; [reflexivity|]);
      simpl; by rewrite omap_app, Ho.
Qed.

Lemma maintain_run t s :
  ∃ o, maintain restic auth_error t s = (Ok tt, s, o) ∧
    omap restic_command o = expected_commands s t.
Proof.
  unfold maintain, expected_commands. svc_run.
  case_bool_decide as Hk; simpl; [by exists []|].
  case_bool_decide as Hb; simpl; [by eexists|]. svc_run.
  destruct (apply_retention_run t (retentionFlags t) (set_busy (t_id t) s)) as (o & Hr & Ho).
  unfold mbind at 1, svc_bind at 1. rewrite Hr. simpl. eexists. split.
  - unfold modify, clear_busy, set_busy, with_scheduler. simpl. f_equal. f_equal.
    assert (({[t_id t]} ∪ busyTargets s) ∖ {[t_id t]} = busyTargets s) as -> by set_solver.
    by destruct s.
  - by rewrite app_nil_r.
Qed.

(** the nightly pass runs exactly the commands it should, in order, however
    each of them ends: nothing on a repository without retention, in use, or
    whose credential is missing; otherwise one [forget] per policy of the
    repository, restricted to that policy's snapshots and with every keep flag
    of the target, then one [prune].  It always completes and leaves every
    reservation and policy as it found them. *)
Theorem maintenance_commands_exact (s : state) :
  run_result (maintenance restic auth_error) s = Ok tt ∧
  run_state (maintenance restic auth_error) s = s ∧
  omap restic_command (run_out (maintenance restic auth_error) s) =
    targets s ≫= expected_commands s.
Proof.
  unfold maintenance, run_result, run_state, run_out. svc_run.
  assert (H : ∀ ts, ∃ o, for_each ts (maintain restic auth_error) s = (Ok tt, s, o) ∧
    omap restic_command o = ts ≫= expected_commands s).
  { induction ts as [|t ts (o & IH & Ho)]; [by exists []|]. simpl.
    destruct (maintain_run t s) as (o1 & Hm & Ho1). unfold mbind at 1, svc_bind at 1.
    rewrite Hm, IH. eexists. split; [done|]. by rewrite omap_app, Ho1, Ho. }
  destruct (H (targets s)) as (o & -> & Ho). done.
Qed.
End nightly_pass.

(** ** Staleness *)

Definition succeeded (p : Policy) (r : BackupRun) : Prop :=
  run_policyId r = Some (po_id p) ∧ run_status r = "success".

(** Two and a half intervals have passed since the last success, or since the
    policy was made if there is none. *)
Definition neglected (now : Z) (p : Policy) (s : state) : Prop :=
  (∀ r, r ∈ runs s → succeeded p r → intervalMs (po_schedule p) * 5 ≤ 2 * (now - startedAt r)) ∧
  ((∀ r, r ∈ runs s → ¬ succeeded p r) → intervalMs (po_schedule p) * 5 ≤ 2 * (now - createdAt p)).

Lemma last_good_None p s : last_good p s = None ↔ ∀ r, r ∈ runs s → ¬ succeeded p r.
Proof.
  unfold last_good, succeeded. split.
  - intros H r Hr Hs. destruct (findMany _ (runs s)) as [|r' l] eqn:Hf.
    + apply (not_elem_of_nil r). rewrite <-Hf. apply elem_of_findMany. split; [|done].
      by rewrite !bool_decide_eq_true_2 by apply Hs.
    + simpl in H. by destruct (foldr _ None l).
  - intros H. destruct (findMany _ (runs s)) as [|r l] eqn:Hf; [done|].
    assert (Hr : r ∈ r :: l) by left. rewrite <-Hf in Hr. apply elem_of_findMany in Hr as [Hc Hr].
    apply andb_true_iff in Hc as [H1%bool_decide_eq_true H2%bool_decide_eq_true].
    exfalso. by apply (H r Hr).
Qed.

Lemma fold_max (xs : list BackupRun) b :
  foldr (λ r best, match best with Some b => Some (Z.max b (startedAt r)) | None => Some (startedAt r) end)
    None xs = Some b →
  (∃ r, r ∈ xs ∧ startedAt r = b) ∧ ∀ r, r ∈ xs → startedAt r ≤ b.
Proof.
  revert b. induction xs as [|x xs IH]; intros b; simpl; [done|].
  destruct (foldr _ None xs) as [b'|] eqn:Hf; intros [= <-].
  - destruct (IH b' eq_refl) as [(r & Hr & Hb) Hall]. split.
    + destruct (Z.le_ge_cases b' (startedAt x)).
      * exists x. split; [left|]. lia.
      * exists r. split; [by right|]. lia.
    + intros r' [->|Hr']%elem_of_cons; [lia|]. specialize (Hall _ Hr'). lia.
  - split; [exists x; split; [left|done]|]. intros r [->|Hr]%elem_of_cons; [lia|].
    destruct xs as [|y ys]; [by apply elem_of_nil in Hr|].
    simpl in Hf. by destruct (foldr _ None ys).
Qed.

Lemma last_good_Some p s b : last_good p s = Some b →
  (∃ r, r ∈ runs s ∧ succeeded p r ∧ startedAt r = b) ∧
  ∀ r, r ∈ runs s → succeeded p r → startedAt r ≤ b.
Proof.
  unfold last_good, succeeded. intros [(r & Hr & Hb) Hall]%fold_max. split.
  - apply elem_of_findMany in Hr as [Hc Hr].
    apply andb_true_iff in Hc as [H1%bool_decide_eq_true H2%bool_decide_eq_true]. eauto.
  - intros r' Hr' [H1 H2]. apply Hall, elem_of_findMany.
    by rewrite !bool_decide_eq_true_2 by done.
Qed.

Lemma overdue_neglected now p s : frequency (po_schedule p) ≠ off →
  overdue now p s = true ↔ neglected now p s.
Proof.
  intros Hf. unfold overdue, neglected.
  assert ((intervalMs (po_schedule p) * 5 =? 0) = false) as ->.
  { apply Z.eqb_neq. unfold intervalMs. by destruct (frequency (po_schedule p)). }
  simpl. rewrite Z.leb_le. destruct (last_good p s) as [b|] eqn:Hg; simpl.
  - apply last_good_Some in Hg as [(r & Hr & Hsr & <-) Hall]. split.
    + intros H. split; [|intros Hno; by destruct (Hno r Hr)].
      intros r' Hr' Hs'. specialize (Hall _ Hr' Hs'). lia.
    + intros [H _]. by apply H.
  - rewrite last_good_None in Hg. split; [|naive_solver].
    intros H. split; [|done]. intros r Hr Hs. by destruct (Hg r Hr).
Qed.

Lemma check_stale_run now p s :
  check_stale now p s =
    (Ok tt, s, if overdue now p s then [Out (OAlert (stale_alert now p s))] else []).
Proof. unfold check_stale. svc_run. by destruct (overdue now p s). Qed.

(** the hourly sweep raises one "no recent backup" alert for exactly the
    enabled, scheduled policies whose last successful run, or whose creation if
    no run ever succeeded, is at least two and a half of their own intervals
    old; failed and running backups do not count, and the sweep changes
    nothing. *)
Theorem staleness_exact (now : Z) (s : state) :
  run_state (staleness now) s = s ∧
  ∀ e, e ∈ run_out (staleness now) s ↔
    ∃ p, p ∈ policies s ∧ po_enabled p = true ∧ frequency (po_schedule p) ≠ off ∧
      neglected now p s ∧ e = Out (OAlert (stale_alert now p s)).
Proof.
  unfold staleness, run_state, run_out. svc_run.
  assert (H : ∀ ps, (∀ p, p ∈ ps → frequency (po_schedule p) ≠ off) →
    ∃ o, for_each ps (check_stale now) s = (Ok tt, s, o) ∧
      ∀ e, e ∈ o ↔ ∃ p, p ∈ ps ∧ neglected now p s ∧ e = Out (OAlert (stale_alert now p s))).
  { induction ps as [|p ps IH]; intros Hps; [exists []; split; [done|]; set_solver|].
    destruct IH as (o & Ho & He); [set_solver|]. simpl.
    unfold mbind at 1, svc_bind at 1. rewrite check_stale_run, Ho. eexists; split; [done|]. intros e.
    pose proof (overdue_neglected now p s (Hps p (list_elem_of_here _ _))) as Hn.
    rewrite elem_of_app, He. setoid_rewrite elem_of_cons.
    destruct (overdue now p s); [|set_solver]. rewrite list_elem_of_singleton. naive_solver. }
  set (ps := findMany _ (policies s)).
  assert (Hps : ∀ p, p ∈ ps ↔ p ∈ policies s ∧ po_enabled p = true ∧ frequency (po_schedule p) ≠ off).
  { intros p. subst ps. rewrite elem_of_findMany, andb_true_iff, negb_true_iff, bool_decide_eq_false.
    naive_solver. }
  destruct (H ps) as (o & -> & He); [set_solver|]. split; [done|]. intros e.
  cbn [snd]. rewrite He. setoid_rewrite Hps. naive_solver.
Qed.

(** ** Two policies with one schedule and one repository *)

Definition run_id_at (k : nat) (policy : string) : string := policy +:+ "#" +:+ pretty k.

(** A backup the scheduler waits for succeeds, and the scheduler notices. *)
Definition complete (now : Z) (w : wait) : call unit :=
  s ← get;
  match findFirst (λ r, bool_decide (run_id r = w_run w)) (runs s) ≫= run_policyId with
  | Some id => finish now (w_run w) id true "done"
  | None => mret tt
  end ;;
  modify (poll now (w_target w)).

#[local] Arguments complete : simpl never.

(** The tick of a minute, and the completion of every backup it started. *)
Definition night (tz now : Z) (k : nat) : call unit :=
  tick tz now (run_id_at k) true ;; s ← get; for_each (waiting s) (complete now).

(** The same minute on [n] days in a row. *)
Fixpoint nights (tz t0 : Z) (n : nat) : call unit :=
  match n with
  | O => mret tt
  | S n' => nights tz t0 n' ;; night tz (t0 + Z.of_nat n' * ms_per_day) n'
  end.

Section starvation.
Context (tz : Z) (p q : Policy).

Definition same_setup (p' : Policy) : Prop :=
  po_id p' = po_id p ∧ targetId p' = targetId p ∧ po_schedule p' = po_schedule p ∧
  po_enabled p' = po_enabled p ∧ secretMode p' = secretMode p.

(** Between two nights. *)
Record between (last : Z) (k : nat) (v : gmap string string) (s : state) : Prop := {
  bw_policies : ∃ p', policies s = [p'; q] ∧ same_setup p';
  bw_vault : vault s = v;
  bw_runs : ∀ r, r ∈ runs s → run_policyId r = Some (po_id p) ∧ startedAt r ≤ last ∧
    ∃ j, (j < k)%nat ∧ run_id r = run_id_at j (po_id p);
  bw_idle : active s = ∅ ∧ busyTargets s = ∅ ∧ waiting s = [];
  bw_slots : lastSlot s !! po_id p = lastSlot s !! po_id q
}.

Lemma run_id_at_inj j k id : run_id_at j id = run_id_at k id → j = k.
Proof.
  unfold run_id_at. intros H%(inj (String.append id)).
  by apply (inj (String.append "#")), (inj pretty) in H.
Qed.

Context (Hid : po_id p ≠ po_id q) (Htarget : targetId q = targetId p)
  (Hsched : po_schedule q = po_schedule p).

Lemma due_together now p' s : same_setup p' → po_enabled p = true → po_enabled q = true →
  frequency (po_schedule p) ≠ off → policies s = [p'; q] →
  duePolicies tz now s = if isDue tz (po_schedule p) now then [p'; q] else [].
Proof.
  intros (_ & _ & Hs & He & _) Hp Hq Hf Hps. unfold duePolicies, findMany. rewrite Hps.
  rewrite !filter_cons, filter_nil, Hs, He, Hp, Hq, Hsched.
  rewrite (bool_decide_eq_false_2 (frequency _ = off)) by done. simpl.
  by rewrite !filter_cons, filter_nil, Hs, Hsched; destruct (isDue _ _ _).
Qed.

(** The first policy's backup starts. *)
Definition run_of (p' : Policy) (now : Z) (rid : string) : BackupRun :=
  {| run_id := rid; run_policyId := Some (po_id p'); run_instanceId := connectorInstanceId p';
     run_stackName := stackName p'; run_targetId := targetId p'; run_trigger_by := Scheduled;
     run_status := "running"; run_message := None; startedAt := now; finishedAt := None |}.

Definition started (p' : Policy) (now : Z) (rid : string) (s : state) : state :=
  State (policies s) (runs s ++ [run_of p' now rid]) (targets s) (vault s) {[po_id p']}
    {[targetId p']} (<[po_id p' := slot_of tz now]> (lastSlot s))
    [Wait (targetId p') rid (now + AWAIT_MS)].

Lemma consider_starts now last k v p' s rid :
  between last k v s → policies s = [p'; q] → same_setup p' →
  last < minute_start tz now → lastSlot s !! po_id p' ≠ Some (slot_of tz now) →
  (secretMode p = "embed" → ∃ pw, v !! sealKey (po_id p) = Some pw ∧ pw ≠ "") →
  ∃ o, consider tz now (λ _, rid) p' s = (Ok tt, started p' now rid s, o).
Proof.
  intros [_ Hv Hruns (Ha & Hb & Hw) _] Hps Hset Hlast Hslot Hseal.
  unfold consider. svc_run. rewrite bool_decide_eq_false_2 by done. svc_run.
  assert (some (λ r, bool_decide (run_policyId r = Some (po_id p')) &&
    (minute_start tz now <=? startedAt r)) (runs s) = false) as ->.
  { apply some_false. intros r Hr. destruct (Hruns r Hr) as (_ & Hs & _).
    apply andb_false_iff. right. lia. }
  svc_run. simpl. rewrite Hb, bool_decide_eq_false_2 by set_solver.
  unfold runOne, log. svc_run. unfold catch, startBackup. svc_run. simpl.
  rewrite Hps, findFirst_cons. unfold has_id at 1. rewrite bool_decide_eq_true_2 by done. svc_run.
  rewrite Ha, bool_decide_eq_false_2 by set_solver. svc_run.
  destruct Hset as (Hi & Ht & _ & _ & Hm). rewrite Hm, Hv, Hi.
  assert ((let seal := if bool_decide (secretMode p = "embed") && true
      then v !! sealKey (po_id p) else None in
    bool_decide (secretMode p = "embed") && negb (truthy seal)) = false) as Hok.
  { case_bool_decide as He; [|done]. simpl. destruct (Hseal He) as (pw & -> & Hne). simpl.
    by rewrite bool_decide_eq_false_2. }
  cbv zeta in Hok. rewrite Hok. svc_run. eexists. unfold started, run_of. simpl.
  unfold set_busy, with_scheduler, with_active, with_runs, createRow. simpl.
  by rewrite Ha, Hw, !union_empty_r_L, Hi.
Qed.

Lemma consider_defers now last k v p' s rid rid' :
  between last k v s → same_setup p' → lastSlot s !! po_id q ≠ Some (slot_of tz now) →
  ∃ o, consider tz now (λ _, rid') q (started p' now rid s) =
    (Ok tt, with_scheduler {[targetId p']} (<[po_id q := slot_of tz now]>
       (<[po_id p' := slot_of tz now]> (lastSlot s)))
       [Wait (targetId p') rid (now + AWAIT_MS)] (started p' now rid s), o).
Proof.
  intros [_ Hv Hruns _ _] (Hi & Ht & _) Hslot. unfold consider. svc_run. simpl.
  rewrite lookup_insert_ne by by rewrite Hi. rewrite bool_decide_eq_false_2 by done. svc_run.
  assert (some (λ r, bool_decide (run_policyId r = Some (po_id q)) &&
    (minute_start tz now <=? startedAt r)) (runs s ++ [run_of p' now rid]) = false) as ->.
  { apply some_false. intros r [Hr| ->%list_elem_of_singleton]%elem_of_app; apply andb_false_iff; left;
      apply bool_decide_eq_false.
    - destruct (Hruns r Hr) as (-> & _). by intros [=].
    - simpl. rewrite Hi. by intros [=]. }
  svc_run. simpl. rewrite Htarget, Ht, bool_decide_eq_true_2 by set_solver.
  unfold log, tell. by eexists.
Qed.

Definition done_run (now : Z) (r : BackupRun) : BackupRun := finish_run now "success" "done" r.

(** The started backup completes. *)
Lemma complete_started now last k v p' s ls :
  between last k v s → policies s = [p'; q] → same_setup p' →
  let rid := run_id_at k (po_id p) in
  ∃ o, complete now (Wait (targetId p') rid (now + AWAIT_MS))
    (with_scheduler {[targetId p']} ls [Wait (targetId p') rid (now + AWAIT_MS)]
       (started p' now rid s)) =
    (Ok tt, State [note_run now "success" "done" p'; q] (runs s ++ [done_run now (run_of p' now rid)])
       (targets s) (vault s) ∅ ∅ ls [], o).
Proof.
  intros [_ _ Hruns _ _] Hps (Hi & _) rid.
  assert (Hnew : ∀ r, r ∈ runs s → bool_decide (run_id r = rid) = false).
  { intros r Hr. apply bool_decide_eq_false. destruct (Hruns r Hr) as (_ & _ & j & Hj & ->).
    intros ->%run_id_at_inj. lia. }
  assert (Hfind : ∀ f : BackupRun → BackupRun, (∀ r, run_id (f r) = run_id r) →
    findFirst (λ r, bool_decide (run_id r = rid)) (runs s ++ [f (run_of p' now rid)])
      = Some (f (run_of p' now rid))).
  { intros f Hf. rewrite findFirst_app, (proj2 (findFirst_None _ _) Hnew), findFirst_cons, Hf. simpl.
    by rewrite bool_decide_eq_true_2. }
  unfold complete. svc_run. simpl. pose proof (Hfind (λ r, r) (λ _, eq_refl)) as Hf. cbn beta in Hf. rewrite Hf. simpl.
  assert (Hup : updateMany (λ r, bool_decide (run_id r = rid)) (finish_run now "success" "done")
    (runs s ++ [run_of p' now rid]) = runs s ++ [done_run now (run_of p' now rid)]).
  { unfold updateMany. rewrite fmap_app. simpl. rewrite bool_decide_eq_true_2 by done. f_equal.
    rewrite <-(list_fmap_id (runs s)) at 2. apply list_fmap_ext.
    intros i r Hr%list_elem_of_lookup_2. by rewrite Hnew. }
  assert (Hpol : updateMany (has_id (po_id p')) (note_run now "success" "done") [p'; q]
    = [note_run now "success" "done" p'; q]).
  { unfold updateMany, has_id. simpl. rewrite bool_decide_eq_true_2 by done.
    by rewrite bool_decide_eq_false_2 by (rewrite Hi; congruence). }
  unfold finish. svc_run. eexists. simpl. f_equal. f_equal. unfold poll.
  unfold with_active, with_policies, with_runs, with_scheduler, started. simpl.
  rewrite findFirst_cons. simpl. rewrite bool_decide_eq_true_2 by done.
  unfold over. simpl. rewrite Hup, (Hfind (done_run now)) by done. simpl.
  unfold deleteMany. rewrite filter_cons, filter_nil. simpl.
  rewrite bool_decide_eq_true_2 by done. simpl.
  rewrite Hps, Hpol, !difference_diag_L. done.
Qed.

Context (Hp : po_enabled p = true) (Hq : po_enabled q = true)
  (Hfreq : frequency (po_schedule p) ≠ off).

Lemma night_between last now k v s :
  (secretMode p = "embed" → ∃ pw, v !! sealKey (po_id p) = Some pw ∧ pw ≠ "") →
  last < minute_start tz now → between last k v s →
  between now (S k) v (run_state (night tz now k) s) ∧ run_result (night tz now k) s = Ok tt.
Proof.
  intros Hseal Hlast Hs. pose proof Hs as [(p' & Hps & Hset) Hv Hruns Hidle Hslots].
  pose proof Hset as (Hi & Ht & _). destruct Hidle as (Ha & Hb & Hw).
  assert (Hmono : between now (S k) v s).
  { split; eauto. intros r Hr. destruct (Hruns r Hr) as (? & ? & j & ? & ?). split_and!; [done| |].
    - unfold minute_start in Hlast. pose proof (Z.mod_pos_bound (now + tz) 60000). lia.
    - exists j. split; [lia|done]. }
  unfold night, tick, run_state, run_result. simpl. svc_run.
  rewrite (due_together now p' s Hset Hp Hq Hfreq Hps).
  destruct (isDue _ _ _); simpl; svc_run; [|by rewrite Hw].
  destruct (decide (lastSlot s !! po_id p' = Some (slot_of tz now))) as [Hskip|Hfire].
  - assert (Hno : ∀ r, lastSlot s !! po_id r = Some (slot_of tz now) →
      consider tz now (run_id_at k) r s = (Ok tt, s, [])).
    { intros r Hr. unfold consider. svc_run. by rewrite bool_decide_eq_true_2. }
    erewrite svc_bind_run by by apply Hno. svc_run.
    erewrite svc_bind_run by (apply Hno; by rewrite <-Hslots, <-Hi).
    svc_run. by rewrite Hw.
  - destruct (consider_starts now last k v p' s (run_id_at k (po_id p)) Hs Hps Hset Hlast Hfire Hseal)
      as (o1 & H1).
    destruct (consider_defers now last k v p' s (run_id_at k (po_id p)) (run_id_at k (po_id q)) Hs Hset)
      as (o2 & H2); [by rewrite <-Hslots, <-Hi|].
    set (ls := <[po_id q := _]> _) in *.
    destruct (complete_started now last k v p' s ls Hs Hps Hset) as (o3 & H3).
    unfold mbind, svc_bind.
    change (consider tz now (run_id_at k) p' s)
      with (consider tz now (λ _, run_id_at k (po_id p')) p' s).
    rewrite Hi, H1.
    change (consider tz now (run_id_at k) q)
      with (consider tz now (λ _, run_id_at k (po_id q)) q).
    rewrite H2. simpl. unfold mbind, svc_bind. rewrite H3. simpl. split; [|done].
    split; simpl; [exists (note_run now "success" "done" p'); by split|done| |done|].
    + intros r [Hr| ->%list_elem_of_singleton]%elem_of_app; [by apply (bw_runs _ _ _ _ Hmono)|].
      simpl. rewrite Hi. split_and!; [done|lia|]. exists k. split; [lia|done].
    + subst ls. rewrite lookup_insert_eq, lookup_insert_ne by done.
      by rewrite Hi, lookup_insert_eq.
Qed.

Lemma nights_between t0 v n s :
  (secretMode p = "embed" → ∃ pw, v !! sealKey (po_id p) = Some pw ∧ pw ≠ "") →
  between (t0 - ms_per_day) 0 v s →
  between (t0 + (Z.of_nat n - 1) * ms_per_day) n v (run_state (nights tz t0 n) s) ∧
  run_result (nights tz t0 n) s = Ok tt.
Proof.
  intros Hseal Hs. induction n as [|n [IH Hok]].
  { unfold run_state. simpl. by replace (t0 + (0 - 1) * ms_per_day) with (t0 - ms_per_day) by lia. }
  simpl. unfold run_state, run_result in *.
  destruct (nights tz t0 n s) as [[res s1] o1] eqn:Hn. simpl in *. subst res.
  set (now := t0 + Z.of_nat n * ms_per_day).
  destruct (night_between (t0 + (Z.of_nat n - 1) * ms_per_day) now n v s1) as [Hb Hres];
    [done| |done|].
  { unfold minute_start, now. pose proof (Z.mod_pos_bound (t0 + Z.of_nat n * ms_per_day + tz) 60000).
    unfold ms_per_day in *. lia. }
  unfold run_state, run_result, mbind, svc_bind in *. rewrite Hn.
  fold now. destruct (night tz now n s1) as [[r2 s2] o2]. simpl in *. split; [|done].
  by replace (t0 + (Z.of_nat (S n) - 1) * ms_per_day) with now by (unfold now; lia).
Qed.
Definition idle (s : state) : Prop :=
  active s = ∅ ∧ busyTargets s = ∅ ∧ waiting s = [] ∧ lastSlot s = ∅ ∧ runs s = [].

(** a deferred backup is not deferred but dropped.  Of two policies with one
    schedule and one repository the second never runs, on however many days in
    a row their minute comes and although the first one's backup ends well each
    time: its minute is recorded as fired before the repository is found busy. *)
Theorem second_policy_starves (t0 : Z) (n : nat) (s : state) :
  policies s = [p; q] → idle s →
  (secretMode p = "embed" → ∃ pw, vault s !! sealKey (po_id p) = Some pw ∧ pw ≠ "") →
  run_result (nights tz t0 n) s = Ok tt ∧
  q ∈ policies (run_state (nights tz t0 n) s) ∧
  ∀ r, r ∈ runs (run_state (nights tz t0 n) s) → run_policyId r = Some (po_id p).
Proof.
  intros Hps (Ha & Hb & Hw & Hl & Hr) Hseal.
  destruct (nights_between t0 (vault s) n s Hseal) as [[(p' & Hps' & _) _ Hruns _ _] Hok].
  { split; [exists p; by split|done| |done|by rewrite Hl, !lookup_empty].
    intros r Hin. rewrite Hr in Hin. by apply elem_of_nil in Hin. }
  split_and!; [done| |].
  - rewrite Hps'. set_solver.
  - intros r Hin. by apply Hruns.
Qed.
End starvation.

(** A week of the two policies of [two_nightly]: seven backups of the first. *)
Lemma second_policy_starves_witness :
  let s := run_state (nights 0 10800000 7) two_nightly in
  run_policyId <$> runs s = replicate 7 (Some "web") ∧ Forall (λ r, run_status r = "success") (runs s) ∧
  ∀ r, r ∈ runs s → run_policyId r = Some "web".
Proof.
  destruct (policies two_nightly) as [|p [|q ps]] eqn:Hps; [by vm_compute in Hps..|].
  assert (Hq : [p; q] = policies two_nightly ∧ ps = []).
  { vm_compute in Hps. by injection Hps as <- <- <-. }
  destruct Hq as [Hq ->].
  assert (Hp : (po_id p, po_id q, targetId p, targetId q, po_enabled p, po_enabled q) =
    ("web", "db", "repo", "repo", true, true) ∧ po_schedule q = po_schedule p ∧
    frequency (po_schedule p) = daily).
  { vm_compute in Hps. by injection Hps as <- <-. }
  destruct Hp as [[= Hi Hj Ht Hu He Hf] [Hs Hd]].
  destruct (second_policy_starves 0 p q) with (t0 := 10800000) (n := 7%nat) (s := two_nightly)
    as (_ & _ & H); [congruence..| | |].
  - by vm_compute.
  - intros _. exists "pw". rewrite Hi. by vm_compute.
  - rewrite Hi in H. split_and!; [vm_compute; reflexivity| |exact H].
    apply Forall_forall. intros r Hr. vm_compute in Hr.
    repeat (apply elem_of_cons in Hr as [->|Hr]; [done|]). by apply elem_of_nil in Hr.
Defined.
