(* ===== verification/ConnectorHealth.v ===== *)
(** * The monitors of the connectors

    [connectors/connection-monitor.service.ts],
    [connectors/metric-threshold-monitor.service.ts] and
    [connectors/resource-monitor.service.ts]: each polls the enabled connector
    instances and turns what it sees into alerts on change.  What a connector
    answers is an input; a slow answer arrives as an event of its own, so that
    checks of different connectors interleave. *)
From S2P Require Import Prelude JsText AlertRegistry Notifications.
From stdpp Require Import gmap strings pretty options.

#[local] Open Scope Z_scope.
#[local] Set Default Proof Using "Type*".

Record Instance := {
  in_id : string;
  in_name : string;
  in_enabled : bool;
  refreshIntervalSec : Z
}.

Definition enabled_rows (rows : list Instance) : list Instance := findMany in_enabled rows.
Definition live_ids (rows : list Instance) : list string := in_id <$> enabled_rows rows.

(** ** Reachability *)

Module ConnectionMonitor.

Record state := State {
  instances : list Instance;
  health : gmap string bool;
  active : list (string * string)
}.

Abbreviation call := (svc state output http_error).

(** What [testConnection] gave: its answer, or the text of its exception. *)
Inductive test_result := Answered (ok : bool) (message : string) | Threw (message : string).

Definition outcome (r : test_result) : bool * string :=
  match r with Answered ok m => (ok, m) | Threw m => (false, m) end.

Definition set_health (id : string) (up : bool) (s : state) : state :=
  State (instances s) (<[id := up]> (health s)) (active s).
Definition with_active (a : list (string * string)) (s : state) : state :=
  State (instances s) (health s) a.

(** [check] up to its test, and from the test's result on. *)
Definition begin_check (r : Instance) (s : state) : state :=
  if some (λ a, bool_decide (a.1 = in_id r)) (active s) then s
  else with_active (active s ++ [(in_id r, in_name r)]) s.

Definition or_text (m d : string) : string := if bool_decide (m = "") then d else m.

Definition conclude (id name : string) (r : test_result) : call unit :=
  s ← get;
  let prev := health s !! id in
  let '(ok, message) := outcome r in
  (if ok : bool then
     when (bool_decide (prev = Some false))
       (tell (OAlert (Alert "connection.recovered" ("Connector recovered: " +:+ name)
         (or_text message "Connection restored.") (Some ("conn:" +:+ id +:+ ":up")) (Some id) None))) ;;
     modify (set_health id true)
   else
     when (negb (bool_decide (prev = Some false)))
       (tell (OAlert (Alert "connection.down" ("Connector unreachable: " +:+ name)
         (or_text message "Connection test failed.") (Some ("conn:" +:+ id +:+ ":down")) (Some id) None))) ;;
     modify (set_health id false)) ;;
  modify (λ s, with_active (deleteMany (λ a, bool_decide (a.1 = id)) (active s)) s).

Definition settle (id : string) (r : test_result) : call unit :=
  s ← get;
  match findFirst (λ a, bool_decide (a.1 = id)) (active s) with
  | Some a => conclude id a.2 r
  | None => mret tt
  end.

Definition tick (loaded : bool) : call unit :=
  if negb loaded then
    tell (OLog Error "notify:monitor" "Connection monitor could not load instances")
  else
    modify (λ s, State (instances s)
      (filter (λ kv, kv.1 ∈ live_ids (instances s)) (health s)) (active s)) ;;
    modify (λ s, foldl (λ s r, begin_check r s) s (enabled_rows (instances s))).

End ConnectionMonitor.

(** ** Metric thresholds *)

Module ThresholdMonitor.

Definition OVER_STATE_KEY : string := "notify.threshold.overState".

Record OverviewMetric := Metric_ {
  ov_key : string; ov_label : string; ov_value : Z; ov_unit : option string
}.

Record state := State {
  rows : list Instance;
  notif : Notifications.state;
  over : gset string
}.

Abbreviation call := (svc state output http_error).

Definition with_over (o : gset string) (s : state) : state := State (rows s) (notif s) o.

(** [fmt], on integers: [toFixed(2)] appends [.00]. *)
Definition currency (unit_ : string) : bool :=
  (length (chars unit_) =? 3)%nat && every is_upper (chars unit_).
Definition fmt (value : Z) (unit_ : string) : string :=
  if currency unit_ then unit_ +:+ " " +:+ num_to_string value +:+ ".00"
  else if bool_decide (unit_ = "") then num_to_string value
  else num_to_string value +:+ " " +:+ unit_.

Definition state_key (id defId : string) : string := id +:+ ":" +:+ defId.

(** [k.slice(0, k.lastIndexOf(':'))]; without a colon the index is -1 and the
    slice drops the last character. *)
Fixpoint before_last_colon (l : list ascii) : option (list ascii) :=
  match l with
  | [] => None
  | c :: l' =>
      match before_last_colon l' with
      | Some p => Some (c :: p)
      | None => if bool_decide (c = ":"%char) then Some [] else None
      end
  end.
Definition owner_of (k : string) : string :=
  match before_last_colon (chars k) with
  | Some p => of_chars p
  | None => of_chars (take (length (chars k) - 1) (chars k))
  end.

(** [onModuleInit] *)
Definition restore (s : state) : state :=
  match settings (notif s) !! OVER_STATE_KEY with
  | Some (JArr l) =>
      with_over (over s ∪ list_to_set (omap (λ v, match v with JStr k => Some k | _ => None end) l)) s
  | _ => s
  end.

Definition persistOver (stored : bool) : call unit :=
  if stored then
    modify (λ s, State (rows s) (set_setting OVER_STATE_KEY (strs (elements (over s))) (notif s)) (over s))
  else tell (OLog Error "notify:monitor" "Could not persist threshold state").

Definition threshold_of (id : string) (d : MetricThresholdDef) (s : state) : Z :=
  NotificationsService.connectorThreshold id (metric_id d) (notif s).

Definition clear (k : string) : call unit := modify (λ s, with_over (over s ∖ {[k]}) s).

Definition judge_metric (id name : string) (metrics : list OverviewMetric) (d : MetricThresholdDef) :
    call unit :=
  s ← get;
  let threshold := threshold_of id d s in
  match findFirst (λ m, bool_decide (ov_key m = metricKey d)) metrics with
  | None => mret tt
  | Some m =>
      if threshold <=? ov_value m then
        if bool_decide (state_key id (metric_id d) ∈ over s) then mret tt
        else
          modify (λ s, with_over ({[state_key id (metric_id d)]} ∪ over s) s) ;;
          let val := fmt (ov_value m) (default "" (ov_unit m)) in
          let lim := fmt threshold (default "" (ov_unit m)) in
          tell (OAlert (Alert (metric_alertKey d) (metric_label d +:+ " over " +:+ lim +:+ ": " +:+ name)
            (ov_label m +:+ " is " +:+ val +:+ ", over the " +:+ lim +:+ " limit.")
            (Some ("thr:" +:+ id +:+ ":" +:+ metric_id d)) (Some id) None)) ;;
          tell (OLog Info "notify:monitor" (metric_label d +:+ " threshold crossed for " +:+ name +:+
            ": " +:+ val +:+ " >= " +:+ lim))
      else clear (state_key id (metric_id d))
  end.

(** [check]; [overview] is the connector's answer, [None] if it threw. *)
Definition check (overview : string → option (list OverviewMetric)) (r : Instance) : call unit :=
  s ← get;
  let watched := findMany (λ d, 0 <? threshold_of (in_id r) d s) METRIC_THRESHOLDS in
  for_each (findMany (λ d, negb (0 <? threshold_of (in_id r) d s)) METRIC_THRESHOLDS)
    (λ d, clear (state_key (in_id r) (metric_id d))) ;;
  if bool_decide (watched = []) then mret tt
  else match overview (in_id r) with
       | None => mret tt
       | Some metrics => for_each watched (judge_metric (in_id r) (in_name r) metrics)
       end.

Definition tick (loaded stored : bool) (overview : string → option (list OverviewMetric)) : call unit :=
  if negb loaded then
    tell (OLog Error "notify:monitor" "Threshold monitor could not load instances")
  else
    modify (λ s, with_over (filter (λ k, owner_of k ∈ live_ids (rows s)) (over s)) s) ;;
    s ← get;
    for_each (enabled_rows (rows s)) (check overview) ;;
    persistOver stored.

End ThresholdMonitor.

(** ** Guests *)

Module ResourceMonitor.

Inductive State_ := up | down.

#[export] Instance State_eq_dec : EqDecision State_.
Proof. solve_decision. Defined.

Record OverviewGuest := Guest { gu_name : string; gu_kind : string; gu_status : string; gu_node : string }.

Definition classify (status : string) : option State_ :=
  let s := toLowerCase status in
  if includes s ["running"; "active"; "online"; "available"; "up"] then Some up
  else if includes s ["stopped"; "off"; "disabled"; "shutdown"; "terminated"; "inactive"; "down"]
  then Some down
  else None.

Definition guestKey (g : OverviewGuest) : string :=
  gu_kind g +:+ ":" +:+ gu_node g +:+ ":" +:+ gu_name g.

Record state := State {
  instances : list Instance;
  lastStatus : gmap string (gmap string State_);
  lastCheck : gmap string Z;
  active : list (string * string * Z)
}.

Abbreviation call := (svc state output http_error).

Definition state_text (st : State_) : string := match st with up => "up" | down => "down" end.

(** [check] up to the overview; the check keeps the time it started at. *)
Definition begin_check (now : Z) (r : Instance) (s : state) : state :=
  let every_ := if refreshIntervalSec r =? 0 then 30 else refreshIntervalSec r in
  if now - default 0 (lastCheck s !! in_id r) <? every_ * 1000 then s
  else if some (λ a, bool_decide (a.1.1 = in_id r)) (active s) then s
  else State (instances s) (lastStatus s) (lastCheck s) (active s ++ [(in_id r, in_name r, now)]).

Definition guest_alert (id connectorName : string) (g : OverviewGuest) (st : State_) : output :=
  OAlert (Alert (if bool_decide (st = down) then "resource.stopped" else "resource.started")
    (gu_name g +:+ " " +:+ (if bool_decide (st = down) then "stopped" else "started") +:+ " · " +:+
      connectorName)
    (gu_kind g +:+ (if bool_decide (gu_node g = "") then "" else " on " +:+ gu_node g) +:+ " is now " +:+
      gu_status g +:+ ".")
    (Some ("res:" +:+ id +:+ ":" +:+ guestKey g +:+ ":" +:+ state_text st)) (Some id) None).

(** The loop over the guests: the new map, and the alerts. *)
Fixpoint see (id name : string) (prev : option (gmap string State_)) (gs : list OverviewGuest)
    (curr : gmap string State_) : gmap string State_ * list output :=
  match gs with
  | [] => (curr, [])
  | g :: gs' =>
      let was := prev ≫= (λ m, m !! guestKey g) in
      match classify (gu_status g) with
      | None =>
          see id name prev gs' (match was with Some st => <[guestKey g := st]> curr | None => curr end)
      | Some st =>
          let '(m, o) := see id name prev gs' (<[guestKey g := st]> curr) in
          (m, match was with
              | Some w => if bool_decide (w = st) then o else guest_alert id name g st :: o
              | None => o
              end)
      end
  end.

Definition settle (id : string) (overview : option (list OverviewGuest)) (s : state) :
    state * list output :=
  match findFirst (λ a, bool_decide (a.1.1 = id)) (active s) with
  | None => (s, [])
  | Some (_, name, started) =>
      let rest := deleteMany (λ a, bool_decide (a.1.1 = id)) (active s) in
      match overview with
      | None => (State (instances s) (lastStatus s) (lastCheck s) rest, [])
      | Some gs =>
          let '(curr, o) := see id name (lastStatus s !! id) gs ∅ in
          (State (instances s) (<[id := curr]> (lastStatus s)) (<[id := started]> (lastCheck s)) rest, o)
      end
  end.

(** Instances gone from the live set lose their memory. *)
Definition tick (now : Z) (loaded : bool) (s : state) : state * list output :=
  if negb loaded then
    (s, [OLog Error "notify:monitor" "Resource monitor could not load instances"])
  else
    let live := live_ids (instances s) in
    let gone := filter (λ id, id ∉ live) (elements (dom (lastStatus s))) in
    let s := State (instances s) (filter (λ kv, kv.1 ∈ live) (lastStatus s))
      (foldr delete (lastCheck s) gone) (active s) in
    (foldl (λ s r, begin_check now r s) s (enabled_rows (instances s)), []).

End ResourceMonitor.

(** ** One connector's alerts depend on its own results only *)

Section reachability.
Import ConnectionMonitor.

Inductive event :=
| SetInstances (rows : list Instance)
| Tick (loaded : bool)
| Settle (id : string) (r : test_result).

Definition react (e : event) (s : state) : state * list output :=
  match e with
  | SetInstances rows => (State rows (health s) (active s), [])
  | Tick loaded => (run_state (tick loaded) s, run_out (tick loaded) s)
  | Settle id r => (run_state (settle id r) s, run_out (settle id r) s)
  end.

Fixpoint run (es : list event) (s : state) : state * list output :=
  match es with
  | [] => (s, [])
  | e :: es' => let '(s1, o1) := react e s in let '(s2, o2) := run es' s1 in (s2, o1 ++ o2)
  end.

(** What happened to one connector: a check ended, or the monitor forgot it. *)
Inductive observation := Seen (ok : bool) | Lost.

Definition observed (id : string) (e : event) (s : state) : list observation :=
  match e with
  | SetInstances _ => []
  | Tick loaded => if loaded && bool_decide (id ∉ live_ids (instances s)) then [Lost] else []
  | Settle id' r =>
      if bool_decide (id' = id) && bool_decide (id ∈ (active s).*1) then [Seen (outcome r).1] else []
  end.
Fixpoint observations (id : string) (es : list event) (s : state) : list observation :=
  match es with
  | [] => []
  | e :: es' => observed id e s ++ observations id es' (react e s).1
  end.

(** The abstract monitor of one connector: alerts on the edges of its health. *)
Definition edge (prev : option bool) (o : observation) : option bool * list string :=
  match o with
  | Lost => (None, [])
  | Seen true => (Some true, if bool_decide (prev = Some false) then ["connection.recovered"] else [])
  | Seen false => (Some false, if bool_decide (prev = Some false) then [] else ["connection.down"])
  end.
Fixpoint edges (prev : option bool) (l : list observation) : option bool * list string :=
  match l with
  | [] => (prev, [])
  | o :: l' => let '(p, a) := edge prev o in let '(q, b) := edges p l' in (q, a ++ b)
  end.

Definition alerts_about (id : string) (l : list output) : list string :=
  omap (λ o, match o with
    | OAlert a => if bool_decide (al_connectorId a = Some id) then Some (al_key a) else None
    | _ => None
    end) l.

Lemma edges_app prev l1 l2 :
  edges prev (l1 ++ l2) =
  ((edges (edges prev l1).1 l2).1, (edges prev l1).2 ++ (edges (edges prev l1).1 l2).2).
Proof.
  revert prev. induction l1 as [|o l1 IH]; intros prev; simpl; [by destruct (edges prev l2)|].
  destruct (edge prev o) as [p a]. rewrite IH. destruct (edges p l1) as [q b]. simpl.
  by rewrite (assoc_L (++)).
Qed.

Lemma edges_one prev o : edges prev [o] = edge prev o.
Proof. simpl. destruct (edge prev o). by rewrite app_nil_r. Qed.

Lemma begin_checks_health rs s :
  health (foldl (λ s r, begin_check r s) s rs) = health s.
Proof.
  revert s. induction rs as [|r rs IH]; intros s; simpl; [done|]. rewrite IH.
  unfold begin_check. by case_match.
Qed.

Lemma begin_checks_NoDup rs s :
  NoDup (active s).*1 → NoDup (active (foldl (λ s r, begin_check r s) s rs)).*1.
Proof.
  revert s. induction rs as [|r rs IH]; intros s Hs; simpl; [done|]. apply IH.
  unfold begin_check. destruct (some _ (active s)) eqn:Hr; [done|]. simpl.
  rewrite fmap_app. apply NoDup_app. split_and!; [done| |apply NoDup_singleton].
  intros x (a & -> & Ha)%list_elem_of_fmap Hx%list_elem_of_singleton.
  apply (proj1 (some_false _ _) Hr) in Ha. by rewrite bool_decide_eq_false in Ha.
Qed.

Lemma find_active_None id s :
  findFirst (λ a, bool_decide (a.1 = id)) (active s) = None ↔ id ∉ (active s).*1.
Proof.
  rewrite findFirst_None, list_elem_of_fmap. setoid_rewrite bool_decide_eq_false. naive_solver.
Qed.

Lemma conclude_run id name r s :
  conclude id name r s =
    (Ok tt, State (instances s) (<[id := (outcome r).1]> (health s))
       (deleteMany (λ a, bool_decide (a.1 = id)) (active s)), run_out (conclude id name r) s) ∧
  alerts_about id (run_out (conclude id name r) s) = (edge (health s !! id) (Seen (outcome r).1)).2 ∧
  ∀ id', id' ≠ id → alerts_about id' (run_out (conclude id name r) s) = [].
Proof.
  unfold conclude, run_out. svc_run. destruct (outcome r) as [ok message]. simpl.
  destruct ok; svc_run; simpl; repeat case_bool_decide; svc_run; try done;
    (split_and!; [done| |]); unfold alerts_about; simpl;
    rewrite ?bool_decide_eq_true_2 by done; try done;
    intros id' Hid; by rewrite bool_decide_eq_false_2 by congruence.
Qed.

Lemma react_edges e s id :
  alerts_about id (react e s).2 = (edges (health s !! id) (observed id e s)).2 ∧
  health (react e s).1 !! id = (edges (health s !! id) (observed id e s)).1.
Proof.
  destruct e as [rows|loaded|id' r]; simpl; [done| |].
  - unfold tick, run_state, run_out. destruct loaded; simpl; [|done]. svc_run. simpl.
    rewrite begin_checks_health. simpl.
    case_bool_decide as Hlive; simpl; (split; [done|]); rewrite map_lookup_filter.
    + destruct (health s !! id); [|done]. simpl. by rewrite option_guard_False.
    + destruct (health s !! id); [|done]. simpl. rewrite option_guard_True; [done|].
      simpl. by destruct (decide (id ∈ live_ids (instances s))).
  - unfold settle, run_state, run_out. svc_run.
    destruct (findFirst _ (active s)) as [a|] eqn:Ha.
    + assert (Hin : id' ∈ (active s).*1).
      { destruct (decide (id' ∈ (active s).*1)); [done|].
        rewrite (proj2 (find_active_None _ _)) in Ha by done. done. }
      destruct (conclude_run id' a.2 r s) as (Hrun & Hal & Hno). unfold run_out in *.
      rewrite Hrun. simpl. case_bool_decide as Hid; simpl.
      * subst id'. rewrite bool_decide_eq_true_2 by done. simpl andb. cbn iota.
        rewrite edges_one, lookup_insert_eq. split; [done|]. by destruct ((outcome r).1).
      * rewrite lookup_insert_ne by done. split; [by apply Hno|done].
    + apply find_active_None in Ha. simpl. case_bool_decide as Hid; simpl; [|done].
      subst. by rewrite bool_decide_eq_false_2.
Qed.

Lemma react_NoDup e s : NoDup (active s).*1 → NoDup (active (react e s).1).*1.
Proof.
  intros Hs. destruct e as [rows|loaded|id r]; simpl; [done| |].
  - unfold tick, run_state. destruct loaded; simpl; [|done]. svc_run. simpl.
    by apply begin_checks_NoDup.
  - unfold settle, run_state. svc_run. destruct (findFirst _ (active s)) as [a|]; [|done].
    destruct (conclude_run id a.2 r s) as (-> & _). simpl.
    eapply sublist_NoDup; [exact Hs|]. apply fmap_sublist, sublist_filter.
Qed.

(** C32: however ticks, results and changes to the connector table interleave,
    the alerts about a connector are exactly the edges of its own sequence of
    results (down when it was not known to be down, recovered when it was), and
    no other connector's results show in them; and no connector is ever tested
    twice at the same time. *)
Theorem connection_alerts_are_edges (es : list event) (s : state) :
  (∀ id, alerts_about id (run es s).2 = (edges (health s !! id) (observations id es s)).2 ∧
     health (run es s).1 !! id = (edges (health s !! id) (observations id es s)).1) ∧
  (NoDup (active s).*1 → NoDup (active (run es s).1).*1).
Proof.
  split.
  - intros id. revert s. induction es as [|e es IH]; intros s; [done|]. simpl.
    destruct (react_edges e s id) as [Hal Hh]. destruct (react e s) as [s1 o1]. simpl in *.
    specialize (IH s1) as [IHa IHh]. destruct (run es s1) as [s2 o2]. simpl in *.
    rewrite edges_app. simpl. unfold alerts_about in *. rewrite omap_app, Hal, IHa, IHh, Hh.
    by split.
  - revert s. induction es as [|e es IH]; intros s Hs; [done|]. simpl.
    pose proof (react_NoDup e s Hs) as H1. destruct (react e s) as [s1 o1]. simpl in *.
    specialize (IH s1 H1). by destruct (run es s1).
Qed.
End reachability.

(** ** Thresholds alert once per crossing, restarts included *)

(** Setting or clearing one key of a set. *)
Lemma flag_own (b : bool) (k : string) (X : gset string) :
  k ∈ (if b then {[k]} ∪ X else X ∖ {[k]}) ↔ b = true.
Proof. destruct b; set_solver. Qed.

Lemma flag_other (b : bool) (k k' : string) (X : gset string) : k ≠ k' →
  (k ∈ (if b then {[k']} ∪ X else X ∖ {[k']}) ↔ k ∈ X).
Proof. destruct b; set_solver. Qed.

Lemma flag_id (b : bool) (k : string) (X : gset string) :
  (b = true ↔ k ∈ X) → (if b then {[k]} ∪ X else X ∖ {[k]}) = X.
Proof. intros Hb. apply set_eq. intros x. destruct (decide (x = k)) as [->|]; destruct b; set_solver. Qed.

Section thresholds.
Import ThresholdMonitor.
Implicit Types (d : MetricThresholdDef) (s : state).

Lemma metric_ids_plain d : d ∈ METRIC_THRESHOLDS → ":"%char ∉ chars (metric_id d).
Proof.
  revert d. apply Forall_forall. refine (bool_decide_unpack _ _). vm_compute. exact I.
Qed.

Lemma before_last_colon_app l l' :
  ":"%char ∉ l' → before_last_colon (l ++ ":"%char :: l') = Some l.
Proof.
  intros Hl'. induction l as [|c l IH]; simpl; [|by rewrite IH].
  assert (before_last_colon l' = None) as ->; [|done].
  induction l' as [|c l' IH]; simpl; [done|]. rewrite IH by set_solver.
  rewrite bool_decide_eq_false_2; set_solver.
Qed.

Lemma owner_of_key id d : d ∈ METRIC_THRESHOLDS → owner_of (state_key id (metric_id d)) = id.
Proof.
  intros Hd. unfold owner_of, state_key. rewrite !chars_app.
  change (chars ":") with [":"%char]. simpl.
  rewrite before_last_colon_app by by apply metric_ids_plain. apply of_chars_chars.
Qed.

Lemma state_key_inj id id' d d' : d ∈ METRIC_THRESHOLDS → d' ∈ METRIC_THRESHOLDS →
  state_key id (metric_id d) = state_key id' (metric_id d') → id = id' ∧ metric_id d = metric_id d'.
Proof.
  intros Hd Hd' Hk. assert (id = id') as <-.
  { by rewrite <-(owner_of_key id d), <-(owner_of_key id' d'), Hk. }
  split; [done|]. unfold state_key in Hk. apply (inj (String.append id)) in Hk.
  by apply (inj (String.append ":")) in Hk.
Qed.

Context (overview : string → option (list OverviewMetric)).

(** What a connector reports for a metric, if it reports it. *)
Definition reading (id : string) (d : MetricThresholdDef) : option Z :=
  ms ← overview id; ov_value <$> findFirst (λ m, bool_decide (ov_key m = metricKey d)) ms.

(** Whether the metric is over its limit now; what it was if it is not reported. *)
Definition over_now (id : string) (d : MetricThresholdDef) (s : state) : bool :=
  (0 <? threshold_of id d s) &&
  match reading id d with
  | Some v => threshold_of id d s <=? v
  | None => bool_decide (state_key id (metric_id d) ∈ over s)
  end.

Definition crossing (id : string) (d : MetricThresholdDef) (s : state) : bool :=
  over_now id d s && negb (bool_decide (state_key id (metric_id d) ∈ over s)).

(** The limit alerts in a log: metric's alert, connector and dedupe key. *)
Definition limit_alerts (l : list output) : list (string * option string * option string) :=
  omap (λ o, match o with OAlert a => Some (al_key a, al_connectorId a, al_dedupeKey a) | _ => None end) l.
Definition alert_of (id : string) (d : MetricThresholdDef) : string * option string * option string :=
  (metric_alertKey d, Some id, Some ("thr:" +:+ id +:+ ":" +:+ metric_id d)).

Definition expected (id : string) (s : state) : list (string * option string * option string) :=
  alert_of id <$> filter (λ d, crossing id d s = true) METRIC_THRESHOLDS.

(** One step of [check] on its own key. *)
Lemma judge_metric_run id name ms d s : overview id = Some ms → 0 < threshold_of id d s →
  ∃ o, judge_metric id name ms d s =
    (Ok tt, with_over (if over_now id d s then {[state_key id (metric_id d)]} ∪ over s
                       else over s ∖ {[state_key id (metric_id d)]}) s, o) ∧
    limit_alerts o = if crossing id d s then [alert_of id d] else [].
Proof.
  intros Hov Hth. unfold judge_metric, crossing, over_now, reading. svc_run. rewrite Hov. simpl.
  assert ((0 <? threshold_of id d s) = true) as -> by lia. simpl.
  destruct (findFirst _ ms) as [m|]; simpl.
  - destruct (_ <=? ov_value m); simpl.
    + case_bool_decide as Hin; simpl.
      * exists []. split; [|done]. unfold mret, svc_ret. f_equal. f_equal.
        unfold with_over. destruct s as [? ? ov]; simpl in *. f_equal.
        symmetry. by apply (flag_id true).
      * svc_run. by eexists.
    + by eexists.
  - exists []. rewrite andb_negb_r. split; [|done]. unfold mret, svc_ret. f_equal. f_equal.
    rewrite flag_id by apply bool_decide_eq_true. by destruct s.
Qed.

Lemma over_now_ext id d s s' :
  notif s' = notif s →
  (state_key id (metric_id d) ∈ over s' ↔ state_key id (metric_id d) ∈ over s) →
  over_now id d s' = over_now id d s ∧ crossing id d s' = crossing id d s.
Proof.
  intros Hn Hk. unfold crossing, over_now, threshold_of. rewrite Hn.
  by rewrite (bool_decide_ext _ _ Hk).
Qed.

Lemma limit_alerts_app l l' : limit_alerts (l ++ l') = limit_alerts l ++ limit_alerts l'.
Proof. apply omap_app. Qed.

(** What a pass over some metrics of a connector leaves in the set. *)
Definition judged (id : string) (ds : list MetricThresholdDef) (s s' : state) : Prop :=
  rows s' = rows s ∧ notif s' = notif s ∧
  (∀ d, d ∈ ds → (state_key id (metric_id d) ∈ over s' ↔ over_now id d s = true)) ∧
  (∀ k, (∀ d, d ∈ ds → k ≠ state_key id (metric_id d)) → (k ∈ over s' ↔ k ∈ over s)).

Lemma judge_all id name ms ds s : overview id = Some ms →
  (∀ d, d ∈ ds → d ∈ METRIC_THRESHOLDS ∧ 0 < threshold_of id d s) → NoDup (metric_id <$> ds) →
  ∃ s' o, for_each ds (judge_metric id name ms) s = (Ok tt, s', o) ∧ judged id ds s s' ∧
    limit_alerts o = alert_of id <$> filter (λ d, crossing id d s = true) ds.
Proof.
  intros Hov. revert s. induction ds as [|d ds IH]; intros s Hds Hnd.
  { exists s, []. split_and!; [done| |done]. split_and!; [done..| |done]. by intros d ?%elem_of_nil. }
  rewrite fmap_cons, NoDup_cons in Hnd. destruct Hnd as [Hd Hnd].
  destruct (Hds d (list_elem_of_here _ _)) as [Hmd Hth].
  destruct (judge_metric_run id name ms d s Hov Hth) as (o1 & H1 & Ho1).
  set (s1 := with_over _ s) in H1.
  assert (Hk1 : ∀ k, k ≠ state_key id (metric_id d) → (k ∈ over s1 ↔ k ∈ over s)).
  { intros k Hk. by apply flag_other. }
  assert (Hdiff : ∀ d', d' ∈ ds → state_key id (metric_id d') ≠ state_key id (metric_id d)).
  { intros d' Hd' [_ Heq]%state_key_inj; [|by apply Hds; right|done].
    apply Hd. rewrite <-Heq. by apply list_elem_of_fmap_2. }
  destruct (IH s1) as (s2 & o2 & H2 & (Hr & Hn & Hin & Hout) & Ho2); [|done|].
  { intros d' Hd'. by apply Hds; right. }
  exists s2, (o1 ++ o2). simpl. unfold mbind, svc_bind. rewrite H1, H2.
  assert (Hext : ∀ d', d' ∈ ds → over_now id d' s1 = over_now id d' s ∧ crossing id d' s1 = crossing id d' s).
  { intros d' Hd'. apply over_now_ext; [done|]. by apply Hk1, Hdiff. }
  split_and!; [done| |].
  - split_and!; [done|done| |].
    + intros d' [->|Hd']%elem_of_cons; [|by rewrite Hin, (proj1 (Hext d' Hd'))].
      rewrite Hout by (intros d'' Hd''; apply not_eq_sym, Hdiff, Hd''). apply flag_own.
    + intros k Hk. rewrite Hout by (intros; apply Hk; by right). apply Hk1, Hk. by left.
  - rewrite limit_alerts_app, Ho1, Ho2, filter_cons.
    rewrite (list_filter_iff' (λ d, crossing id d s1 = true) (λ d, crossing id d s = true)).
    2: { intros d' Hd'. by rewrite (proj2 (Hext d' Hd')). }
    case_decide as Hc; [by rewrite Hc|]. by destruct (crossing id d s).
Qed.

Lemma clear_all id ds s :
  ∃ s' , for_each ds (λ d, clear (state_key id (metric_id d))) s = (Ok tt, s', []) ∧
    rows s' = rows s ∧ notif s' = notif s ∧
    (∀ d, d ∈ ds → state_key id (metric_id d) ∉ over s') ∧
    (∀ k, (∀ d, d ∈ ds → k ≠ state_key id (metric_id d)) → (k ∈ over s' ↔ k ∈ over s)).
Proof.
  revert s. induction ds as [|d ds IH]; intros s.
  { exists s. split_and!; [done..| |done]. by intros d ?%elem_of_nil. }
  simpl. rewrite (svc_bind_run _ _ s tt (with_over (over s ∖ {[state_key id (metric_id d)]}) s)) by done.
  destruct (IH (with_over (over s ∖ {[state_key id (metric_id d)]}) s)) as (s' & Hs & Hr & Hn & Hin & Hout).
  exists s'. split_and!; [done..| |].
  - intros d' [->|Hd']%elem_of_cons; [|by apply Hin].
    destruct (decide (Exists (λ d'', state_key id (metric_id d) = state_key id (metric_id d'')) ds))
      as [(d'' & Hd'' & ->)%list.Exists_exists|Hno]; [by apply Hin|]. rewrite list.Exists_exists in Hno.
    rewrite Hout by (intros d' Hd' Heq; apply Hno; by exists d'). simpl. by rewrite (flag_own false).
  - intros k Hk. rewrite Hout by (intros; apply Hk; by right). simpl.
    apply (flag_other false), Hk. by left.
Qed.

Lemma check_run r s : ∃ s' o, check overview r s = (Ok tt, s', o) ∧
  judged (in_id r) METRIC_THRESHOLDS s s' ∧ limit_alerts o = expected (in_id r) s.
Proof.
  set (id := in_id r). unfold check. svc_run. fold id.
  set (off := findMany (λ d, negb (0 <? threshold_of id d s)) METRIC_THRESHOLDS).
  set (on := findMany (λ d, 0 <? threshold_of id d s) METRIC_THRESHOLDS).
  assert (Hon : ∀ d, d ∈ on ↔ 0 < threshold_of id d s ∧ d ∈ METRIC_THRESHOLDS).
  { intros d. subst on. rewrite elem_of_findMany, Z.ltb_lt. done. }
  assert (Hoff : ∀ d, d ∈ off ↔ ¬ 0 < threshold_of id d s ∧ d ∈ METRIC_THRESHOLDS).
  { intros d. subst off. rewrite elem_of_findMany, negb_true_iff, Z.ltb_nlt. done. }
  destruct (clear_all id off s) as (s1 & H1 & Hr1 & Hn1 & Hin1 & Hout1).
  rewrite (svc_bind_run _ _ _ _ _ H1).
  assert (Hkeep : ∀ d, d ∈ on → (state_key id (metric_id d) ∈ over s1 ↔ state_key id (metric_id d) ∈ over s)).
  { intros d [Hd Hm]%Hon. apply Hout1. intros d' [Hd' Hm']%Hoff Heq.
    apply state_key_inj in Heq as [_ Heq]; [|done..]. apply Hd'. unfold threshold_of in *.
    by rewrite <-Heq. }
  assert (Hdead : ∀ d, d ∈ off → over_now id d s = false).
  { intros d [Hd _]%Hoff. unfold over_now. by assert ((0 <? threshold_of id d s) = false) as -> by lia. }
  assert (Hsplit : ∀ d, d ∈ METRIC_THRESHOLDS → d ∈ on ∨ d ∈ off).
  { intros d Hd. rewrite Hon, Hoff. destruct (decide (0 < threshold_of id d s)); auto. }
  assert (Hext : ∀ d, d ∈ on → over_now id d s1 = over_now id d s ∧ crossing id d s1 = crossing id d s).
  { intros d Hd. apply over_now_ext; [done|]. by apply Hkeep. }
  assert (Hexp : expected id s = alert_of id <$> filter (λ d, crossing id d s1 = true) on).
  { unfold expected. f_equal. subst on. unfold findMany. rewrite list_filter_filter.
    apply list_filter_iff'. intros d Hd. destruct (Hsplit d Hd) as [Hd'|Hd'].
    - rewrite (proj2 (Hext d Hd')). apply Hon in Hd' as [? _]. rewrite Z.ltb_lt. tauto.
    - pose proof Hd' as [? _]%Hoff. rewrite Z.ltb_lt. unfold crossing. rewrite (Hdead d Hd'). naive_solver. }
  case_bool_decide as He.
  { exists s1, []. split_and!; [done| |by rewrite Hexp, He]. split_and!; [done|done| |].
    - intros d Hd. destruct (Hsplit d Hd) as [Hd'|Hd']; [rewrite He in Hd'; by apply elem_of_nil in Hd'|].
      rewrite (Hdead d Hd'). split; [intros Hx; by destruct (Hin1 d Hd')|done].
    - intros k Hk. apply Hout1. intros d [_ Hd]%Hoff. by apply Hk. }
  destruct (overview id) as [ms|] eqn:Hov.
  - destruct (judge_all id (in_name r) ms on s1 Hov) as (s2 & o2 & H2 & (Hr2 & Hn2 & Hin2 & Hout2) & Ho2).
    { intros d [Hd Hm]%Hon. split; [done|]. unfold threshold_of. by rewrite Hn1. }
    { eapply sublist_NoDup; [apply catalog_sound|]. apply fmap_sublist, sublist_filter. }
    exists s2, o2. split_and!; [done| |by rewrite Ho2, Hexp]. split_and!; [congruence|congruence| |].
    + intros d Hd. destruct (Hsplit d Hd) as [Hd'|Hd'].
      * by rewrite Hin2, (proj1 (Hext d Hd')).
      * rewrite Hout2, (Hdead d Hd').
        2: { intros d'' [Hd'' Hm'']%Hon Heq. apply state_key_inj in Heq as [_ Heq]; [|done..].
             apply Hoff in Hd' as [Hd' _]. apply Hd'. unfold threshold_of in *. by rewrite Heq. }
        split; [intros Hx; by destruct (Hin1 d Hd')|done].
    + intros k Hk. rewrite Hout2 by (intros d [_ Hd]%Hon; by apply Hk).
      apply Hout1. intros d [_ Hd]%Hoff. by apply Hk.
  - assert (Hnone : ∀ d, d ∈ on → over_now id d s = bool_decide (state_key id (metric_id d) ∈ over s)).
    { intros d [Hd _]%Hon. unfold over_now, reading. rewrite Hov. simpl.
      by assert ((0 <? threshold_of id d s) = true) as -> by lia. }
    exists s1, []. split_and!; [done| |].
    + split_and!; [done|done| |].
      * intros d Hd. destruct (Hsplit d Hd) as [Hd'|Hd'].
        -- by rewrite (Hnone d Hd'), bool_decide_eq_true, Hkeep.
        -- rewrite (Hdead d Hd'). split; [intros Hx; by destruct (Hin1 d Hd')|done].
      * intros k Hk. apply Hout1. intros d [_ Hd]%Hoff. by apply Hk.
    + rewrite Hexp. rewrite (list_filter_iff' _ (λ _, False)).
      * assert (filter (λ _ : MetricThresholdDef, False) on = []) as ->; [|done].
        clear. by induction on.
      * intros d Hd. rewrite (proj2 (Hext d Hd)). unfold crossing. rewrite (Hnone d Hd).
        by destruct (bool_decide _).
Qed.

Lemma checks_run rs s : NoDup (in_id <$> rs) →
  ∃ s' o, for_each rs (check overview) s = (Ok tt, s', o) ∧ rows s' = rows s ∧ notif s' = notif s ∧
    (∀ r d, r ∈ rs → d ∈ METRIC_THRESHOLDS →
      (state_key (in_id r) (metric_id d) ∈ over s' ↔ over_now (in_id r) d s = true)) ∧
    (∀ k, (∀ r d, r ∈ rs → d ∈ METRIC_THRESHOLDS → k ≠ state_key (in_id r) (metric_id d)) →
      (k ∈ over s' ↔ k ∈ over s)) ∧
    limit_alerts o = rs ≫= λ r, expected (in_id r) s.
Proof.
  revert s. induction rs as [|r rs IH]; intros s Hnd.
  { exists s, []. split_and!; [done..| |done|done]. by intros r d ?%elem_of_nil. }
  rewrite fmap_cons, NoDup_cons in Hnd. destruct Hnd as [Hr Hnd].
  destruct (check_run r s) as (s1 & o1 & H1 & (Hr1 & Hn1 & Hin1 & Hout1) & Ho1).
  destruct (IH s1 Hnd) as (s2 & o2 & H2 & Hr2 & Hn2 & Hin2 & Hout2 & Ho2).
  assert (Hother : ∀ r' d, r' ∈ rs → d ∈ METRIC_THRESHOLDS →
    state_key (in_id r') (metric_id d) ∈ over s1 ↔ state_key (in_id r') (metric_id d) ∈ over s).
  { intros r' d Hr' Hd. apply Hout1. intros d' Hd' Heq.
    apply state_key_inj in Heq as [Heq _]; [|done..]. apply Hr. rewrite <-Heq.
    by apply list_elem_of_fmap_2. }
  assert (Hexp : ∀ r', r' ∈ rs → expected (in_id r') s1 = expected (in_id r') s).
  { intros r' Hr'. unfold expected. f_equal. apply list_filter_iff'. intros d Hd.
    by rewrite (proj2 (over_now_ext (in_id r') d s s1 Hn1 (Hother r' d Hr' Hd))). }
  exists s2, (o1 ++ o2). simpl. unfold mbind at 1, svc_bind. rewrite H1, H2.
  split_and!; [done|congruence|congruence| | |].
  - intros r' d [->|Hr']%elem_of_cons Hd.
    + rewrite Hout2; [by apply Hin1|]. intros r' d' Hr' Hd' Heq.
      apply state_key_inj in Heq as [Heq _]; [|done..]. apply Hr. rewrite Heq.
      by apply list_elem_of_fmap_2.
    + rewrite Hin2 by done.
      by rewrite (proj1 (over_now_ext (in_id r') d s s1 Hn1 (Hother r' d Hr' Hd))).
  - intros k Hk. rewrite Hout2 by (intros; apply Hk; [by right|done]).
    apply Hout1. intros d Hd. apply Hk; [by left|done].
  - rewrite limit_alerts_app, Ho1, Ho2. change (expected (in_id r) s ++ (rs ≫= λ r, expected (in_id r) s1) =
      expected (in_id r) s ++ (rs ≫= λ r, expected (in_id r) s)). f_equal. by apply list_bind_ext_in.
Qed.

Definition pruned (s : state) : state := with_over (filter (λ k, owner_of k ∈ live_ids (rows s)) (over s)) s.

Lemma pruned_over_now s r d : r ∈ enabled_rows (rows s) → d ∈ METRIC_THRESHOLDS →
  over_now (in_id r) d (pruned s) = over_now (in_id r) d s ∧
  crossing (in_id r) d (pruned s) = crossing (in_id r) d s.
Proof.
  intros Hr Hd. apply over_now_ext; [done|]. simpl. rewrite elem_of_filter, owner_of_key by done.
  split; [by intros [??]|]. intros ?. split; [|done]. by apply list_elem_of_fmap_2.
Qed.

(** one pass of the threshold monitor raises an alert for exactly the metrics
    of enabled connectors that are at or over a positive limit and were not
    known to be, in the order of the connectors and of the catalog; afterwards a
    metric counts as over exactly if it reads over its limit, or is not
    reported now and counted before; and nothing is kept about other
    connectors. *)
Theorem threshold_tick_exact (stored : bool) (s : state) :
  NoDup (live_ids (rows s)) →
  let s' := run_state (tick true stored overview) s in
  limit_alerts (run_out (tick true stored overview) s) =
    (enabled_rows (rows s) ≫= λ r, expected (in_id r) s) ∧
  (∀ r d, r ∈ enabled_rows (rows s) → d ∈ METRIC_THRESHOLDS →
    (state_key (in_id r) (metric_id d) ∈ over s' ↔ over_now (in_id r) d s = true)) ∧
  (∀ k, k ∈ over s' → owner_of k ∈ live_ids (rows s)).
Proof.
  intros Hnd. unfold tick, run_state, run_out. simpl. svc_run. fold (pruned s).
  destruct (checks_run (enabled_rows (rows s)) (pruned s) Hnd)
    as (s1 & o1 & H1 & Hr1 & Hn1 & Hin1 & Hout1 & Ho1).
  change (rows (pruned s)) with (rows s). unfold mbind, svc_bind. rewrite H1.
  assert (Hp : ∃ s2 o2, persistOver stored s1 = (Ok tt, s2, o2) ∧ over s2 = over s1 ∧ limit_alerts o2 = []).
  { unfold persistOver. destruct stored; by do 2 eexists. }
  destruct Hp as (s2 & o2 & -> & Ho & Hl). simpl. rewrite Ho, limit_alerts_app, Hl, Ho1, app_nil_r.
  split_and!.
  - assert (He : ∀ r, r ∈ enabled_rows (rows s) → expected (in_id r) (pruned s) = expected (in_id r) s).
    { intros r Hr. unfold expected. f_equal. apply list_filter_iff'. intros d Hd.
      by rewrite (proj2 (pruned_over_now s r d Hr Hd)). }
    by apply list_bind_ext_in.
  - intros r d Hr Hd. rewrite Hin1 by done. by rewrite (proj1 (pruned_over_now s r d Hr Hd)).
  - intros k Hk. destruct (decide (owner_of k ∈ live_ids (rows s))) as [|Hno]; [done|].
    rewrite Hout1 in Hk.
    + simpl in Hk. by apply elem_of_filter in Hk as [? _].
    + intros r d Hr Hd ->. apply Hno. rewrite owner_of_key by done. by apply list_elem_of_fmap_2.
Qed.

(** A restart: the process memory is lost and read back from the settings. *)
Definition restarted (s : state) : state := restore (State (rows s) (notif s) ∅).

Lemma restarted_persisted (s : state) :
  let s' := State (rows s) (set_setting OVER_STATE_KEY (strs (elements (over s))) (notif s)) (over s) in
  restarted s' = s'.
Proof.
  unfold restarted, restore, set_setting, strs, with_over. simpl. rewrite lookup_insert_eq. f_equal.
  assert (Hl : ∀ l : list string,
    omap (λ v, match v with JStr k => Some k | _ => None end) (JStr <$> l) = l).
  { induction l as [|x l IH]; [done|]. rewrite fmap_cons. cbn. f_equal. exact IH. }
  by rewrite Hl, union_empty_l_L, list_to_set_elements_L.
Qed.

Lemma threshold_of_persisted id d v s :
  threshold_of id d (State (rows s) (set_setting OVER_STATE_KEY v (notif s)) (over s)) =
  threshold_of id d s.
Proof.
  unfold threshold_of, NotificationsService.connectorThreshold, NotificationsService.thresholdKey. simpl.
  by rewrite !lookup_insert_ne by done.
Qed.

(** A metric judged on the same reading twice does not cross again. *)
Lemma crossing_settled id d s s2 :
  threshold_of id d s2 = threshold_of id d s →
  (state_key id (metric_id d) ∈ over s2 ↔ over_now id d s = true) → crossing id d s2 = false.
Proof.
  intros Ht Hk. unfold crossing. destruct (bool_decide _) eqn:Hb; [by rewrite andb_false_r|].
  apply bool_decide_eq_false in Hb. rewrite andb_true_r, Hk in *. apply not_true_is_false in Hb.
  unfold over_now in *. rewrite Ht. destruct (reading id d); [done|].
  destruct (0 <? threshold_of id d s); [|done]. simpl in *.
  apply bool_decide_eq_false. rewrite Hk. by rewrite Hb.
Qed.

(** a restart never repeats a limit alert.  After a pass whose state was
    stored, the process may restart any time: while the connectors report the
    same values, the next pass raises nothing. *)
Theorem restart_repeats_nothing (s : state) :
  NoDup (live_ids (rows s)) →
  let s1 := run_state (tick true true overview) s in
  over (restarted s1) = over s1 ∧
  limit_alerts (run_out (tick true true overview) (restarted s1)) = [].
Proof.
  intros Hnd s1. subst s1. unfold tick, run_state, run_out. simpl. svc_run. fold (pruned s).
  destruct (checks_run (enabled_rows (rows s)) (pruned s) Hnd)
    as (s1 & o1 & H1 & Hr1 & Hn1 & Hin1 & _ & _).
  change (rows (pruned s)) with (rows s) in *. unfold mbind, svc_bind. rewrite H1. simpl.
  rewrite restarted_persisted. split; [done|].
  set (s2 := State _ _ _). fold (pruned s2). change (rows (pruned s2)) with (rows s2).
  assert (Hnd2 : NoDup (in_id <$> enabled_rows (rows s2))) by (simpl; by rewrite Hr1).
  destruct (checks_run _ (pruned s2) Hnd2) as (s3 & o3 & H3 & _ & _ & _ & _ & Ho3).
  rewrite H3. simpl. rewrite limit_alerts_app, Ho3. simpl. rewrite app_nil_r.
  rewrite (list_bind_ext_in _ (λ _, [])); [by induction (enabled_rows (rows s1))|].
  intros r Hr. unfold expected.
  assert (filter (λ d, crossing (in_id r) d (pruned s2) = true) METRIC_THRESHOLDS = []) as ->; [|done].
  assert (Hno : ∀ d, d ∈ METRIC_THRESHOLDS → crossing (in_id r) d (pruned s2) = false).
  { intros d Hd. rewrite (proj2 (pruned_over_now s2 r d Hr Hd)).
    apply (crossing_settled _ _ (pruned s)).
    - unfold s2. rewrite threshold_of_persisted. unfold threshold_of. by rewrite Hn1.
    - apply Hin1; [|done]. by rewrite <-Hr1. }
  clear -Hno. induction METRIC_THRESHOLDS as [|d ds IH]; [done|].
  rewrite filter_cons_False by (rewrite Hno by left; done). apply IH. intros; apply Hno; by right.
Qed.
End thresholds.

(** ** Guests alert on a change of their stable state *)

Section guests.
Import ResourceMonitor.

Inductive guest_event :=
| GSetInstances (rows : list Instance)
| GTick (now : Z) (loaded : bool)
| GSettle (id : string) (overview : option (list OverviewGuest)).

Definition guest_react (e : guest_event) (s : state) : state * list output :=
  match e with
  | GSetInstances rows => (State rows (lastStatus s) (lastCheck s) (active s), [])
  | GTick now loaded => tick now loaded s
  | GSettle id overview => settle id overview s
  end.
Fixpoint guest_run (es : list guest_event) (s : state) : state * list output :=
  match es with
  | [] => (s, [])
  | e :: es' =>
      let '(s1, o1) := guest_react e s in let '(s2, o2) := guest_run es' s1 in (s2, o1 ++ o2)
  end.

(** What one check showed of one guest. *)
Inductive sighting := Gone | Transient | Stable (st : State_).

Definition sight (k : string) (gs : list OverviewGuest) : sighting :=
  match findFirst (λ g, bool_decide (guestKey g = k)) gs with
  | None => Gone
  | Some g => match classify (gu_status g) with Some st => Stable st | None => Transient end
  end.

Definition sighted (id k : string) (e : guest_event) (s : state) : list sighting :=
  match e with
  | GSetInstances _ => []
  | GTick _ loaded => if loaded && bool_decide (id ∉ live_ids (instances s)) then [Gone] else []
  | GSettle id' (Some gs) =>
      if bool_decide (id' = id) && bool_decide (id ∈ (active s).*1.*1) then [sight k gs] else []
  | GSettle _ None => []
  end.
Fixpoint sightings (id k : string) (es : list guest_event) (s : state) : list sighting :=
  match es with
  | [] => []
  | e :: es' => sighted id k e s ++ sightings id k es' (guest_react e s).1
  end.

(** The abstract watch over one guest: transient states are looked through, a
    guest first seen or seen again is taken as it is. *)
Definition watch (m : option State_) (x : sighting) : option State_ * list State_ :=
  match x with
  | Gone => (None, [])
  | Transient => (m, [])
  | Stable st =>
      (Some st, match m with Some w => if bool_decide (w = st) then [] else [st] | None => [] end)
  end.
Fixpoint watches (m : option State_) (l : list sighting) : option State_ * list State_ :=
  match l with
  | [] => (m, [])
  | x :: l' => let '(p, a) := watch m x in let '(q, b) := watches p l' in (q, a ++ b)
  end.

Definition memory (id k : string) (s : state) : option State_ := lastStatus s !! id ≫= λ m, m !! k.

Definition guest_dedupe (id k : string) (st : State_) : string :=
  "res:" +:+ id +:+ ":" +:+ k +:+ ":" +:+ state_text st.
Definition guest_alerts (id k : string) (l : list output) : list State_ :=
  omap (λ o, match o with
    | OAlert a =>
        if negb (bool_decide (al_connectorId a = Some id)) then None
        else if bool_decide (al_dedupeKey a = Some (guest_dedupe id k up)) then Some up
        else if bool_decide (al_dedupeKey a = Some (guest_dedupe id k down)) then Some down
        else None
    | _ => None
    end) l.

Lemma guest_dedupe_inj id k k' st st' :
  guest_dedupe id k st = guest_dedupe id k' st' → k = k' ∧ st = st'.
Proof.
  unfold guest_dedupe. intros H%(inj (String.append "res:"))%(inj (String.append id))%(inj (String.append ":")).
  apply (f_equal chars) in H. rewrite !chars_app in H.
  assert (Hst : st = st').
  { apply (f_equal (λ l, head (rev l))) in H. rewrite !rev_app_distr in H.
    by destruct st, st'. }
  subst st'. split; [|done]. rewrite !(assoc_L (++)) in H. apply app_inv_tail, app_inv_tail in H.
  by apply chars_inj.
Qed.

Lemma guest_alerts_one id k name g st id' :
  guest_alerts id k [guest_alert id' name g st] =
    if bool_decide (id' = id) && bool_decide (guestKey g = k) then [st] else [].
Proof.
  unfold guest_alerts, guest_alert. simpl. destruct (decide (id' = id)) as [->|Hid].
  - rewrite !(bool_decide_eq_true_2 (_ = _ :> option string)) by done. simpl.
    fold (guest_dedupe id (guestKey g) st).
    rewrite (bool_decide_eq_true_2 (id = id)) by done. simpl.
    assert (Hd : ∀ st', bool_decide (Some (guest_dedupe id (guestKey g) st) = Some (guest_dedupe id k st'))
      = bool_decide (guestKey g = k) && bool_decide (st = st')).
    { intros st'. rewrite <-bool_decide_and. apply bool_decide_ext. split.
      - intros H%(inj Some). by apply guest_dedupe_inj in H.
      - by intros [-> ->]. }
    rewrite !Hd. by destruct (bool_decide (guestKey g = k)), st.
  - rewrite (bool_decide_eq_false_2 (Some id' = Some id)) by congruence. simpl.
    by rewrite (bool_decide_eq_false_2 (id' = id)).
Qed.

Lemma guest_alerts_cons id k o l : guest_alerts id k (o :: l) = guest_alerts id k [o] ++ guest_alerts id k l.
Proof. apply (omap_app _ [o] l). Qed.

Lemma guest_alerts_app id k l l' :
  guest_alerts id k (l ++ l') = guest_alerts id k l ++ guest_alerts id k l'.
Proof. apply omap_app. Qed.

(** The loop over guests with distinct keys, one key at a time. *)
Lemma see_spec id name prev gs curr k :
  NoDup (guestKey <$> gs) → (∀ g, g ∈ gs → curr !! guestKey g = None) →
  let m := prev ≫= λ m, m !! k in
  let r := see id name prev gs curr in
  r.1 !! k = (match sight k gs with Gone => curr !! k | x => (watch m x).1 end) ∧
  guest_alerts id k r.2 = (watch m (sight k gs)).2.
Proof.
  intros Hnd. revert curr. induction gs as [|g gs IH]; intros curr Hc; [done|].
  rewrite fmap_cons, NoDup_cons in Hnd. destruct Hnd as [Hg Hnd]. specialize (IH Hnd).
  assert (Hne : ∀ g', g' ∈ gs → guestKey g' ≠ guestKey g).
  { intros g' Hg' He. apply Hg. rewrite <-He. by apply list_elem_of_fmap_2. }
  assert (Hins : ∀ st g', g' ∈ gs → (<[guestKey g := st]> curr) !! guestKey g' = None).
  { intros st g' Hg'. rewrite lookup_insert_ne by by apply not_eq_sym, Hne. apply Hc. by right. }
  assert (Hrest : ∀ g', g' ∈ gs → curr !! guestKey g' = None) by (intros; apply Hc; by right).
  assert (Hsight : sight k (g :: gs) = if bool_decide (guestKey g = k)
    then match classify (gu_status g) with Some st => Stable st | None => Transient end
    else sight k gs).
  { unfold sight. rewrite findFirst_cons. by case_bool_decide. }
  assert (Hgone : guestKey g = k → sight k gs = Gone).
  { intros <-. unfold sight. rewrite (proj2 (findFirst_None _ gs)); [done|].
    intros g' Hg'. by apply bool_decide_eq_false, Hne. }
  cbv zeta. rewrite Hsight. simpl. destruct (classify (gu_status g)) as [st|] eqn:Hcl.
  - specialize (IH _ (Hins st)). cbv zeta in IH. destruct IH as [IH1 IH2].
    destruct (see id name prev gs (<[guestKey g := st]> curr)) as [m o]. simpl in *.
    case_bool_decide as Hk.
    + rewrite (Hgone Hk) in *. subst k. rewrite lookup_insert_eq in IH1. split; [done|]. simpl in *.
      destruct (prev ≫= _) as [w|] eqn:Hw; simpl; [|done].
      case_bool_decide; [done|]. rewrite guest_alerts_cons, guest_alerts_one, IH2.
      by rewrite !bool_decide_eq_true_2.
    + rewrite lookup_insert_ne in IH1 by done. split; [done|].
      destruct (prev ≫= λ m, m !! guestKey g) as [w|]; [|done]. case_bool_decide; [done|].
      rewrite guest_alerts_cons, guest_alerts_one, IH2.
      by rewrite (bool_decide_eq_false_2 (guestKey g = k)), andb_false_r.
  - destruct (prev ≫= λ m, m !! guestKey g) as [w|] eqn:Hw.
    + specialize (IH _ (Hins w)). cbv zeta in IH. destruct IH as [IH1 IH2].
      case_bool_decide as Hk; [|by rewrite lookup_insert_ne in IH1].
      rewrite (Hgone Hk) in *. subst k. rewrite lookup_insert_eq in IH1. by rewrite IH1, IH2, Hw.
    + specialize (IH _ Hrest). cbv zeta in IH. destruct IH as [IH1 IH2].
      case_bool_decide as Hk; [|done]. rewrite (Hgone Hk) in *. subst k.
      rewrite IH1, IH2. simpl. split; [|done]. rewrite Hw. apply Hc. left.
Qed.

Lemma see_other id name prev gs curr id' k : id' ≠ id →
  guest_alerts id' k (see id name prev gs curr).2 = [].
Proof.
  intros Hid. revert curr. induction gs as [|g gs IH]; intros curr; simpl; [done|].
  destruct (classify _) as [st|]; [|apply IH].
  specialize (IH (<[guestKey g := st]> curr)).
  destruct (see id name prev gs (<[guestKey g := st]> curr)) as [m o]. simpl in *.
  destruct (prev ≫= _) as [w|]; [|done]. case_bool_decide; [done|].
  rewrite guest_alerts_cons, guest_alerts_one, IH.
  by rewrite (bool_decide_eq_false_2 (id = id')) by congruence.
Qed.

Definition distinct_guests (e : guest_event) : Prop :=
  match e with GSettle _ (Some gs) => NoDup (guestKey <$> gs) | _ => True end.

Lemma watches_one m x : watches m [x] = watch m x.
Proof. simpl. destruct (watch m x). by rewrite app_nil_r. Qed.

Lemma watches_app m l1 l2 :
  watches m (l1 ++ l2) =
  ((watches (watches m l1).1 l2).1, (watches m l1).2 ++ (watches (watches m l1).1 l2).2).
Proof.
  revert m. induction l1 as [|x l1 IH]; intros m; simpl; [by destruct (watches m l2)|].
  destruct (watch m x) as [p a]. rewrite IH. destruct (watches p l1) as [q b]. simpl.
  by rewrite (assoc_L (++)).
Qed.

Lemma begin_checks_status now rs s :
  lastStatus (foldl (λ s r, begin_check now r s) s rs) = lastStatus s.
Proof.
  revert s. induction rs as [|r rs IH]; intros s; simpl; [done|]. rewrite IH.
  unfold begin_check. by repeat case_match.
Qed.

Lemma guest_react_watch e s id k : distinct_guests e →
  guest_alerts id k (guest_react e s).2 = (watches (memory id k s) (sighted id k e s)).2 ∧
  memory id k (guest_react e s).1 = (watches (memory id k s) (sighted id k e s)).1.
Proof.
  intros He. destruct e as [rows|now loaded|id' ov]; [done| |].
  - simpl. unfold tick. destruct loaded; [|done]. simpl. unfold memory.
    rewrite begin_checks_status. simpl. rewrite map_lookup_filter.
    case_bool_decide as Hlive; simpl; (split; [done|]); destruct (lastStatus s !! id) as [m|]; try done; simpl.
    + by rewrite option_guard_False.
    + rewrite option_guard_True; [done|]. simpl. by destruct (decide (id ∈ live_ids (instances s))).
  - simpl. unfold settle. destruct (findFirst _ (active s)) as [[[i name] t]|] eqn:Ha.
    + pose proof Ha as [Hin Hi%bool_decide_eq_true]%findFirst_Some. simpl in Hi. subst i.
      assert (Hact : id' ∈ (active s).*1.*1).
      { apply list_elem_of_fmap. exists (id', name). split; [done|].
        apply list_elem_of_fmap. by exists (id', name, t). }
      destruct ov as [gs|]; [|done]. simpl in He.
      pose proof (see_spec id' name (lastStatus s !! id') gs ∅ k He (λ _ _, lookup_empty _)) as [H1 H2].
      pose proof (see_other id' name (lastStatus s !! id') gs ∅ id k) as Ho.
      destruct (see id' name (lastStatus s !! id') gs ∅) as [m o]. simpl in *.
      case_bool_decide as Hid; simpl.
      * subst id'. rewrite bool_decide_eq_true_2 by done. rewrite watches_one.
        split; [exact H2|]. unfold memory. simpl. rewrite lookup_insert_eq. simpl. rewrite H1.
        by destruct (sight k gs).
      * split; [by apply Ho, not_eq_sym|]. unfold memory. simpl. by rewrite lookup_insert_ne.
    + assert (Hact : id' ∉ (active s).*1.*1).
      { intros (a & -> & Ha')%list_elem_of_fmap. apply list_elem_of_fmap in Ha' as (b & -> & Hb).
        apply (proj1 (findFirst_None _ _) Ha) in Hb. by rewrite bool_decide_eq_false in Hb. }
      destruct ov as [gs|]; [|done]. simpl. case_bool_decide as Hid; [|done]. subst id'.
      by rewrite bool_decide_eq_false_2.
Qed.

(** the alerts about a guest are exactly the changes of its stable state, in
    every interleaving of ticks and answers of the connectors: a transient or
    unknown status in between is looked through, the first sight of a guest
    (after a restart, or once it had gone) is silent, and neither other guests
    nor other connectors show.  The guests of one answer have distinct keys. *)
Theorem guest_alerts_are_changes (es : list guest_event) (s : state) (id k : string) :
  Forall distinct_guests es →
  guest_alerts id k (guest_run es s).2 = (watches (memory id k s) (sightings id k es s)).2 ∧
  memory id k (guest_run es s).1 = (watches (memory id k s) (sightings id k es s)).1.
Proof.
  intros Hes. revert s. induction Hes as [|e es He _ IH]; intros s; [done|]. simpl.
  destruct (guest_react_watch e s id k He) as [H1 H2].
  destruct (guest_react e s) as [s1 o1]. simpl in *. specialize (IH s1) as [IH1 IH2].
  destruct (guest_run es s1) as [s2 o2]. simpl in *.
  by rewrite watches_app, guest_alerts_app, H1, IH1, IH2, H2.
Qed.

Definition web (status : string) : OverviewGuest := Guest "web" "vm" status "n1".
Definition watched_host (since : Z) : state :=
  State [{| in_id := "px"; in_name := "Proxmox"; in_enabled := true; refreshIntervalSec := 30 |}] ∅
    {["px" := since]} [].
Definition sweep (now : Z) (gs : list OverviewGuest) : list guest_event :=
  [GTick now true; GSettle "px" (Some gs)].

Lemma guest_alerts_are_changes_witness :
  guest_alerts "px" "vm:n1:web"
    (guest_run (sweep 60000 [web "running"] ++ sweep 120000 [web "stopping"] ++
      sweep 180000 [web "stopped"] ++ sweep 240000 [web "running"]) (watched_host 0)).2 = [down; up].
Proof.
  destruct (guest_alerts_are_changes
    (sweep 60000 [web "running"] ++ sweep 120000 [web "stopping"] ++
      sweep 180000 [web "stopped"] ++ sweep 240000 [web "running"]) (watched_host 0) "px" "vm:n1:web")
    as [H _].
  { repeat apply Forall_cons_2; try exact I; try apply NoDup_singleton. apply Forall_nil_2. }
  rewrite H. vm_compute. reflexivity.
Defined.

(** Two guests of one kind, node and name share a key: with different stable
    states the watch alerts on every pass, although nothing changes. *)
Lemma twin_guests_alert_every_pass :
  let twins := [web "running"; web "stopped"] in
  guest_alerts "px" "vm:n1:web"
    (guest_run (sweep 60000 twins ++ sweep 120000 twins ++ sweep 180000 twins) (watched_host 0)).2
    = [up; up].
Proof. vm_compute. reflexivity. Qed.
End guests.

Definition cost_host : ThresholdMonitor.state :=
  ThresholdMonitor.State
    [{| in_id := "b2"; in_name := "Backblaze"; in_enabled := true; refreshIntervalSec := 30 |}]
    (Notifications.State {[NotificationsService.thresholdKey "b2" "cost" := JNum 20]} ∅ ∅ []) ∅.
Definition costs (_ : string) : option (list ThresholdMonitor.OverviewMetric) :=
  Some [ThresholdMonitor.Metric_ "costMtd" "Month to date" 25 (Some "USD")].

Lemma cost_host_ids : NoDup (live_ids (ThresholdMonitor.rows cost_host)).
Proof. refine (bool_decide_unpack _ _). vm_compute. exact I. Qed.

Lemma threshold_tick_exact_witness :
  limit_alerts (run_out (ThresholdMonitor.tick true true costs) cost_host) =
    [("cost.threshold", Some "b2", Some "thr:b2:cost")].
Proof.
  destruct (threshold_tick_exact costs true cost_host cost_host_ids) as [H _].
  etrans; [exact H|]. vm_compute. reflexivity.
Defined.

Lemma restart_repeats_nothing_witness :
  let s1 := run_state (ThresholdMonitor.tick true true costs) cost_host in
  limit_alerts (run_out (ThresholdMonitor.tick true true costs) (restarted s1)) = [] ∧
  ThresholdMonitor.over s1 = {["b2:cost"]}.
Proof.
  destruct (restart_repeats_nothing costs cost_host cost_host_ids) as [_ H].
  split; [exact H|]. vm_compute. reflexivity.
Defined.
