(* ===== verification/Jobs.v ===== *)
(** * Background operations

    [connectors/job.service.ts]: a job runs on its own, reports its progress and
    ends once, by its runner or by a cancellation.  The runner is not modelled;
    its promise is, as the set [running] of jobs whose runner has not settled. *)
From S2P Require Import Prelude JsText.
From stdpp Require Import gmap strings options.

#[local] Open Scope Z_scope.
#[local] Set Default Proof Using "Type*".

Module JobService.

Inductive job_status := running_ | success | error.

#[export] Instance job_status_eq_dec : EqDecision job_status.
Proof. solve_decision. Defined.

Definition status_text (s : job_status) : string :=
  match s with running_ => "running" | success => "success" | error => "error" end.

Record JobRecord := Job {
  instanceId : string;
  label : string;
  status : job_status;
  steps : list string;
  message : option string;
  createdResourceId : option string;
  startedAt : Z;
  finishedAt : option Z
}.

(** [signals] are the abort controllers, an aborted one being [true]; [labels]
    the labels the progress callbacks have captured. *)
Record state := State {
  jobs : gmap string JobRecord;
  signals : gmap string bool;
  running : gset string;
  labels : gmap string string
}.

Record outcome_audit := Outcome { oa_job : string; oa_audit : audit; oa_message : option string; oa_duration : option Z }.

Inductive effect :=
| Log (l : level) (msg : string)
| Recorded (a : outcome_audit).

Abbreviation reply := (state * list effect)%type.

Definition with_jobs (j : gmap string JobRecord) (s : state) : state :=
  State j (signals s) (running s) (labels s).

Definition recordOutcome (id : string) (r : JobRecord) : effect :=
  Recorded (Outcome id
    (Audit None None
       (if bool_decide (status r = success) then "connectors.operation_succeeded"
        else "connectors.operation_failed") (Some (instanceId r +:+ "/" +:+ label r)))
    (message r)
    (match finishedAt r with
     | Some f => if (f =? 0) || (startedAt r =? 0) then None else Some (f - startedAt r)
     | None => None
     end)).

Definition start (id inst lbl : string) (now : Z) (s : state) : reply :=
  (State (<[id := Job inst lbl running_ [] None None now None]> (jobs s)) (<[id := false]> (signals s))
     ({[id]} ∪ running s) (<[id := lbl]> (labels s)), []).

(** The runner's progress callback. *)
Definition onProgress (id step : string) (s : state) : reply :=
  match labels s !! id with
  | Some lbl =>
      (with_jobs (alter (λ r, Job (instanceId r) (label r) (status r) (steps r ++ [step]) (message r)
                                (createdResourceId r) (startedAt r) (finishedAt r)) id (jobs s)) s,
       [Log Info ("[" +:+ lbl +:+ "] " +:+ step)])
  | None => (s, [])
  end.

Definition expired (now : Z) (r : JobRecord) : bool :=
  match finishedAt r with
  | Some f => negb (f =? 0) && (f <? now - 30 * 60 * 1000)
  | None => false
  end.
Definition prune (now : Z) (s : state) : state :=
  with_jobs (filter (λ kv, expired now kv.2 = false) (jobs s)) s.

Inductive runner_result :=
| Resolved (ok : bool) (message resource : option string)
| Rejected (message : option string).

Definition ended (now : Z) (x : runner_result) (r : JobRecord) : JobRecord :=
  match x with
  | Resolved ok m res =>
      Job (instanceId r) (label r) (if ok then success else error) (steps r) m res (startedAt r) (Some now)
  | Rejected m =>
      Job (instanceId r) (label r) error (steps r) (Some (default "Operation failed." m))
        (createdResourceId r) (startedAt r) (Some now)
  end.

(** The runner settles: [then] or [catch], then [finally].  A pruned record is
    still held by the callbacks, but a pruned job is never running. *)
Definition settle (now : Z) (id : string) (x : runner_result) (s : state) : reply :=
  if negb (bool_decide (id ∈ running s)) then (s, [])
  else
    let '(j, o) := match jobs s !! id with
      | Some r =>
          if bool_decide (status r = running_)
          then (<[id := ended now x r]> (jobs s), [recordOutcome id (ended now x r)])
          else (jobs s, [])
      | None => (jobs s, [])
      end in
    (prune now (State j (delete id (signals s)) (running s ∖ {[id]}) (labels s)), o).

Definition cancel (now : Z) (id : string) (s : state) : bool * reply :=
  match jobs s !! id with
  | Some r =>
      if bool_decide (status r = running_) then
        (true, (State (<[id := Job (instanceId r) (label r) error (steps r) (Some "Cancelled.")
                                (createdResourceId r) (startedAt r) (Some now)]> (jobs s))
                  (alter (λ _, true) id (signals s)) (running s) (labels s),
                [Log Warn ("[" +:+ label r +:+ "] cancelled by user.")]))
      else (false, (s, []))
  | None => (false, (s, []))
  end.

Definition listRunning (inst : string) (s : state) : list (string * JobRecord) :=
  filter (λ kr, instanceId kr.2 = inst ∧ status kr.2 = running_) (map_to_list (jobs s)).

End JobService.

Import JobService.

(** ** Every job ends once *)

Inductive event :=
| Start (id inst lbl : string) (now : Z)
| Progress (id step : string)
| Settle (now : Z) (id : string) (x : runner_result)
| Cancel (now : Z) (id : string).

Definition react (e : event) (s : state) : reply :=
  match e with
  | Start id inst lbl now => start id inst lbl now s
  | Progress id step => onProgress id step s
  | Settle now id x => settle now id x s
  | Cancel now id => (cancel now id s).2
  end.

Definition started (id : string) (es : list event) : Prop := ∃ inst lbl now, Start id inst lbl now ∈ es.

(** Job ids are fresh: a started id was never used. *)
Inductive history : list event → state → list effect → Prop :=
| history_nil : history [] (State ∅ ∅ ∅ ∅) []
| history_snoc es s o e s' o' :
    history es s o →
    match e with Start id _ _ _ => ¬ started id es | _ => True end →
    react e s = (s', o') →
    history (es ++ [e]) s' (o ++ o').

Definition outcomes (id : string) (o : list effect) : list outcome_audit :=
  omap (λ x, match x with Recorded a => if bool_decide (oa_job a = id) then Some a else None | _ => None end) o.
(** What holds of every job at every time. *)
Record job_inv (id : string) (es : list event) (s : state) (o : list effect) : Prop := {
  inv_unstarted : ¬ started id es →
    jobs s !! id = None ∧ (id ∉ running s) ∧ signals s !! id = None ∧ outcomes id o = [];
  inv_running : ∀ r, jobs s !! id = Some r → status r = running_ →
    id ∈ running s ∧ outcomes id o = [] ∧ finishedAt r = None ∧ signals s !! id = Some false;
  inv_signal : is_Some (signals s !! id) ↔ id ∈ running s;
  inv_stopped : id ∈ running s → (∀ r, jobs s !! id = Some r → status r ≠ running_) →
    signals s !! id = Some true ∧ outcomes id o = [];
  inv_once : (length (outcomes id o) ≤ 1)%nat
}.

Lemma outcomes_app id o o' : outcomes id (o ++ o') = outcomes id o ++ outcomes id o'.
Proof. apply omap_app. Qed.

Lemma started_snoc id es e :
  started id (es ++ [e]) ↔ started id es ∨ ∃ inst lbl now, e = Start id inst lbl now.
Proof.
  unfold started. setoid_rewrite elem_of_app. setoid_rewrite list_elem_of_singleton. naive_solver.
Qed.

(** A pruned table has fewer rows, all of them kept as they were. *)
Lemma prune_lookup now s id r :
  jobs (prune now s) !! id = Some r ↔ jobs s !! id = Some r ∧ expired now r = false.
Proof. simpl. by rewrite map_lookup_filter_Some. Qed.

(** A job keeps its invariant when nothing of its own changes. *)
Lemma inv_frame id es s o e s' o' :
  ¬ (∃ inst lbl now, e = Start id inst lbl now) →
  (∀ r, jobs s' !! id = Some r → ∃ r', jobs s !! id = Some r' ∧ status r' = status r ∧
     finishedAt r' = finishedAt r) →
  ((∃ r, jobs s !! id = Some r ∧ status r = running_) → is_Some (jobs s' !! id)) →
  signals s' !! id = signals s !! id → (id ∈ running s' ↔ id ∈ running s) → outcomes id o' = [] →
  job_inv id es s o → job_inv id (es ++ [e]) s' (o ++ o').
Proof.
  intros He Hj Hk Hs Hr Ho [I1 I2 I3 I4 I5].
  split; rewrite ?started_snoc, ?outcomes_app, ?Ho, ?app_nil_r, ?Hs, ?Hr; try done.
  - intros Hn. destruct I1 as (Hj1 & ? & ? & ?); [tauto|]. split_and!; try done.
    destruct (jobs s' !! id) as [r|] eqn:Hr'; [|done]. destruct (Hj r eq_refl) as (? & ? & _). congruence.
  - intros r Hr' Hst. destruct (Hj r Hr') as (r' & Hl & Hst' & <-). rewrite Hr. apply (I2 r'); [done|congruence].
  - intros Hin Hall. apply I4; [done|]. intros r Hl Hst.
    destruct Hk as [r' Hr']; [eauto|]. destruct (Hj r' Hr') as (r'' & ? & ? & _).
    apply (Hall r' Hr'). congruence.
Qed.

(** A settling runner, seen from its own job. *)
Lemma settle_own now id x s : id ∈ running s →
  (∃ r, jobs s !! id = Some r ∧ status r = running_ ∧
     (settle now id x s).1 = prune now (State (<[id := ended now x r]> (jobs s)) (delete id (signals s))
       (running s ∖ {[id]}) (labels s)) ∧ (settle now id x s).2 = [recordOutcome id (ended now x r)]) ∨
  ((∀ r, jobs s !! id = Some r → status r ≠ running_) ∧
     (settle now id x s).1 = prune now (State (jobs s) (delete id (signals s))
       (running s ∖ {[id]}) (labels s)) ∧ (settle now id x s).2 = []).
Proof.
  intros Hrun. unfold settle. rewrite bool_decide_eq_true_2 by done. simpl.
  destruct (jobs s !! id) as [r|]; [|by right]. case_bool_decide; [left; eauto|right].
  split; [|done]. by intros r' [= <-].
Qed.

Lemma settle_own_inv id es s o now x s' o' :
  id ∈ running s → settle now id x s = (s', o') → job_inv id es s o →
  job_inv id (es ++ [Settle now id x]) s' (o ++ o').
Proof.
  intros Hrun Hse [I1 I2 I3 I4 I5].
  assert (Hst : started id es ∨ ¬ started id es → started id es).
  { intros [|Hn]; [done|]. by destruct (I1 Hn) as (_ & ? & _). }
  assert (Hsig : signals s' !! id = None ∧ (id ∉ running s') ∧
    (∀ r, jobs s' !! id = Some r → status r ≠ running_) ∧ (length (outcomes id (o ++ o')) ≤ 1)%nat).
  { rewrite outcomes_app. destruct (settle_own now id x s Hrun) as [(r & Hr & Hru & H1 & H2)|(Hno & H1 & H2)];
      rewrite Hse in H1, H2; cbn [fst snd] in H1, H2; subst s' o'; simpl;
      rewrite lookup_delete_eq; (split_and!; [done|set_solver| |]).
    - intros r' [Hr' _]%map_lookup_filter_Some. rewrite lookup_insert_eq in Hr'. simplify_eq.
      by destruct x as [[]|].
    - destruct (I2 r Hr Hru) as (_ & -> & _). by case_bool_decide.
    - intros r' [Hr' _]%map_lookup_filter_Some. by apply Hno.
    - by rewrite app_nil_r. }
  destruct Hsig as (H1 & H2 & H3 & H4). split; [|by intros r Hr Hs; destruct (H3 r Hr)| |done|done].
  - intros Hn. destruct I1 as (_ & ? & _); [|done]. rewrite started_snoc in Hn. tauto.
  - rewrite H1. split; [by intros []|done].
Qed.

Lemma settle_other_inv id es s o now i x s' o' :
  i ≠ id → settle now i x s = (s', o') → job_inv id es s o →
  job_inv id (es ++ [Settle now i x]) s' (o ++ o').
Proof.
  intros Hne Hse Hinv.
  assert (Hkeep : ∀ j o1, (j = jobs s ∨ ∃ r, j = <[i := r]> (jobs s)) → outcomes id o1 = [] →
    (s', o') = (prune now (State j (delete i (signals s)) (running s ∖ {[i]}) (labels s)), o1) →
    job_inv id (es ++ [Settle now i x]) s' (o ++ o')).
  { intros j o1 Hj Ho1 [= -> ->].
    assert (Hji : j !! id = jobs s !! id) by (destruct Hj as [->|[r ->]]; by rewrite ?lookup_insert_ne).
    apply (inv_frame id es s o); simpl; rewrite ?lookup_delete_ne by done; try done;
      [naive_solver| | |set_solver].
    - intros r [Hr _]%map_lookup_filter_Some. rewrite Hji in Hr. by exists r.
    - intros (r & Hr & Hst). exists r. apply map_lookup_filter_Some. rewrite Hji.
      split; [done|]. simpl. destruct (inv_running _ _ _ _ Hinv r Hr Hst) as (_ & _ & Hf & _).
      unfold expired. by rewrite Hf. }
  unfold settle in Hse. case_bool_decide; simpl in Hse.
  2: { injection Hse as <- <-. apply (inv_frame id es s o _ _ []); try done; [naive_solver|eauto|].
       intros (r & -> & _). by eexists. }
  destruct (jobs s !! i) as [r|]; [case_bool_decide|].
  - eapply Hkeep; [right; by eexists| |by symmetry]. unfold outcomes. simpl.
    by rewrite bool_decide_eq_false_2.
  - apply (Hkeep (jobs s) []); [by left|done|by symmetry].
  - apply (Hkeep (jobs s) []); [by left|done|by symmetry].
Qed.

Lemma react_inv id es s o e s' o' :
  match e with Start i _ _ _ => ¬ started i es | _ => True end → react e s = (s', o') →
  job_inv id es s o → job_inv id (es ++ [e]) s' (o ++ o').
Proof.
  intros Hfresh Hre Hinv. destruct e as [i inst lbl now|i step|now i x|now i]; simpl in Hre.
  - unfold start in Hre. injection Hre as <- <-. destruct (decide (i = id)) as [->|Hne].
    + destruct Hinv as [I1 _ _ _ _]. destruct (I1 Hfresh) as (? & ? & ? & Ho).
      split; rewrite ?started_snoc, ?app_nil_r, ?Ho; simpl; rewrite ?lookup_insert_eq.
      * intros Hn. destruct Hn. right. by repeat eexists.
      * intros r [= <-] _. split_and!; [set_solver|done..].
      * split; [set_solver|by eexists].
      * intros _ Hall. by destruct (Hall _ eq_refl).
      * lia.
    + apply (inv_frame id es s o _ _ []); simpl; rewrite ?lookup_insert_ne by done; try done;
        [naive_solver|eauto| |set_solver]. intros (r & -> & _). by eexists.
  - unfold onProgress in Hre. destruct (labels s !! i); injection Hre as <- <-; apply (inv_frame id es s o _ _ _);
      simpl; try done; try naive_solver.
    + intros r. rewrite lookup_alter. case_decide; [|eauto]. subst.
      intros (r' & Hr' & ->)%fmap_Some. by exists r'.
    + intros (r & Hr & _). rewrite lookup_alter. case_decide; subst; rewrite Hr; by eexists.
  - destruct (decide (i = id)) as [->|Hne]; [|by apply (settle_other_inv id es s o now i x)].
    destruct (decide (id ∈ running s)) as [Hrun|Hrun]; [by apply (settle_own_inv id es s o now x)|].
    unfold settle in Hre. rewrite bool_decide_eq_false_2 in Hre by done. injection Hre as <- <-.
    apply (inv_frame id es s o _ _ []); try done; [naive_solver|eauto|].
    intros (r & -> & _). by eexists.
  - unfold cancel in Hre. destruct (jobs s !! i) as [r|] eqn:Hr; [case_bool_decide as Hst|];
      injection Hre as <- <-.
    2,3: apply (inv_frame id es s o _ _ []); try done; [naive_solver|eauto|];
      intros (r' & -> & _); by eexists.
    destruct (decide (i = id)) as [->|Hne].
    + destruct Hinv as [I1 I2 I3 I4 I5]. destruct (I2 r Hr Hst) as (Hin & Ho & _ & Hs).
      split; rewrite ?started_snoc, ?outcomes_app, ?Ho; simpl;
        rewrite ?lookup_insert_eq, ?lookup_alter_eq, ?Hs; try done.
      * intros Hn. destruct I1 as (? & ? & _); [tauto|done].
      * by intros r' [= <-].
      * simpl. lia.
    + apply (inv_frame id es s o _ _ _); simpl;
        rewrite ?lookup_insert_ne, ?lookup_alter_ne by done; try done; [naive_solver|eauto|].
      intros (r' & -> & _). by eexists.
Qed.

Lemma history_inv es s o : history es s o → ∀ id, job_inv id es s o.
Proof.
  induction 1 as [|es s o e s' o' _ IH Hfresh Hre]; intros id.
  - split; simpl; rewrite ?lookup_empty; try done. lia.
  - by apply (react_inv id es s o e).
Qed.

(** The fields a poller reads once a job has ended. *)
Definition result_of (r : JobRecord) := (status r, message r, createdResourceId r, finishedAt r).


Definition sample_events : list event :=
  [Start "j1" "px" "Clone" 1000; Progress "j1" "copying"; Cancel 2000 "j1";
   Settle 3000 "j1" (Resolved true (Some "Done") None)].
Definition replay (es : list event) : reply :=
  foldl (λ '(s, o) e, let '(s', o') := react e s in (s', o ++ o')) (State ∅ ∅ ∅ ∅, []) es.

