(* ===== verification/Secrets.v ===== *)
(** * The secrets vault

    [secrets/secrets.service.ts]: the one place where stored credentials are
    read and written, over the encryption of [common/crypto.service.ts].  Each
    value has a row with its ciphertext and a row with its management data.
    Times are milliseconds; dates of a form are read as such. *)
From S2P Require Import Prelude JsText Crypto.
From stdpp Require Import gmap strings pretty sorting options.

#[local] Open Scope Z_scope.
#[local] Set Default Proof Using "Type*".

(** ** Data *)

Record Secret := SecretRow { s_key : string; ciphertext : string; updatedAt : Z }.

Record SecretMeta := {
  m_key : string;
  label : string;
  description : option string;
  kind : string;
  category : string;
  owningConnectorId : option string;
  rotateAfterDays : option Z;
  expiresAt : option Z;
  lastUsedAt : option Z;
  rotatedAt : Z;
  createdAt : Z
}.

(** [SecretMetaInput]: a field left out is [undefined]; [null] clears. *)
Record MetaInput := {
  i_label : option string;
  i_description : option (option string);
  i_kind : option string;
  i_category : option string;
  i_rotateAfterDays : option (option Z);
  i_expiresAt : option (option Z)
}.

Record ActorCtx := Actor { actorId : option string; actorEmail : option string }.

Record state := State {
  secrets : list Secret;
  metas : list SecretMeta;
  digestCache : option (string * gmap string (list string))
}.

Abbreviation call := (svc state output http_error).

Definition with_metas (m : list SecretMeta) (s : state) : state :=
  State (secrets s) m (digestCache s).

Definition DAY_MS : Z := 24 * 60 * 60 * 1000.
Definition TOUCH_THROTTLE_MS : Z := 5 * 60 * 1000.
Definition EXPIRY_WARN_DAYS : Z := 14.

Definition is_secret (key : string) (r : Secret) : bool := bool_decide (s_key r = key).
Definition is_meta (key : string) (m : SecretMeta) : bool := bool_decide (m_key m = key).

(** ** Names *)

(** [.replace(/([a-z0-9])([A-Z])/g, '$1 $2')] *)
Fixpoint split_camel (l : list ascii) : list ascii :=
  match l with
  | [] => []
  | c :: l' =>
      if (is_lower c || is_digit c) && match l' with d :: _ => is_upper d | [] => false end
      then c :: " "%char :: split_camel l'
      else c :: split_camel l'
  end.

(** [.replace(/\s+/g, ' ')] *)
Fixpoint collapse_spaces (after_space : bool) (l : list ascii) : list ascii :=
  match l with
  | [] => []
  | c :: l' =>
      if is_space c then
        if after_space then collapse_spaces true l' else " "%char :: collapse_spaces true l'
      else c :: collapse_spaces false l'
  end.

Definition separator_to_space (c : ascii) : ascii :=
  if includes c ["."%char; ":"%char; "_"%char] then " "%char else c.

Definition capitalize (s : string) : string :=
  match s with String c s' => String (upper_char c) s' | EmptyString => "" end.

Definition humanize (key : string) : string :=
  capitalize (toLowerCase (trim (of_chars
    (collapse_spaces false (separator_to_space <$> split_camel (chars key)))))).

Record inferred := Inferred { in_label : string; in_category : string; in_owner : option string }.

(** [key.split(sep)[i]] *)
Definition part (sep : ascii) (i : nat) (key : string) : option string := JsText.split sep key !! i.

Definition inferMeta (key : string) : inferred :=
  if startsWith "connector:" key then
    Inferred (trim ("Connector " +:+ default "" (part ":"%char 1 key) +:+ " · " +:+
                    default "secret" (part ":"%char 2 key)))
      "connector" (part ":"%char 1 key)
  else if startsWith "fabric/" key then Inferred (humanize key) "fabric" None
  else if bool_decide (key = "smtp.password") then Inferred "SMTP password" "notification" None
  else if startsWith "notify." key then Inferred (humanize key) "notification" None
  else if bool_decide (key = "oauth:jwtSecret") then Inferred "OAuth signing key" "api" None
  else if bool_decide (key = "assistant.apiKey") then
    Inferred "Computer API key · default agent" "api" None
  else if bool_decide (key = "zuma.credential") then Inferred "Saviynt Zuma credential" "api" None
  else if startsWith "mcp." key then
    Inferred (trim ("MCP server credential · " +:+ default "" (part "."%char 1 key))) "api" None
  else if startsWith "assistant.agent." key then
    Inferred (trim ("Computer API key · agent " +:+ default "" (part "."%char 2 key))) "api" None
  else if startsWith "idp:" key then
    Inferred (trim ("SSO client secret · " +:+ default "" (part ":"%char 1 key))) "api" None
  else Inferred (humanize key) "manual" None.

(** ** Metadata writes *)

(** [cleanMeta], as the change it makes to a row. *)
Definition cleanMeta (p : MetaInput) (m : SecretMeta) : SecretMeta := {|
  m_key := m_key m;
  label := default (label m) (i_label p);
  description := default (description m) (i_description p);
  kind := default (kind m) (i_kind p);
  category := default (category m) (i_category p);
  owningConnectorId := owningConnectorId m;
  rotateAfterDays := default (rotateAfterDays m) (i_rotateAfterDays p);
  expiresAt := default (expiresAt m) (i_expiresAt p);
  lastUsedAt := lastUsedAt m;
  rotatedAt := rotatedAt m;
  createdAt := createdAt m
|}.
Definition no_meta : MetaInput := Build_MetaInput None None None None None None.

Definition set_rotated (now : Z) (m : SecretMeta) : SecretMeta :=
  Build_SecretMeta (m_key m) (label m) (description m) (kind m) (category m) (owningConnectorId m)
    (rotateAfterDays m) (expiresAt m) (lastUsedAt m) now (createdAt m).
Definition set_used (now : Z) (m : SecretMeta) : SecretMeta :=
  Build_SecretMeta (m_key m) (label m) (description m) (kind m) (category m) (owningConnectorId m)
    (rotateAfterDays m) (expiresAt m) (Some now) (rotatedAt m) (createdAt m).

(** The row created for a key, with the schema's defaults. *)
Definition fresh_meta (now : Z) (key : string) : SecretMeta := {|
  m_key := key;
  label := in_label (inferMeta key);
  description := None;
  kind := "generic";
  category := in_category (inferMeta key);
  owningConnectorId := in_owner (inferMeta key);
  rotateAfterDays := None;
  expiresAt := None;
  lastUsedAt := None;
  rotatedAt := now;
  createdAt := now
|}.

Definition attributed (ctx : ActorCtx) : bool := truthy (actorId ctx) || truthy (actorEmail ctx).

(** ** The service *)

Module SecretsService.
Section service.
Context `{Vault} (valueDigest : string → string).

(** [touch]: best effort, at most one stamp per throttle window. *)
Definition touch (now : Z) (key : string) : call unit :=
  modify (λ s, with_metas (updateMany
    (λ m, is_meta key m &&
          match lastUsedAt m with None => true | Some t => t <? now - TOUCH_THROTTLE_MS end)
    (set_used now) (metas s)) s).

Definition decrypt (payload : string) : call string :=
  or_throw (vault_decrypt payload) (Internal "The stored value cannot be decrypted.").

Definition reveal (now : Z) (key : string) : call (option string) :=
  s ← get;
  match findFirst (is_secret key) (secrets s) with
  | None => mret None
  | Some row =>
      value ← decrypt (ciphertext row);
      touch now key ;;
      mret (Some value)
  end.

Definition revealForActor (now : Z) (key : string) (ctx : ActorCtx) : call (option string) :=
  s ← get;
  match findFirst (is_secret key) (secrets s) with
  | None => mret None
  | Some row =>
      value ← decrypt (ciphertext row);
      touch now key ;;
      tell (OAudit (Audit (actorId ctx) (actorEmail ctx) "secret.revealed" (Some key))) ;;
      mret (Some value)
  end.

Definition has (key : string) (s : state) : bool :=
  bool_decide (is_Some (findFirst (is_secret key) (secrets s))).

(** [upsert] of the value row. *)
Definition upsert_secret (now : Z) (key cipher : string) (t : list Secret) : list Secret :=
  if bool_decide (is_Some (findFirst (is_secret key) t))
  then updateMany (is_secret key) (λ r, SecretRow (s_key r) cipher now) t
  else createRow (SecretRow key cipher now) t.

Definition set (now : Z) (iv key plaintext : string) (meta : MetaInput) (ctx : ActorCtx) : call unit :=
  s ← get;
  let cipher := vault_encrypt iv plaintext in
  let existing := findFirst (is_meta key) (metas s) in
  modify (λ s, State (upsert_secret now key cipher (secrets s))
    (match existing with
     | Some _ => updateMany (is_meta key) (λ m, cleanMeta meta (set_rotated now m)) (metas s)
     | None => createRow (set_rotated now (cleanMeta meta (fresh_meta now key))) (metas s)
     end) (digestCache s)) ;;
  when (attributed ctx)
    (tell (OAudit (Audit (actorId ctx) (actorEmail ctx)
      (if bool_decide (is_Some existing) then "secret.rotated" else "secret.created") (Some key)))).

Definition updateMeta (now : Z) (key : string) (meta : MetaInput) (ctx : ActorCtx) : call unit :=
  s ← get;
  if negb (has key s) then mret tt
  else
    modify (λ s, with_metas
      (match findFirst (is_meta key) (metas s) with
       | Some _ => updateMany (is_meta key) (cleanMeta meta) (metas s)
       | None => createRow (cleanMeta meta (fresh_meta now key)) (metas s)
       end) s) ;;
    when (attributed ctx)
      (tell (OAudit (Audit (actorId ctx) (actorEmail ctx) "secret.meta_updated" (Some key)))).

Definition remove (key : string) (ctx : ActorCtx) : call unit :=
  modify (λ s, State (deleteMany (is_secret key) (secrets s)) (deleteMany (is_meta key) (metas s))
                 (digestCache s)) ;;
  when (attributed ctx)
    (tell (OAudit (Audit (actorId ctx) (actorEmail ctx) "secret.deleted" (Some key)))).

Definition backfillMeta (now : Z) : call unit :=
  s ← get;
  let missing := findMany (λ r, negb (some (is_meta (s_key r)) (metas s))) (secrets s) in
  if bool_decide (missing = []) then mret tt
  else
    modify (λ s, with_metas (metas s ++ ((λ r, fresh_meta now (s_key r)) <$> missing)) s) ;;
    tell (OLog Info "secrets" ("Backfilled metadata for " +:+
      num_to_string (Z.of_nat (length missing)) +:+ " vault entries.")).

(** *** Digests of every value *)

Fixpoint max_updated (t : list Secret) : Z :=
  match t with
  | [] => 0
  | [r] => updatedAt r
  | r :: t' => Z.max (updatedAt r) (max_updated t')
  end.

Definition digest_token (t : list Secret) : string :=
  num_to_string (Z.of_nat (length t)) +:+ ":" +:+ num_to_string (max_updated t).

Definition digest_add (m : gmap string (list string)) (r : Secret) : gmap string (list string) :=
  match vault_decrypt (ciphertext r) with
  | None => m
  | Some value =>
      let digest := valueDigest value in
      match m !! digest with
      | Some keys => <[digest := keys ++ [s_key r]]> m
      | None => <[digest := [s_key r]]> m
      end
  end.
Definition digest_map (t : list Secret) : gmap string (list string) := foldl digest_add ∅ t.

(** The scan after the aggregate query gave [token]. *)
Definition digest_scan (token : string) : call (gmap string (list string)) :=
  s ← get;
  let hit := match digestCache s with
             | Some (t, map) => if bool_decide (t = token) then Some map else None
             | None => None
             end in
  match hit with
  | Some map => mret map
  | None =>
      let map := digest_map (secrets s) in
      put (State (secrets s) (metas s) (Some (token, map))) ;;
      mret map
  end.

Definition digestAll : call (gmap string (list string)) :=
  token ← gets (λ s, digest_token (secrets s));
  digest_scan token.

End service.

(** *** Health of an entry *)

Inductive SecretHealth := ok | due | expired.

#[export] Instance SecretHealth_eq_dec : EqDecision SecretHealth.
Proof. solve_decision. Defined.

Definition computeHealth (now ageDays : Z) (rotateAfter expires : option Z) : SecretHealth :=
  if match expires with Some e => e <=? now | None => false end then expired
  else if match rotateAfter with Some d => d <=? ageDays | None => false end then due
  else if match expires with Some e => e - now <=? EXPIRY_WARN_DAYS * DAY_MS | None => false end
  then due
  else ok.

Record SecretSummary := {
  su_key : string; su_label : string; su_description : option string; su_kind : string;
  su_category : string; su_owner : option string; su_rotateAfterDays : option Z;
  su_expiresAt : option Z; su_lastUsedAt : option Z; su_rotatedAt : Z; su_createdAt : Z;
  su_health : SecretHealth; su_ageDays : Z
}.

Definition toSummary (now : Z) (key : string) (meta : option SecretMeta) (fallbackTs : Z) : SecretSummary :=
  let i := inferMeta key in
  let rotated := from_option rotatedAt fallbackTs meta in
  let age := (now - rotated) / DAY_MS in
  {| su_key := key;
     su_label := from_option label (in_label i) meta;
     su_description := meta ≫= description;
     su_kind := from_option kind "generic" meta;
     su_category := from_option category (in_category i) meta;
     su_owner := match meta ≫= owningConnectorId with Some c => Some c | None => in_owner i end;
     su_rotateAfterDays := meta ≫= rotateAfterDays;
     su_expiresAt := meta ≫= expiresAt;
     su_lastUsedAt := meta ≫= lastUsedAt;
     su_rotatedAt := rotated;
     su_createdAt := from_option createdAt fallbackTs meta;
     su_health := computeHealth now age (meta ≫= rotateAfterDays) (meta ≫= expiresAt);
     su_ageDays := age |}.

End SecretsService.

Import SecretsService.

(** ** Requests *)

Definition next_metas (now : Z) (key : string) (meta : MetaInput) (t : list SecretMeta) : list SecretMeta :=
  match findFirst (is_meta key) t with
  | Some _ => updateMany (is_meta key) (λ m, cleanMeta meta (set_rotated now m)) t
  | None => createRow (set_rotated now (cleanMeta meta (fresh_meta now key))) t
  end.

Lemma upsert_keys now key c t :
  NoDup (s_key <$> t) →
  NoDup (s_key <$> upsert_secret now key c t) ∧
  ∀ k, k ∈ s_key <$> upsert_secret now key c t ↔ k = key ∨ k ∈ s_key <$> t.
Proof.
  intros Hn. unfold upsert_secret. case_bool_decide as Hs.
  - rewrite fmap_updateMany by done. split; [done|]. destruct Hs as [r Hr%find_Some_key].
    set_solver.
  - apply eq_None_not_Some, find_None_key in Hs. split; [by apply NoDup_createRow|].
    intros k. rewrite fmap_createRow, elem_of_app, list_elem_of_singleton. simpl. tauto.
Qed.

Lemma upsert_in now key c t r :
  r ∈ upsert_secret now key c t → r = SecretRow key c now ∨ s_key r ≠ key ∧ r ∈ t.
Proof.
  unfold upsert_secret. case_bool_decide as Hs.
  - intros (r0 & Hr & ->)%elem_of_updateMany. unfold is_secret.
    case_bool_decide as Hk; [left; by rewrite Hk|by right].
  - apply eq_None_not_Some in Hs. rewrite findFirst_None in Hs.
    intros [Hr| ->]%elem_of_createRow; [right|by left]. split; [|done].
    specialize (Hs r Hr). unfold is_secret in Hs. by case_bool_decide.
Qed.

Lemma next_metas_keys now key meta t :
  NoDup (m_key <$> t) →
  NoDup (m_key <$> next_metas now key meta t) ∧
  ∀ k, k ∈ m_key <$> next_metas now key meta t ↔ k = key ∨ k ∈ m_key <$> t.
Proof.
  intros Hn. unfold next_metas. destruct (findFirst _ _) eqn:Hs.
  - rewrite fmap_updateMany by done. split; [done|]. apply find_Some_key in Hs. set_solver.
  - apply find_None_key in Hs. split; [by apply NoDup_createRow|].
    intros k. rewrite fmap_createRow, elem_of_app, list_elem_of_singleton. simpl. tauto.
Qed.

Section vault.
Context `{Vault} (valueDigest : string → string).

Inductive request :=
| Set_ (now : Z) (iv key text : string) (meta : MetaInput) (ctx : ActorCtx)
| UpdateMeta (now : Z) (key : string) (meta : MetaInput) (ctx : ActorCtx)
| Remove (key : string) (ctx : ActorCtx)
| Reveal (now : Z) (key : string)
| RevealFor (now : Z) (key : string) (ctx : ActorCtx)
| Backfill (now : Z)
| Digest.

Definition serve1 (s : state) (r : request) : state :=
  match r with
  | Set_ now iv key text meta ctx => run_state (set now iv key text meta ctx) s
  | UpdateMeta now key meta ctx => run_state (updateMeta now key meta ctx) s
  | Remove key ctx => run_state (remove key ctx) s
  | Reveal now key => run_state (reveal now key) s
  | RevealFor now key ctx => run_state (revealForActor now key ctx) s
  | Backfill now => run_state (backfillMeta now) s
  | Digest => run_state (digestAll valueDigest) s
  end.
Definition serve (rs : list request) (s : state) : state := foldl serve1 s rs.

(** What each request leaves behind. *)

Lemma set_run now iv key text meta ctx s :
  run_state (set now iv key text meta ctx) s =
  State (upsert_secret now key (vault_encrypt iv text) (secrets s)) (next_metas now key meta (metas s))
    (digestCache s).
Proof. unfold set, run_state. svc_run. by destruct (attributed ctx). Qed.

Lemma remove_run key ctx s :
  run_state (remove key ctx) s =
  State (deleteMany (is_secret key) (secrets s)) (deleteMany (is_meta key) (metas s)) (digestCache s).
Proof. unfold remove, run_state. svc_run. by destruct (attributed ctx). Qed.

Lemma touch_run now key s :
  ∃ p, run_state (touch now key) s = with_metas (updateMany p (set_used now) (metas s)) s.
Proof. by eexists. Qed.

(** Reads change [lastUsedAt] at most. *)
Definition used_only (m m' : list SecretMeta) : Prop :=
  m' = m ∨ ∃ p now, m' = updateMany p (set_used now) m.

Lemma reveal_run now key s :
  ∃ m', run_state (reveal now key) s = with_metas m' s ∧ used_only (metas s) m'.
Proof.
  unfold reveal, run_state. svc_run. destruct (findFirst _ _); [|by exists (metas s); destruct s; split; [|left]].
  unfold decrypt. svc_run. destruct (vault_decrypt _); [|by exists (metas s); destruct s; split; [|left]].
  unfold touch. svc_run. eexists. split; [done|]. right. by eexists _, _.
Qed.

Lemma revealForActor_run now key ctx s :
  ∃ m', run_state (revealForActor now key ctx) s = with_metas m' s ∧ used_only (metas s) m'.
Proof.
  unfold revealForActor, run_state. svc_run.
  destruct (findFirst _ _); [|by exists (metas s); destruct s; split; [|left]].
  unfold decrypt. svc_run. destruct (vault_decrypt _); [|by exists (metas s); destruct s; split; [|left]].
  unfold touch. svc_run. eexists. split; [done|]. right. by eexists _, _.
Qed.

Lemma digestAll_run s :
  ∃ c, run_state (digestAll valueDigest) s = State (secrets s) (metas s) c ∧
    (c = digestCache s ∨ c = Some (digest_token (secrets s), digest_map valueDigest (secrets s))).
Proof.
  unfold digestAll, digest_scan, run_state. svc_run.
  destruct s as [t m [[tok map]|]]; simpl; [case_bool_decide|]; eexists; (split; [done|]); auto.
Qed.

(** *** Metadata *)

Definition unique (s : state) : Prop := NoDup (s_key <$> secrets s) ∧ NoDup (m_key <$> metas s).
Definition covered (s : state) : Prop := ∀ r, r ∈ secrets s → s_key r ∈ m_key <$> metas s.

Definition well_formed (s : state) : Prop := unique s ∧ covered s.

Lemma used_only_keys m m' : used_only m m' → m_key <$> m' = m_key <$> m.
Proof. intros [->|(p & now & ->)]; [done|]. by rewrite fmap_updateMany. Qed.

Lemma well_formed_metas m s :
  m_key <$> m = m_key <$> metas s → well_formed s → well_formed (with_metas m s).
Proof. intros Hk [[Hu1 Hu2] Hc]. split; [split|]; simpl; [done|by rewrite Hk|]. intros r. simpl. rewrite Hk. apply Hc. Qed.

Definition patched_metas (now : Z) (key : string) (meta : MetaInput) (t : list SecretMeta) : list SecretMeta :=
  match findFirst (is_meta key) t with
  | Some _ => updateMany (is_meta key) (cleanMeta meta) t
  | None => createRow (cleanMeta meta (fresh_meta now key)) t
  end.

Lemma updateMeta_run now key meta ctx s :
  run_state (updateMeta now key meta ctx) s =
  if has key s then with_metas (patched_metas now key meta (metas s)) s else s.
Proof.
  unfold updateMeta, run_state. svc_run. destruct (has key s); [|done]. svc_run.
  by destruct (attributed ctx).
Qed.

Lemma patched_metas_keys now key meta t :
  NoDup (m_key <$> t) →
  NoDup (m_key <$> patched_metas now key meta t) ∧
  ∀ k, k ∈ m_key <$> t → k ∈ m_key <$> patched_metas now key meta t.
Proof.
  intros Hn. unfold patched_metas. destruct (findFirst _ _) eqn:Hs.
  - by rewrite fmap_updateMany.
  - apply find_None_key in Hs. split; [by apply NoDup_createRow|].
    intros k Hk. rewrite fmap_createRow, elem_of_app. by left.
Qed.

(** Rows the backfill finds without management data. *)
Definition missing_metas (s : state) : list Secret :=
  findMany (λ r, negb (some (is_meta (s_key r)) (metas s))) (secrets s).

Lemma backfill_run now s :
  run_state (backfillMeta now) s =
  with_metas (metas s ++ ((λ r, fresh_meta now (s_key r)) <$> missing_metas s)) s.
Proof.
  unfold backfillMeta, run_state. svc_run. fold (missing_metas s). case_bool_decide as Hm; [|done].
  rewrite Hm. simpl. rewrite app_nil_r. by destruct s.
Qed.

Lemma has_meta_key k t : some (is_meta k) t = true ↔ k ∈ m_key <$> t.
Proof.
  rewrite some_true, list_elem_of_fmap. unfold is_meta.
  split; intros (m & H1 & H2); exists m; [apply bool_decide_eq_true in H2|rewrite bool_decide_eq_true]; auto.
Qed.

Lemma backfill_well_formed now s : unique s → well_formed (run_state (backfillMeta now) s).
Proof.
  intros [Hu1 Hu2]. rewrite backfill_run.
  assert (Hk : m_key <$> ((λ r, fresh_meta now (s_key r)) <$> missing_metas s) =
               s_key <$> missing_metas s) by by rewrite <-list_fmap_compose.
  split; [split|]; simpl; [done| |].
  - rewrite fmap_app, Hk. apply NoDup_app. split_and!; [done| |].
    + intros k Hm%has_meta_key (r & -> & [Hn _]%elem_of_findMany)%list_elem_of_fmap. by rewrite Hm in Hn.
    + eapply sublist_NoDup; [exact Hu1|]. apply fmap_sublist, sublist_filter.
  - intros r Hr. simpl in *. rewrite fmap_app, Hk, elem_of_app, <-has_meta_key.
    destruct (some _ _) eqn:Hs; [by left|]. right.
    apply list_elem_of_fmap_2, elem_of_findMany. by rewrite Hs.
Qed.

(** Every value has exactly one row of management data and keeps it. *)
Lemma serve1_well_formed r s : well_formed s → well_formed (serve1 s r).
Proof.
  intros Hw. pose proof Hw as [[Hu1 Hu2] Hc].
  destruct r as [now iv key text meta ctx|now key meta ctx|key ctx|now key|now key ctx|now|]; simpl.
  - rewrite set_run. destruct (upsert_keys now key (vault_encrypt iv text) _ Hu1) as [Ha Ha'].
    destruct (next_metas_keys now key meta _ Hu2) as [Hb Hb']. split; [by split|].
    intros r Hr%(list_elem_of_fmap_2 s_key). simpl in *. rewrite Ha' in Hr. rewrite Hb'.
    destruct Hr as [->|(r0 & -> & Hr)%list_elem_of_fmap]; [by left|]. right. by apply Hc.
  - rewrite updateMeta_run. destruct (has key s); [|done].
    destruct (patched_metas_keys now key meta _ Hu2) as [Ha Ha'].
    split; [by split|]. intros r Hr. by apply Ha', Hc.
  - rewrite remove_run. split; [split; by apply NoDup_deleteMany|].
    intros r [Hr Hin]%elem_of_deleteMany. simpl.
    pose proof (Hc r Hin) as (m & Hm & Hm')%list_elem_of_fmap. rewrite Hm.
    apply list_elem_of_fmap_2, elem_of_deleteMany. split; [|done].
    unfold is_secret, is_meta in *. by rewrite <-Hm.
  - destruct (reveal_run now key s) as (m & -> & Hm%used_only_keys). by apply well_formed_metas.
  - destruct (revealForActor_run now key ctx s) as (m & -> & Hm%used_only_keys). by apply well_formed_metas.
  - by apply backfill_well_formed.
  - destruct (digestAll_run s) as (c & -> & _). done.
Qed.

(** management data is complete.  Starting the service gives every stored
    value exactly one row of management data, whatever the tables held (keys
    are unique columns), and no sequence of writes, metadata edits, removals,
    reads, scans and restarts leaves a value without its row, a key with two
    rows, or two values under one key. *)
Theorem metadata_complete (s : state) :
  (unique s → ∀ now, well_formed (serve [Backfill now] s)) ∧
  (well_formed s → ∀ rs, well_formed (serve rs s)).
Proof.
  split.
  - intros Hu now. by apply backfill_well_formed.
  - intros Hw rs. revert s Hw. induction rs as [|r rs IH]; intros s Hw; [done|].
    by apply IH, serve1_well_formed.
Qed.

(** *** Digests *)

Lemma max_updated_ge t r : r ∈ t → updatedAt r ≤ max_updated t.
Proof.
  induction t as [|x t IH]; [by intros ?%elem_of_nil|]. intros [->|Hr]%elem_of_cons.
  - destruct t; simpl; lia.
  - specialize (IH Hr). destruct t; [by apply elem_of_nil in Hr|]. simpl in *. lia.
Qed.

Lemma max_updated_in t : t ≠ [] → ∃ r, r ∈ t ∧ updatedAt r = max_updated t.
Proof.
  induction t as [|x t IH]; [done|]. intros _. destruct t as [|y t]; [exists x; split; [left|done]|].
  destruct IH as (r & Hr & He); [done|].
  destruct (decide (updatedAt x ≤ max_updated (y :: t))).
  - exists r. split; [by right|]. cbn [max_updated] in *. lia.
  - exists x. split; [left|]. cbn [max_updated] in *. lia.
Qed.

Lemma digest_token_inj t1 t2 :
  digest_token t1 = digest_token t2 → length t1 = length t2 ∧ max_updated t1 = max_updated t2.
Proof.
  assert (Hs : ∀ a b, JsText.split ":"%char (num_to_string a +:+ ":" +:+ num_to_string b) =
    [num_to_string a; num_to_string b]).
  { intros a b. change (":" +:+ num_to_string b) with (String ":"%char (num_to_string b)).
    rewrite split_app, split_no_sep; [done|..]; intros Hc; by destruct (number_chars _ _ Hc). }
  unfold digest_token. intros He%(f_equal (JsText.split ":"%char)). rewrite !Hs in He.
  injection He as H1 H2. apply num_to_string_inj in H1, H2. lia.
Qed.

(** The rows of [t] written no later than some row of [t0]. *)
Definition older (t0 : list Secret) (r : Secret) : bool :=
  some (λ r0, updatedAt r <=? updatedAt r0) t0.

Lemma upsert_older now key c t t0 :
  (∀ r, r ∈ t0 → updatedAt r < now) →
  findMany (older t0) (upsert_secret now key c t) `sublist_of` findMany (older t0) t.
Proof.
  intros Ht. assert (Hn : ∀ k, older t0 (SecretRow k c now) = false).
  { intros k. apply some_false. intros r Hr%Ht. simpl. lia. }
  unfold upsert_secret. case_bool_decide; [apply findMany_updated; intros r; apply Hn|].
  unfold createRow, findMany. rewrite filter_app, filter_cons_False by by rewrite Hn.
  by rewrite app_nil_r.
Qed.

(** A table with the stamp of an earlier one is that table, if everything
    written since has a later time. *)
Lemma same_token t0 t :
  digest_token t0 = digest_token t → findMany (older t0) t `sublist_of` t0 → t = t0.
Proof.
  intros [Hl Hm]%digest_token_inj Hs.
  assert (Hall : findMany (older t0) t = t).
  { apply findMany_all. intros r Hr. apply some_true.
    destruct t0 as [|x t0]; [by destruct t; [apply elem_of_nil in Hr|]|].
    destruct (max_updated_in (x :: t0)) as (r0 & Hr0 & He); [done|].
    exists r0. split; [done|]. apply Z.leb_le. rewrite He, Hm. by apply max_updated_ge. }
  rewrite Hall in Hs. by apply sublist_same_length.
Qed.

(** What the vault does between two scans: writes carry later and later times;
    the process may restart. *)
Definition write_time (r : request) : option Z :=
  match r with Set_ now _ _ _ _ _ => Some now | _ => None end.

Inductive history : Z → state → Prop :=
| started c t m : (∀ r, r ∈ t → updatedAt r ≤ c) → history c (State t m None)
| served c s r :
    history c s → from_option (λ now, c < now) True (write_time r) →
    history (default c (write_time r)) (serve1 s r).

Definition cached (c : Z) (s : state) : Prop :=
  (∀ r, r ∈ secrets s → updatedAt r ≤ c) ∧
  match digestCache s with
  | None => True
  | Some (token, map) => ∃ t0,
      token = digest_token t0 ∧ map = digest_map valueDigest t0 ∧
      (∀ r, r ∈ t0 → updatedAt r ≤ c) ∧ findMany (older t0) (secrets s) `sublist_of` t0
  end.

Lemma cached_metas c s s' :
  secrets s' = secrets s → digestCache s' = digestCache s → cached c s → cached c s'.
Proof. unfold cached. by intros -> ->. Qed.

Lemma history_cached c s : history c s → cached c s.
Proof.
  induction 1 as [c t m Ht|c s r Hh [Hc Hd] Hw]; [by split|].
  destruct r as [now iv key text meta ctx|now key meta ctx|key ctx|now key|now key ctx|now|];
    cbn [write_time default from_option serve1] in *; unfold id.
  - rewrite set_run. split.
    + intros r [->|[_ Hr]]%upsert_in; simpl; [lia|]. specialize (Hc r Hr). lia.
    + simpl. destruct (digestCache s) as [[tok map]|]; [|done].
      destruct Hd as (t0 & Ht & Hm & Hle & Hs). exists t0. split_and!; [done..| |].
      * intros r Hr%Hle. lia.
      * etrans; [apply upsert_older; intros r Hr%Hle; lia | done].
  - rewrite updateMeta_run. destruct (has key s); by apply (cached_metas c s).
  - rewrite remove_run. split.
    + intros r [_ Hr]%elem_of_deleteMany. by apply Hc.
    + simpl. destruct (digestCache s) as [[tok map]|]; [|done].
      destruct Hd as (t0 & Ht & Hm & Hle & Hs). exists t0. split_and!; [done..|].
      etrans; [|exact Hs]. apply sublist_findMany, sublist_filter.
  - destruct (reveal_run now key s) as (m & -> & _). by apply (cached_metas c s).
  - destruct (revealForActor_run now key ctx s) as (m & -> & _). by apply (cached_metas c s).
  - rewrite backfill_run. by apply (cached_metas c s).
  - destruct (digestAll_run s) as (x & -> & [->| ->]); [by split|]. split; [done|].
    simpl. exists (secrets s). split_and!; [done..|]. apply sublist_filter.
Qed.

(** The keys filed under a digest are those whose value has it. *)
Definition holds_digest (d k : string) (r : Secret) : Prop :=
  s_key r = k ∧ ∃ v, vault_decrypt (ciphertext r) = Some v ∧ valueDigest v = d.

Lemma digest_map_app t r : digest_map valueDigest (t ++ [r]) = digest_add valueDigest (digest_map valueDigest t) r.
Proof. unfold digest_map. by rewrite foldl_app. Qed.

Lemma digest_map_spec t d k :
  (∃ keys, digest_map valueDigest t !! d = Some keys ∧ k ∈ keys) ↔ ∃ r, r ∈ t ∧ holds_digest d k r.
Proof.
  induction t as [|r t IH] using rev_ind.
  { split; [intros (? & Hk & _); unfold digest_map in Hk; simpl in Hk; by rewrite lookup_empty in Hk|].
    by intros (? & ?%elem_of_nil & _). }
  rewrite digest_map_app. unfold digest_add. set (m := digest_map valueDigest t) in *.
  setoid_rewrite elem_of_app. setoid_rewrite list_elem_of_singleton.
  destruct (vault_decrypt (ciphertext r)) as [v|] eqn:Hv.
  2: { rewrite IH. split; [naive_solver|]. intros (x & [Hx| ->] & Hh); [eauto|].
       destruct Hh as (_ & v & He & _). congruence. }
  destruct (decide (valueDigest v = d)) as [<-|Hne].
  - destruct (m !! valueDigest v) as [ks|] eqn:Hm; setoid_rewrite lookup_insert_eq.
    + split.
      * intros (? & [= <-] & [Hk|Hk%list_elem_of_singleton]%elem_of_app).
        -- destruct IH as [IH _]. destruct IH as (x & Hx & Hh); eauto.
        -- exists r. subst. split; [by right|]. split; eauto.
      * intros (x & [Hx| ->] & Hh); eexists; (split; [done|]); rewrite elem_of_app.
        -- left. destruct IH as [_ IH]. destruct IH as (ks' & Hk' & Hin); [eauto|]. congruence.
        -- right. destruct Hh as [<- _]. left.
    + split.
      * intros (? & [= <-] & Hk%list_elem_of_singleton). exists r. subst. split; [by right|]. split; eauto.
      * intros (x & [Hx| ->] & Hh).
        -- destruct IH as [_ IH]. destruct IH as (ks' & Hk' & Hin); [eauto|]. congruence.
        -- exists [s_key r]. split; [done|]. destruct Hh as [<- _]. left.
  - transitivity (∃ keys, m !! d = Some keys ∧ k ∈ keys).
    { destruct (m !! valueDigest v) eqn:Hm; by setoid_rewrite lookup_insert_ne. }
    rewrite IH. split; [naive_solver|]. intros (x & [Hx| ->] & Hh); [eauto|].
    destruct Hh as (_ & w & He & Hd). congruence.
Qed.

(** A scan, after any history of writes, gives the digests of the rows as they are. *)
Lemma digestAll_current c s :
  history c s →
  ∃ s', digestAll valueDigest s = (Ok (digest_map valueDigest (secrets s)), s', []) ∧
    secrets s' = secrets s ∧ metas s' = metas s.
Proof.
  intros [_ Hc]%history_cached. unfold digestAll, digest_scan. svc_run. simpl.
  destruct (digestCache s) as [[tok map]|]; [case_bool_decide as Ht|]; [|by eexists..].
  exists s. destruct Hc as (t0 & -> & -> & _ & Hs). by rewrite (same_token t0 (secrets s)).
Qed.

(** the cached digests never lie.  The scan keeps its result under a stamp
    made of the row count and the newest write time.  As long as every write
    carries a later time than the ones before it, whatever was stored, removed,
    revealed or scanned in between, [digestAll] lists under a digest exactly
    the keys whose present value has it; it changes no row and stamps no use. *)
Theorem digests_are_current (c : Z) (s : state) (d k : string) :
  history c s →
  ∃ map s', digestAll valueDigest s = (Ok map, s', []) ∧
    secrets s' = secrets s ∧ metas s' = metas s ∧
    ((∃ keys, map !! d = Some keys ∧ k ∈ keys) ↔ ∃ r, r ∈ secrets s ∧ holds_digest d k r).
Proof.
  intros (s' & Hr & Hs & Hm)%digestAll_current. setoid_rewrite <-digest_map_spec.
  by exists (digest_map valueDigest (secrets s)), s'.
Qed.

(** *** Values *)

Lemma findFirst_upsert_secret now key c t k :
  findFirst (is_secret k) (upsert_secret now key c t) =
  if bool_decide (k = key) then Some (SecretRow key c now) else findFirst (is_secret k) t.
Proof.
  unfold upsert_secret. destruct (bool_decide (k = key)) eqn:Hk.
  - apply bool_decide_eq_true in Hk as ->. case_bool_decide as Hs.
    + rewrite findFirst_updateMany by done. destruct Hs as [r Hr]. rewrite Hr. simpl.
      apply findFirst_Some in Hr as [_ Hr]. rewrite Hr. by apply bool_decide_eq_true in Hr as ->.
    + apply eq_None_not_Some in Hs. rewrite findFirst_createRow; [done..|].
      unfold is_secret. by rewrite bool_decide_eq_true.
  - apply bool_decide_eq_false in Hk. case_bool_decide.
    + rewrite findFirst_updateMany by done. destruct (findFirst (is_secret k) t) as [r|] eqn:Hf; [|done].
      apply findFirst_Some in Hf as [_ Hr%bool_decide_eq_true]. simpl. unfold is_secret.
      by rewrite bool_decide_eq_false_2 by congruence.
    + unfold createRow. rewrite findFirst_app. destruct (findFirst (is_secret k) t); [done|].
      unfold findFirst, is_secret. rewrite filter_cons_False; [done|]. simpl.
      by rewrite bool_decide_eq_true.
Qed.

Lemma findFirst_deleteMany_secret key t k :
  findFirst (is_secret k) (deleteMany (is_secret key) t) =
  if bool_decide (k = key) then None else findFirst (is_secret k) t.
Proof.
  case_bool_decide as Hk.
  - subst. apply findFirst_None. by intros r [? _]%elem_of_deleteMany.
  - unfold findFirst, deleteMany. f_equal. induction t as [|r t IH]; [done|].
    rewrite (filter_cons (λ r, is_secret key r = false)). case_decide as Hd.
    + rewrite !filter_cons, IH. done.
    + rewrite IH, filter_cons_False; [done|]. unfold is_secret in *.
      apply not_false_iff_true, bool_decide_eq_true in Hd. rewrite bool_decide_eq_true. congruence.
Qed.

(** What a read answers, as a function of the rows. *)
Definition value_of (key : string) (s : state) : result http_error (option string) :=
  match findFirst (is_secret key) (secrets s) with
  | None => Ok None
  | Some row =>
      match vault_decrypt (ciphertext row) with
      | Some v => Ok (Some v)
      | None => Err (Internal "The stored value cannot be decrypted.")
      end
  end.

Lemma reveal_value now key s :
  run_result (reveal now key) s = value_of key s ∧ run_out (reveal now key) s = [].
Proof.
  unfold reveal, value_of, run_result, run_out. svc_run. destruct (findFirst _ _); [|done].
  unfold decrypt. svc_run. by destruct (vault_decrypt _).
Qed.

Lemma value_of_set now iv key text meta ctx s k :
  value_of k (run_state (set now iv key text meta ctx) s) =
  if bool_decide (k = key) then
    match vault_decrypt (vault_encrypt iv text) with
    | Some v => Ok (Some v)
    | None => Err (Internal "The stored value cannot be decrypted.")
    end
  else value_of k s.
Proof. rewrite set_run. unfold value_of. simpl. rewrite findFirst_upsert_secret. by case_bool_decide. Qed.

Lemma value_of_remove key ctx s k :
  value_of k (run_state (remove key ctx) s) = if bool_decide (k = key) then Ok None else value_of k s.
Proof. rewrite remove_run. unfold value_of. simpl. rewrite findFirst_deleteMany_secret. by case_bool_decide. Qed.

Lemma value_of_reveal now key s k : value_of k (run_state (reveal now key) s) = value_of k s.
Proof. by destruct (reveal_run now key s) as (m & -> & _). Qed.

Lemma findFirst_meta_set now iv key text meta ctx s m :
  findFirst (is_meta key) (metas s) = Some m →
  findFirst (is_meta key) (metas (run_state (set now iv key text meta ctx) s)) =
  Some (cleanMeta meta (set_rotated now m)).
Proof.
  intros Hm. rewrite set_run. simpl. unfold next_metas. rewrite Hm, findFirst_updateMany by done.
  rewrite Hm. simpl. apply findFirst_Some in Hm as [_ ->]. done.
Qed.

(** *** Health *)

Definition rank (h : SecretHealth) : Z := match h with ok => 0 | due => 1 | expired => 2 end.

(** how an entry's health moves.  It is [expired] exactly from its expiry
    date on; otherwise [due] exactly when its value is at least as many whole
    days old as its rotation policy allows, or its expiry is at most fourteen
    days away; and while nobody edits the entry it only ever gets worse. *)
Theorem health_only_worsens (now later fallback : Z) (key : string) (m : option SecretMeta) :
  let su := toSummary now key m fallback in
  let su' := toSummary later key m fallback in
  (su_health su = expired ↔ ∃ e, su_expiresAt su = Some e ∧ e ≤ now) ∧
  (su_health su = due ↔
     su_health su ≠ expired ∧
     ((∃ d, su_rotateAfterDays su = Some d ∧ su_rotatedAt su + d * DAY_MS ≤ now) ∨
      (∃ e, su_expiresAt su = Some e ∧ e ≤ now + 14 * DAY_MS))) ∧
  (now ≤ later → rank (su_health su) ≤ rank (su_health su')).
Proof.
  unfold toSummary. simpl. unfold computeHealth, EXPIRY_WARN_DAYS, DAY_MS.
  set (r := from_option rotatedAt fallback m). set (D := 24 * 60 * 60 * 1000).
  assert (Hd : ∀ d t, d ≤ (t - r) / D ↔ r + d * D ≤ t).
  { intros d t. subst D. split; intros; [|apply Z.div_le_lower_bound; lia].
    pose proof (Z.mul_div_le (t - r) (24 * 60 * 60 * 1000)). nia. }
  destruct (m ≫= expiresAt) as [e|], (m ≫= rotateAfterDays) as [d|];
    repeat match goal with |- context [?a <=? ?b] => destruct (Z.leb_spec a b) end; simpl;
    try specialize (Hd d now) as Hn; try specialize (Hd d later) as Hl; subst D;
    (split_and!; [split; [intros|intros (? & [= <-] & ?)]|split; [intros|intros (? & [(? & [= <-] & ?)|(? & [= <-] & ?)])]|intros]);
    try done; try lia.
  all: try (eexists; split; [done|lia]).
  all: try (split; [done|]; first [by left; eexists; split; [done|lia] | by right; eexists; split; [done|lia]]).
Qed.
End vault.

(** ** The store as other services see it *)

(** A store of named secrets: what a read answers is [peek], reads change no
    answer, a write or a removal changes the answer for its key only. *)
Class SecretStore (S : Type) := {
  store_reveal : Z → string → svc S output http_error (option string);
  store_set : Z → string → string → string → MetaInput → ActorCtx → svc S output http_error unit;
  store_remove : string → ActorCtx → svc S output http_error unit;
  peek : string → S → result http_error (option string)
}.

Class SecretStoreLaws (S : Type) `{SecretStore S} : Prop := {
  reveal_result now k s : run_result (store_reveal now k) s = peek k s;
  reveal_peek now k s k' : peek k' (run_state (store_reveal now k) s) = peek k' s;
  set_result now iv k text m ctx s : run_result (store_set now iv k text m ctx) s = Ok tt;
  set_peek now iv k text m ctx s : text ≠ "" → peek k (run_state (store_set now iv k text m ctx) s) = Ok (Some text);
  set_peek_ne now iv k text m ctx s k' :
    k' ≠ k → peek k' (run_state (store_set now iv k text m ctx) s) = peek k' s;
  remove_result k ctx s : run_result (store_remove k ctx) s = Ok tt;
  remove_peek k ctx s : peek k (run_state (store_remove k ctx) s) = Ok None;
  remove_peek_ne k ctx s k' : k' ≠ k → peek k' (run_state (store_remove k ctx) s) = peek k' s;
  remove_out k ctx s : Forall (λ o, ∃ a, o = OAudit a) (run_out (store_remove k ctx) s)
}.

#[export] Instance secrets_store `{Vault} : SecretStore state := {|
  store_reveal := reveal; store_set := set; store_remove := remove; peek := value_of
|}.

Section roundtrip.
Context `{VaultLaws}.

#[export] Instance secrets_store_laws : SecretStoreLaws state.
Proof.
  split; intros; simpl in *.
  - apply reveal_value.
  - apply value_of_reveal.
  - unfold set, run_result. svc_run. by destruct (attributed ctx).
  - rewrite value_of_set, bool_decide_eq_true_2, vault_decrypt_encrypt by done. done.
  - by rewrite value_of_set, bool_decide_eq_false_2.
  - unfold remove, run_result. svc_run. by destruct (attributed ctx).
  - by rewrite value_of_remove, bool_decide_eq_true_2.
  - by rewrite value_of_remove, bool_decide_eq_false_2.
  - revert s. change (emits (λ o, ∃ a, o = OAudit a) (remove k ctx)). unfold remove. emits. by eexists.
Qed.

End roundtrip.

(** ** A concrete vault *)

Section example.

#[local] Instance plain_vault : Vault := {|
  vault_encrypt := λ _ text, String "e" text;
  vault_decrypt := λ payload, match payload with String "e" t => Some t | _ => None end
|}.
#[local] Instance plain_vault_laws : VaultLaws.
Proof. by split. Qed.

Definition admin : ActorCtx := Actor (Some "u1") (Some "admin@example.org").
Definition after_smtp : state :=
  serve (λ v, v) [Set_ 1000 "n" "smtp.password" "hunter2" no_meta admin; Digest] (State [] [] None).

Lemma after_smtp_history : history (λ v, v) 1000 after_smtp.
Proof.
  unfold after_smtp, serve. cbn [foldl].
  apply (served (λ v, v) 1000 _ Digest); [|exact I].
  apply (served (λ v, v) 0 _ (Set_ 1000 "n" "smtp.password" "hunter2" no_meta admin)); [|reflexivity].
  apply started. by intros r ?%elem_of_nil.
Qed.

Lemma digests_are_current_witness :
  history (λ v, v) 1000 after_smtp ∧
  ∃ map s', digestAll (λ v, v) after_smtp = (Ok map, s', []) ∧ secrets s' = secrets after_smtp ∧
    metas s' = metas after_smtp ∧
    ((∃ keys, map !! "hunter2" = Some keys ∧ "smtp.password" ∈ keys) ↔
     ∃ r, r ∈ secrets after_smtp ∧ holds_digest (λ v, v) "hunter2" "smtp.password" r).
Proof.
  split; [apply after_smtp_history|].
  exact (digests_are_current (λ v, v) 1000 after_smtp "hunter2" "smtp.password" after_smtp_history).
Defined.


(** The stamp is read before the rows: a value stored between the two and
    removed afterwards stays listed, since its removal restores the stamp. *)
Lemma removed_value_stays_listed :
  let s0 := State [SecretRow "a" "e1" 10] [] None in
  let token := run_result (gets (λ s, digest_token (secrets s)) : call string) s0 in
  let s1 := run_state (set 20 "n" "b" "2" no_meta admin) s0 in
  let s2 := run_state (digest_scan (λ v, v) (digest_token (secrets s0))) s1 in
  let s3 := run_state (remove "b" admin) s2 in
  token = Ok (digest_token (secrets s0)) ∧
  (λ map : gmap string (list string), map !! "2") <$> (match run_result (digestAll (λ v, v)) s3 with Ok m => Some m | _ => None end)
    = Some (Some ["b"]) ∧
  value_of "b" s3 = Ok None.
Proof. vm_compute. done. Qed.
End example.
