(* ===== verification/ComposeOverride.v ===== *)
(** * Mounts and the compose override

    [app-replicator/compose-override.ts]: the edge that validates the volume
    mounts an operator adds to a deployment, and the override file written for
    them. *)
From S2P Require Import Prelude JsText.
From stdpp Require Import gmap strings options.

#[local] Set Default Proof Using "Type*".

(** ** Data *)

Inductive mount_type := Bind | Volume.

#[export] Instance mount_type_eq_dec : EqDecision mount_type.
Proof. solve_decision. Defined.

Definition type_text (t : mount_type) : string := match t with Bind => "bind" | Volume => "volume" end.

Record ReplicatorMount := Mount {
  service : string;
  type_ : mount_type;
  source : string;
  target : string;
  readOnly : bool
}.

#[export] Instance mount_eq_dec : EqDecision ReplicatorMount.
Proof. solve_decision. Defined.

(** ** Validation *)

Definition DENIED_SOURCE_PREFIXES : list string :=
  ["/proc"; "/sys"; "/dev"; "/boot"; "/etc"; "/root"; "/run"; "/var/run"; "/var/lib/docker"].
Definition DENIED_SOURCE_EXACT : list string := ["/"; "/var/run/docker.sock"; "/run/docker.sock"].

Definition alnum (c : ascii) : bool := is_lower c || is_upper c || is_digit c.

(** [VOLUME_NAME_RE] *)
Definition volume_name (s : string) : bool :=
  match chars s with
  | c :: l => alnum c && every (λ c, alnum c || includes c ["_"%char; "."%char; "-"%char]) l
  | [] => false
  end.

Definition isAbsolute (p : string) : bool := startsWith "/" p.
Definition hasTraversal (p : string) : bool :=
  some (λ seg, bool_decide (seg = "..")) (JsText.split "/"%char p).
Definition underDenied (path denied : string) : bool :=
  bool_decide (path = denied) || startsWith (denied +:+ "/") path.

(** [String(raw?.k ?? '').trim()] *)
Definition field_text (k : string) (raw : json) : string :=
  trim (js_String (default (JStr "") (nullish (json_field k raw)))).

Definition entry_type (raw : json) : mount_type :=
  match json_field "type" raw with
  | Some (JStr "volume") => Volume
  | _ => Bind
  end.

Definition denied_source (p : string) : bool :=
  includes p DENIED_SOURCE_EXACT || some (underDenied p) DENIED_SOURCE_PREFIXES.

(** One entry, up to the look for a duplicate. *)
Definition check_mount (knownServices : list string) (raw : json) : result http_error ReplicatorMount :=
  let svc := field_text "service" raw in
  let ty := entry_type raw in
  let src := field_text "source" raw in
  let tgt := field_text "target" raw in
  if bool_decide (svc = "") then Err (BadRequest "Every mount needs a service.")
  else if negb (bool_decide (knownServices = [])) && negb (includes svc knownServices) then
    Err (BadRequest (quoted svc +:+ " isn't a service in this app's compose. Pick one of: " +:+
      JsText.join ", " knownServices +:+ "."))
  else if bool_decide (src = "") then
    Err (BadRequest ("The " +:+ (if bool_decide (ty = Bind) then "host path" else "volume name") +:+
      " is required for the mount on " +:+ svc +:+ "."))
  else if bool_decide (tgt = "") then
    Err (BadRequest ("The container path is required for the mount on " +:+ svc +:+ "."))
  else if negb (isAbsolute tgt) || hasTraversal tgt then
    Err (BadRequest ("The container path " +:+ quoted tgt +:+ " must be an absolute path with no " +:+
      quoted ".." +:+ "."))
  else if bool_decide (ty = Bind) && (negb (isAbsolute src) || hasTraversal src) then
    Err (BadRequest ("The host path " +:+ quoted src +:+ " must be an absolute path with no " +:+
      quoted ".." +:+ "."))
  else if bool_decide (ty = Bind) && denied_source src then
    Err (BadRequest (quoted src +:+ " can't be bind-mounted — it's a host system path (or the Docker socket). Mount a dedicated data directory instead."))
  else if bool_decide (ty = Volume) && negb (volume_name src) then
    Err (BadRequest (quoted src +:+ " isn't a valid Docker volume name — use letters, digits, and _ . - (starting with a letter or digit)."))
  else Ok (Mount svc ty src tgt (truthy_json (json_field "readOnly" raw))).

Definition mount_key (m : ReplicatorMount) : string := service m +:+ "|" +:+ target m.

Fixpoint sanitize_from (knownServices seen : list string) (entries : list json) :
    result http_error (list ReplicatorMount) :=
  match entries with
  | [] => Ok []
  | raw :: rest =>
      m ← check_mount knownServices raw;
      if includes (mount_key m) seen then
        Err (BadRequest ("The service " +:+ service m +:+ " already has a mount at " +:+ target m +:+ "."))
      else
        out ← sanitize_from knownServices (mount_key m :: seen) rest;
        Ok (m :: out)
  end.

Definition sanitizeMounts (entries : option (list json)) (knownServices : list string) :
    result http_error (list ReplicatorMount) :=
  sanitize_from knownServices [] (default [] entries).

(** ** Rendering *)

Definition backslash : ascii := Ascii.ascii_of_nat 92.
Definition quote : ascii := Ascii.ascii_of_nat 34.
Definition dollar : ascii := "$"%char.

(** The three replacements, each over the result of the one before. *)
Definition replace_char (c : ascii) (by_ : list ascii) (l : list ascii) : list ascii :=
  l ≫= λ x, if bool_decide (x = c) then by_ else [x].

Definition yq (s : string) : string :=
  quoted (of_chars (replace_char dollar [dollar; dollar]
    (replace_char quote [backslash; quote] (replace_char backslash [backslash; backslash] (chars s))))).

Definition override_header (project : string) : list string :=
  ["# Generated by Cerebro App Replicator for " +:+ quoted project +:+ " — operator-added mounts + env.";
   "# Do not edit: this file is regenerated (or removed) on every deploy.";
   "services:"].

Definition env_lines (extraEnv : list (string * string)) : list string :=
  "    environment:" :: ((λ kv, "      " +:+ kv.1 +:+ ": " +:+ yq kv.2) <$> extraEnv).

Definition mount_lines (m : ReplicatorMount) : list string :=
  ["      - type: " +:+ type_text (type_ m);
   "        source: " +:+ yq (source m);
   "        target: " +:+ yq (target m)] ++
  (if readOnly m then ["        read_only: true"] else []) ++
  (if bool_decide (type_ m = Bind) then ["        bind:" +:+ nl +:+ "          create_host_path: false"]
   else []).

Definition mounts_of (mounts : list ReplicatorMount) (svc : string) : list ReplicatorMount :=
  findMany (λ m, bool_decide (service m = svc)) mounts.

Definition service_lines (mounts : list ReplicatorMount) (extraEnv : list (string * string))
    (envServices : list string) (svc : string) : list string :=
  ("  " +:+ svc +:+ ":") ::
  (if includes svc envServices && negb (bool_decide (extraEnv = [])) then env_lines extraEnv else []) ++
  (if bool_decide (mounts_of mounts svc = []) then []
   else "    volumes:" :: (mounts_of mounts svc ≫= mount_lines)).

Definition env_services (mounts : list ReplicatorMount) (extraEnv : list (string * string))
    (envServices : list string) : list string :=
  if bool_decide (extraEnv = []) then []
  else if bool_decide (envServices = []) then uniq (service <$> mounts)
  else uniq envServices.

(** The services of the override, each once, those with mounts first. *)
Definition override_services (mounts : list ReplicatorMount) (extraEnv : list (string * string))
    (envServices : list string) : list string :=
  uniq (uniq (service <$> mounts) ++ env_services mounts extraEnv envServices).

Definition named_volumes (mounts : list ReplicatorMount) : list string :=
  uniq (source <$> findMany (λ m, bool_decide (type_ m = Volume)) mounts).

Definition override_lines (project : string) (mounts : list ReplicatorMount)
    (extraEnv : list (string * string)) (envServices : list string) : list string :=
  override_header project ++
  (override_services mounts extraEnv envServices ≫=
    service_lines mounts extraEnv (env_services mounts extraEnv envServices)) ++
  (if bool_decide (named_volumes mounts = []) then []
   else "volumes:" :: ((λ n, "  " +:+ n +:+ ": {}") <$> named_volumes mounts)).

Definition renderComposeOverride (project : string) (mounts : list ReplicatorMount)
    (extraEnv : list (string * string)) (envServices : list string) : option string :=
  if bool_decide (mounts = []) && bool_decide (extraEnv = []) then None
  else Some (JsText.join nl (override_lines project mounts extraEnv envServices) +:+ nl).

(** ** Paths *)

(** The directories and the file a path names, lexically. *)
Definition segments (p : string) : list string :=
  filter (λ s, s ≠ "" ∧ s ≠ ".") (JsText.split "/"%char p).

(** An absolute path written without empty or dot segments. *)
Definition canonical (p : string) : Prop := JsText.split "/"%char p = "" :: segments p.
#[export] Instance canonical_dec p : Decision (canonical p) := decide_rel _ _ _.

Definition inside (d p : string) : Prop := segments d `prefix_of` segments p.

Lemma under_split p d : underDenied p d = true ↔ JsText.split "/"%char d `prefix_of` JsText.split "/"%char p.
Proof.
  unfold underDenied. rewrite orb_true_iff, bool_decide_eq_true. split.
  - intros [->|[l Hl]%prefix_chars]; [done|].
    assert (p = d +:+ String "/"%char (of_chars l)) as ->.
    { apply chars_inj. rewrite Hl, !chars_app, !chars_String, chars_of_chars. simpl. by rewrite <-(assoc_L (++)). }
    rewrite split_app_any. by apply prefix_app_r.
  - intros [l Hl]. pose proof (join_split "/"%char p) as Hp. rewrite Hl in Hp.
    destruct l as [|x l]; [left|right].
    + by rewrite app_nil_r, join_split in Hp.
    + rewrite JsText.join_app, join_split in Hp; [|unfold JsText.split; intros ?%fmap_nil_inv; by destruct (split_chars_ne "/"%char (chars d))|done].
      subst p. apply prefix_chars. eexists. rewrite !chars_app, !chars_String. by rewrite <-(assoc_L (++)).
Qed.

Lemma under_canonical p d : canonical p → canonical d → underDenied p d = true ↔ inside d p.
Proof.
  intros Hp Hd. rewrite under_split, Hp, Hd. unfold inside. split.
  - by intros ?%prefix_cons_inv_2.
  - apply prefix_cons.
Qed.

Lemma denied_canonical d : d ∈ DENIED_SOURCE_PREFIXES → canonical d.
Proof.
  intros Hd. assert (Hall : Forall canonical DENIED_SOURCE_PREFIXES) by (repeat constructor; vm_compute; reflexivity).
  rewrite Forall_forall in Hall. by apply Hall.
Qed.

Lemma hasTraversal_false p : hasTraversal p = false ↔ ".." ∉ JsText.split "/"%char p.
Proof.
  unfold hasTraversal. rewrite some_false. split.
  - intros H Hin. specialize (H _ Hin). by rewrite bool_decide_eq_true_2 in H.
  - intros H x Hx. apply bool_decide_eq_false. by intros ->.
Qed.

(** ** What an accepted entry satisfies *)

Definition confined (knownServices : list string) (m : ReplicatorMount) : Prop :=
  service m ≠ "" ∧ (knownServices ≠ [] → service m ∈ knownServices) ∧
  isAbsolute (target m) = true ∧ (".." ∉ JsText.split "/"%char (target m)) ∧
  match type_ m with
  | Volume => volume_name (source m) = true
  | Bind =>
      isAbsolute (source m) = true ∧ (".." ∉ JsText.split "/"%char (source m)) ∧
      (canonical (source m) →
         segments (source m) ≠ [] ∧ ∀ d, d ∈ DENIED_SOURCE_PREFIXES → ¬ inside d (source m))
  end.

Lemma check_mount_confined known raw m : check_mount known raw = Ok m → confined known m.
Proof.
  unfold check_mount. intros H. repeat (case_match; [done|]). simplify_eq. unfold confined; simpl.
  repeat match goal with
  | H : bool_decide _ = false |- _ => apply bool_decide_eq_false in H
  | H : negb _ || _ = false |- _ => apply orb_false_iff in H as [H%negb_false_iff ?]
  end.
  split_and!; [done| |done|by apply hasTraversal_false|].
  - intros Hne. rewrite bool_decide_eq_false_2 in H1 by done. simpl in H1.
    apply negb_false_iff in H1. by apply includes_true in H1.
  - destruct (entry_type raw); simpl in *; [|by apply negb_false_iff].
    apply orb_false_iff in H5 as [H5%negb_false_iff Ht]. split_and!; [done|by apply hasTraversal_false|].
    intros Hc. split.
    + intros Hs. unfold canonical in Hc. rewrite Hs in Hc.
      pose proof (join_split "/"%char (field_text "source" raw)) as Hj. rewrite Hc in Hj. simpl in Hj.
      by rewrite <-Hj in H5.
    + intros d Hd. rewrite <-under_canonical by eauto using denied_canonical.
      unfold denied_source in H6. apply orb_false_iff in H6 as [_ H6]. rewrite some_false in H6.
      by rewrite H6.
Qed.

Lemma sanitize_from_spec known seen entries ms :
  sanitize_from known seen entries = Ok ms →
  Forall2 (λ raw m, check_mount known raw = Ok m) entries ms ∧
  NoDup (mount_key <$> ms) ∧ (∀ m, m ∈ ms → mount_key m ∉ seen).
Proof.
  revert seen ms. induction entries as [|raw rest IH]; intros seen ms; simpl.
  { intros [= <-]. split_and!; [constructor|constructor|by intros ? ?%elem_of_nil]. }
  unfold mbind, result_bind. destruct (check_mount known raw) as [m|] eqn:Hm; [|done].
  destruct (includes _ _) eqn:Hs; [done|]. destruct (sanitize_from _ _ rest) as [out|] eqn:Ho; [|done].
  intros [= <-]. apply includes_false in Hs. destruct (IH _ _ Ho) as (H1 & H2 & H3).
  split_and!; [by constructor| |].
  - rewrite fmap_cons. constructor; [|done]. intros (m' & Hk & Hin)%list_elem_of_fmap.
    apply (H3 m' Hin). rewrite <-Hk. left.
  - intros m' [->|Hin]%elem_of_cons; [done|]. intros ?. apply (H3 m' Hin). by right.
Qed.

(** C26: what the edge lets through.  If the operator's list is accepted, every
    entry of it is kept, no two share a service and a target, each sits on a
    known service when any are known and at an absolute target without
    [..]; a named volume has a valid name; a bind source is absolute, without
    [..], and, written canonically, is not the root and lies neither at nor
    below any denied host directory. *)
Theorem accepted_mounts_confined (entries : option (list json)) (known : list string) (ms : list ReplicatorMount) :
  sanitizeMounts entries known = Ok ms →
  length ms = length (default [] entries) ∧
  NoDup ((λ m, (service m, target m)) <$> ms) ∧
  ∀ m, m ∈ ms → confined known m.
Proof.
  intros (H1 & H2 & _)%sanitize_from_spec. split_and!.
  - by apply Forall2_length in H1.
  - apply (NoDup_fmap_1 (λ p : string * string, p.1 +:+ "|" +:+ p.2)). by rewrite <-list_fmap_compose.
  - intros m Hm. apply list_elem_of_lookup in Hm as [i Hi].
    destruct (Forall2_lookup_r _ _ _ _ _ H1 Hi) as (raw & _ & Hc). by eapply check_mount_confined.
Qed.

(** The denial is by spelling: a doubled slash or a dot segment names a denied
    directory and passes. *)
Definition entry (svc ty src tgt : string) : json :=
  JObj [("service", JStr svc); ("type", JStr ty); ("source", JStr src); ("target", JStr tgt)].

Lemma doubled_slash_reaches_denied :
  sanitizeMounts (Some [entry "app" "bind" "//etc" "/a"; entry "app" "bind" "/./var/run/docker.sock" "/b";
    entry "app" "bind" "//" "/c"]) ["app"] =
    Ok [Mount "app" Bind "//etc" "/a" false; Mount "app" Bind "/./var/run/docker.sock" "/b" false;
        Mount "app" Bind "//" "/c" false] ∧
  segments "//etc" = segments "/etc" ∧ segments "/./var/run/docker.sock" = segments "/var/run/docker.sock" ∧
  segments "//" = segments "/".
Proof. vm_compute. done. Qed.

(** ** Stored mounts posted back *)

(** A stored mount as the form returns it. *)
Definition as_entry (m : ReplicatorMount) : json :=
  JObj [("service", JStr (service m)); ("type", JStr (type_text (type_ m))); ("source", JStr (source m));
        ("target", JStr (target m)); ("readOnly", JBool (readOnly m))].

Lemma check_mount_again known raw m : check_mount known raw = Ok m → check_mount known (as_entry m) = Ok m.
Proof.
  intros Hc. assert (Hf : m = Mount (field_text "service" raw) (entry_type raw) (field_text "source" raw)
    (field_text "target" raw) (truthy_json (json_field "readOnly" raw))).
  { unfold check_mount in Hc. repeat (case_match; [done|]). by simplify_eq. }
  assert (Hs : field_text "service" (as_entry m) = field_text "service" raw).
  { rewrite Hf. apply trim_idemp. }
  assert (Ho : field_text "source" (as_entry m) = field_text "source" raw).
  { rewrite Hf. apply trim_idemp. }
  assert (Ht : field_text "target" (as_entry m) = field_text "target" raw).
  { rewrite Hf. apply trim_idemp. }
  assert (Hy : entry_type (as_entry m) = entry_type raw).
  { rewrite Hf. unfold as_entry. simpl. by destruct (entry_type raw). }
  assert (Hr : truthy_json (json_field "readOnly" (as_entry m)) = truthy_json (json_field "readOnly" raw)).
  { rewrite Hf. simpl. unfold json_field at 1. simpl. by destruct (truthy_json _). }
  rewrite <-Hc. unfold check_mount. by rewrite Hs, Ho, Ht, Hy, Hr.
Qed.

Lemma sanitize_from_ok known seen entries ms :
  Forall2 (λ raw m, check_mount known raw = Ok m) entries ms →
  NoDup (mount_key <$> ms) → (∀ m, m ∈ ms → mount_key m ∉ seen) →
  sanitize_from known seen entries = Ok ms.
Proof.
  intros Hf. revert seen. induction Hf as [|raw m rest ms Hc Hf IH]; intros seen Hn Hs; [done|].
  rewrite fmap_cons, NoDup_cons in Hn. destruct Hn as [Hm Hn]. simpl.
  unfold mbind, result_bind. rewrite Hc.
  rewrite (proj2 (includes_false _ _)) by (apply Hs; left). rewrite IH; [done..|].
  intros m' Hm' [He|Hin]%elem_of_cons; [|by apply (Hs m'); [right|]].
  apply Hm. rewrite <-He. by apply list_elem_of_fmap_2.
Qed.

(** saving again changes nothing.  The list an edit form posts back for the
    stored mounts is accepted for the same services and stores the same
    mounts. *)
Theorem sanitized_mounts_stable (entries : option (list json)) (known : list string) (ms : list ReplicatorMount) :
  sanitizeMounts entries known = Ok ms → sanitizeMounts (Some (as_entry <$> ms)) known = Ok ms.
Proof.
  intros (H1 & H2 & H3)%sanitize_from_spec. apply sanitize_from_ok; [|done..].
  induction H1 as [|raw m rest ms Hc Hf IH]; [constructor|].
  rewrite fmap_cons in *. apply NoDup_cons in H2 as [_ H2]. constructor; [by eapply check_mount_again|].
  apply IH; [done|]. intros m' Hm'. apply H3. by right.
Qed.

(** ** Quoted scalars *)

(** Reading a value back: the double-quoted YAML scalar, then the
    interpolation Compose runs on it. *)
Fixpoint read_scalar (l : list ascii) : option (list ascii) :=
  match l with
  | [] => None
  | c :: l' =>
      if bool_decide (c = quote) then (if bool_decide (l' = []) then Some [] else None)
      else if bool_decide (c = backslash) then
        match l' with
        | d :: l'' =>
            if bool_decide (d = quote) || bool_decide (d = backslash)
            then cons d <$> read_scalar l'' else None
        | [] => None
        end
      else if includes c [ascii_of_nat 10; ascii_of_nat 13] then None
      else cons c <$> read_scalar l'
  end.

Fixpoint interpolate (l : list ascii) : option (list ascii) :=
  match l with
  | [] => Some []
  | c :: l' =>
      if bool_decide (c = dollar) then
        match l' with
        | d :: l'' => if bool_decide (d = dollar) then cons dollar <$> interpolate l'' else None
        | [] => None
        end
      else cons c <$> interpolate l'
  end.

Definition read_yaml (s : string) : option string :=
  match chars s with
  | c :: l =>
      if bool_decide (c = quote) then l' ← read_scalar l; of_chars <$> interpolate l' else None
  | [] => None
  end.

Definition line_break (c : ascii) : bool := includes c [ascii_of_nat 10; ascii_of_nat 13].

Lemma replace_char_cons c by_ x l :
  replace_char c by_ (x :: l) = (if bool_decide (x = c) then by_ else [x]) ++ replace_char c by_ l.
Proof. done. Qed.

Lemma replace_char_app c by_ l l' : replace_char c by_ (l ++ l') = replace_char c by_ l ++ replace_char c by_ l'.
Proof. unfold replace_char. by rewrite bind_app. Qed.

(** What one character of the value becomes. *)
Definition escape1 (x : ascii) : list ascii :=
  if bool_decide (x = backslash) then [backslash; backslash]
  else if bool_decide (x = quote) then [backslash; quote]
  else if bool_decide (x = dollar) then [dollar; dollar] else [x].

Lemma escape_chars l :
  replace_char dollar [dollar; dollar] (replace_char quote [backslash; quote]
    (replace_char backslash [backslash; backslash] l)) = l ≫= escape1.
Proof.
  induction l as [|x l IH]; [done|]. rewrite replace_char_cons, !replace_char_app, IH, bind_cons. f_equal.
  unfold escape1. case_bool_decide as H1; [done|]. rewrite !replace_char_cons. simpl.
  rewrite app_nil_r. case_bool_decide as H2; [done|]. simpl. rewrite app_nil_r. by case_bool_decide.
Qed.

Lemma read_escaped l :
  read_scalar ((l ≫= escape1) ++ [quote]) =
  if some line_break l then None else Some (replace_char dollar [dollar; dollar] l).
Proof.
  induction l as [|x l IH]; [done|]. rewrite bind_cons, <-(assoc_L (++)). cbn [some existsb].
  fold (some line_break l). unfold escape1 at 1.
  case_bool_decide as H1; [|case_bool_decide as H2; [|case_bool_decide as H3]]; subst.
  - cbn. rewrite IH. by destruct (some line_break l).
  - cbn. rewrite IH. by destruct (some line_break l).
  - cbn. rewrite IH. by destruct (some line_break l).
  - cbn [app read_scalar]. rewrite !bool_decide_eq_false_2 by done.
    fold (line_break x). destruct (line_break x); [done|]. rewrite IH, replace_char_cons.
    rewrite (bool_decide_eq_false_2 (x = dollar)) by done. by destruct (some line_break l).
Qed.

Lemma interpolate_doubled l : interpolate (replace_char dollar [dollar; dollar] l) = Some l.
Proof.
  induction l as [|x l IH]; [done|]. rewrite replace_char_cons. case_bool_decide as Hx.
  - subst. cbn. by rewrite IH.
  - cbn [app interpolate]. rewrite bool_decide_eq_false_2 by done. by rewrite IH.
Qed.

(** a value survives the override file.  Reading a quoted value back as
    YAML does, and then interpolating as Compose does, gives the value itself,
    quotes, backslashes and dollars included; the exception are values with a
    line break, which a quoted scalar does not hold. *)
Theorem quoted_value_read_back (s : string) :
  read_yaml (yq s) = if some line_break (chars s) then None else Some s.
Proof.
  unfold read_yaml, yq, quoted, dq. rewrite !chars_app, escape_chars, chars_of_chars.
  cbn [app chars String.list_ascii_of_string]. rewrite bool_decide_eq_true_2 by done.
  change [Ascii.ascii_of_nat 34] with [quote]. fold quote. rewrite read_escaped. destruct (some line_break (chars s)); [done|].
  cbn [mbind option_bind]. rewrite interpolate_doubled. cbn [fmap option_fmap option_map]. by rewrite of_chars_chars.
Qed.

(** ** The override file *)

Lemma mounts_of_cons m ms svc :
  mounts_of (m :: ms) svc = (if bool_decide (service m = svc) then [m] else []) ++ mounts_of ms svc.
Proof. unfold mounts_of, findMany. rewrite filter_cons. repeat case_bool_decide; case_decide; done. Qed.

Lemma mounts_of_perm ms svcs :
  NoDup svcs → (∀ m, m ∈ ms → service m ∈ svcs) → (svcs ≫= mounts_of ms) ≡ₚ ms.
Proof.
  intros Hn. induction ms as [|m ms IH]; intros Hs.
  { clear. induction svcs as [|s svcs IH]; [done|]. by rewrite bind_cons, IH. }
  rewrite <-IH at 2 by (intros m' Hm'; apply Hs; by right).
  destruct (list_elem_of_split svcs (service m)) as (l1 & l2 & ->); [apply Hs; left|].
  apply NoDup_app in Hn as (_ & H1 & [H2 _]%NoDup_cons).
  assert (Hne : ∀ l, service m ∉ l → l ≫= mounts_of (m :: ms) = l ≫= mounts_of ms).
  { intros l Hl. apply list_bind_ext_in. intros s Hin. rewrite mounts_of_cons.
    by rewrite bool_decide_eq_false_2 by (by intros <-). }
  rewrite !bind_app, !bind_cons, !Hne by (try done; intros ?; by eapply H1; [|left]).
  rewrite mounts_of_cons, bool_decide_eq_true_2 by done. simpl. by rewrite <-Permutation_middle.
Qed.

Lemma regroup {A} (h v : A) (e a b c : list A) :
  h :: e ++ v :: (a ++ b ++ c) = (h :: e ++ v :: a) ++ b ++ c.
Proof. simpl. by rewrite <-(assoc_L (++)). Qed.

(** the override holds exactly what was added.  There is a file unless
    nothing was added; its service sections name distinct services; under
    them every mount stands exactly once, in the section of its service; the
    added environment stands in the section of every service it is meant for,
    which with mounts and no known services are the mounts' services; and a
    volume is declared exactly when a mount names it, once. *)
Theorem override_places_everything (project : string) (ms : list ReplicatorMount)
    (env : list (string * string)) (envServices : list string) :
  let svcs := override_services ms env envServices in
  let targets := env_services ms env envServices in
  (renderComposeOverride project ms env envServices = None ↔ ms = [] ∧ env = []) ∧
  NoDup svcs ∧ (svcs ≫= mounts_of ms) ≡ₚ ms ∧
  (∀ svc m, m ∈ mounts_of ms svc → service m = svc ∧ svc ∈ svcs ∧
     ∃ before after, service_lines ms env targets svc = before ++ mount_lines m ++ after) ∧
  (env ≠ [] → (∀ svc, svc ∈ envServices ∨ envServices = [] ∧ svc ∈ (service <$> ms) →
     svc ∈ svcs ∧ env_lines env `sublist_of` service_lines ms env targets svc)) ∧
  NoDup (named_volumes ms) ∧
  (∀ v, v ∈ named_volumes ms ↔ ∃ m, m ∈ ms ∧ type_ m = Volume ∧ source m = v).
Proof.
  intros svcs targets.
  assert (Hin : ∀ m, m ∈ ms → service m ∈ svcs).
  { intros m Hm. unfold svcs, override_services. rewrite elem_of_uniq, elem_of_app, elem_of_uniq. left.
    by apply list_elem_of_fmap_2. }
  split_and!.
  - unfold renderComposeOverride. by repeat case_bool_decide; simpl; split; [|intros []| |intros []| |intros []| |intros []].
  - apply NoDup_uniq.
  - apply mounts_of_perm; [apply NoDup_uniq|done].
  - intros svc m Hm. pose proof Hm as [Hs%bool_decide_eq_true Hms]%elem_of_findMany.
    split_and!; [done|by rewrite <-Hs; apply Hin|]. unfold service_lines.
    rewrite (bool_decide_eq_false_2 (mounts_of ms svc = [])) by (intros He; rewrite He in Hm; by apply elem_of_nil in Hm).
    apply list_elem_of_split in Hm as (l1 & l2 & ->). rewrite bind_app, bind_cons.
    eexists _, _. apply regroup.
  - intros He svc Hsvc. assert (Ht : svc ∈ targets).
    { unfold targets, env_services. rewrite bool_decide_eq_false_2 by done. case_bool_decide as Hv.
      - rewrite elem_of_uniq. destruct Hsvc as [Hsvc|[_ ?]]; [|done]. rewrite Hv in Hsvc.
        by apply elem_of_nil in Hsvc.
      - rewrite elem_of_uniq. by destruct Hsvc as [?|[? _]]. }
    split.
    + unfold svcs, override_services. rewrite elem_of_uniq, elem_of_app. by right.
    + unfold service_lines. rewrite (proj2 (includes_true _ _)) by done.
      rewrite bool_decide_eq_false_2 by done. cbn [andb negb].
      apply sublist_cons, sublist_inserts_r. done.
  - apply NoDup_uniq.
  - intros v. unfold named_volumes. rewrite elem_of_uniq, list_elem_of_fmap.
    setoid_rewrite elem_of_findMany. setoid_rewrite bool_decide_eq_true.
    split; [intros (m & -> & ? & ?); eauto|intros (m & ? & ? & <-); eauto].
Qed.

(** A service name is written as it is.  With no known services any name is
    accepted, line breaks included, and the mount edge writes settings it says
    it never exposes. *)
Definition privileged_service : string := "app:" +:+ nl +:+ "    privileged: true" +:+ nl +:+ "  web".

Lemma unknown_services_inject :
  sanitizeMounts (Some [entry privileged_service "volume" "data" "/data"]) [] =
    Ok [Mount privileged_service Volume "data" "/data" false] ∧
  "    privileged: true" ∈
    JsText.split (ascii_of_nat 10)
      (default "" (renderComposeOverride "p" [Mount privileged_service Volume "data" "/data" false] [] [])).
Proof.
  split; [vm_compute; done|]. apply (bool_decide_eq_true_1 _). vm_compute. done.
Qed.

(** ** Witnesses *)

Definition two_mounts : list json :=
  [entry "app" "bind" "/srv/data" "/data"; entry "db" "volume" "pg" "/var/lib/postgresql"].
Definition two_accepted : list ReplicatorMount :=
  [Mount "app" Bind "/srv/data" "/data" false; Mount "db" Volume "pg" "/var/lib/postgresql" false].

Lemma accepted_mounts_confined_witness :
  sanitizeMounts (Some two_mounts) ["app"; "db"] = Ok two_accepted ∧ length two_accepted = 2.
Proof.
  split; [vm_compute; reflexivity|].
  exact (proj1 (accepted_mounts_confined (Some two_mounts) ["app"; "db"] two_accepted
    ltac:(vm_compute; reflexivity))).
Defined.

Lemma sanitized_mounts_stable_witness :
  sanitizeMounts (Some two_mounts) ["app"; "db"] = Ok two_accepted ∧
  sanitizeMounts (Some (as_entry <$> two_accepted)) ["app"; "db"] = Ok two_accepted.
Proof.
  split; [vm_compute; reflexivity|].
  exact (sanitized_mounts_stable (Some two_mounts) ["app"; "db"] two_accepted
    ltac:(vm_compute; reflexivity)).
Defined.
