(* ===== verification/EnvFiles.v ===== *)
(** * Environment variables of deployed apps

    [app-replicator/compose-introspect.ts] (env files),
    [app-replicator/replicator.service.ts] (the stored schema),
    [app-replicator/deploy-target.ts] (the environment a deployment gets) and
    the input edge of [app-replicator/deployment.service.ts]. *)
From S2P Require Import Prelude JsText.
From stdpp Require Import gmap strings options.

#[local] Open Scope Z_scope.
#[local] Set Default Proof Using "Type*".

(** ** Data *)

Inductive role := host_ip | host_port | secret_role | plain | image_tag | container_name.

#[export] Instance role_eq_dec : EqDecision role.
Proof. solve_decision. Defined.

Inductive var_source := Compose | EnvFile | Manual.

#[export] Instance var_source_eq_dec : EqDecision var_source.
Proof. solve_decision. Defined.

Record ReplicatorVariable := Var {
  v_name : string;
  v_default : option string;
  v_role : role;
  v_service : option string;
  v_containerPort : option Z;
  v_required : bool;
  v_secret : bool;
  v_source : option var_source;
  v_envFile : option string;
  v_comment : option string
}.

Record DotenvEntry := Entry { de_name : string; de_value : string; de_comment : option string }.

(** A JavaScript [Map]: entries in the order of their first insertion. *)
Section js_map.
Context {V : Type}.

Definition map_get (k : string) (m : list (string * V)) : option V :=
  snd <$> findFirst (λ kv, bool_decide (kv.1 = k)) m.
Definition map_has (k : string) (m : list (string * V)) : bool :=
  some (λ kv, bool_decide (kv.1 = k)) m.
Definition map_set (k : string) (v : V) (m : list (string * V)) : list (string * V) :=
  if map_has k m then updateMany (λ kv, bool_decide (kv.1 = k)) (λ kv, (kv.1, v)) m
  else createRow (k, v) m.
End js_map.

(** ** Env files *)

Definition lf : ascii := ascii_of_nat 10.
Definition cr : ascii := ascii_of_nat 13.

Definition name_start (c : ascii) : bool := is_lower c || is_upper c || bool_decide (c = "_"%char).
Definition name_char (c : ascii) : bool := name_start c || is_digit c.

(** A letter or underscore, then letters, digits and underscores. *)
Definition env_name (s : string) : bool :=
  match chars s with c :: l => name_start c && every name_char l | [] => false end.

(** The trailing comment of a line goes: cut at the first run of white space
    before a hash, the run included.  [ws] is the run read so far. *)
Fixpoint cut_comment (ws l : list ascii) : list ascii :=
  match l with
  | [] => ws
  | c :: l' =>
      if is_space c then cut_comment (ws ++ [c]) l'
      else if bool_decide (c = "#"%char) && negb (bool_decide (ws = [])) && negb (includes cr l') then []
      else ws ++ c :: cut_comment [] l'
  end.

Definition enclosed (q : ascii) (l : list ascii) : bool :=
  bool_decide (head l = Some q) && bool_decide (last l = Some q) && (1 <? length l)%nat.

Definition quote2 : ascii := ascii_of_nat 34.
Definition quote1 : ascii := ascii_of_nat 39.

Definition unquote (v : string) : string :=
  let t := trim_chars is_space (chars v) in
  if enclosed quote2 t || enclosed quote1 t then of_chars (take (length t - 2) (drop 1 t))
  else of_chars (trim_chars is_space (cut_comment [] t)).

Fixpoint take_while (p : ascii → bool) (l : list ascii) : list ascii :=
  match l with c :: l' => if p c then c :: take_while p l' else [] | [] => [] end.

(** A name, white space and an equals sign: the name and what follows. *)
Definition match_name (l : list ascii) : option (string * list ascii) :=
  match take_while name_char l with
  | [] => None
  | c :: n =>
      if negb (name_start c) then None
      else match drop_while is_space (drop_while name_char l) with
           | e :: rest => if bool_decide (e = "="%char) then Some (of_chars (c :: n), rest) else None
           | [] => None
           end
  end.

(** The same after an optional [export] and white space; a variable may itself
    be called [export]. *)
Definition match_head (l : list ascii) : option (string * list ascii) :=
  if startsWith "export" (of_chars l) then
    match drop 6 l with
    | c :: rest =>
        if is_space c then
          match match_name (drop_while is_space rest) with
          | Some m => Some m
          | None => match_name l
          end
        else match_name l
    | [] => match_name l
    end
  else match_name l.

(** The whole line: white space, then the value, which a [.] must match. *)
Definition match_line (l : list ascii) : option (string * string) :=
  '(name, rest) ← match_head l;
  let value := drop_while is_space rest in
  if includes cr value then None else Some (name, of_chars value).

(** The hashes and one white space go, and the rest is trimmed. *)
Definition comment_body (l : list ascii) : list ascii :=
  let rest := drop_while (λ c, bool_decide (c = "#"%char)) l in
  trim_chars is_space (match rest with c :: r => if is_space c then r else rest | [] => rest end).

(** A carriage return before a line feed goes. *)
Fixpoint unix_lines (l : list ascii) : list ascii :=
  match l with
  | [] => []
  | c :: l' =>
      if bool_decide (c = cr) && bool_decide (head l' = Some lf) then unix_lines l' else c :: unix_lines l'
  end.

Definition or_null (s : string) : option string := if bool_decide (s = "") then None else Some s.

Fixpoint parse_lines (lines : list string) (seen comment : list string) : list DotenvEntry :=
  match lines with
  | [] => []
  | raw :: rest =>
      let line := trim_chars is_space (chars raw) in
      match line with
      | [] => parse_lines rest seen []
      | c :: _ =>
          if bool_decide (c = "#"%char) then
            let body := comment_body line in
            if negb (bool_decide (body = [])) && negb (bool_decide (is_Some (match_head body)))
            then parse_lines rest seen (comment ++ [of_chars body])
            else parse_lines rest seen comment
          else
            match match_line line with
            | None => parse_lines rest seen []
            | Some (name, value) =>
                if includes name seen then parse_lines rest seen []
                else Entry name (unquote value) (or_null (JsText.join " " comment))
                     :: parse_lines rest (name :: seen) []
            end
      end
  end.

Definition parseDotenv (text : string) : list DotenvEntry :=
  parse_lines (of_chars <$> split_chars lf (unix_lines (chars text))) [] [].

(** ** Names that look like credentials *)

Definition has_word (words : list string) (n : string) : bool := some (λ w, has_substring w n) words.
Definition has_suffix (words : list string) (n : string) : bool := some (λ w, endsWith w n) words.

Definition looksSecret (name : string) : bool :=
  let n := toLowerCase name in
  has_word ["secret"; "password"; "passwd"; "token"; "apikey"; "api_key"; "api-key"; "privatekey";
            "private_key"; "private-key"; "credential"] n &&
  negb (has_suffix ["_seconds"; "_days"; "_minutes"; "_hours"; "_ms"; "_lifetime"; "_timeout"; "_ttl";
            "_retention"; "_max_age"; "_file"; "_path"; "_url"; "_enabled"; "_algorithm"] n).

Definition envFileVariables (entries : list DotenvEntry) (envFile : string) : list ReplicatorVariable :=
  (λ e, let secret := looksSecret (de_name e) in
     Var (de_name e) (if secret || bool_decide (de_value e = "") then None else Some (de_value e))
       (if secret then secret_role else plain) None None secret secret (Some EnvFile) (Some envFile)
       (de_comment e)) <$> entries.

(** ** The stored schema *)

Definition role_order (r : role) : Z :=
  match r with host_ip | host_port => 0 | secret_role => 1 | plain => 2 | image_tag | container_name => 3 end.

Definition set_comment (c : option string) (v : ReplicatorVariable) : ReplicatorVariable :=
  Var (v_name v) (v_default v) (v_role v) (v_service v) (v_containerPort v) (v_required v) (v_secret v)
    (v_source v) (v_envFile v) c.
Definition set_default (d : option string) (v : ReplicatorVariable) : ReplicatorVariable :=
  Var (v_name v) d (v_role v) (v_service v) (v_containerPort v) false (v_secret v)
    (v_source v) (v_envFile v) (v_comment v).

(** What an env file adds to a variable compose declares. *)
Definition fill_gaps (e existing : ReplicatorVariable) : ReplicatorVariable :=
  let v := if negb (truthy (v_comment existing)) && truthy (v_comment e)
           then set_comment (v_comment e) existing else existing in
  if (bool_decide (v_role v = plain) || bool_decide (v_role v = secret_role)) &&
     bool_decide (v_default v = None) && negb (bool_decide (v_default e = None))
  then set_default (v_default e) v else v.

Definition fold_env_var (m : list (string * ReplicatorVariable)) (e : ReplicatorVariable) :
    list (string * ReplicatorVariable) :=
  match map_get (v_name e) m with
  | None => map_set (v_name e) e m
  | Some existing => map_set (v_name e) (fill_gaps e existing) m
  end.

Definition by_name (vars : list ReplicatorVariable) : list (string * ReplicatorVariable) :=
  foldl (λ m v, map_set (v_name v) v m) [] vars.

(** [localeCompare] is the argument [locale_le]. *)
Definition mergeEnvFileVars (locale_le : string → string → bool) (composeVars envVars : list ReplicatorVariable) :
    list ReplicatorVariable :=
  sort (λ a b, (role_order (v_role a) <? role_order (v_role b)) ||
               (role_order (v_role a) =? role_order (v_role b)) && locale_le (v_name a) (v_name b))
    (snd <$> foldl fold_env_var (by_name composeVars) envVars).

Definition isTogglable (r : role) : bool := bool_decide (r = plain) || bool_decide (r = secret_role).

(** [sanitizeVariables] on variables of the declared types. *)
Definition sanitize_variable (v : ReplicatorVariable) : ReplicatorVariable :=
  let secret := match v_role v with secret_role => true | plain => v_secret v | _ => false end in
  let r := if secret && bool_decide (v_role v = plain) then secret_role
           else if negb secret && bool_decide (v_role v = secret_role) then plain else v_role v in
  Var (v_name v) (v_default v) r (v_service v) (v_containerPort v) (v_required v) secret
    (Some (default Compose (v_source v))) (v_envFile v) (slice_to 400 <$> v_comment v).

Definition sanitizeVariables (vars : list ReplicatorVariable) : list ReplicatorVariable :=
  sanitize_variable <$> findMany (λ v, env_name (v_name v)) vars.

Record SchemaDiff := Diff {
  added : list string; removed : list string; roleChanged : list (string * role * role)
}.

(** The last entry under a name, as [new Map(...)] keeps it. *)
Definition last_named (n : string) (vars : list ReplicatorVariable) : option ReplicatorVariable :=
  findFirst (λ v, bool_decide (v_name v = n)) (reverse vars).

Definition names (vars : list ReplicatorVariable) : list string := v_name <$> vars.

Definition keep_toggle (prev f : ReplicatorVariable) : ReplicatorVariable :=
  if isTogglable (v_role f) && isTogglable (v_role prev) && negb (bool_decide (v_secret prev = v_secret f))
  then Var (v_name f) (v_default f) (if v_secret prev then secret_role else plain) (v_service f)
         (v_containerPort f) (v_required f) (v_secret prev) (v_source f) (v_envFile f) (v_comment f)
  else f.

Definition merge_variable (existing : list ReplicatorVariable) (f : ReplicatorVariable) : ReplicatorVariable :=
  match last_named (v_name f) existing with None => f | Some prev => keep_toggle prev f end.

Definition role_change (existing : list ReplicatorVariable) (f : ReplicatorVariable) : option (string * role * role) :=
  match last_named (v_name f) existing with
  | None => None
  | Some prev =>
      let merged := keep_toggle prev f in
      if bool_decide (v_role merged = v_role prev) then None
      else Some (v_name f, v_role prev, v_role merged)
  end.

Definition manual_only (existing fresh : list ReplicatorVariable) : list ReplicatorVariable :=
  findMany (λ e, bool_decide (v_source e = Some Manual) && negb (includes (v_name e) (names fresh))) existing.

Definition mergeSchema (existing fresh : list ReplicatorVariable) : list ReplicatorVariable * SchemaDiff :=
  let manual := manual_only existing fresh in
  (sanitizeVariables ((merge_variable existing <$> fresh) ++ manual),
   Diff (v_name <$> findMany (λ f, bool_decide (last_named (v_name f) existing = None)) fresh)
     (v_name <$> findMany (λ e, negb (includes (v_name e) (names fresh)) &&
                                negb (includes (v_name e) (names manual))) existing)
     (omap (role_change existing) fresh)).

(** ** The environment of a deployment *)

Record ReplicatorPort := Port {
  p_service : string;
  p_variable : option string;
  p_hostPort : Z;
  p_containerPort : option Z;
  p_mode : string;
  p_adjustable : option bool;
  p_hostPortEnd : option Z;
  p_protocol : option string
}.

Abbreviation env := (list (string * string)).

(** A run of other characters becomes one dash. *)
Fixpoint dash_runs (in_run : bool) (l : list ascii) : list ascii :=
  match l with
  | [] => []
  | c :: l' =>
      if is_lower c || is_digit c || includes c ["_"%char; "."%char; "-"%char]
      then c :: dash_runs false l'
      else if in_run then dash_runs true l' else "-"%char :: dash_runs true l'
  end.

Definition slug (s : string) : string :=
  let s := if bool_decide (s = "") then "app" else s in
  let l := take 40 (drop_while (λ c, includes c ["-"%char; "."%char])
                      (dash_runs false (chars (toLowerCase s)))) in
  if bool_decide (l = []) then "app" else of_chars l.

Definition port_of (portList : list ReplicatorPort) (n : string) : option Z :=
  p_hostPort <$> findFirst (λ p, bool_decide (p_variable p = Some n)) (reverse portList).

Definition non_empty (o : option string) : option string := if truthy o then o else None.

(** What one variable adds. *)
Definition var_value (project : string) (portList : list ReplicatorPort) (values secrets : env)
    (v : ReplicatorVariable) : option string :=
  let svc := slug (default "app" (v_service v)) in
  let fallback := if bool_decide (default Compose (v_source v) = Compose) then None else v_default v in
  match v_role v with
  | image_tag => Some (project +:+ "-" +:+ svc +:+ ":latest")
  | container_name => Some (project +:+ "-" +:+ svc)
  | host_port => num_to_string <$> port_of portList (v_name v)
  | secret_role => non_empty (map_get (v_name v) secrets)
  | plain | host_ip =>
      match non_empty (map_get (v_name v) values) with Some x => Some x | None => fallback end
  end.

Definition set_some (m : env) (kv : string * option string) : env :=
  match kv.2 with Some x => map_set kv.1 x m | None => m end.

Definition buildEnvMap (variables : list ReplicatorVariable) (project : string)
    (portList : list ReplicatorPort) (values secrets extras : env) : env :=
  foldl set_some
    (foldl set_some [] ((λ v, (v_name v, var_value project portList values secrets v)) <$> variables))
    ((λ kv, (kv.1, non_empty (Some kv.2))) <$> extras).

Definition fileEnvOf (variables : list ReplicatorVariable) (m : env) (extras : env) : env :=
  foldl set_some
    (foldl set_some []
      ((λ v, (v_name v, map_get (v_name v) m)) <$>
         findMany (λ v, negb (bool_decide (default Compose (v_source v) = Compose))) variables))
    ((λ kv, (kv.1, map_get kv.1 m)) <$> extras).

(** [.replace(/[\r\n]+/g, ' ')] *)
Fixpoint flatten_breaks (in_run : bool) (l : list ascii) : list ascii :=
  match l with
  | [] => []
  | c :: l' =>
      if includes c [lf; cr]
      then if in_run then flatten_breaks true l' else " "%char :: flatten_breaks true l'
      else c :: flatten_breaks false l'
  end.

Definition double_dollars (l : list ascii) : list ascii :=
  l ≫= λ c, if bool_decide (c = "$"%char) then ["$"%char; "$"%char] else [c].

Definition escapeEnvValue (v : string) : string :=
  of_chars (double_dollars (flatten_breaks false (chars v))).

Definition dotenv_line (kv : string * string) : string := kv.1 +:+ "=" +:+ escapeEnvValue kv.2.

Definition toDotenv (m : env) : string := JsText.join nl (dotenv_line <$> m) +:+ nl.

(** The comparison of [envDrift]: the names only on the host, missing there,
    and with another value there. *)
Definition string_le (a b : string) : bool := String.leb a b.

Definition drift (expected : env) (host : string) : list string * list string * list string :=
  let onHost := foldl (λ m e, map_set (de_name e) (de_value e) m) [] (parseDotenv host) in
  (sort string_le (fst <$> findMany (λ kv, negb (map_has kv.1 expected)) onHost),
   sort string_le (fst <$> findMany (λ kv, negb (map_has kv.1 onHost)) expected),
   sort string_le (fst <$> findMany (λ kv,
     match map_get kv.1 onHost with
     | Some v => negb (bool_decide (v = kv.2)) && negb (bool_decide (v = escapeEnvValue kv.2))
     | None => false
     end) expected)).

(** ** Operator-added entries *)

(** An entry of the form: [secret] is truthiness, a [null] value is blank. *)
Record ExtraEnvEntry := Extra { x_name : string; x_value : option string; x_secret : bool }.

Record Extras := SplitExtras { e_values : env; e_secrets : env; e_secretNames : list string }.

Fixpoint split_extras (schema seen : list string) (entries : list ExtraEnvEntry) (acc : Extras) :
    result http_error Extras :=
  match entries with
  | [] => Ok acc
  | raw :: rest =>
      let name := trim (x_name raw) in
      if bool_decide (name = "") then split_extras schema seen rest acc
      else if negb (env_name name) then
        Err (BadRequest (quoted name +:+ " isn't a usable environment variable name — use letters, digits and underscores, starting with a letter or underscore."))
      else if includes name schema then
        Err (BadRequest (name +:+ " is already one of this app's variables — set it in the form above instead of adding it here."))
      else if includes name seen then
        Err (BadRequest (name +:+ " is listed twice in the extra variables."))
      else
        let value := default "" (x_value raw) in
        let acc' :=
          if x_secret raw then
            SplitExtras (e_values acc)
              (if bool_decide (value = "") then e_secrets acc else map_set name value (e_secrets acc))
              (e_secretNames acc ++ [name])
          else SplitExtras (if bool_decide (value = "") then e_values acc else map_set name value (e_values acc))
                 (e_secrets acc) (e_secretNames acc) in
        split_extras schema (name :: seen) rest acc'
  end.

Definition splitExtras (entries : option (list ExtraEnvEntry)) (variables : list ReplicatorVariable) :
    result http_error Extras :=
  split_extras (names variables) [] (default [] entries) (SplitExtras [] [] []).

(** ** Lemmas on JavaScript maps *)

Section js_map_lemmas.
Context {V : Type}.
Implicit Types (m : list (string * V)) (k : string) (v : V).

Lemma map_has_get k m : map_has k m = true ↔ is_Some (map_get k m).
Proof.
  unfold map_has, map_get. rewrite fmap_is_Some. destruct (some _ m) eqn:Hs.
  - split; [intros _|done]. apply some_true in Hs as (kv & Hin & Hk).
    destruct (findFirst _ m) eqn:Hf; [by eexists|]. rewrite findFirst_None in Hf. by rewrite (Hf kv Hin) in Hk.
  - split; [done|]. intros [kv [Hin Hk]%findFirst_Some]. rewrite some_false in Hs. by rewrite (Hs kv Hin) in Hk.
Qed.

Lemma map_has_keys k m : map_has k m = true ↔ k ∈ fst <$> m.
Proof.
  unfold map_has. rewrite some_true, list_elem_of_fmap.
  split; intros (kv & H1 & H2); exists kv; [apply bool_decide_eq_true in H2|rewrite bool_decide_eq_true]; auto.
Qed.

Lemma map_get_cons k k' v m : map_get k ((k', v) :: m) = if bool_decide (k' = k) then Some v else map_get k m.
Proof. unfold map_get. rewrite findFirst_cons. simpl. by case_bool_decide. Qed.

Lemma map_get_set k k' v m :
  map_get k (map_set k' v m) = if bool_decide (k = k') then Some v else map_get k m.
Proof.
  unfold map_set. destruct (map_has k' m) eqn:Hh.
  - unfold map_get. rewrite findFirst_updateMany by done. destruct (findFirst _ m) as [kv|] eqn:Hf; simpl.
    + apply findFirst_Some in Hf as [_ Hk%bool_decide_eq_true]. subst. by repeat case_bool_decide.
    + case_bool_decide as Hk; [|done]. subst. apply map_has_get in Hh as [x Hx]. unfold map_get in Hx.
      by rewrite Hf in Hx.
  - unfold map_get, createRow. rewrite findFirst_app, findFirst_cons. simpl.
    case_bool_decide as Hk.
    + subst. rewrite bool_decide_eq_true_2 by done. destruct (findFirst _ m) eqn:Hf; [|done].
      apply not_true_iff_false in Hh. destruct Hh. apply map_has_get. unfold map_get. rewrite Hf. by eexists.
    + rewrite bool_decide_eq_false_2 by done. by destruct (findFirst _ m).
Qed.

Lemma map_set_new k v m : k ∉ fst <$> m → map_set k v m = m ++ [(k, v)].
Proof.
  intros Hk. unfold map_set. destruct (map_has k m) eqn:Hh; [|done]. by apply map_has_keys in Hh.
Qed.

Lemma map_set_keys k v m : NoDup (fst <$> m) → NoDup (fst <$> map_set k v m).
Proof.
  intros Hn. unfold map_set. destruct (map_has k m) eqn:Hh; [by rewrite fmap_updateMany|].
  apply NoDup_createRow; [done|]. intros Hk%map_has_keys. simpl in Hk. congruence.
Qed.

Lemma map_get_in k v m : NoDup (fst <$> m) → (k, v) ∈ m → map_get k m = Some v.
Proof.
  intros Hn Hin. unfold map_get. by rewrite (findFirst_key fst m (k, v)).
Qed.

Lemma map_get_app k m m' : map_get k (m ++ m') = match map_get k m with Some v => Some v | None => map_get k m' end.
Proof. unfold map_get. rewrite findFirst_app. by destruct (findFirst _ m). Qed.

Lemma map_get_None k m : map_get k m = None ↔ k ∉ fst <$> m.
Proof. rewrite <-map_has_keys, map_has_get, eq_None_not_Some. done. Qed.
End js_map_lemmas.

(** ** Trimming *)

(** White space at the end goes. *)
Definition trim_right (l : list ascii) : list ascii := reverse (drop_while is_space (reverse l)).

Lemma drop_while_snoc p l c :
  drop_while p (l ++ [c]) = if bool_decide (drop_while p l = []) then drop_while p [c] else drop_while p l ++ [c].
Proof.
  induction l as [|x l IH]; [by simpl|]. simpl. destruct (p x); [done|].
  by rewrite bool_decide_eq_false_2.
Qed.

Lemma trim_right_cons c l :
  trim_right (c :: l) = if is_space c && bool_decide (trim_right l = []) then [] else c :: trim_right l.
Proof.
  unfold trim_right. rewrite reverse_cons, drop_while_snoc.
  assert (He : ∀ x : list ascii, reverse x = [] ↔ x = []).
  { intros x. split; [|by intros ->]. intros Hx%(f_equal reverse). by rewrite reverse_involutive in Hx. }
  destruct (bool_decide (drop_while is_space (reverse l) = [])) eqn:Hd.
  - apply bool_decide_eq_true in Hd. rewrite Hd. simpl. destruct (is_space c); done.
  - apply bool_decide_eq_false in Hd. rewrite reverse_app. rewrite bool_decide_eq_false_2; [|by rewrite He].
    by rewrite andb_false_r.
Qed.

Lemma trim_right_stop a c l : is_space c = false → trim_right (a ++ c :: l) = a ++ c :: trim_right l.
Proof.
  intros Hc. induction a as [|x a IH]; simpl; rewrite trim_right_cons; [by rewrite Hc|].
  rewrite IH, bool_decide_eq_false_2 by by destruct a. by rewrite andb_false_r.
Qed.

Lemma trim_sides l : drop_while is_space (trim_right l) = trim_right (drop_while is_space l).
Proof.
  induction l as [|c l IH]; [done|]. rewrite trim_right_cons. simpl. destruct (is_space c) eqn:Hc; simpl.
  - case_bool_decide as Hr; [|simpl; by rewrite Hc].
    rewrite <-IH, Hr. done.
  - rewrite Hc. by rewrite trim_right_cons, Hc.
Qed.

Lemma trim_line l : trim_chars is_space (drop_while is_space (trim_right l)) = trim_chars is_space l.
Proof.
  rewrite trim_sides. change (trim_right (drop_while is_space l)) with (trim_chars is_space l).
  apply trim_chars_idemp.
Qed.

Lemma unquote_line l : unquote (of_chars (drop_while is_space (trim_right l))) = unquote (of_chars l).
Proof. unfold unquote. by rewrite !chars_of_chars, trim_line. Qed.

(** ** What is written is read back *)

Lemma escape_no_breaks v c : c ∈ chars (escapeEnvValue v) → c ≠ lf ∧ c ≠ cr.
Proof.
  unfold escapeEnvValue. rewrite chars_of_chars. unfold double_dollars.
  intros (x & Hc & Hx)%list_elem_of_bind.
  assert (Hb : ∀ r l, x ∈ flatten_breaks r l → x ≠ lf ∧ x ≠ cr).
  { clear. intros r l. revert r. induction l as [|y l IH]; intros r; simpl; [by intros ?%elem_of_nil|].
    destruct (includes y [lf; cr]) eqn:Hy; [destruct r|].
    - apply IH.
    - intros [->|?]%elem_of_cons; [done|]. by eapply IH.
    - intros [->|?]%elem_of_cons; [|by eapply IH]. apply includes_false in Hy. set_solver. }
  apply Hb in Hx. case_bool_decide; [|by apply list_elem_of_singleton in Hc as ->].
  set_solver.
Qed.

Lemma name_char_facts c : name_char c = true → is_space c = false ∧ c ≠ lf ∧ c ≠ cr ∧ c ≠ "="%char ∧ c ≠ "#"%char.
Proof. by destruct c as [[] [] [] [] [] [] [] []]. Qed.

Lemma env_name_chars n : env_name n = true →
  ∃ c l, chars n = c :: l ∧ name_start c = true ∧ ∀ x, x ∈ chars n → name_char x = true.
Proof.
  unfold env_name. destruct (chars n) as [|c l]; [done|]. intros [Hc Hl]%andb_true_iff.
  exists c, l. split_and!; [done..|]. intros x [->|Hx]%elem_of_cons.
  - unfold name_char. by rewrite Hc.
  - rewrite every_true in Hl. auto.
Qed.

Lemma take_while_stop p a c l : (∀ x, x ∈ a → p x = true) → p c = false → take_while p (a ++ c :: l) = a.
Proof.
  intros Ha Hc. induction a as [|x a IH]; simpl; [by rewrite Hc|].
  rewrite Ha by left. rewrite IH; [done|]. intros y Hy. apply Ha. by right.
Qed.

Lemma drop_while_stop p a c l : (∀ x, x ∈ a → p x = true) → p c = false → drop_while p (a ++ c :: l) = c :: l.
Proof.
  intros Ha Hc. induction a as [|x a IH]; simpl; [by rewrite Hc|].
  rewrite Ha by left. apply IH. intros y Hy. apply Ha. by right.
Qed.

(** An assignment as the writer prints it. *)
Section assignment.
Context (n : string) (e : list ascii).
Context (Hn : env_name n = true) (He : ∀ c, c ∈ e → c ≠ lf ∧ c ≠ cr).

Definition assignment : list ascii := chars n ++ "="%char :: e.

Lemma match_name_assignment : match_name assignment = Some (n, e).
Proof using Hn.
  destruct (env_name_chars n Hn) as (c & l & Hc & Hs & Hall). unfold match_name, assignment.
  rewrite take_while_stop by done. rewrite drop_while_stop by done. rewrite Hc, Hs. simpl.
  by rewrite <-(of_chars_chars n), Hc.
Qed.

Lemma sixth_no_space c rest :
  startsWith "export" (of_chars assignment) = true → drop 6 assignment = c :: rest → is_space c = false.
Proof using Hn.
  destruct (env_name_chars n Hn) as (c0 & l0 & Hc0 & _ & Hall).
  intros Hp Hd. assert (Hl : assignment !! 6%nat = Some c).
  { rewrite <-(Nat.add_0_r 6), <-lookup_drop, Hd. done. }
  apply prefix_chars in Hp as [l Hp]. rewrite chars_of_chars in Hp.
  unfold assignment in Hl, Hp. destruct (lt_eq_lt_dec 6 (length (chars n))) as [[Hlt|Heq]|Hgt].
  - rewrite lookup_app_l in Hl by lia. apply list_elem_of_lookup_2 in Hl. by apply name_char_facts, Hall.
  - rewrite lookup_app_r, <-Heq in Hl by lia. by injection Hl as <-.
  - exfalso. assert (Hx : (chars n ++ "="%char :: e) !! length (chars n) = Some "="%char).
    { rewrite lookup_app_r, Nat.sub_diag by lia. done. }
    rewrite Hp, lookup_app_l in Hx by (simpl; lia). apply list_elem_of_lookup_2 in Hx.
    revert Hx. apply (bool_decide_eq_false_1 _). done.
Qed.

Lemma match_head_assignment : match_head assignment = Some (n, e).
Proof using Hn.
  unfold match_head. destruct (startsWith _ _) eqn:Hp; [|apply match_name_assignment].
  destruct (drop 6 assignment) as [|c rest] eqn:Hd; [apply match_name_assignment|].
  rewrite (sixth_no_space c rest) by done. apply match_name_assignment.
Qed.

Lemma match_line_assignment : match_line assignment = Some (n, of_chars (drop_while is_space e)).
Proof using Hn He.
  unfold match_line. rewrite match_head_assignment. cbn.
  rewrite (proj2 (includes_false _ _)); [done|]. intros Hc%drop_while_in. by destruct (He _ Hc).
Qed.

Lemma assignment_trimmed : trim_chars is_space assignment = chars n ++ "="%char :: trim_right e.
Proof using Hn.
  destruct (env_name_chars n Hn) as (c & l & Hc & _ & Hall).
  unfold trim_chars. rewrite (drop_while_id is_space assignment).
  - fold (trim_right assignment). unfold assignment. by rewrite trim_right_stop.
  - unfold assignment. rewrite Hc. intros x [= <-]. apply name_char_facts, Hall. rewrite Hc. left.
Qed.
End assignment.

Lemma trim_right_in l c : c ∈ trim_right l → c ∈ l.
Proof. unfold trim_right. rewrite elem_of_reverse. intros Hc%drop_while_in. by rewrite elem_of_reverse in Hc. Qed.

Lemma line_chars kv : chars (dotenv_line kv) = assignment kv.1 (chars (escapeEnvValue kv.2)).
Proof. unfold dotenv_line, assignment. by rewrite !chars_app. Qed.

Lemma parse_written_line kv rest seen :
  env_name kv.1 = true → kv.1 ∉ seen →
  parse_lines (dotenv_line kv :: rest) seen [] =
  Entry kv.1 (unquote (escapeEnvValue kv.2)) None :: parse_lines rest (kv.1 :: seen) [].
Proof.
  intros Hn Hs. destruct (env_name_chars _ Hn) as (c & l & Hc & _ & Hall).
  assert (Hb : ∀ x, x ∈ trim_right (chars (escapeEnvValue kv.2)) → x ≠ lf ∧ x ≠ cr).
  { intros x Hx%trim_right_in. by apply escape_no_breaks in Hx. }
  cbn [parse_lines]. rewrite line_chars, assignment_trimmed by done.
  fold (assignment kv.1 (trim_right (chars (escapeEnvValue kv.2)))).
  rewrite match_line_assignment by done. unfold assignment at 1. rewrite Hc. cbn [app].
  assert (c ≠ "#"%char) by (apply name_char_facts, Hall; rewrite Hc; left).
  rewrite bool_decide_eq_false_2 by done. rewrite (proj2 (includes_false _ _)) by done.
  rewrite unquote_line, of_chars_chars. done.
Qed.

Lemma unix_lines_id l : cr ∉ l → unix_lines l = l.
Proof.
  induction l as [|c l IH]; simpl; [done|]. rewrite not_elem_of_cons. intros [Hc Hl].
  rewrite bool_decide_eq_false_2 by congruence. simpl. by rewrite IH.
Qed.

Lemma line_no_breaks kv c : env_name kv.1 = true → c ∈ chars (dotenv_line kv) → c ≠ lf ∧ c ≠ cr.
Proof.
  intros Hn. rewrite line_chars. unfold assignment. rewrite elem_of_app, elem_of_cons.
  destruct (env_name_chars _ Hn) as (_ & _ & _ & _ & Hall).
  intros [Hc|[->|Hc]]; [|done|by apply escape_no_breaks in Hc].
  apply Hall, name_char_facts in Hc. tauto.
Qed.

Lemma join_in c sep xs : c ∈ chars (JsText.join (String sep "") xs) → c = sep ∨ ∃ x, x ∈ xs ∧ c ∈ chars x.
Proof.
  induction xs as [|x xs IH]; [by intros ?%elem_of_nil|]. destruct xs as [|y xs].
  - intros Hc. right. exists x. split; [left|done].
  - rewrite join_cons, chars_app, chars_String, elem_of_app, elem_of_cons.
    intros [Hc|[->|Hc]]; [right; exists x; split; [left|done]|by left|].
    destruct (IH Hc) as [->|(z & Hz & Hcz)]; [by left|]. right. exists z. split; [by right|done].
Qed.

(** Reading back what was written gives every name once, in order, with its
    value as the reader unquotes it. *)
Lemma parse_written (m : env) :
  Forall (λ kv, env_name kv.1 = true) m → NoDup (fst <$> m) →
  parseDotenv (toDotenv m) = (λ kv, Entry kv.1 (unquote (escapeEnvValue kv.2)) None) <$> m.
Proof.
  intros Hn Hd. rewrite Forall_forall in Hn.
  assert (Hlines : of_chars <$> split_chars lf (unix_lines (chars (toDotenv m))) =
    (match m with [] => [""] | _ => dotenv_line <$> m end) ++ [""]).
  { unfold toDotenv. rewrite unix_lines_id.
    - change (of_chars <$> split_chars lf (chars (JsText.join nl (dotenv_line <$> m) +:+ nl))) with
        (JsText.split lf (JsText.join (String lf "") (dotenv_line <$> m) +:+ String lf "")).
      rewrite split_app_any. change (JsText.split lf "") with [""]. f_equal.
      destruct m as [|kv m]; [done|]. apply split_join; [|done].
      apply Forall_fmap, Forall_forall. intros x Hx. simpl. intros Hc%line_no_breaks; [|by apply Hn]. tauto.
    - rewrite chars_app, elem_of_app. intros [Hc|Hc].
      + apply join_in in Hc as [?|(x & (kv & -> & Hk)%list_elem_of_fmap & Hc)]; [done|].
        apply line_no_breaks in Hc; [tauto|by apply Hn].
      + by apply list_elem_of_singleton in Hc. }
  unfold parseDotenv. rewrite Hlines. clear Hlines.
  assert (Hgen : ∀ m0 seen, (∀ kv, kv ∈ m0 → env_name kv.1 = true ∧ kv.1 ∉ seen) → NoDup (fst <$> m0) →
    parse_lines ((dotenv_line <$> m0) ++ [""]) seen [] =
    (λ kv, Entry kv.1 (unquote (escapeEnvValue kv.2)) None) <$> m0).
  { induction m0 as [|kv m0 IH]; intros seen Hs Hd0; [done|].
    rewrite fmap_cons in Hd0. apply NoDup_cons in Hd0 as [Hk Hd0].
    rewrite !fmap_cons. change ((dotenv_line kv :: (dotenv_line <$> m0)) ++ [""]) with
      (dotenv_line kv :: (dotenv_line <$> m0) ++ [""]).
    destruct (Hs kv) as [H1 H2]; [left|]. rewrite parse_written_line by done. f_equal.
    apply IH; [|done]. intros kv' Hkv. destruct (Hs kv') as [H3 H4]; [by right|]. split; [done|].
    intros [He|?]%elem_of_cons; [|done]. apply Hk. rewrite <-He. by apply list_elem_of_fmap_2. }
  destruct m as [|kv m]; [done|]. apply Hgen; [|done]. intros kv' Hkv. split; [by apply Hn|].
  by intros ?%elem_of_nil.
Qed.

(** ** Drift against a file just written *)

Lemma foldl_fresh {A V} (key : A → string) (val : A → V) (l : list A) m :
  NoDup ((fst <$> m) ++ (key <$> l)) →
  foldl (λ m x, map_set (key x) (val x) m) m l = m ++ ((λ x, (key x, val x)) <$> l).
Proof.
  revert m. induction l as [|x l IH]; intros m Hn; simpl; [by rewrite app_nil_r|].
  rewrite fmap_cons in *. apply NoDup_app in Hn as (H1 & H2 & [H3 H4]%NoDup_cons).
  rewrite map_set_new by (intros Hx; apply (H2 _ Hx); left).
  rewrite IH; [by rewrite <-(assoc_L (++))|]. rewrite fmap_app, <-(assoc_L (++)). simpl.
  apply NoDup_app. split_and!; [done|done|by constructor].
Qed.

(** Whether the drift check recognises its own value. *)
Definition recognised (v : string) : bool :=
  let w := unquote (escapeEnvValue v) in bool_decide (w = v) || bool_decide (w = escapeEnvValue v).

Lemma double_dollars_cons c l :
  double_dollars (c :: l) = (if bool_decide (c = "$"%char) then ["$"%char; "$"%char] else [c]) ++ double_dollars l.
Proof. done. Qed.

Lemma double_dollars_in c l : c ∈ double_dollars l ↔ c ∈ l.
Proof.
  unfold double_dollars. rewrite list_elem_of_bind. split.
  - intros (x & Hc & Hx). case_bool_decide; [|by apply list_elem_of_singleton in Hc as ->].
    subst. apply elem_of_cons in Hc as [->|Hc]; [done|]. by apply list_elem_of_singleton in Hc as ->.
  - intros Hc. exists c. split; [|done]. case_bool_decide; [subst|]; left.
Qed.

Lemma double_dollars_head l : head (double_dollars l) = head l.
Proof. destruct l as [|c l]; [done|]. rewrite double_dollars_cons. case_bool_decide; by subst. Qed.

Lemma double_dollars_last l : last (double_dollars l) = last l.
Proof.
  induction l as [|c l IH] using rev_ind; [done|].
  unfold double_dollars in *. rewrite bind_app, last_snoc, last_app. simpl. case_bool_decide; by subst.
Qed.

Lemma flatten_breaks_id r l : (∀ c, c ∈ l → c ≠ lf ∧ c ≠ cr) → flatten_breaks r l = l.
Proof.
  revert r. induction l as [|c l IH]; intros r Hl; [done|]. cbn [flatten_breaks].
  rewrite (proj2 (includes_false _ _)).
  - f_equal. apply IH. intros x Hx. apply Hl. by right.
  - destruct (Hl c); [left|]. set_solver.
Qed.

Lemma cut_comment_id ws l : "#"%char ∉ l → cut_comment ws l = ws ++ l.
Proof.
  revert ws. induction l as [|c l IH]; intros ws Hl; [by rewrite app_nil_r|].
  apply not_elem_of_cons in Hl as [Hc Hl]. cbn [cut_comment]. destruct (is_space c).
  - rewrite IH by done. by rewrite <-(assoc_L (++)).
  - rewrite bool_decide_eq_false_2 by congruence. simpl. by rewrite IH.
Qed.

(** A value the file format does not touch. *)
Definition plain_value (v : string) : Prop :=
  trim v = v ∧ ("#"%char ∉ chars v) ∧ (∀ c, c ∈ chars v → c ≠ lf ∧ c ≠ cr) ∧
  head (chars v) ≠ Some quote2 ∧ head (chars v) ≠ Some quote1.

Lemma trimmed_ends l :
  trim_chars is_space l = l ↔
  (∀ c, head l = Some c → is_space c = false) ∧ (∀ c, last l = Some c → is_space c = false).
Proof.
  split.
  - intros He. split; intros c Hc; rewrite <-He in Hc.
    + by apply trim_chars_head in Hc.
    + by apply trim_chars_last in Hc.
  - intros [H1 H2]. by apply trim_chars_id.
Qed.

Lemma plain_recognised v : plain_value v → recognised v = true.
Proof.
  intros (Ht & Hh & Hb & Hq2 & Hq1). unfold recognised. apply orb_true_iff. right.
  apply bool_decide_eq_true. unfold escapeEnvValue. rewrite flatten_breaks_id by done.
  unfold unquote. rewrite chars_of_chars.
  assert (Htl : trim_chars is_space (double_dollars (chars v)) = double_dollars (chars v)).
  { apply trimmed_ends. rewrite double_dollars_head, double_dollars_last. apply trimmed_ends.
    unfold trim in Ht. apply (f_equal chars) in Ht. by rewrite chars_of_chars in Ht. }
  rewrite Htl. unfold enclosed. rewrite double_dollars_head.
  rewrite !(bool_decide_eq_false_2 (head _ = _)) by done. simpl.
  rewrite cut_comment_id by by rewrite double_dollars_in. simpl. by rewrite Htl.
Qed.

(** the drift check against a file Cerebro has just written.  The names
    are never reported; the values reported are exactly those that do not
    survive the reader's unquoting, and no value free of surrounding white
    space, opening quotes, hashes and line breaks is among them. *)
Theorem drift_after_write (m : env) :
  Forall (λ kv, env_name kv.1 = true) m → NoDup (fst <$> m) →
  drift m (toDotenv m) =
    ([], [], sort string_le (fst <$> findMany (λ kv, negb (recognised kv.2)) m)) ∧
  ∀ kv, kv ∈ m → plain_value kv.2 → recognised kv.2 = true.
Proof.
  intros Hn Hd. split; [|intros; by apply plain_recognised].
  unfold drift. rewrite parse_written by done.
  assert (Hh : foldl (λ m e, map_set (de_name e) (de_value e) m) []
    ((λ kv : string * string, Entry kv.1 (unquote (escapeEnvValue kv.2)) None) <$> m) =
    (λ kv : string * string, (kv.1, unquote (escapeEnvValue kv.2))) <$> m).
  { rewrite foldl_fresh; [by rewrite <-list_fmap_compose|]. by rewrite <-list_fmap_compose. }
  rewrite Hh. set (host := _ <$> m).
  assert (Hk : fst <$> host = fst <$> m) by (unfold host; by rewrite <-list_fmap_compose).
  assert (Hget : ∀ kv, kv ∈ m → map_get kv.1 host = Some (unquote (escapeEnvValue kv.2))).
  { intros kv Hkv. apply map_get_in; [by rewrite Hk|].
    by apply (list_elem_of_fmap_2 (λ kv : string * string, (kv.1, unquote (escapeEnvValue kv.2)))). }
  f_equal; [f_equal|].
  - assert (findMany (λ kv, negb (map_has kv.1 m)) host = []) as ->; [|done].
    apply findMany_none. intros kv Hkv%(list_elem_of_fmap_2 fst). rewrite Hk in Hkv.
    apply map_has_keys in Hkv. by rewrite Hkv.
  - assert (findMany (λ kv, negb (map_has kv.1 host)) m = []) as ->; [|done].
    apply findMany_none. intros kv Hkv%(list_elem_of_fmap_2 fst). rewrite <-Hk in Hkv.
    apply map_has_keys in Hkv. by rewrite Hkv.
  - f_equal. f_equal. apply list_filter_iff'. intros kv Hkv. rewrite Hget by done.
    unfold recognised. by rewrite negb_orb.
Qed.

(** A quoted value is reported for ever, however often it is written. *)
Lemma quoted_value_always_drifts :
  let m := [("GREETING", quoted "hello"); ("NOTE", "a #1")] in
  drift m (toDotenv m) = ([], [], ["GREETING"; "NOTE"]).
Proof. vm_compute. done. Qed.

Definition sample_env : env := [("PORT", "8080"); ("DB_PASSWORD", "x$funN0t")].

Lemma drift_after_write_witness :
  NoDup (fst <$> sample_env) ∧
  drift sample_env (toDotenv sample_env) =
    ([], [], sort string_le (fst <$> findMany (λ kv, negb (recognised kv.2)) sample_env)).
Proof.
  split; [by apply (bool_decide_eq_true_1 _); vm_compute|].
  exact (proj1 (drift_after_write sample_env
    ltac:(repeat constructor; vm_compute; reflexivity)
    ltac:(by apply (bool_decide_eq_true_1 _); vm_compute))).
Defined.

(** ** The environment map *)

Definition find_opt (k : string) (l : list (string * option string)) : option string :=
  findFirst (λ kv, bool_decide (kv.1 = k)) l ≫= snd.

Lemma find_opt_cons k kv l : find_opt k (kv :: l) = if bool_decide (kv.1 = k) then kv.2 else find_opt k l.
Proof. unfold find_opt. rewrite findFirst_cons. by case_bool_decide. Qed.

Lemma find_opt_absent k l : k ∉ fst <$> l → find_opt k l = None.
Proof. intros Hk. unfold find_opt. destruct (findFirst _ l) eqn:Hf; [|done]. by apply find_Some_key in Hf. Qed.

Lemma find_opt_in k x l : NoDup (fst <$> l) → (k, x) ∈ l → find_opt k l = x.
Proof. intros Hn Hin. unfold find_opt. by rewrite (findFirst_key fst l (k, x)). Qed.

Lemma get_set_somes k (l : list (string * option string)) m :
  NoDup (fst <$> l) →
  map_get k (foldl set_some m l) = match find_opt k l with Some x => Some x | None => map_get k m end.
Proof.
  revert m. induction l as [|[k' x] l IH]; intros m Hn; [done|].
  rewrite fmap_cons in Hn. apply NoDup_cons in Hn as [Hk Hn]. cbn [foldl]. rewrite IH, find_opt_cons by done.
  cbn [fst snd]. unfold set_some. cbn [fst snd]. case_bool_decide as He.
  - subst. rewrite find_opt_absent by done. destruct x; [|done]. rewrite map_get_set. by rewrite bool_decide_eq_true_2.
  - destruct (find_opt k l); [done|]. destruct x; [|done]. rewrite map_get_set. by rewrite bool_decide_eq_false_2.
Qed.

Lemma set_somes_keys l m : NoDup (fst <$> m) → NoDup (fst <$> foldl set_some m l).
Proof.
  revert m. induction l as [|[k x] l IH]; intros m Hn; [done|]. apply IH. unfold set_some. simpl.
  destruct x; [by apply map_set_keys|done].
Qed.

Lemma set_somes_origin k l m :
  k ∈ fst <$> foldl set_some m l → k ∈ fst <$> m ∨ k ∈ fst <$> l.
Proof.
  revert m. induction l as [|[k' x] l IH]; intros m; [by left|]. intros [Hk|Hk]%IH; [|by right; right].
  unfold set_some in Hk. simpl in Hk. destruct x as [x|]; [|by left].
  rewrite <-map_has_keys, map_has_get, map_get_set in Hk. case_bool_decide as He; [right; subst; left|].
  left. by rewrite <-map_has_keys, map_has_get.
Qed.


(** ** The operator's entries *)

Definition extras_ok (schema seen : list string) (x : Extras) : Prop :=
  (∀ n, n ∈ fst <$> e_values x ∨ n ∈ e_secretNames x → env_name n = true ∧ (n ∉ schema) ∧ n ∈ seen) ∧
  NoDup ((fst <$> e_values x) ++ e_secretNames x) ∧
  NoDup (fst <$> e_secrets x) ∧
  (∀ n, n ∈ fst <$> e_secrets x → n ∈ e_secretNames x) ∧
  (∀ kv, kv ∈ e_values x ++ e_secrets x → kv.2 ≠ "").

Lemma split_extras_ok schema seen entries acc r :
  extras_ok schema seen acc → split_extras schema seen entries acc = Ok r →
  ∃ seen', extras_ok schema seen' r.
Proof.
  revert seen acc. induction entries as [|raw rest IH]; intros seen acc Hok; simpl; [intros [= <-]; eauto|].
  case_bool_decide; [by apply IH|]. destruct (env_name (trim (x_name raw))) eqn:Hname; [|done]. simpl.
  destruct (includes _ schema) eqn:Hsch; [done|]. destruct (includes _ seen) eqn:Hseen; [done|].
  apply includes_false in Hsch, Hseen. set (n := trim (x_name raw)) in *.
  destruct Hok as (H1 & H2 & H3 & H4 & H5).
  assert (Hnv : n ∉ fst <$> e_values acc) by (intros Hx; by destruct (H1 n (or_introl Hx)) as (_ & _ & ?)).
  assert (Hns : n ∉ e_secretNames acc) by (intros Hx; by destruct (H1 n (or_intror Hx)) as (_ & _ & ?)).
  assert (Hnx : n ∉ fst <$> e_secrets acc) by (intros Hx; by apply Hns, H4).
  apply IH. destruct (x_secret raw); case_bool_decide as Hv; unfold extras_ok; simpl;
    rewrite ?map_set_new, ?fmap_app by done; simpl.
  - split_and!; [|rewrite (assoc_L (++)); apply NoDup_app; split_and!; [done| |apply NoDup_singleton]|done| |done].
    + intros m. rewrite elem_of_app, list_elem_of_singleton, elem_of_cons.
      intros [Hm|[Hm| ->]]; [destruct (H1 m) as (?&?&?); auto|destruct (H1 m) as (?&?&?); auto|auto].
    + intros m Hm ->%list_elem_of_singleton. apply elem_of_app in Hm as [?|?]; done.
    + intros m Hm. rewrite elem_of_app. auto.
  - split_and!; [|rewrite (assoc_L (++)); apply NoDup_app; split_and!; [done| |apply NoDup_singleton]| | |].
    + intros m. rewrite elem_of_app, list_elem_of_singleton, elem_of_cons.
      intros [Hm|[Hm| ->]]; [destruct (H1 m) as (?&?&?); auto|destruct (H1 m) as (?&?&?); auto|auto].
    + intros m Hm ->%list_elem_of_singleton. apply elem_of_app in Hm as [?|?]; done.
    + apply NoDup_app. split_and!; [done| |apply NoDup_singleton].
      by intros m Hm ->%list_elem_of_singleton.
    + intros m. rewrite !elem_of_app, list_elem_of_singleton. intros [?| ->]; auto.
    + intros kv. rewrite (assoc_L (++)), elem_of_app, list_elem_of_singleton. intros [?| ->]; auto.
  - split_and!; try done. intros m Hm. destruct (H1 m Hm) as (?&?&?). split_and!; [done..|by right].
  - split_and!; [| |done|done|].
    + intros m. rewrite elem_of_app, list_elem_of_singleton, elem_of_cons.
      intros [[Hm| ->]|Hm]; [destruct (H1 m) as (?&?&?); auto|auto|destruct (H1 m) as (?&?&?); auto].
    + rewrite <-(assoc_L (++)). simpl. apply NoDup_app in H2 as (Ha & Hb & Hc). apply NoDup_app. split_and!; [done| |].
      * intros m Hm [->|Hs]%elem_of_cons; [done|]. by apply (Hb m).
      * by constructor.
    + intros kv. rewrite !elem_of_app, list_elem_of_singleton. intros [[?| ->]|?]; auto.
      * apply H5, elem_of_app. by left.
      * apply H5, elem_of_app. by right.
Qed.

(** the operator's extras are safe to write.  An accepted list gives
    usable names, no name twice, none of them a variable of the app's schema,
    no blank value, and secret values only for names marked secret. *)
Theorem accepted_extras (entries : option (list ExtraEnvEntry)) (vars : list ReplicatorVariable) (x : Extras) :
  splitExtras entries vars = Ok x →
  (∀ n, n ∈ (fst <$> e_values x) ++ e_secretNames x → env_name n = true ∧ n ∉ names vars) ∧
  NoDup ((fst <$> e_values x) ++ e_secretNames x) ∧
  NoDup (fst <$> e_secrets x) ∧ (∀ n, n ∈ fst <$> e_secrets x → n ∈ e_secretNames x) ∧
  (∀ kv, kv ∈ e_values x ++ e_secrets x → kv.2 ≠ "").
Proof.
  intros Hs. apply split_extras_ok in Hs as (seen & H1 & H2 & H3 & H4 & H5).
  - split_and!; [|done..]. intros n. rewrite elem_of_app. intros Hn. destruct (H1 n Hn) as (?&?&?). done.
  - unfold extras_ok; simpl. split_and!; [|apply NoDup_nil_2|apply NoDup_nil_2| |];
      [intros n [Hn|Hn]|intros n Hn|intros kv Hn]; by apply elem_of_nil in Hn.
Qed.

(** ** The merged schema *)

Definition coherent (v : ReplicatorVariable) : Prop := v_secret v = true ↔ v_role v = secret_role.

Lemma sanitize_variable_coherent v : coherent (sanitize_variable v).
Proof.
  unfold coherent, sanitize_variable. destruct v as [n d r s c q x sr f cm].
  by destruct r, x; simpl.
Qed.

Lemma names_in v vars : v ∈ vars → v_name v ∈ names vars.
Proof. apply list_elem_of_fmap_2. Qed.

Lemma names_app a b : names (a ++ b) = names a ++ names b.
Proof. unfold names. by rewrite fmap_app. Qed.

Lemma merge_variable_name existing f : v_name (merge_variable existing f) = v_name f.
Proof. unfold merge_variable, keep_toggle. by repeat case_match. Qed.

Lemma sanitizeVariables_names vars :
  (∀ v, v ∈ vars → env_name (v_name v) = true) → names (sanitizeVariables vars) = names vars.
Proof.
  intros Hv. unfold sanitizeVariables, names. rewrite findMany_all by done.
  by rewrite <-list_fmap_compose.
Qed.

Lemma last_named_in n vars v : last_named n vars = Some v → v ∈ vars ∧ v_name v = n.
Proof. intros [Hv Hn%bool_decide_eq_true]%findFirst_Some. by rewrite elem_of_reverse in Hv. Qed.

Lemma last_named_None n vars : last_named n vars = None ↔ n ∉ names vars.
Proof.
  unfold last_named. rewrite findFirst_None. split.
  - intros H (v & -> & Hv)%list_elem_of_fmap. rewrite <-elem_of_reverse in Hv. specialize (H v Hv).
    by rewrite bool_decide_eq_true_2 in H.
  - intros H v Hv. rewrite elem_of_reverse in Hv. apply bool_decide_eq_false. intros <-. by apply H, names_in.
Qed.

Lemma last_named_unique v vars : NoDup (names vars) → v ∈ vars → last_named (v_name v) vars = Some v.
Proof.
  intros Hn Hv. destruct (last_named (v_name v) vars) as [w|] eqn:Hl.
  - apply last_named_in in Hl as [Hw He]. f_equal.
    pose proof (findFirst_key v_name vars v Hn Hv) as H1.
    pose proof (findFirst_key v_name vars w Hn Hw) as H2. rewrite He in H2. congruence.
  - apply last_named_None in Hl. destruct Hl. by apply names_in.
Qed.

Lemma manual_only_spec existing fresh v :
  v ∈ manual_only existing fresh ↔ v ∈ existing ∧ v_source v = Some Manual ∧ v_name v ∉ names fresh.
Proof.
  unfold manual_only. rewrite elem_of_findMany, andb_true_iff, bool_decide_eq_true, negb_true_iff, includes_false.
  tauto.
Qed.

Section merge.
Context (existing fresh : list ReplicatorVariable).
Context (Hne : NoDup (names existing)) (Hnf : NoDup (names fresh)).
Context (Hve : ∀ v, v ∈ existing → env_name (v_name v) = true).
Context (Hvf : ∀ v, v ∈ fresh → env_name (v_name v) = true ∧ coherent v).

Definition merged : list ReplicatorVariable := (mergeSchema existing fresh).1.
Definition merge_diff : SchemaDiff := (mergeSchema existing fresh).2.

Lemma merged_valid v :
  v ∈ (merge_variable existing <$> fresh) ++ manual_only existing fresh → env_name (v_name v) = true.
Proof using Hve Hvf.
  intros [(f & -> & Hf)%list_elem_of_fmap|[Hv _]%manual_only_spec]%elem_of_app; [|by apply Hve].
  rewrite merge_variable_name. by apply Hvf.
Qed.

Lemma merged_names : names merged = names fresh ++ names (manual_only existing fresh).
Proof using Hve Hvf.
  unfold merged, mergeSchema. simpl. rewrite sanitizeVariables_names by apply merged_valid.
  rewrite names_app. f_equal. unfold names. rewrite <-list_fmap_compose. apply list_fmap_ext.
  intros i f _. apply merge_variable_name.
Qed.

Lemma merged_in w :
  w ∈ merged ↔ ∃ v, w = sanitize_variable v ∧
    ((∃ f, f ∈ fresh ∧ v = merge_variable existing f) ∨ v ∈ manual_only existing fresh).
Proof using Hve Hvf.
  unfold merged, mergeSchema, sanitizeVariables. simpl. rewrite findMany_all by apply merged_valid.
  rewrite list_elem_of_fmap. setoid_rewrite elem_of_app. setoid_rewrite list_elem_of_fmap.
  split; intros (v & Hw & H); exists v; (split; [done|]); destruct H as [(f & ? & ?)|?]; eauto.
Qed.

Lemma merged_structure f : f ∈ fresh → ∃ v, v ∈ merged ∧ v_name v = v_name f ∧ v_default v = v_default f ∧
  v_service v = v_service f ∧ v_containerPort v = v_containerPort f ∧ v_required v = v_required f ∧
  (isTogglable (v_role f) = false → v_role v = v_role f) ∧
  (isTogglable (v_role f) = true → ∀ p, p ∈ existing → v_name p = v_name f →
     isTogglable (v_role p) = true → v_secret v = v_secret p).
Proof using Hne Hve Hvf.
  intros Hf. exists (sanitize_variable (merge_variable existing f)).
  split; [apply merged_in; eauto 6|].
  destruct (Hvf f Hf) as [_ Hc]. unfold merge_variable.
  destruct (last_named (v_name f) existing) as [p|] eqn:Hp.
  + apply last_named_in in Hp as Hp'. destruct Hp' as [Hpe Hpn].
    assert (Hu : ∀ q, q ∈ existing → v_name q = v_name f → q = p).
    { intros q Hq Hqn. pose proof (last_named_unique q existing Hne Hq) as Hx.
      rewrite Hqn, Hp in Hx. congruence. }
    split_and!; [by unfold keep_toggle; case_match..| |].
    * intros Ht. unfold keep_toggle. rewrite Ht. simpl. by destruct f as [? ? [] ? ? ? [] ? ? ?].
    * intros Ht q Hq Hqn Hqt. rewrite (Hu q Hq Hqn) in *. unfold keep_toggle. rewrite Ht, Hqt. simpl.
      destruct (v_secret p) eqn:Hsp; case_bool_decide as Hs; simpl; try done;
        unfold coherent in Hc; destruct f as [? ? [] ? ? ? [] ? ? ?]; simpl in *; naive_solver.
  + split_and!; [done..| |].
    * intros Ht. by destruct f as [? ? [] ? ? ? [] ? ? ?].
    * intros _ q Hq Hqn. apply last_named_None in Hp. destruct Hp. rewrite <-Hqn.
      by apply names_in.
Qed.

Lemma diff_added n : n ∈ added merge_diff ↔ n ∈ names merged ∧ n ∉ names existing.
Proof using Hve Hvf.
  rewrite merged_names.
  unfold merge_diff, mergeSchema. simpl. rewrite list_elem_of_fmap, elem_of_app. split.
  + intros (f & -> & [Hl%bool_decide_eq_true Hf]%elem_of_findMany). apply last_named_None in Hl.
    split; [left; by apply names_in|done].
  + intros [[Hn|Hn] Hx].
    * apply list_elem_of_fmap in Hn as (f & -> & Hf). exists f. split; [done|]. apply elem_of_findMany.
      split; [|done]. by apply bool_decide_eq_true, last_named_None.
    * apply list_elem_of_fmap in Hn as (v & -> & (Hv & _ & _)%manual_only_spec). destruct Hx.
      by apply names_in.
Qed.

Lemma diff_removed n : n ∈ removed merge_diff ↔ n ∈ names existing ∧ n ∉ names merged.
Proof using Hve Hvf.
  rewrite merged_names.
  unfold merge_diff, mergeSchema. simpl. rewrite list_elem_of_fmap. split.
  + intros (e & -> & [H%andb_true_iff He]%elem_of_findMany).
    rewrite !negb_true_iff, !includes_false in H. split; [by apply names_in|].
    rewrite elem_of_app. tauto.
  + intros [(e & -> & He)%list_elem_of_fmap Hx]. exists e. split; [done|]. apply elem_of_findMany.
    split; [|done]. rewrite andb_true_iff, !negb_true_iff, !includes_false, elem_of_app in *. tauto.
Qed.

Lemma diff_role_changed n from to : (n, from, to) ∈ roleChanged merge_diff →
  from ≠ to ∧ (∃ p, p ∈ existing ∧ v_name p = n ∧ v_role p = from) ∧
  ∃ f, f ∈ fresh ∧ v_name f = n ∧ v_role (merge_variable existing f) = to.
Proof using existing fresh.
  unfold merge_diff, mergeSchema. simpl. rewrite list_elem_of_omap.
  intros (f & Hf & Hr). unfold role_change in Hr.
  destruct (last_named (v_name f) existing) as [p|] eqn:Hp; [|done].
  apply last_named_in in Hp as Hp'. destruct Hp' as [Hpe Hpn].
  case_bool_decide as Hb; [done|]. injection Hr as <- <- <-. split_and!.
  + intros He. by rewrite He in Hb.
  + eauto.
  + exists f. split_and!; [done..|]. unfold merge_variable. by rewrite Hp.
Qed.

(** refreshing an app's schema.  The result names the repository's
    variables, then the hand-added ones the repository does not declare, each
    once; secret flag and role always agree; structure comes from the
    repository, except that a variable which is plain or secret on both sides
    keeps the operator's secret decision; and the difference reported is the
    true one: [added] are the names the stored schema lacked, [removed] those
    it had and the result has not, [roleChanged] the names whose role moved. *)
Theorem schema_refresh :
  names merged = names fresh ++ names (manual_only existing fresh) ∧ NoDup (names merged) ∧
  (∀ v, v ∈ merged → coherent v) ∧
  (∀ f, f ∈ fresh → ∃ v, v ∈ merged ∧ v_name v = v_name f ∧ v_default v = v_default f ∧
     v_service v = v_service f ∧ v_containerPort v = v_containerPort f ∧ v_required v = v_required f ∧
     (isTogglable (v_role f) = false → v_role v = v_role f) ∧
     (isTogglable (v_role f) = true → ∀ p, p ∈ existing → v_name p = v_name f →
        isTogglable (v_role p) = true → v_secret v = v_secret p)) ∧
  (∀ n, n ∈ added merge_diff ↔ n ∈ names merged ∧ n ∉ names existing) ∧
  (∀ n, n ∈ removed merge_diff ↔ n ∈ names existing ∧ n ∉ names merged) ∧
  (∀ n from to, (n, from, to) ∈ roleChanged merge_diff →
     from ≠ to ∧ (∃ p, p ∈ existing ∧ v_name p = n ∧ v_role p = from) ∧
     ∃ f, f ∈ fresh ∧ v_name f = n ∧ v_role (merge_variable existing f) = to).
Proof using All.
  split_and!; [apply merged_names| | |apply merged_structure|apply diff_added|apply diff_removed|apply diff_role_changed].
  - rewrite merged_names. apply NoDup_app. split_and!; [done| |].
    + intros n Hn (v & -> & (_ & _ & Hv)%manual_only_spec)%list_elem_of_fmap. done.
    + unfold manual_only. eapply sublist_NoDup; [exact Hne|]. apply fmap_sublist, sublist_filter.
  - intros v (w & -> & _)%merged_in. apply sanitize_variable_coherent.
Qed.
End merge.

(** ** Env files folded into a compose schema *)

Lemma by_name_get vars n : map_get n (by_name vars) = last_named n vars.
Proof.
  unfold by_name, last_named. induction vars as [|v vars IH] using rev_ind; [done|].
  rewrite foldl_app, reverse_app. simpl. rewrite map_get_set, IH, findFirst_cons.
  repeat case_bool_decide; congruence.
Qed.

Section env_file.
Context (composeVars : list ReplicatorVariable) (entries : list DotenvEntry) (file : string).

Definition samples : list ReplicatorVariable := envFileVariables entries file.

(** What stands under a name while the samples are folded in. *)
Definition filled (n : string) (v : ReplicatorVariable) : Prop :=
  v_name v = n ∧
  match last_named n composeVars with
  | Some c => v_role v = v_role c ∧ v_service v = v_service c ∧ v_containerPort v = v_containerPort c ∧
              v_secret v = v_secret c ∧ (v_default v = v_default c ∨
                v_default c = None ∧ looksSecret n = false ∧ ∃ e, e ∈ entries ∧ de_name e = n ∧ v_default v = Some (de_value e))
  | None => v ∈ samples ∨ ∃ w, w ∈ samples ∧ v_name w = n ∧ v_role v = v_role w ∧ v_secret v = v_secret w ∧
      (v_default v = v_default w ∨ looksSecret n = false)
  end.

Lemma sample_spec e : e ∈ samples →
  v_secret e = looksSecret (v_name e) ∧
  (v_default e ≠ None → looksSecret (v_name e) = false ∧
     ∃ d, d ∈ entries ∧ de_name d = v_name e ∧ v_default e = Some (de_value d)).
Proof.
  unfold samples, envFileVariables. intros (d & -> & Hd)%list_elem_of_fmap. simpl. split; [done|].
  destruct (looksSecret (de_name d)); simpl; [done|]. case_bool_decide; [done|]. intros _. split; [done|]. eauto.
Qed.

Lemma fill_gaps_spec n e v : e ∈ samples → v_name e = n → filled n v → filled n (fill_gaps e v).
Proof.
  intros He Hen [Hn Hf]. destruct (sample_spec e He) as [Hs Hd]. rewrite Hen in *.
  set (v' := if negb (truthy (v_comment v)) && truthy (v_comment e) then set_comment (v_comment e) v else v).
  assert (Hv' : v_name v' = v_name v ∧ v_role v' = v_role v ∧ v_service v' = v_service v ∧
    v_containerPort v' = v_containerPort v ∧ v_secret v' = v_secret v ∧ v_default v' = v_default v)
    by (unfold v'; destruct (negb _ && _); split_and!; reflexivity).
  destruct Hv' as (E1 & E2 & E3 & E4 & E5 & E6).
  unfold fill_gaps, filled. fold v'. destruct (last_named n composeVars) as [c|] eqn:Hl.
  - destruct Hf as (F1 & F2 & F3 & F4 & F5). case_match eqn:Hc; simpl; (split; [congruence|]);
      (split_and!; [congruence..|]); [|rewrite E6; done].
    rewrite !andb_true_iff, negb_true_iff, bool_decide_eq_false, bool_decide_eq_true in Hc.
    destruct Hc as [[_ Hvd] Hed]. destruct (Hd Hed) as (Hls & d & Hin & Hdn & Hdv).
    rewrite E6 in Hvd. destruct F5 as [F5|(F5 & _)]; right; (split_and!; [congruence|done|]); exists d; auto.
  - case_match eqn:Hc; simpl; (split; [congruence|]).
    + rewrite !andb_true_iff, negb_true_iff, bool_decide_eq_false in Hc. destruct Hc as [_ Hed].
      destruct (Hd Hed) as (Hls & _). right.
      destruct Hf as [Hf|(w & Hw & W0 & W1 & W2 & W3)]; [exists v|exists w]; split_and!; try congruence; auto.
    + right. destruct Hf as [Hf|(w & Hw & W0 & W1 & W2 & W3)]; [exists v|exists w]; split_and!; try congruence; auto.
Qed.

Lemma fold_env_var_get e m n :
  map_get n (fold_env_var m e) =
  if bool_decide (n = v_name e)
  then Some (match map_get (v_name e) m with Some x => fill_gaps e x | None => e end) else map_get n m.
Proof. unfold fold_env_var. by destruct (map_get (v_name e) m); rewrite map_get_set. Qed.

Lemma fold_filled l m :
  (∀ e, e ∈ l → e ∈ samples) → (∀ n v, map_get n m = Some v → filled n v) → NoDup (fst <$> m) →
  (∀ n, is_Some (last_named n composeVars) → is_Some (map_get n m)) →
  let m' := foldl fold_env_var m l in
  (∀ n v, map_get n m' = Some v → filled n v) ∧ NoDup (fst <$> m') ∧
  (∀ n, is_Some (map_get n m') ↔ is_Some (map_get n m) ∨ n ∈ names l).
Proof.
  revert m. induction l as [|e l IH]; intros m Hl Hm Hn Hc; cbn [foldl]; cbn zeta.
  { split_and!; [done..|]. intros n. split; [by left|intros [?|Hx]; [done|by apply elem_of_nil in Hx]]. }
  assert (He : e ∈ samples) by (apply Hl; left).
  destruct (IH (fold_env_var m e)) as (I1 & I2 & I3).
  - intros e' He'. apply Hl. by right.
  - intros n v. rewrite fold_env_var_get. case_bool_decide as Hk; [|by apply Hm]. intros [= <-]. subst n.
    destruct (map_get (v_name e) m) as [x|] eqn:Hx; [by apply fill_gaps_spec; auto|].
    split; [done|]. destruct (last_named (v_name e) composeVars) as [c|] eqn:Hlast; [|by left].
    destruct (Hc (v_name e)) as [y Hy]; [by eexists|]. congruence.
  - unfold fold_env_var. case_match; by apply map_set_keys.
  - intros n Hx%Hc. rewrite fold_env_var_get. by case_bool_decide.
  - split_and!; [done..|]. intros n. rewrite I3. unfold names. rewrite fmap_cons, elem_of_cons.
    fold (names l). rewrite fold_env_var_get. case_bool_decide as Hk; [|tauto].
    split; [|by left]. intros _. right. by left.
Qed.
End env_file.

(** an app that reads env files.  Folding the variables of a committed
    env file into those of the compose file names exactly the names of both,
    each once.  A variable compose declares keeps its role, service, port and
    secret flag, and its default unless it had none; and the sample value of
    a name that looks like a credential never becomes a default. *)
Theorem env_file_fills_gaps (le : string → string → bool) (composeVars : list ReplicatorVariable)
    (text file : string) :
  let vars := mergeEnvFileVars le composeVars (envFileVariables (parseDotenv text) file) in
  (∀ n, n ∈ names vars ↔ n ∈ names composeVars ∨ n ∈ de_name <$> parseDotenv text) ∧
  (∀ v c, v ∈ vars → last_named (v_name v) composeVars = Some c →
     v_role v = v_role c ∧ v_service v = v_service c ∧ v_containerPort v = v_containerPort c ∧
     v_secret v = v_secret c ∧ (v_default c ≠ None → v_default v = v_default c)) ∧
  (∀ v d, v ∈ vars → looksSecret (v_name v) = true → v_default v = Some d →
     ∃ c, c ∈ composeVars ∧ v_name c = v_name v ∧ v_default c = Some d).
Proof.
  intros vars. set (entries := parseDotenv text).
  set (m := foldl fold_env_var (by_name composeVars) (samples entries file)).
  assert (Hkeys : NoDup (fst <$> by_name composeVars)).
  { unfold by_name. generalize (NoDup_nil_2 (A := string)).
    change (@nil string) with (fst <$> @nil (string * ReplicatorVariable)).
    generalize (@nil (string * ReplicatorVariable)). induction composeVars as [|v l IH]; intros m0 Hm0; [done|].
    by apply IH, map_set_keys. }
  destruct (fold_filled composeVars entries file (samples entries file) (by_name composeVars)) as (H1 & H2 & H3).
  - done.
  - intros n v. rewrite by_name_get. intros Hl. pose proof (last_named_in n composeVars v Hl) as [_ Hn].
    split; [done|]. rewrite Hl. split_and!; [done..|]. by left.
  - done.
  - intros n. by rewrite by_name_get.
  - fold m in H1, H2, H3.
    assert (Hin : ∀ v, v ∈ vars ↔ map_get (v_name v) m = Some v).
    { intros v. unfold vars, mergeEnvFileVars. rewrite sort_in.
      change (foldl fold_env_var _ _) with m. split.
      - intros ([n w] & -> & Hw)%list_elem_of_fmap. simpl. apply map_get_in in Hw; [|done].
        by destruct (H1 n w Hw) as [-> _].
      - intros Hv. unfold map_get in Hv. apply fmap_Some in Hv as (kv & Hf & ->).
        apply findFirst_Some in Hf as [Hf _]. by apply list_elem_of_fmap_2. }
    assert (Hsn : names (samples entries file) = de_name <$> entries).
    { unfold samples, envFileVariables, names. by rewrite <-list_fmap_compose. }
    split_and!.
    + intros n. rewrite <-Hsn.
      assert (Hc : n ∈ names composeVars ↔ is_Some (map_get n (by_name composeVars))).
      { rewrite by_name_get. destruct (last_named n composeVars) eqn:Hl.
        - split; [by eexists|intros _]. apply last_named_in in Hl as [Hl <-]. by apply names_in.
        - apply last_named_None in Hl. split; [done|by intros []]. }
      rewrite Hc, <-H3. split.
      * intros (v & -> & Hv%Hin)%list_elem_of_fmap. by eexists.
      * intros [v Hv]. destruct (H1 n v Hv) as [<- _]. by apply names_in, Hin.
    + intros v c Hv%Hin Hl. destruct (H1 _ _ Hv) as [_ Hf]. rewrite Hl in Hf.
      destruct Hf as (? & ? & ? & ? & [?|(? & ? & _)]); split_and!; try done; congruence.
    + intros v d Hv%Hin Hs Hd. destruct (H1 _ _ Hv) as [_ Hf].
      destruct (last_named (v_name v) composeVars) as [c|] eqn:Hl.
      * apply last_named_in in Hl as [Hc Hcn]. destruct Hf as (_ & _ & _ & _ & [?|(_ & ? & _)]); [|congruence].
        exists c. split_and!; [done..|congruence].
      * exfalso. destruct Hf as [Hf|(w & Hw & W0 & W1 & W2 & [W3|?])]; [| |congruence].
        -- destruct (sample_spec entries file v Hf) as [_ Hx]. destruct Hx as [? _]; congruence.
        -- destruct (sample_spec entries file w Hw) as [_ Hx]. destruct Hx as [? _]; congruence.
Qed.

(** ** Witnesses *)

Definition sample_var (n : string) (r : role) (d : option string) (s : option var_source) : ReplicatorVariable :=
  Var n d r None None false (bool_decide (r = secret_role)) s None None.

Definition sample_schema : list ReplicatorVariable :=
  [sample_var "APP_IMAGE" image_tag None (Some Compose); sample_var "DB_PASSWORD" secret_role (Some "changeme") (Some EnvFile);
   sample_var "LOG_LEVEL" plain (Some "info") (Some EnvFile)].


Definition one_extra : list ExtraEnvEntry := [Extra "FEATURE_X" (Some "on") false; Extra "API_TOKEN" (Some "t") true].
Definition one_split : Extras := SplitExtras [("FEATURE_X", "on")] [("API_TOKEN", "t")] ["API_TOKEN"].

Lemma accepted_extras_witness :
  splitExtras (Some one_extra) sample_schema = Ok one_split ∧
  NoDup ((fst <$> e_values one_split) ++ e_secretNames one_split).
Proof.
  split; [vm_compute; reflexivity|].
  exact (proj1 (proj2 (accepted_extras (Some one_extra) sample_schema one_split ltac:(vm_compute; reflexivity)))).
Defined.

(** A repository that renames a variable, and an operator who marked another
    one secret and added a third by hand. *)
Definition stored_schema : list ReplicatorVariable :=
  [sample_var "OLD_NAME" plain None (Some Compose); sample_var "LOG_LEVEL" secret_role None (Some Compose);
   sample_var "MY_OWN" plain None (Some Manual)].
Definition fresh_schema : list ReplicatorVariable :=
  [sample_var "NEW_NAME" plain None (Some Compose); sample_var "LOG_LEVEL" plain (Some "info") (Some Compose)].

Lemma schema_refresh_witness :
  NoDup (names stored_schema) ∧ names (merged stored_schema fresh_schema) = ["NEW_NAME"; "LOG_LEVEL"; "MY_OWN"].
Proof.
  split; [by apply (bool_decide_eq_true_1 _); vm_compute|].
  assert (Hs : ∀ v, v ∈ stored_schema → env_name (v_name v) = true).
  { apply Forall_forall. repeat constructor. }
  assert (Hf : ∀ v, v ∈ fresh_schema → env_name (v_name v) = true ∧ coherent v).
  { apply Forall_forall. repeat constructor; done. }
  rewrite (proj1 (schema_refresh stored_schema fresh_schema
    ltac:(by apply (bool_decide_eq_true_1 _); vm_compute)
    ltac:(by apply (bool_decide_eq_true_1 _); vm_compute) Hs Hf)).
  vm_compute. reflexivity.
Defined.
