(* ===== verification/SecretCapture.v ===== *)
(** * What a snapshot records of a stack's credentials

    [stack-backup/secret-capture.ts], and the reading back of
    [stack-backup/stack-restore.service.ts] ([resolveSnapshotSecrets],
    [fillVaultReferences]).

    The regular expressions are written out on the characters of a line; [.]
    matches neither a line feed nor a carriage return.  The vault is
    [Secrets]' service, on its part of the state; the sealed file is
    [Bundle]'s.  An environment is the list of its entries in the order in which
    they are enumerated, an object or a [Map] the list of its entries in
    insertion order ([EnvFiles.map_set]).  [localeCompare] is an order [le]; reading
    a file off the host is a function, which answers nothing where the command
    fails.  The constant schema numbers are left out, and a list that the code
    leaves out of a record when it is empty is an empty list. *)

From S2P Require Import Prelude JsText Crypto Secrets EnvFiles Bundle.
From stdpp Require Import gmap strings options.
Import SecretsService.

#[local] Set Default Proof Using "Type*".

(** ** Data *)

Inductive SecretMode := Embed | Reference | Raw.
Inductive BindingOrigin := Replicator | GitCredential | Inferred | Declared.

#[export] Instance SecretMode_eq_dec : EqDecision SecretMode.
Proof. solve_decision. Defined.
#[export] Instance BindingOrigin_eq_dec : EqDecision BindingOrigin.
Proof. solve_decision. Defined.

Record SecretBinding := Binding {
  sb_varName : string; sb_vaultKey : string; sb_origin : BindingOrigin; sb_digest : option string
}.

Record ResolvedVariable := Resolved {
  rv_name : string;
  rv_containers : list string;
  rv_value : string;
  rv_digest : string;
  rv_secretish : bool;
  rv_vaultKey : option string;
  rv_origin : option BindingOrigin
}.

Record InventoryVariable := InvVar {
  iv_name : string; iv_containers : list string; iv_digest : string; iv_secretish : bool;
  iv_vaultKey : option string; iv_origin : option BindingOrigin
}.

Record SecretInventory := Inventory {
  in_secretMode : SecretMode;
  in_variables : list InventoryVariable;
  in_bindings : list SecretBinding;
  in_sealed : bool;
  in_unbound : list string;
  in_inlineComposeSecrets : list string;
  in_fileSecrets : list string;
  in_capturedFiles : list string
}.

Record SecretPayload := Payload {
  pa_containers : list (string * list (string * string));
  pa_env : option string;
  pa_bindings : list SecretBinding;
  pa_composeSecrets : option (list (string * string));
  pa_files : option (list (string * string))
}.

(** A container of the inspection, with its environment. *)
Record StackContainer := InContainer { sc_name : string; sc_env : list (string * string) }.

(** Rows: a deployment of the replicator, a managed stack, a stored binding
    ([stackSecretBinding]). *)
Record DeploymentRow := Deployment {
  dr_id : string; dr_instance : string; dr_project : string; dr_secretVars : list string; dr_extraSecretVars : list string
}.
Record StackRow := Stack { sr_instance : string; sr_name : string; sr_gitCredKey : option string }.
Record BindingRow := StackSecretBinding {
  br_instance : string; br_stack : string; br_var : string;
  br_vaultKey : option string; br_origin : BindingOrigin; br_digest : option string; br_secretish : bool; br_seen : Z
}.

Record world := World {
  vault : Secrets.state;
  deployments : list DeploymentRow;
  stacks : list StackRow;
  bindings : list BindingRow
}.
Definition with_bindings (f : list BindingRow → list BindingRow) (w : world) : world :=
  World (vault w) (deployments w) (stacks w) (f (bindings w)).
Definition with_vault (v : Secrets.state) (w : world) : world := World v (deployments w) (stacks w) (bindings w).

#[local] Abbreviation call := (svc world output http_error).

Definition on_vault {A} : svc Secrets.state output http_error A → call A := focus vault with_vault.

(** ** The compose file *)

Definition any_char (c : ascii) : bool := negb (includes c [lf; cr]).
Definition blank_char (c : ascii) : bool := includes c [" "%char; ascii_of_nat 9].

(** An entry of an environment, as a list item or a mapping: white space, an
    optional dash with white space, a name, blanks, an equals sign or a colon
    and one white space, and the rest of the line.  The result is what precedes
    the name, the name, whether the separator is an equals sign, and the rest. *)
Definition entry_indent (l : list ascii) : list ascii * list ascii :=
  let ws := take_while is_space l in
  match drop_while is_space l with
  | c :: r => if bool_decide (c = "-"%char) then (ws ++ c :: take_while is_space r, drop_while is_space r) else (ws, c :: r)
  | [] => (ws, [])
  end.

Definition match_separator (l : list ascii) : option (bool * list ascii) :=
  match l with
  | c :: r =>
      if bool_decide (c = "="%char) then (if every any_char r then Some (true, r) else None)
      else if bool_decide (c = ":"%char) then
        match r with
        | s :: r' => if is_space s && every any_char r' then Some (false, r') else None
        | [] => None
        end
      else None
  | [] => None
  end.

Definition match_entry (l : list ascii) : option (list ascii * list ascii * bool * list ascii) :=
  let '(indent, r) := entry_indent l in
  let name := take_while name_char r in
  if match head name with Some c => name_start c | None => false end then
    '(eq, rest) ← match_separator (drop_while blank_char (drop_while name_char r));
    Some (indent, name, eq, rest)
  else None.

Definition is_quote (c : ascii) : bool := includes c [quote2; quote1].

(** One quote goes at the start, and one at the end. *)
Definition strip_quotes (l : list ascii) : list ascii :=
  let l1 := match l with c :: r => if is_quote c then r else l | [] => [] end in
  match last l1 with
  | Some c => if is_quote c then take (length l1 - 1) l1 else l1
  | None => l1
  end.

Definition marker_prefix : string := "<cerebro-sealed-".
Definition COMPOSE_MARKER (n : nat) : string := marker_prefix +:+ num_to_string (Z.of_nat n) +:+ ">".

(** The credential a line holds literally: what precedes it (with its separator
    written anew), the name, and the value. *)
Definition literal_credential (line : string) : option (string * string * string) :=
  '(indent, name, eq, rest) ← match_entry (chars line);
  let rawValue := trim (of_chars rest) in
  let value := of_chars (strip_quotes (chars rawValue)) in
  if bool_decide (rawValue = "") || negb (looksSecret (of_chars name)) || bool_decide (value = "") ||
     has_substring "${" value || startsWith marker_prefix value
  then None
  else Some (of_chars (indent ++ name) +:+ (if (eq : bool) then "=" else ": "), of_chars name, rawValue).

(** The lines so far, the values by marker, the names; [n] is the next marker. *)
Fixpoint redact_lines (n : nat) (lines : list string) : list string * list (string * string) * list string :=
  match lines with
  | [] => ([], [], [])
  | line :: lines' =>
      match literal_credential line with
      | None => let '(out, vals, ns) := redact_lines n lines' in (line :: out, vals, ns)
      | Some (before, name, value) =>
          let '(out, vals, ns) := redact_lines (S n) lines' in
          ((before +:+ COMPOSE_MARKER n) :: out, (COMPOSE_MARKER n, value) :: vals, name :: ns)
      end
  end.

Definition lines_of (s : string) : list string := JsText.split lf s.
Definition unlines (ls : list string) : string := JsText.join nl ls.

Definition redactCompose (compose : option string) : option string * list (string * string) * list string :=
  match compose with
  | Some c =>
      if bool_decide (c = "") then (Some c, [], [])
      else let '(out, vals, ns) := redact_lines 0 (lines_of c) in (Some (unlines out), vals, ns)
  | None => (None, [], [])
  end.

(** The marker at the start, if any. *)
Definition match_marker (l : list ascii) : option (list ascii) :=
  if startsWith marker_prefix (of_chars l) then
    let r := drop (String.length marker_prefix) l in
    match take_while is_digit r, drop_while is_digit r with
    | d :: ds, ">"%char :: _ => Some (chars marker_prefix ++ d :: ds ++ [">"%char])
    | _, _ => None
    end
  else None.

(** The replacement of every match; [skip] characters belong to the last one. *)
Fixpoint put_back (vals : list (string * string)) (skip : nat) (l : list ascii) : list ascii :=
  match l with
  | [] => []
  | c :: l' =>
      match skip with
      | S k => put_back vals k l'
      | O =>
          match match_marker l with
          | Some m => chars (default (of_chars m) (map_get (of_chars m) vals)) ++ put_back vals (length m - 1) l'
          | None => c :: put_back vals 0 l'
          end
      end
  end.

Definition restoreCompose (compose : string) (vals : list (string * string)) : string :=
  of_chars (put_back vals 0 (chars compose)).

(** ** The [.env] *)

Definition comment_line (line : string) : bool :=
  let t := trim line in bool_decide (t = "") || startsWith "#" t.

(** What precedes the first equals sign, if something does. *)
Definition before_eq (line : string) : option string :=
  if comment_line line then None
  else match indexOf "=" line with
       | Some (S i) => Some (slice_to (S i) line)
       | _ => None
       end.

Definition redactEnv (env : string) : string :=
  unlines ((λ line, match before_eq line with Some b => b +:+ "=<sealed>" | None => line end) <$> lines_of env).

Definition placeholder (key : string) : string := "${vault:" +:+ key +:+ "}".

(** [byName] maps a name to its vault key; an empty key is none. *)
Definition reference_line (byName : list (string * option string)) (line : string) : string :=
  match before_eq line with
  | None => line
  | Some b =>
      match map_get (trim b) byName with
      | Some (Some key) => if bool_decide (key = "") then line else b +:+ "=" +:+ placeholder key
      | _ => line
      end
  end.

Definition referenceEnv (env : string) (byName : list (string * option string)) : string :=
  unlines (reference_line byName <$> lines_of env).

(** ** Credentials in files *)

Definition MAX_FILE_SECRET_BYTES : Z := 256 * 1024.

Record FileSecret := InFile { fs_label : string; fs_path : string; fs_of_compose : bool }.

(** A [file:] line of a compose file: what follows, trimmed. *)
Definition match_file (line : string) : option string :=
  let r := drop_while is_space (chars line) in
  if startsWith "file:" (of_chars r) && every any_char (drop 5 r) then Some (trim (of_chars (drop 5 r))) else None.

Definition add_file (out : list (string * FileSecret)) (line : string) : list (string * FileSecret) :=
  match match_file line with
  | None => out
  | Some raw =>
      let path := of_chars (strip_quotes (chars raw)) in
      if negb (bool_decide (raw = "")) && (startsWith "/" path || startsWith "./" path)
      then map_set path (InFile path path true) out else out
  end.

Definition detectFileSecrets (compose : option string) (variables : list ResolvedVariable) : list FileSecret :=
  let out := foldl (λ out v,
    if endsWith "_file" (toLowerCase (rv_name v)) && startsWith "/" (rv_value v)
    then map_set (rv_value v) (InFile (rv_name v +:+ "=" +:+ rv_value v) (rv_value v) false) out else out) [] variables in
  snd <$> (match compose with
           | Some c => if bool_decide (c = "") then out else foldl add_file out (lines_of c)
           | None => out
           end).

(** ** Discovery *)

Section capture.
Context `{Vault} (valueDigest : string → string) (le : string → string → bool).

Definition of_stack {R} (instance_ name : R → string) (i n : string) (r : R) : bool :=
  bool_decide (instance_ r = i) && bool_decide (name r = n).

Definition known_of (instance_ stackName : string) (w : world) : list SecretBinding :=
  let own :=
    match findFirst (of_stack dr_instance dr_project instance_ stackName) (deployments w) with
    | Some d => (λ name, Binding name ("deployment:" +:+ dr_id d +:+ ":" +:+ name) Replicator None) <$>
                  (dr_secretVars d ++ dr_extraSecretVars d)
    | None => []
    end in
  let git :=
    match findFirst (of_stack sr_instance sr_name instance_ stackName) (stacks w) ≫= sr_gitCredKey with
    | Some key => if bool_decide (key = "") then [] else [Binding "@git" key GitCredential None]
    | None => []
    end in
  own ++ git.
Definition knownBindings (instance_ stackName : string) : call (list SecretBinding) :=
  gets (known_of instance_ stackName).

(** A [Map] built from an array. *)
Definition map_of {V} (kvs : list (string * V)) : list (string * V) := foldl (λ m kv, map_set kv.1 kv.2 m) [] kvs.

Definition is_binding (instance_ stackName name : string) (r : BindingRow) : bool :=
  bool_decide (br_instance r = instance_) && bool_decide (br_stack r = stackName) && bool_decide (br_var r = name).

Definition note_var (container : string) (seen : list (string * (list string * string))) (kv : string * string) :=
  match map_get kv.1 seen with
  | Some (cs, v) => map_set kv.1 (cs ++ [container], v) seen
  | None => map_set kv.1 ([container], kv.2) seen
  end.
Definition collect (containers : list StackContainer) : list (string * (list string * string)) :=
  foldl (λ seen c, foldl (note_var (sc_name c)) seen (sc_env c)) [] containers.

(** The vault key of one variable and where it comes from. *)
Definition bind_variable (known : list (string * SecretBinding)) (declared : list (string * BindingRow))
    (vaultDigests : gmap string (list string)) (name value : string) : option string * option BindingOrigin :=
  let by_declaration := map_get name declared ≫= br_vaultKey in
  if truthy by_declaration then (by_declaration, Some Declared)
  else match map_get name known with
       | Some b => (Some (sb_vaultKey b), Some Replicator)
       | None =>
           match vaultDigests !! valueDigest value with
           | Some (k :: _) => (Some k, Some Inferred)
           | _ => (None, None)
           end
       end.

Definition resolve_variable (known : list (string * SecretBinding)) (declared : list (string * BindingRow))
    (vaultDigests : gmap string (list string)) (nv : string * (list string * string)) : ResolvedVariable :=
  let '(vaultKey, origin) := bind_variable known declared vaultDigests nv.1 nv.2.2 in
  Resolved nv.1 nv.2.1 nv.2.2 (valueDigest nv.2.2) (looksSecret nv.1) vaultKey origin.

(** A credential that is no variable, such as the one of the git clone. *)
Definition add_known (out : list ResolvedVariable) (b : SecretBinding) : list ResolvedVariable :=
  if startsWith "@" (sb_varName b) && negb (some (λ v, bool_decide (rv_name v = sb_varName b)) out)
  then out ++ [Resolved (sb_varName b) [] "" "" true (Some (sb_vaultKey b)) (Some (sb_origin b))] else out.

Definition declared_rows (instance_ stackName : string) (t : list BindingRow) : list BindingRow :=
  findMany (λ r, of_stack br_instance br_stack instance_ stackName r && bool_decide (br_origin r = Declared)) t.

Definition discover (instance_ stackName : string) (containers : list StackContainer) : call (list ResolvedVariable) :=
  bs ← knownBindings instance_ stackName;
  let known := map_of ((λ b, (sb_varName b, b)) <$> bs) in
  rows ← gets (λ w, declared_rows instance_ stackName (bindings w));
  let declared := map_of ((λ r, (br_var r, r)) <$> rows) in
  vaultDigests ← catch (on_vault (digestAll valueDigest)) (λ _, mret ∅);
  let out := resolve_variable known declared vaultDigests <$> sort (λ a b, le a.1 b.1) (collect containers) in
  mret (foldl add_known out (snd <$> known)).

(** One row of the upsert. *)
Definition binding_row (now : Z) (instance_ stackName : string) (v : ResolvedVariable) : BindingRow :=
  StackSecretBinding instance_ stackName (rv_name v) (rv_vaultKey v) (default Inferred (rv_origin v))
    (if bool_decide (rv_digest v = "") then None else Some (rv_digest v)) (rv_secretish v) now.

Definition upsert_binding (now : Z) (instance_ stackName : string) (v : ResolvedVariable) (t : list BindingRow) : list BindingRow :=
  if some (is_binding instance_ stackName (rv_name v)) t
  then updateMany (is_binding instance_ stackName (rv_name v)) (λ _, binding_row now instance_ stackName v) t
  else createRow (binding_row now instance_ stackName v) t.

Definition persist_one (now : Z) (instance_ stackName : string) (v : ResolvedVariable) : call unit :=
  w ← get;
  let existing := findFirst (is_binding instance_ stackName (rv_name v)) (bindings w) in
  if negb (bool_decide (rv_origin v = Some Declared)) && bool_decide (br_origin <$> existing = Some Declared)
  then mret tt
  else modify (with_bindings (upsert_binding now instance_ stackName v)).

Definition persist (now : Z) (instance_ stackName : string) (vars : list ResolvedVariable) : call unit :=
  for_each vars (persist_one now instance_ stackName).

(** ** Capture *)

Record CaptureSecretsInput := CaptureInput {
  ci_instanceId : string;
  ci_stackName : string;
  ci_containers : list StackContainer;
  ci_secretMode : SecretMode;
  ci_envFile : option string;
  ci_compose : option string;
  ci_passphrase : option string;
  ci_readHostFile : option (string → option string)
}.

Record CapturedSecrets := Captured {
  ca_files : list (string * string); ca_inventory : SecretInventory; ca_compose : option string
}.

Context `{Packing, NodeCrypto, Json SecretPayload, Json SecretInventory}.

Definition binding_of (v : ResolvedVariable) : option SecretBinding :=
  match rv_vaultKey v, rv_origin v with
  | Some k, Some o => if bool_decide (k = "") then None
                      else Some (Binding (rv_name v) k o (if bool_decide (rv_digest v = "") then None else Some (rv_digest v)))
  | _, _ => None
  end.
Definition unbound_names (variables : list ResolvedVariable) : list string :=
  rv_name <$> findMany (λ v, rv_secretish v && negb (truthy (rv_vaultKey v))) variables.

(** The credential files that can be read and are small enough. *)
Definition read_files (read : string → option string) (found : list FileSecret) : list (string * string) :=
  foldl (λ out f,
    match read (fs_path f) with
    | Some content => if (MAX_FILE_SECRET_BYTES <? Z.of_nat (String.length content))%Z then out else map_set (fs_path f) content out
    | None => out
    end) [] found.

Definition inventory_variable (v : ResolvedVariable) : InventoryVariable :=
  InvVar (rv_name v) (rv_containers v) (rv_digest v) (rv_secretish v) (rv_vaultKey v) (rv_origin v).

Definition refuse_unbound (names : list string) : http_error :=
  BadRequest ("Vault-reference mode needs every credential bound to a vault key first. Unbound: " +:+ JsText.join ", " names +:+
    ". Promote them into the vault from this stack's secrets view, or use sealed mode.").
Definition refuse_inline (names : list string) : http_error :=
  BadRequest ("These credentials are written literally in the compose file, so there is nothing for a vault reference to point at: " +:+
    JsText.join ", " names +:+ ". Move them into the .env (or the vault) first, or use sealed mode.").

(** The files of the snapshot beside the inventory; [salt] and [iv] are the random
    bytes of the sealed one. *)
Definition secret_files (salt iv : string) (input : CaptureSecretsInput) (variables : list ResolvedVariable)
    (composeSecrets captured : list (string * string)) : list (string * string) :=
  let containers := map_of ((λ c, (sc_name c, sc_env c)) <$> ci_containers input) in
  let bound := omap binding_of variables in
  match ci_secretMode input with
  | Embed =>
      let payload := Payload containers (ci_envFile input) bound (Some composeSecrets) (Some captured) in
      ("secrets.sealed.b64",
        base64 (of_chars (sealBundle payload (default "" (ci_passphrase input)) salt iv)) +:+ nl) ::
      match ci_envFile input with
      | Some env => if bool_decide (env = "") then [] else [("stack.env.redacted", redactEnv env)]
      | None => []
      end
  | Reference =>
      match ci_envFile input with
      | Some env => if bool_decide (env = "") then []
                    else [("stack.env.reference", referenceEnv env (map_of ((λ v, (rv_name v, rv_vaultKey v)) <$> variables)))]
      | None => []
      end
  | Raw =>
      let payload := Payload containers (ci_envFile input) bound None (Some captured) in
      ("secrets.raw.json", stringify_indented payload +:+ nl) ::
      match ci_envFile input with
      | Some env => if bool_decide (env = "") then [] else [("stack.env", env)]
      | None => []
      end
  end.

(** The refusals and the snapshot, once the variables are known. *)
Definition assemble (salt iv : string) (input : CaptureSecretsInput) (variables : list ResolvedVariable) : call CapturedSecrets :=
  let mode := ci_secretMode input in
  let unbound := unbound_names variables in
  let '(redacted, composeSecrets, inlineNames) :=
    if bool_decide (mode = Raw) then (ci_compose input, [], []) else redactCompose (ci_compose input) in
  let fileSecrets := detectFileSecrets (ci_compose input) variables in
  when (bool_decide (mode = Reference))
    (throw_if (negb (bool_decide (unbound = []))) (refuse_unbound unbound) ;;
     throw_if (negb (bool_decide (inlineNames = []))) (refuse_inline inlineNames)) ;;
  let captured :=
    match ci_readHostFile input with
    | Some read => if bool_decide (mode = Reference) then [] else read_files read fileSecrets
    | None => []
    end in
  let inventory := Inventory mode (inventory_variable <$> variables) (omap binding_of variables)
    (bool_decide (mode = Embed)) unbound inlineNames (fs_label <$> fileSecrets) (fst <$> captured) in
  mret (Captured (("secrets.json", stringify_indented inventory +:+ nl) :: secret_files salt iv input variables composeSecrets captured)
    inventory redacted).

Definition capture (now : Z) (salt iv : string) (input : CaptureSecretsInput) : call CapturedSecrets :=
  throw_if (bool_decide (ci_secretMode input = Embed) && negb (truthy (ci_passphrase input)))
    (BadRequest "This backup seals its secrets, so it needs a passphrase. Supply one, or switch the policy to raw.") ;;
  variables ← discover (ci_instanceId input) (ci_stackName input) (ci_containers input);
  persist now (ci_instanceId input) (ci_stackName input) variables ;;
  assemble salt iv input variables.

(** ** Restore *)

(** A line that is a placeholder: what precedes it, and the key. *)
Definition match_placeholder (line : string) : option (string * string) :=
  let l := chars line in
  let r := drop_while is_space l in
  let name := take_while name_char r in
  let r2 := drop_while name_char r in
  let r3 := drop_while is_space r2 in
  if match head name with Some c => name_start c | None => false end && startsWith "=${vault:" (of_chars r3) then
    let body := trim_right (drop 9 r3) in
    let key := take (length body - 1) body in
    if bool_decide (last body = Some "}"%char) && negb (bool_decide (key = [])) && every any_char key
    then Some (of_chars (take_while is_space l ++ name ++ take_while is_space r2 ++ ["="%char]), of_chars key)
    else None
  else None.

(** The lines with their values, and the keys that are gone; the reads run one
    after the other. *)
Fixpoint fill_lines (now : Z) (lines : list string) : call (list string * list string) :=
  match lines with
  | [] => mret ([], [])
  | line :: lines' =>
      match match_placeholder line with
      | None => '(out, missing) ← fill_lines now lines'; mret (line :: out, missing)
      | Some (before, key) =>
          value ← catch (on_vault (reveal now key)) (λ _, mret None);
          '(out, missing) ← fill_lines now lines';
          mret (match value with Some v => ((before +:+ v) :: out, missing) | None => (line :: out, key :: missing) end)
      end
  end.

Definition fillVaultReferences (now : Z) (template : string) : call string :=
  '(lines, missing) ← fill_lines now (lines_of template);
  throw_if (negb (bool_decide (missing = [])))
    (Internal ("These vault keys are gone, so the .env cannot be rebuilt: " +:+ JsText.join ", " missing +:+ ".")) ;;
  mret (unlines lines).

Record RestoredSecrets := RestoredWith {
  rs_env : string; rs_composeSecrets : list (string * string); rs_files : list (string * string)
}.
Definition nothing : RestoredSecrets := RestoredWith "" [] [].

(** [dumpFile(...).catch(() => '')] *)
Definition dump (snapshot : list (string * string)) (file : string) : string := default "" (map_get file snapshot).

Definition resolveSnapshotSecrets (now : Z) (snapshot : list (string * string)) (mode : SecretMode)
    (passphrase : option string) : call RestoredSecrets :=
  match mode with
  | Embed =>
      let b64 := dump snapshot "secrets.sealed.b64" in
      match passphrase with
      | Some p =>
          if bool_decide (p = "") || bool_decide (trim b64 = "") then mret nothing
          else match openBundle (chars (unbase64 (trim b64))) p with
               | Ok payload => mret (RestoredWith (default "" (pa_env payload)) (default [] (pa_composeSecrets payload))
                                       (default [] (pa_files payload)))
               | Err _ => throw (Internal "Wrong passphrase — the sealed secrets could not be opened.")
               end
      | None => mret nothing
      end
  | Reference =>
      let template := dump snapshot "stack.env.reference" in
      if bool_decide (trim template = "") then mret nothing
      else env ← fillVaultReferences now template; mret (RestoredWith env [] [])
  | Raw =>
      let raw := dump snapshot "secrets.raw.json" in
      let fallback := RestoredWith (dump snapshot "stack.env") [] [] in
      if bool_decide (trim raw = "") then mret fallback
      else match json_parse raw with
           | None => throw (Internal "Unexpected token in JSON")
           | Some payload =>
               mret (if truthy (pa_env payload)
                     then RestoredWith (default "" (pa_env payload)) (default [] (pa_composeSecrets payload))
                            (default [] (pa_files payload))
                     else fallback)
           end
  end.

End capture.

(** ** Lemmas on text *)

Lemma has_substring_chars sub s : has_substring sub s = true ↔ ∃ a b, chars s = a ++ chars sub ++ b.
Proof.
  induction s as [|c s IH]; cbn [has_substring]; rewrite orb_true_iff, prefix_chars.
  - split; [intros [[b Hb]|Hf]; [by exists [], b | done]|].
    intros (a & b & Hb). left. exists b. by destruct a.
  - rewrite IH. split.
    + intros [[b Hb]|(a & b & Hb)]; [by exists [], b|]. exists (c :: a), b. simpl. by rewrite Hb.
    + intros ([|x a] & b & Hb); [left; by exists b|]. right. simplify_eq/=. by exists a, b.
Qed.

Lemma take_while_in p l c : c ∈ take_while p l → p c = true.
Proof.
  induction l as [|x l IH]; simpl; [by intros ?%elem_of_nil|]. destruct (p x) eqn:Hx; [|by intros ?%elem_of_nil].
  intros [->|?]%elem_of_cons; auto.
Qed.

(** ** Compose files: taking credentials out and putting them back *)

Definition open_mark : ascii := "<"%char.

(** What an indentation looks like: white space, then a dash and white space. *)
Definition indentation (i : list ascii) : Prop :=
  ∃ ws, (∀ c, c ∈ ws → is_space c = true) ∧
    (i = ws ∨ ∃ ws', i = ws ++ "-"%char :: ws' ∧ ∀ c, c ∈ ws' → is_space c = true).

Lemma entry_indent_spec l : indentation (entry_indent l).1.
Proof.
  exists (take_while is_space l). split; [intros c; apply take_while_in|]. unfold entry_indent.
  destruct (drop_while is_space l) as [|c r]; [by left|]. case_bool_decide; [right; subst|by left].
  exists (take_while is_space r). split; [done | intros c; apply take_while_in].
Qed.

Lemma entry_indent_at i c r :
  indentation i → is_space c = false → c ≠ "-"%char → entry_indent (i ++ c :: r) = (i, c :: r).
Proof.
  intros (ws & Hws & Hi) Hc Hd. unfold entry_indent. destruct Hi as [->|(ws' & -> & Hws')].
  - rewrite take_while_stop, drop_while_stop by done. by rewrite bool_decide_eq_false_2.
  - rewrite <-app_assoc. simpl. rewrite take_while_stop, drop_while_stop by done.
    rewrite bool_decide_eq_true_2 by done. by rewrite take_while_stop, drop_while_stop.
Qed.

Lemma take_while_sub p l c : c ∈ take_while p l → c ∈ l.
Proof.
  induction l as [|x l IH]; simpl; [done|]. destruct (p x); [|by intros ?%elem_of_nil].
  rewrite !elem_of_cons. tauto.
Qed.

Lemma entry_indent_in l c : c ∈ (entry_indent l).1 → c ∈ l.
Proof.
  unfold entry_indent. pose proof (drop_while_in is_space l) as Hd.
  destruct (drop_while is_space l) as [|x r]; simpl; [apply take_while_sub|]. case_bool_decide; [|apply take_while_sub].
  simpl. rewrite elem_of_app, elem_of_cons. intros [Hc|[->|Hc]]; [by eapply take_while_sub | apply Hd; by left|].
  apply Hd. right. by eapply take_while_sub.
Qed.

Lemma match_separator_any l eq rest : match_separator l = Some (eq, rest) → every any_char rest = true.
Proof.
  unfold match_separator. destruct l as [|c r]; [done|]. repeat case_match; intros [=]; simplify_eq; [done|].
  by match goal with H : _ && _ = true |- _ => apply andb_true_iff in H as [_ ?] end.
Qed.

Lemma match_entry_spec l indent name eq rest :
  match_entry l = Some (indent, name, eq, rest) →
  indentation indent ∧ (∃ c n, name = c :: n ∧ name_start c = true) ∧ (∀ c, c ∈ name → name_char c = true) ∧
  every any_char rest = true ∧ (∀ c, c ∈ indent → c ∈ l).
Proof.
  unfold match_entry. pose proof (entry_indent_in l) as Hsub. pose proof (entry_indent_spec l) as Hi. destruct (entry_indent l) as [i r]. simpl in Hi, Hsub.
  pose proof (take_while_in name_char r) as Hn. destruct (take_while name_char r) as [|c n]; [done|]. simpl.
  destruct (name_start c) eqn:Hc; [|done]. intros Hm. destruct (match_separator _) as [[eq' rest']|] eqn:Hs; [|done].
  simplify_eq/=. split_and!; [done | by exists c, n | done | by eapply match_separator_any | done].
Qed.

Lemma name_start_plain c : name_start c = true → is_space c = false ∧ c ≠ "-"%char.
Proof. by destruct c as [[] [] [] [] [] [] [] []]. Qed.

(** The separator as it is written anew. *)
Definition separator (eq : bool) : list ascii := if eq then ["="%char] else [":"%char; " "%char].

Lemma match_entry_at indent name eq rest :
  indentation indent → (∃ c n, name = c :: n ∧ name_start c = true) → (∀ c, c ∈ name → name_char c = true) →
  every any_char rest = true →
  match_entry (indent ++ name ++ separator eq ++ rest) = Some (indent, name, eq, rest).
Proof.
  intros Hi (c & n & -> & Hc) Hn Hr. unfold match_entry. destruct (name_start_plain c Hc) as [Hs Hd].
  cbn [app]. rewrite entry_indent_at by done.
  assert (Hsep : ∃ s t, separator eq ++ rest = s :: t ∧ name_char s = false ∧ blank_char s = false ∧
    match_separator (s :: t) = Some (eq, rest)).
  { destruct eq; eexists _, _; (split; [reflexivity|]); split_and!; try done; unfold match_separator; simpl; by rewrite Hr. }
  destruct Hsep as (s & t & -> & Hs1 & Hs2 & Hm).
  change (c :: n ++ s :: t) with ((c :: n) ++ s :: t). rewrite take_while_stop, drop_while_stop by done.
  cbn [head]. rewrite Hc. cbn [drop_while]. rewrite Hs2, Hm. done.
Qed.

(** *** Putting values back *)

Definition marker_chars : list ascii := chars marker_prefix.

Lemma marker_char_printable c : c ∈ marker_chars → c ≠ lf.
Proof. intros Hc ->. vm_compute in Hc. by repeat (apply elem_of_cons in Hc as [Hc|Hc]; [done|]); apply elem_of_nil in Hc. Qed.

Lemma pretty_N_go_ne x s : (0 < x)%N → pretty_N_go x s ≠ "".
Proof.
  revert s. induction (N.lt_wf_0 x) as [x _ IH]; intros s Hx. rewrite pretty_N_go_step by done.
  destruct (decide (x `div` 10 = 0)%N) as [->|?]; [by rewrite pretty_N_go_0|].
  apply IH; [by apply N.div_lt | by apply N.neq_0_lt_0].
Qed.

Lemma digits_of_number n : ∃ d ds, chars (num_to_string (Z.of_nat n)) = d :: ds ∧ ∀ c, c ∈ d :: ds → is_digit c = true.
Proof.
  destruct n as [|n]; [eexists _, _; split; [reflexivity|]; by intros c [->|?%elem_of_nil]%elem_of_cons|].
  change (num_to_string (Z.of_nat (S n))) with (pretty_N_go (Npos (Pos.of_succ_nat n)) "").
  destruct (pretty_N_go (Npos (Pos.of_succ_nat n)) "") as [|d s] eqn:He; [by apply pretty_N_go_ne in He|].
  exists d, (chars s). split; [done|]. intros c Hc. change (c ∈ chars (String d s)) in Hc. rewrite <-He in Hc.
  apply pretty_N_go_chars in Hc as [?|Hc]; [done | by apply elem_of_nil in Hc].
Qed.

Lemma marker_layout n : ∃ d ds, chars (COMPOSE_MARKER n) = marker_chars ++ d :: ds ++ [">"%char] ∧
  ∀ c, c ∈ d :: ds → is_digit c = true.
Proof.
  destruct (digits_of_number n) as (d & ds & He & Hd). exists d, ds. split; [|done].
  unfold COMPOSE_MARKER. by rewrite !chars_app, He.
Qed.

Lemma match_marker_here n r : match_marker (chars (COMPOSE_MARKER n) ++ r) = Some (chars (COMPOSE_MARKER n)).
Proof.
  destruct (marker_layout n) as (d & ds & He & Hd). unfold match_marker.
  assert (Hp : startsWith marker_prefix (of_chars (chars (COMPOSE_MARKER n) ++ r)) = true).
  { unfold startsWith. apply prefix_chars. rewrite chars_of_chars, He, <-!app_assoc. by eexists. }
  rewrite Hp, He, <-!app_assoc, <-(length_chars marker_prefix), drop_app_length.
  change ((d :: ds ++ [">"%char]) ++ r) with (d :: (ds ++ [">"%char]) ++ r).
  rewrite <-app_assoc. change (d :: ds ++ [">"%char] ++ r) with ((d :: ds) ++ ">"%char :: r).
  by rewrite take_while_stop, drop_while_stop.
Qed.

Lemma match_marker_None l : (∀ b, l ≠ marker_chars ++ b) → match_marker l = None.
Proof.
  intros Hl. unfold match_marker, startsWith. destruct (String.prefix _ _) eqn:Hp; [|done].
  apply prefix_chars in Hp as [b Hb]. rewrite chars_of_chars in Hb. by destruct (Hl b).
Qed.

(** Text that does not hold the beginning of a marker. *)
Definition clean (l : list ascii) : Prop := ∀ a b, l ≠ a ++ marker_chars ++ b.
Definition line_end (r : list ascii) : Prop := r = [] ∨ ∃ r', r = lf :: r'.

Lemma clean_tail c l : clean (c :: l) → clean l.
Proof. intros Hl a b ->. by apply (Hl (c :: a) b). Qed.

(** A marker does not go over the end of a line. *)
Lemma prefix_before_end m l r b :
  (∀ c, c ∈ m → c ≠ lf) → line_end r → l ++ r = m ++ b → ∃ b', l = m ++ b'.
Proof.
  revert l. induction m as [|c m IH]; intros l Hm Hr He; [by exists l|]. destruct l as [|x l].
  - simpl in He. destruct Hr as [->|[r' ->]]; [done|]. simplify_eq/=. by destruct (Hm lf); [left|].
  - simplify_eq/=. destruct (IH l) as [b' ->]; [|done|done|by exists b']. intros x Hx. apply Hm. by right.
Qed.

Section put_back.
Variable vals : list (string * string).

Lemma put_back_cons c l : match_marker (c :: l) = None → put_back vals 0 (c :: l) = c :: put_back vals 0 l.
Proof. intros Hm. cbn [put_back]. by rewrite Hm. Qed.

Lemma put_back_skip a r : put_back vals (length a) (a ++ r) = put_back vals 0 r.
Proof. induction a; [done|]. cbn [length app put_back]. done. Qed.

Lemma put_back_end r : put_back vals 0 (lf :: r) = lf :: put_back vals 0 r.
Proof. apply put_back_cons, match_marker_None. by intros b [=]. Qed.

Lemma put_back_clean l r : clean l → line_end r → put_back vals 0 (l ++ r) = l ++ put_back vals 0 r.
Proof.
  intros Hl Hr. induction l as [|c l IH]; [done|]. cbn [app]. rewrite put_back_cons; [f_equal; by eapply IH, clean_tail|].
  apply match_marker_None. intros b Hb.
  destruct (prefix_before_end marker_chars (c :: l) r b) as [b' Hb']; [apply marker_char_printable | done | done|].
  by apply (Hl [] b').
Qed.

Lemma put_back_plain l r : open_mark ∉ l → put_back vals 0 (l ++ r) = l ++ put_back vals 0 r.
Proof.
  induction l as [|c l IH]; [done|]. intros [Hc Hl]%not_elem_of_cons. cbn [app].
  rewrite put_back_cons; [by rewrite IH|]. apply match_marker_None. intros b [= -> _]. done.
Qed.

Lemma put_back_marker n r :
  put_back vals 0 (chars (COMPOSE_MARKER n) ++ r) =
  chars (default (COMPOSE_MARKER n) (map_get (COMPOSE_MARKER n) vals)) ++ put_back vals 0 r.
Proof.
  pose proof (match_marker_here n r) as Hm. destruct (chars (COMPOSE_MARKER n)) as [|c m] eqn:Hc.
  { destruct (marker_layout n) as (? & ? & He & _). by rewrite Hc in He. }
  cbn [app put_back] in *. rewrite Hm. assert (of_chars (c :: m) = COMPOSE_MARKER n) as -> by by rewrite <-Hc, of_chars_chars.
  f_equal. change (length (c :: m) - 1) with (length m - 0). rewrite Nat.sub_0_r. apply put_back_skip.
Qed.
End put_back.

(** *** The round trip *)

(** A line once its credential has been taken out and put back: the separator is
    written anew, and blanks around the value are gone. *)
Definition normalise_line (line : string) : string :=
  match literal_credential line with Some (before, _, value) => before +:+ value | None => line end.

Lemma literal_credential_spec line before name value :
  literal_credential line = Some (before, name, value) →
  ∃ indent eq, indentation indent ∧ chars before = indent ++ chars name ++ separator eq ∧
    (∃ c n, chars name = c :: n ∧ name_start c = true) ∧ (∀ c, c ∈ chars name → name_char c = true) ∧
    looksSecret name = true ∧ value ≠ "" ∧ (∀ c, c ∈ chars value → any_char c = true) ∧
    has_substring "${" (of_chars (strip_quotes (chars value))) = false ∧ (∀ c, c ∈ indent → c ∈ chars line).
Proof.
  unfold literal_credential. intros Hl. destruct (match_entry (chars line)) as [[[[indent n] eq] rest]|] eqn:Hm; [|done].
  apply match_entry_spec in Hm as (Hi & Hn & Hn' & Hr & Hsub). simpl in Hl. case_match eqn:Hc; [done|]. simplify_eq.
  rewrite !orb_false_iff in Hc. destruct Hc as ((((H1 & H2) & _) & H4) & _).
  apply bool_decide_eq_false in H1. apply negb_false_iff in H2.
  exists indent, eq. rewrite !chars_of_chars. split_and!; try done.
  - rewrite chars_app, chars_of_chars, <-app_assoc. by destruct eq.
  - intros c Hc. apply trim_in in Hc. rewrite chars_of_chars in Hc. rewrite every_true in Hr. by apply Hr.
Qed.

Lemma indentation_plain i c : indentation i → c ∈ i → is_space c = true ∨ c = "-"%char.
Proof.
  intros (ws & Hws & [->|(ws' & -> & Hws')]) Hc; [left; auto|].
  rewrite elem_of_app, elem_of_cons in Hc. destruct Hc as [?|[->|?]]; auto.
Qed.

Lemma before_unmarked line before name value :
  literal_credential line = Some (before, name, value) → open_mark ∉ chars before.
Proof.
  intros (i & eq & Hi & -> & _ & Hn & _)%literal_credential_spec. rewrite !elem_of_app.
  intros [Hc|[Hc|Hc]].
  - by apply (indentation_plain i) in Hc as [?|?].
  - by apply Hn in Hc.
  - destruct eq; cbn in Hc; rewrite ?elem_of_cons, elem_of_nil in Hc; naive_solver.
Qed.

Definition mark_char (c : ascii) : Prop := any_char c = true ∧ is_space c = false ∧ is_quote c = false.

Lemma marker_mark_chars n c : c ∈ chars (COMPOSE_MARKER n) → mark_char c.
Proof.
  destruct (marker_layout n) as (d & ds & -> & Hd). rewrite elem_of_app. intros [Hc|Hc].
  - assert (Hg : Forall mark_char marker_chars) by (by repeat constructor). rewrite Forall_forall in Hg. by apply Hg.
  - change (d :: ds ++ [">"%char]) with ((d :: ds) ++ [">"%char]) in Hc.
    apply elem_of_app in Hc as [Hc|[->|?%elem_of_nil]%elem_of_cons]; [|by repeat split|done].
    apply Hd in Hc. by destruct c as [[] [] [] [] [] [] [] []].
Qed.

Lemma strip_unquoted l : (∀ c, c ∈ l → is_quote c = false) → strip_quotes l = l.
Proof.
  intros Hl. unfold strip_quotes. destruct l as [|c r]; [done|]. rewrite (Hl c) by left.
  destruct (last (c :: r)) as [x|] eqn:Hx; [|done]. by rewrite (Hl x) by by apply last_Some_elem_of.
Qed.

Lemma marked_entry l line : match_entry l = Some line → (∀ c, c ∈ line.2 → mark_char c) →
  startsWith marker_prefix (of_chars line.2) = true → literal_credential (of_chars l) = None.
Proof.
  destruct line as [[[i n] eq] rest]. intros He Hm Hp. cbn [snd] in *. unfold literal_credential.
  rewrite chars_of_chars, He. cbn [mbind option_bind].
  rewrite trim_id by (intros c; rewrite chars_of_chars; by intros (_ & ? & _)%Hm).
  rewrite chars_of_chars, strip_unquoted by (by intros c (_ & _ & ?)%Hm). by rewrite Hp, orb_true_r.
Qed.

Lemma marker_not_literal line before name value n :
  literal_credential line = Some (before, name, value) → literal_credential (before +:+ COMPOSE_MARKER n) = None.
Proof.
  intros (i & eq & Hi & Hb & Hn & Hn' & _)%literal_credential_spec.
  rewrite <-(of_chars_chars (before +:+ COMPOSE_MARKER n)).
  apply (marked_entry _ (i, chars name, eq, chars (COMPOSE_MARKER n))); cbn [snd].
  - rewrite chars_app, Hb, <-!app_assoc. apply match_entry_at; [done|done|done|].
    apply every_true. by intros c (? & _)%marker_mark_chars.
  - apply marker_mark_chars.
  - rewrite of_chars_chars. apply startsWith_app.
Qed.

Lemma redact_keys n lines : (redact_lines n lines).1.2.*1 = COMPOSE_MARKER <$> seq n (length (redact_lines n lines).1.2).
Proof.
  revert n. induction lines as [|line lines IH]; intros n; [done|]. cbn [redact_lines].
  destruct (literal_credential line) as [[[before name] value]|].
  - specialize (IH (S n)). destruct (redact_lines (S n) lines) as [[out vals] ns]. cbn [fst snd length seq] in *. rewrite !fmap_cons. by f_equal.
  - specialize (IH n). by destruct (redact_lines n lines) as [[out vals] ns].
Qed.

Lemma redacted_not_literal n lines line : line ∈ (redact_lines n lines).1.1 → literal_credential line = None.
Proof.
  revert n. induction lines as [|l lines IH]; intros n; [by intros ?%elem_of_nil|]. cbn [redact_lines].
  destruct (literal_credential l) as [[[before name] value]|] eqn:Hl.
  - specialize (IH (S n)). destruct (redact_lines (S n) lines) as [[out vals] ns]. simpl in *.
    intros [->|?]%elem_of_cons; [by eapply marker_not_literal | auto].
  - specialize (IH n). destruct (redact_lines n lines) as [[out vals] ns]. simpl in *.
    intros [->|?]%elem_of_cons; auto.
Qed.

Definition literal_name (line : string) : option string := snd ∘ fst <$> literal_credential line.

Lemma redacted_names n lines : (redact_lines n lines).2 = omap literal_name lines.
Proof.
  revert n. induction lines as [|l lines IH]; intros n; [done|]. cbn [redact_lines omap list_omap]. unfold literal_name at 1.
  destruct (literal_credential l) as [[[before name] value]|]; simpl.
  - specialize (IH (S n)). destruct (redact_lines (S n) lines) as [[out vals] ns]. simpl in *. by rewrite IH.
  - specialize (IH n). by destruct (redact_lines n lines) as [[out vals] ns].
Qed.

(** Each line of the redacted text comes back, before whatever begins with the end
    of the line. *)
Lemma put_lines_back vals n lines :
  (∀ l, l ∈ lines → clean (chars l)) → (∀ k v, (k, v) ∈ (redact_lines n lines).1.2 → map_get k vals = Some v) →
  put_back vals 0 (chars (unlines (redact_lines n lines).1.1)) = chars (unlines (normalise_line <$> lines)).
Proof.
  revert n. induction lines as [|l lines IH]; intros n Hl Hv; [done|].
  assert (Hline : ∃ out_line m rest, redact_lines n (l :: lines) = (out_line :: (redact_lines m lines).1.1, rest ++ (redact_lines m lines).1.2, (redact_lines n (l :: lines)).2) ∧
    ∀ r, line_end r → put_back vals 0 (chars out_line ++ r) = chars (normalise_line l) ++ put_back vals 0 r).
  { cbn [redact_lines] in *. unfold normalise_line. destruct (literal_credential l) as [[[before name] value]|] eqn:Hc.
    - exists (before +:+ COMPOSE_MARKER n), (S n), [(COMPOSE_MARKER n, value)].
      destruct (redact_lines (S n) lines) as [[out vs] ns]. split; [done|]. intros r Hr.
      rewrite !chars_app, <-!app_assoc, put_back_plain by (by eapply before_unmarked).
      rewrite put_back_marker, (Hv _ value) by by left. done.
    - exists l, n, []. destruct (redact_lines n lines) as [[out vs] ns]. split; [done|]. intros r Hr.
      apply put_back_clean; [apply Hl; by left | done]. }
  destruct Hline as (o & m & rest & He & Ho). rewrite He in Hv |- *. cbn [fst snd] in *.
  specialize (IH m (λ x Hx, Hl x (list_elem_of_further _ _ _ Hx)) (λ k v Hk, Hv k v (proj2 (elem_of_app _ _ _) (or_intror Hk)))).
  destruct lines as [|l' lines].
  - change (put_back vals 0 (chars o) = chars (normalise_line l)). specialize (Ho [] (or_introl eq_refl)).
    by rewrite !app_nil_r in Ho.
  - rewrite fmap_cons. destruct (redact_lines m (l' :: lines)).1.1 as [|o' os] eqn:Hos.
    { exfalso. cbn [redact_lines] in Hos. by repeat case_match; simplify_eq/=. }
    unfold unlines in *. rewrite fmap_cons in IH |- *. change nl with (String lf "") in *.
    rewrite !join_cons, !chars_app, !chars_String, Ho by (right; by eexists). by rewrite put_back_end, IH.
Qed.

Lemma before_one_line line before name value :
  literal_credential line = Some (before, name, value) → lf ∉ chars line → lf ∉ chars before.
Proof.
  intros (i & eq & _ & -> & _ & Hn & _ & _ & _ & _ & Hsub)%literal_credential_spec Hlf. rewrite !elem_of_app.
  intros [Hc|[Hc|Hc]]; [by apply Hlf, Hsub | by apply Hn in Hc|].
  destruct eq; cbn in Hc; rewrite ?elem_of_cons, elem_of_nil in Hc; naive_solver.
Qed.

Lemma redacted_lines n lines :
  Forall (λ l, lf ∉ chars l) lines → Forall (λ l, lf ∉ chars l) (redact_lines n lines).1.1.
Proof.
  intros Hl. revert n. induction Hl as [|l lines Hl Hls IH]; intros n; [by constructor|]. cbn [redact_lines].
  destruct (literal_credential l) as [[[before name] value]|] eqn:Hc.
  - specialize (IH (S n)). destruct (redact_lines (S n) lines) as [[out vals] ns]. constructor; [|done].
    rewrite chars_app, elem_of_app. intros [Hb|Hm]; [by eapply before_one_line in Hb|].
    by apply marker_mark_chars in Hm as (? & _).
  - specialize (IH n). destruct (redact_lines n lines) as [[out vals] ns]. by constructor.
Qed.

Lemma nothing_redacted n lines : (redact_lines n lines).2 = [] → (redact_lines n lines).1.1 = lines.
Proof.
  revert n. induction lines as [|l lines IH]; intros n; [done|]. cbn [redact_lines].
  destruct (literal_credential l) as [[[before name] value]|].
  - by destruct (redact_lines (S n) lines) as [[out vals] ns].
  - specialize (IH n). destruct (redact_lines n lines) as [[out vals] ns]. cbn [fst snd] in *. intros Hn. by rewrite IH.
Qed.

Lemma line_in_text (l1 l2 : list string) l : ∃ a b, chars (unlines (l1 ++ l :: l2)) = a ++ chars l ++ b.
Proof.
  induction l1 as [|x l1 (a & b & IH)].
  - destruct l2 as [|y l2]; [exists [], []; by rewrite app_nil_r|]. exists [], (lf :: chars (unlines (y :: l2))).
    unfold unlines. change nl with (String lf ""). cbn [app]. by rewrite join_cons, chars_app, chars_String.
  - exists (chars x ++ lf :: a), b. cbn [app]. destruct (l1 ++ l :: l2) as [|y ys] eqn:Hy; [by destruct l1|].
    unfold unlines in *. change nl with (String lf "") in *. rewrite join_cons, chars_app, chars_String, IH.
    by rewrite <-!app_assoc.
Qed.

Lemma lines_of_clean c line : has_substring marker_prefix c = false → line ∈ lines_of c → clean (chars line).
Proof.
  intros Hc (l1 & l2 & Hl)%list_elem_of_split a b Hab. apply not_true_iff_false in Hc. apply Hc, has_substring_chars.
  destruct (line_in_text l1 l2 line) as (x & y & Hxy). rewrite <-Hl in Hxy. unfold unlines, lines_of in Hxy.
  change nl with (String lf "") in Hxy. rewrite join_split, Hab in Hxy. exists (x ++ a), (b ++ y). by rewrite Hxy, <-!app_assoc.
Qed.

Lemma lines_of_unlines ls : Forall (λ l, lf ∉ chars l) ls → ls ≠ [] → lines_of (unlines ls) = ls.
Proof. apply split_join. Qed.

Lemma lines_of_spec c : Forall (λ l, lf ∉ chars l) (lines_of c) ∧ lines_of c ≠ [] ∧ unlines (lines_of c) = c.
Proof.
  split_and!; [apply Forall_forall; intros l Hl; by apply split_in in Hl as [? _] | | apply (join_split lf)].
  unfold lines_of, JsText.split. intros He%fmap_nil_inv. by apply split_chars_ne in He.
Qed.

Lemma restore_redacted c :
  has_substring marker_prefix c = false →
  restoreCompose (unlines (redact_lines 0 (lines_of c)).1.1) (redact_lines 0 (lines_of c)).1.2 =
  unlines (normalise_line <$> lines_of c).
Proof.
  intros Hc. unfold restoreCompose. rewrite put_lines_back, of_chars_chars; [done | |].
  - intros l Hl. by eapply lines_of_clean.
  - intros k v Hkv. apply map_get_in; [|done]. rewrite redact_keys. apply NoDup_fmap_2; [|apply NoDup_seq].
    intros x y Hxy. unfold COMPOSE_MARKER in Hxy. apply (f_equal chars) in Hxy. rewrite !chars_app in Hxy.
    apply app_inv_head, app_inv_tail, chars_inj, num_to_string_inj in Hxy. lia.
Qed.


(** ** Discovery *)

Section maps.
Context {V : Type}.
Implicit Types (m kvs : list (string * V)).

Lemma map_of_snoc kvs k v : map_of (kvs ++ [(k, v)]) = map_set k v (map_of kvs).
Proof. unfold map_of. by rewrite foldl_app. Qed.

(** A [Map] built from an array answers from the array. *)
Lemma map_of_get k kvs :
  match map_get k (map_of kvs) with Some v => (k, v) ∈ kvs | None => k ∉ kvs.*1 end.
Proof.
  induction kvs as [|[k' v'] kvs IH] using rev_ind; [by intros ?%elem_of_nil|].
  rewrite map_of_snoc, map_get_set. case_bool_decide as Hk; [subst; apply elem_of_app; right; by left|].
  rewrite fmap_app. destruct (map_get k (map_of kvs)); rewrite elem_of_app; [by left|].
  intros [?|[?|?%elem_of_nil]%elem_of_cons]; done.
Qed.

Lemma map_of_unique k v kvs : NoDup kvs.*1 → (k, v) ∈ kvs → map_get k (map_of kvs) = Some v.
Proof.
  intros Hn Hin. pose proof (map_of_get k kvs) as Hg. destruct (map_get k (map_of kvs)) as [v'|].
  - by pose proof (NoDup_key fst kvs _ _ Hn Hin Hg eq_refl) as [= ->].
  - destruct Hg. by apply (list_elem_of_fmap_2 fst) in Hin.
Qed.

Lemma map_of_id kvs : NoDup kvs.*1 → map_of kvs = kvs.
Proof.
  induction kvs as [|[k v] kvs IH] using rev_ind; [done|]. rewrite fmap_app, NoDup_app. intros (Hn & Hd & _).
  rewrite map_of_snoc, IH by done. apply map_set_new. intros Hk. destruct (Hd k Hk). by left.
Qed.

Lemma map_set_elem k v m k' v' : (k', v') ∈ map_set k v m → (k' = k ∧ v' = v) ∨ (k', v') ∈ m.
Proof.
  unfold map_set. case_match.
  - rewrite elem_of_updateMany. intros ([k1 v1] & Hin & He). case_bool_decide as Hb; simplify_eq/=; auto.
  - rewrite elem_of_createRow. intros [?|[=]]; auto.
Qed.

Lemma map_of_elem k v kvs : (k, v) ∈ map_of kvs → (k, v) ∈ kvs.
Proof.
  induction kvs as [|[k' v'] kvs IH] using rev_ind; [done|]. rewrite map_of_snoc, elem_of_app.
  intros [[-> ->]|?]%map_set_elem; [right; by left | left; auto].
Qed.
End maps.

(** The containers that set a variable, and what the scan of the environments
    knows of it. *)
Definition sets (name : string) (c : StackContainer) : bool := map_has name (sc_env c).
Definition scanned (name : string) (cs : list StackContainer) : option (list string * string) :=
  match findMany (sets name) cs with
  | [] => None
  | c :: cs' => Some (sc_name <$> c :: cs', default "" (map_get name (sc_env c)))
  end.

Lemma note_var_get cn seen k v name :
  map_get name (note_var cn seen (k, v)) =
  if bool_decide (name = k)
  then Some (match map_get name seen with Some (cs, v0) => (cs ++ [cn], v0) | None => ([cn], v) end)
  else map_get name seen.
Proof.
  unfold note_var. cbn [fst snd]. destruct (map_get k seen) as [[cs v0]|] eqn:Hk; rewrite map_get_set;
    case_bool_decide as He; subst; by rewrite ?Hk.
Qed.

Lemma note_vars cn env seen name :
  NoDup env.*1 →
  map_get name (foldl (note_var cn) seen env) =
  match map_get name env with
  | None => map_get name seen
  | Some v => Some (match map_get name seen with Some (cs, v0) => (cs ++ [cn], v0) | None => ([cn], v) end)
  end.
Proof.
  revert seen. induction env as [|[k v] env IH]; intros seen; [done|]. rewrite fmap_cons, NoDup_cons. intros [Hk Hn].
  cbn [foldl]. rewrite IH, map_get_cons, note_var_get by done. case_bool_decide as He.
  - subst. by rewrite (proj2 (map_get_None k env)), bool_decide_eq_true_2.
  - by rewrite bool_decide_eq_false_2.
Qed.

Lemma collect_get name cs :
  Forall (λ c, NoDup (sc_env c).*1) cs → map_get name (collect cs) = scanned name cs.
Proof.
  unfold collect, scanned. induction cs as [|c cs IH] using rev_ind; [done|]. rewrite Forall_app, Forall_singleton.
  intros [Hcs Hc]. rewrite foldl_app. cbn [foldl]. rewrite note_vars, IH by done.
  assert (Hf : findMany (sets name) (cs ++ [c]) =
    findMany (sets name) cs ++ match map_get name (sc_env c) with Some _ => [c] | None => [] end).
  { unfold findMany. rewrite filter_app. f_equal. unfold filter. cbn [list_filter]. unfold sets.
    destruct (map_get name (sc_env c)) eqn:Hg.
    - assert (map_has name (sc_env c) = true) as -> by (apply map_has_get; by eexists). done.
    - destruct (map_has name (sc_env c)) eqn:Hh; [|done]. apply map_has_get in Hh as [? Hh]. congruence. }
  rewrite Hf. destruct (map_get name (sc_env c)) as [v|] eqn:Hg; [|by rewrite app_nil_r].
  destruct (findMany (sets name) cs) as [|c0 cs0]; cbn [app]; [by rewrite Hg|].
  by rewrite !fmap_cons, fmap_app.
Qed.

Lemma collect_keys cs : NoDup (collect cs).*1.
Proof.
  assert (Hn : ∀ cn kv seen, NoDup seen.*1 → NoDup (note_var cn seen kv).*1).
  { intros cn kv seen Hs. unfold note_var. destruct (map_get kv.1 seen) as [[??]|]; by apply map_set_keys. }
  assert (He : ∀ cn env seen, NoDup seen.*1 → NoDup (foldl (note_var cn) seen env).*1).
  { intros cn env. induction env as [|kv env IH]; intros seen Hs; [done|]. apply IH, Hn, Hs. }
  unfold collect. induction cs as [|c cs IH] using rev_ind; [by constructor|]. rewrite foldl_app. by apply He.
Qed.

Lemma collected name x cs :
  Forall (λ c, NoDup (sc_env c).*1) cs → ((name, x) ∈ collect cs ↔ scanned name cs = Some x).
Proof.
  intros Hcs. rewrite <-collect_get by done. split; [apply map_get_in, collect_keys|].
  unfold map_get. intros Hg. destruct (findFirst _ (collect cs)) as [[k y]|] eqn:Hf; [|done].
  apply findFirst_Some in Hf as [Hin Hk%bool_decide_eq_true]. by simplify_eq/=.
Qed.

(** The key of a stored binding, unique in the table. *)
Definition binding_key (r : BindingRow) : string * string * string := (br_instance r, br_stack r, br_var r).
Definition unique_bindings (w : world) : Prop := NoDup (binding_key <$> bindings w).

Lemma is_binding_key i s n r : is_binding i s n r = true ↔ binding_key r = (i, s, n).
Proof. unfold is_binding, binding_key. rewrite !andb_true_iff, !bool_decide_eq_true. naive_solver. Qed.

Lemma declared_rows_elem i s t r :
  r ∈ declared_rows i s t ↔ r ∈ t ∧ br_instance r = i ∧ br_stack r = s ∧ br_origin r = Declared.
Proof.
  unfold declared_rows, of_stack. rewrite elem_of_findMany, !andb_true_iff, !bool_decide_eq_true. naive_solver.
Qed.

Definition declared_map (i s : string) (w : world) : list (string * BindingRow) :=
  map_of ((λ r, (br_var r, r)) <$> declared_rows i s (bindings w)).
Definition known_map (i s : string) (w : world) : list (string * SecretBinding) :=
  map_of ((λ b, (sb_varName b, b)) <$> known_of i s w).

Lemma declared_map_get i s w n :
  unique_bindings w →
  match map_get n (declared_map i s w) with
  | Some r => r ∈ bindings w ∧ binding_key r = (i, s, n) ∧ br_origin r = Declared
  | None => ∀ r, r ∈ bindings w → binding_key r = (i, s, n) → br_origin r ≠ Declared
  end.
Proof.
  intros Hn. unfold declared_map. pose proof (map_of_get n ((λ r, (br_var r, r)) <$> declared_rows i s (bindings w))) as Hg.
  destruct (map_get n _) as [r|].
  - apply list_elem_of_fmap in Hg as (r' & [= -> ->] & Hr%declared_rows_elem). destruct Hr as (? & <- & <- & ?). done.
  - intros r Hr [= Hi Hs Hv] Hd. destruct Hg. apply list_elem_of_fmap. exists (n, r). split; [done|].
    apply list_elem_of_fmap. exists r. split; [by rewrite Hv|]. by apply declared_rows_elem.
Qed.

Lemma known_map_get i s w n :
  match map_get n (known_map i s w) with
  | Some b => b ∈ known_of i s w ∧ sb_varName b = n
  | None => ∀ b, b ∈ known_of i s w → sb_varName b ≠ n
  end.
Proof.
  unfold known_map. pose proof (map_of_get n ((λ b, (sb_varName b, b)) <$> known_of i s w)) as Hg.
  destruct (map_get n _) as [b|].
  - by apply list_elem_of_fmap in Hg as (b' & [= -> ->] & Hb).
  - intros b Hb <-. destruct Hg. apply list_elem_of_fmap. exists (sb_varName b, b). split; [done|].
    apply list_elem_of_fmap. by exists b.
Qed.

Section discovery.
Context `{Vault} (valueDigest : string → string) (le : string → string → bool).

(** The variables of a stack, given the digests of the vault. *)
Definition discovered (i s : string) (cs : list StackContainer) (w : world) (digests : gmap string (list string)) :
    list ResolvedVariable :=
  foldl add_known
    (resolve_variable valueDigest (known_map i s w) (declared_map i s w) digests <$> sort (λ a b, le a.1 b.1) (collect cs))
    (snd <$> known_map i s w).

Lemma discover_run i s cs w :
  ∃ digests v', discover valueDigest le i s cs w = (Ok (discovered i s cs w digests), with_vault v' w, []) ∧
    secrets v' = secrets (vault w) ∧ metas v' = metas (vault w) ∧
    (∀ c, history valueDigest c (vault w) → digests = digest_map valueDigest (secrets (vault w))).
Proof.
  destruct (digestAll_run valueDigest (vault w)) as (c & Hs & _).
  assert (Hr : ∃ m, digestAll valueDigest (vault w) = (Ok m, State (secrets (vault w)) (metas (vault w)) c, [])).
  { unfold digestAll, digest_scan, run_state in *. svc_run. revert Hs. svc_run.
    destruct (digestCache (vault w)) as [[tok m]|]; [case_bool_decide|]; simpl; intros ->; by eexists. }
  destruct Hr as (m & Hr). exists m, (State (secrets (vault w)) (metas (vault w)) c). split_and!; [|done..|].
  - unfold discover, knownBindings. rewrite !run_gets.
    erewrite svc_bind_run; [reflexivity|]. unfold catch, on_vault, focus. by rewrite Hr.
  - intros t (s' & Hd & _)%digestAll_current. rewrite Hr in Hd. by simplify_eq.
Qed.

Lemma discovered_elem i s cs w digests v :
  v ∈ discovered i s cs w digests →
  (∃ nv, nv ∈ collect cs ∧ v = resolve_variable valueDigest (known_map i s w) (declared_map i s w) digests nv) ∨
  (∃ b, b ∈ known_of i s w ∧ startsWith "@" (sb_varName b) = true ∧
     v = Resolved (sb_varName b) [] "" "" true (Some (sb_vaultKey b)) (Some (sb_origin b))).
Proof.
  unfold discovered. assert (Hk : ∀ b, b ∈ snd <$> known_map i s w → b ∈ known_of i s w).
  { intros b ([n b'] & -> & Hb)%list_elem_of_fmap. apply map_of_elem, list_elem_of_fmap in Hb as (b2 & [= -> ->] & Hb). done. }
  induction (snd <$> known_map i s w) as [|b bs IH] using rev_ind.
  - cbn [foldl]. intros (nv & -> & Hnv%sort_in)%list_elem_of_fmap. left. by exists nv.
  - rewrite foldl_app. cbn [foldl]. unfold add_known at 1. case_match eqn:Hc; [|intros Hv; apply IH; [|done]; intros b' Hb'; apply Hk, elem_of_app; by left].
    rewrite elem_of_app. intros [Hv|[->|?%elem_of_nil]%elem_of_cons]; [|right|done].
    + apply IH; [|done]. intros b' Hb'. apply Hk, elem_of_app. by left.
    + apply andb_true_iff in Hc as [Hc _]. exists b. split_and!; [apply Hk, elem_of_app; right; by left | done..].
Qed.
Lemma discovered_kept i s cs w digests nv :
  nv ∈ collect cs →
  resolve_variable valueDigest (known_map i s w) (declared_map i s w) digests nv ∈ discovered i s cs w digests.
Proof.
  intros Hnv. unfold discovered. induction (snd <$> known_map i s w) as [|b bs IH] using rev_ind.
  - cbn [foldl]. apply list_elem_of_fmap_2. by apply sort_in.
  - rewrite foldl_app. cbn [foldl]. unfold add_known at 1. case_match; [|done]. apply elem_of_app. by left.
Qed.

(** The operator's word for a variable, if there is one. *)
Definition declaration (i s n : string) (w : world) (r : BindingRow) : Prop :=
  r ∈ bindings w ∧ binding_key r = (i, s, n) ∧ br_origin r = Declared ∧ truthy (br_vaultKey r) = true.

(** Where the key of a variable comes from: the declaration; without one, what the
    replicator stored; without that, a vault entry whose present value has the
    digest of the variable's. *)
Inductive bound (i s n value : string) (w : world) : option string → option BindingOrigin → Prop :=
| by_word r : declaration i s n w r → bound i s n value w (br_vaultKey r) (Some Declared)
| by_deployment b :
    (∀ r, ¬ declaration i s n w r) → b ∈ known_of i s w → sb_varName b = n →
    bound i s n value w (Some (sb_vaultKey b)) (Some Replicator)
| by_value k r :
    (∀ r, ¬ declaration i s n w r) → (∀ b, b ∈ known_of i s w → sb_varName b ≠ n) →
    r ∈ secrets (vault w) → holds_digest valueDigest (valueDigest value) k r →
    bound i s n value w (Some k) (Some Inferred)
| by_nothing :
    (∀ r, ¬ declaration i s n w r) → (∀ b, b ∈ known_of i s w → sb_varName b ≠ n) →
    (∀ k r, r ∈ secrets (vault w) → ¬ holds_digest valueDigest (valueDigest value) k r) →
    bound i s n value w None None.

Lemma digest_map_ne t d keys : digest_map valueDigest t !! d = Some keys → keys ≠ [].
Proof.
  revert keys. induction t as [|r t IH] using rev_ind; intros keys.
  { change (digest_map valueDigest []) with (∅ : gmap string (list string)). by rewrite lookup_empty. }
  rewrite digest_map_app. unfold digest_add. destruct (vault_decrypt (ciphertext r)) as [v|]; [|apply IH].
  destruct (decide (valueDigest v = d)) as [<-|Hne].
  - destruct (digest_map valueDigest t !! valueDigest v) as [ks|]; rewrite lookup_insert_eq; intros [= <-]; [by destruct ks|done].
  - destruct (digest_map valueDigest t !! valueDigest v) as [ks|]; rewrite lookup_insert_ne by done; apply IH.
Qed.

Lemma bind_variable_spec i s n value w k o :
  unique_bindings w →
  bind_variable valueDigest (known_map i s w) (declared_map i s w) (digest_map valueDigest (secrets (vault w))) n value = (k, o) →
  bound i s n value w k o.
Proof.
  intros Hu. unfold bind_variable. pose proof (declared_map_get i s w n Hu) as Hd. pose proof (known_map_get i s w n) as Hk.
  destruct (truthy (map_get n (declared_map i s w) ≫= br_vaultKey)) eqn:Ht.
  { destruct (map_get n (declared_map i s w)) as [r|]; [|done]. intros [= <- <-]. apply by_word. by destruct Hd as (? & ? & ?). }
  assert (Hno : ∀ r, ¬ declaration i s n w r).
  { intros r (Hr & Hkey & Ho & Hkr). destruct (map_get n (declared_map i s w)) as [r'|]; [|by eapply Hd].
    destruct Hd as (Hr' & Hkey' & _). assert (r = r') as <- by (eapply (NoDup_key binding_key); [exact Hu|..]; congruence || done).
    simpl in Ht. congruence. }
  destruct (map_get n (known_map i s w)) as [b|]; [intros [= <- <-]; destruct Hk; by apply by_deployment|].
  destruct (digest_map valueDigest (secrets (vault w)) !! valueDigest value) as [[|k' ks]|] eqn:Hg.
  - by apply digest_map_ne in Hg.
  - intros [= <- <-]. destruct (proj1 (digest_map_spec valueDigest (secrets (vault w)) (valueDigest value) k')) as (r & Hr & Hh).
    { exists (k' :: ks). split; [done | by left]. }
    by eapply by_value.
  - intros [= <- <-]. apply by_nothing; [done..|]. intros k r Hr Hh.
    destruct (proj2 (digest_map_spec valueDigest (secrets (vault w)) (valueDigest value) k)) as (ks & Hks & _); [eauto|]. congruence.
Qed.

End discovery.

(** ** Writing the map back *)

Section persist.
Context (now : Z) (i s : string).

(** What an operator declared is still there, and other stacks' rows are as they were. *)
Definition keeps_declarations (w w' : world) : Prop :=
  unique_bindings w' ∧
  (∀ r, r ∈ bindings w → br_origin r = Declared →
     ∃ r', r' ∈ bindings w' ∧ binding_key r' = binding_key r ∧ br_vaultKey r' = br_vaultKey r ∧ br_origin r' = Declared) ∧
  (∀ r, r ∈ bindings w → (br_instance r, br_stack r) ≠ (i, s) → r ∈ bindings w').

Lemma upsert_elem v t r :
  r ∈ t → r ∈ upsert_binding now i s v t ∨
    (binding_key r = (i, s, rv_name v) ∧ binding_row now i s v ∈ upsert_binding now i s v t).
Proof.
  intros Hr. unfold upsert_binding. destruct (some _ t) eqn:Hs; [|left; apply elem_of_createRow; by left].
  destruct (is_binding i s (rv_name v) r) eqn:Hb.
  - right. split; [by apply is_binding_key|]. apply elem_of_updateMany. exists r. by rewrite Hb.
  - left. apply elem_of_updateMany. exists r. by rewrite Hb.
Qed.

Lemma upsert_unique v t : NoDup (binding_key <$> t) → NoDup (binding_key <$> upsert_binding now i s v t).
Proof.
  intros Hn. unfold upsert_binding. destruct (some _ t) eqn:Hs.
  - assert (binding_key <$> updateMany (is_binding i s (rv_name v)) (λ _, binding_row now i s v) t = binding_key <$> t) as ->; [|done].
    unfold updateMany. rewrite <-list_fmap_compose. apply list_fmap_ext. intros k r _. simpl.
    destruct (is_binding i s (rv_name v) r) eqn:Hb; [|done]. by apply is_binding_key in Hb.
  - apply NoDup_createRow; [done|]. intros (r & Hk & Hr)%list_elem_of_fmap.
    rewrite some_false in Hs. specialize (Hs r Hr). apply not_true_iff_false in Hs. apply Hs, is_binding_key. by rewrite <-Hk.
Qed.

(** A variable with a declared key has it from a declaration. *)
Definition from_word (w : world) (v : ResolvedVariable) : Prop :=
  rv_origin v = Some Declared → ∃ r, declaration i s (rv_name v) w r ∧ br_vaultKey r = rv_vaultKey v.

Lemma persist_one_keeps w w1 v :
  unique_bindings w → from_word w v → keeps_declarations w w1 →
  keeps_declarations w (run_state (persist_one now i s v) w1).
Proof.
  intros Hu Hw (Hu1 & Hd & Ho). unfold persist_one, run_state. svc_run. case_match eqn:Hc; [done|].
  cbn. split_and!; [by apply upsert_unique | |].
  - intros r Hr Hro. destruct (Hd r Hr Hro) as (r1 & Hr1 & Hk & Hv & Ho1).
    destruct (upsert_elem v (bindings w1) r1 Hr1) as [?|[Hkey Hin]]; [by exists r1|].
    destruct (decide (rv_origin v = Some Declared)) as [Hdec|Hdec].
    + destruct (Hw Hdec) as (r0 & (Hr0 & Hk0 & _) & Hv0).
      assert (r0 = r) as -> by (eapply (NoDup_key binding_key); [exact Hu|done|done|congruence]).
      exists (binding_row now i s v). split; [exact Hin|]. unfold binding_row. rewrite Hdec. cbn.
      split_and!; [unfold binding_key in *; cbn; congruence | congruence | done].
    + rewrite bool_decide_eq_false_2 in Hc by done. cbn [negb andb] in Hc.
      destruct (findFirst (is_binding i s (rv_name v)) (bindings w1)) as [r2|] eqn:Hf.
      * apply findFirst_Some in Hf as [Hr2 Hb%is_binding_key].
        assert (r2 = r1) as -> by (eapply (NoDup_key binding_key); [exact Hu1|done|done|congruence]).
        cbn in Hc. by rewrite Ho1, bool_decide_eq_true_2 in Hc.
      * rewrite findFirst_None in Hf. specialize (Hf r1 Hr1). apply not_true_iff_false in Hf.
        destruct Hf. by apply is_binding_key.
  - intros r Hr Hne. destruct (upsert_elem v (bindings w1) r (Ho r Hr Hne)) as [?|[Hkey _]]; [done|].
    unfold binding_key in Hkey. naive_solver.
Qed.

Lemma persist_one_runs v w :
  persist_one now i s v w = (Ok tt, run_state (persist_one now i s v) w, []).
Proof. unfold persist_one, run_state. svc_run. by case_match. Qed.

(** Only the bindings change. *)
Definition same_rest (w w' : world) : Prop :=
  vault w' = vault w ∧ deployments w' = deployments w ∧ stacks w' = stacks w.

Lemma persist_rest vars : along same_rest (persist now i s vars).
Proof.
  assert (PreOrder same_rest) by (split; [done | intros ??? (?&?&?) (?&?&?); split_and!; congruence]).
  apply along_for_each. intros v w. unfold persist_one, run_state. svc_run. by case_match.
Qed.

Lemma persist_runs vars w : persist now i s vars w = (Ok tt, run_state (persist now i s vars) w, []).
Proof.
  unfold persist. revert w. induction vars as [|v vars IH]; intros w; [done|]. cbn [for_each].
  unfold run_state. rewrite (svc_bind_run _ _ _ _ _ (persist_one_runs v w)). apply IH.
Qed.

Lemma persist_keeps w vars w1 :
  unique_bindings w → Forall (from_word w) vars → keeps_declarations w w1 →
  keeps_declarations w (run_state (persist now i s vars) w1).
Proof.
  intros Hu Hf. revert w1. induction Hf as [|v vars Hv Hf IH]; intros w1 Hk; [done|].
  pose proof (persist_one_keeps w w1 v Hu Hv Hk) as Hk1. apply IH in Hk1.
  unfold persist in *. cbn [for_each].
  unfold run_state. by rewrite (svc_bind_run _ _ _ _ _ (persist_one_runs v w1)).
Qed.
End persist.

Section captures.
Context `{Vault} (valueDigest : string → string) (le : string → string → bool).
Context `{Packing, NodeCrypto, Json SecretPayload, Json SecretInventory}.

Lemma discovered_from_word i s cs w digests :
  unique_bindings w → Forall (from_word i s w) (discovered valueDigest le i s cs w digests).
Proof.
  intros Hu. apply Forall_forall. intros v [([n x] & _ & ->)|(b & Hb & _ & ->)]%discovered_elem; unfold from_word.
  - unfold resolve_variable, bind_variable. cbn [fst snd]. pose proof (declared_map_get i s w n Hu) as Hd.
    destruct (map_get n (declared_map i s w)) as [r|]; cbn [mbind option_bind]; [|by repeat case_match; simplify_eq/=].
    destruct (truthy (br_vaultKey r)) eqn:Ht; [|by repeat case_match; simplify_eq/=]. cbn. intros _. exists r.
    destruct Hd as (? & ? & ?). by split_and!.
  - cbn. intros [= Ho]. exfalso. unfold known_of in Hb. apply elem_of_app in Hb as [Hb|Hb].
    + destruct (findFirst _ (deployments w)); [|by apply elem_of_nil in Hb].
      by apply list_elem_of_fmap in Hb as (? & -> & _).
    + repeat case_match; try by apply elem_of_nil in Hb. apply list_elem_of_singleton in Hb. by subst.
Qed.

Lemma assemble_state salt iv input vars w :
  ∃ r, assemble salt iv input vars w = (r, w, []).
Proof.
  unfold assemble. destruct (if bool_decide _ then _ else _) as [[redacted composeSecrets] inlineNames].
  rewrite run_when. case_bool_decide; svc_run; [|by eexists]. repeat (case_match; svc_run); by eexists.
Qed.

(** A capture: the refusal without a passphrase, or the scan, the write-back and
    the rest. *)
Lemma capture_run now salt iv input w :
  (bool_decide (ci_secretMode input = Embed) && negb (truthy (ci_passphrase input)) = true ∧
   capture valueDigest le now salt iv input w =
     (Err (BadRequest "This backup seals its secrets, so it needs a passphrase. Supply one, or switch the policy to raw."), w, [])) ∨
  (bool_decide (ci_secretMode input = Embed) && negb (truthy (ci_passphrase input)) = false ∧ ∃ digests v' w2 r,
     let vars := discovered valueDigest le (ci_instanceId input) (ci_stackName input) (ci_containers input) w digests in
     secrets v' = secrets (vault w) ∧ metas v' = metas (vault w) ∧
     (∀ c, history valueDigest c (vault w) → digests = digest_map valueDigest (secrets (vault w))) ∧
     w2 = run_state (persist now (ci_instanceId input) (ci_stackName input) vars) (with_vault v' w) ∧
     assemble salt iv input vars w2 = (r, w2, []) ∧
     capture valueDigest le now salt iv input w = (r, w2, [])).
Proof.
  unfold capture. rewrite run_throw_if. destruct (_ && _); [by left|]. right. split; [done|].
  destruct (discover_run valueDigest le (ci_instanceId input) (ci_stackName input) (ci_containers input) w)
    as (digests & v' & Hr & Hs & Hm & Hd).
  set (vars := discovered _ _ _ _ _ _ digests) in *.
  set (w2 := run_state (persist now (ci_instanceId input) (ci_stackName input) vars) (with_vault v' w)).
  destruct (assemble_state salt iv input vars w2) as (r & Ha). exists digests, v', w2, r. split_and!; try done.
  rewrite (svc_bind_run _ _ _ _ _ Hr), (svc_bind_run _ _ _ _ _ (persist_runs _ _ _ _ _)). exact Ha.
Qed.

(** C21: a backup never takes an operator's word back.  Whatever a capture finds, and
    whether it succeeds or refuses, every declared binding of the table is still
    declared and names the same vault key, and rows of other stacks are as they
    were; there is still one row a variable; the vault's values, the deployments
    and the stacks are not touched, and nothing is written to the log. *)
Theorem capture_keeps_declarations (now : Z) (salt iv : string) (input : CaptureSecretsInput) (w : world) :
  unique_bindings w →
  let w' := run_state (capture valueDigest le now salt iv input) w in
  keeps_declarations (ci_instanceId input) (ci_stackName input) w w' ∧
  secrets (vault w') = secrets (vault w) ∧ metas (vault w') = metas (vault w) ∧
  deployments w' = deployments w ∧ stacks w' = stacks w ∧
  run_out (capture valueDigest le now salt iv input) w = [].
Proof.
  intros Hu w'. subst w'. unfold run_state, run_out.
  assert (Hself : ∀ v', keeps_declarations (ci_instanceId input) (ci_stackName input) w (with_vault v' w)).
  { intros v'. split_and!; [done | intros r Hr Ho; by exists r | done]. }
  destruct (capture_run now salt iv input w) as [[_ ->]|(_ & digests & v' & w2 & r & Hs & Hm & _ & -> & _ & ->)]; cbn [fst snd].
  - split_and!; try done. by specialize (Hself (vault w)); destruct w.
  - destruct (persist_rest now (ci_instanceId input) (ci_stackName input)
      (discovered valueDigest le (ci_instanceId input) (ci_stackName input) (ci_containers input) w digests) (with_vault v' w))
      as (Hv & Hdep & Hst).
    split_and!; [|by rewrite Hv | by rewrite Hv | by rewrite Hdep | by rewrite Hst | done].
    apply persist_keeps; [done | by apply discovered_from_word | done].
Qed.
End captures.

(** ** Round trips *)

Lemma trim_line_feed b : (∀ c, c ∈ chars b → is_space c = false) → trim (b +:+ nl) = b.
Proof.
  intros Hb. apply chars_inj. unfold trim, trim_chars. rewrite chars_of_chars, chars_app. change (chars nl) with [lf].
  destruct (chars b) as [|c l] eqn:He; [done|].
  rewrite (drop_while_id _ ((c :: l) ++ [lf])) by (intros x [= <-]; apply Hb; by left).
  rewrite reverse_app. cbn [reverse rev_append app drop_while].
  change (reverse (drop_while is_space (reverse (c :: l))) = c :: l).
  rewrite drop_while_id; [apply reverse_involutive|]. intros x Hx. apply Hb.
  rewrite <-elem_of_reverse. destruct (reverse (c :: l)); simplify_eq/=. by left.
Qed.

Lemma restore_nothing c : has_substring marker_prefix c = false → restoreCompose c [] = c.
Proof.
  intros Hc. unfold restoreCompose. rewrite <-(app_nil_r (chars c)), put_back_clean; [by rewrite !app_nil_r, of_chars_chars| |by left].
  intros a b Hab. apply not_true_iff_false in Hc. apply Hc, has_substring_chars. by exists a, b.
Qed.

Section round_trips.
Context `{Vault} (valueDigest : string → string) (le : string → string → bool).
Context `{PackingLaws} `{JsonLaws SecretPayload} `{Json SecretInventory}.

(** What is read off the host, and what goes out of the compose file. *)
Definition captured_files (input : CaptureSecretsInput) (vars : list ResolvedVariable) : list (string * string) :=
  match ci_readHostFile input with
  | Some read => if bool_decide (ci_secretMode input = Reference) then [] else read_files read (detectFileSecrets (ci_compose input) vars)
  | None => []
  end.
Definition redaction (input : CaptureSecretsInput) : option string * list (string * string) * list string :=
  if bool_decide (ci_secretMode input = Raw) then (ci_compose input, [], []) else redactCompose (ci_compose input).

Lemma assemble_ok salt iv input vars w cap w' o :
  assemble salt iv input vars w = (Ok cap, w', o) →
  ca_compose cap = (redaction input).1.1 ∧
  in_variables (ca_inventory cap) = inventory_variable <$> vars ∧
  in_capturedFiles (ca_inventory cap) = (captured_files input vars).*1 ∧
  (∃ text, ca_files cap = ("secrets.json", text) :: secret_files salt iv input vars (redaction input).1.2 (captured_files input vars)) ∧
  (ci_secretMode input = Reference → unbound_names vars = [] ∧ (redaction input).2 = []).
Proof.
  unfold assemble, redaction, captured_files.
  destruct (if bool_decide (ci_secretMode input = Raw) then _ else _) as [[redacted vals] ns]. cbn [fst snd].
  rewrite run_when. case_bool_decide as Hm.
  - rewrite (svc_bind_assoc (throw_if _ _)). rewrite run_throw_if. case_bool_decide as Hu; [|done]. cbn [negb].
    rewrite run_throw_if. case_bool_decide as Hn; [|done]. cbn [negb]. intros [= <- _ _].
    split_and!; [done..| by eexists | done].
  - intros [= <- _ _]. split_and!; [done..| by eexists | done].
Qed.

Lemma read_files_spec read found path content :
  (path, content) ∈ read_files read found → read path = Some content ∧ path ∈ fs_path <$> found.
Proof.
  unfold read_files. induction found as [|f found IH] using rev_ind; [by intros ?%elem_of_nil|].
  rewrite foldl_app, fmap_app, elem_of_app. cbn [foldl]. destruct (read (fs_path f)) as [text|] eqn:Hr; [|intros [? ?]%IH; auto].
  case_match; [intros [? ?]%IH; auto|]. intros [[-> ->]|[? ?]%IH]%map_set_elem; [|by auto]. split; [done|]. right. by left.
Qed.
(** The payload of a snapshot, as it is read. *)
Lemma sealed_read later salt iv payload p rest w :
  p ≠ "" → String.length salt < 256 → String.length iv < 256 →
  resolveSnapshotSecrets later
    (("secrets.json", rest.1) :: ("secrets.sealed.b64", base64 (of_chars (sealBundle payload p salt iv)) +:+ nl) :: rest.2)
    Embed (Some p) w =
  (Ok (RestoredWith (default "" (pa_env payload)) (default [] (pa_composeSecrets payload)) (default [] (pa_files payload))), w, []).
Proof.
  intros Hp Hs Hi. unfold resolveSnapshotSecrets. set (b64 := base64 _ +:+ nl).
  replace (dump _ "secrets.sealed.b64") with b64 by reflexivity. subst b64.
  rewrite trim_line_feed by (intros c; apply base64_printable). rewrite (bool_decide_eq_false_2 (p = "")) by done.
  rewrite bool_decide_eq_false_2.
  - cbn [orb]. by rewrite unbase64_base64, chars_of_chars, open_seal.
  - rewrite base64_ne. unfold sealBundle. by destruct (gcm_seal _ _ _).
Qed.
Lemma raw_read later payload rest w p :
  truthy (pa_env payload) = true →
  resolveSnapshotSecrets later (("secrets.json", rest.1) :: ("secrets.raw.json", stringify_indented payload +:+ nl) :: rest.2) Raw p w =
  (Ok (RestoredWith (default "" (pa_env payload)) (default [] (pa_composeSecrets payload)) (default [] (pa_files payload))), w, []).
Proof.
  intros He. unfold resolveSnapshotSecrets. set (raw := _ +:+ nl).
  replace (dump _ "secrets.raw.json") with raw by reflexivity. subst raw.
  rewrite bool_decide_eq_false_2 by apply indented_ne. by rewrite parse_indented, He.
Qed.

Lemma redaction_restored input c :
  ci_compose input = Some c → has_substring marker_prefix c = false →
  ∃ stored, (redaction input).1.1 = Some stored ∧
    restoreCompose stored (redaction input).1.2 =
      if bool_decide (ci_secretMode input = Raw) then c else unlines (normalise_line <$> lines_of c).
Proof.
  intros Hi Hc. unfold redaction. case_bool_decide; [exists c; rewrite Hi; split; [done | by apply restore_nothing]|].
  rewrite Hi. unfold redactCompose. case_bool_decide as Hne; [subst; by exists ""|].
  pose proof (restore_redacted c Hc) as Hr. destruct (redact_lines 0 (lines_of c)) as [[out vals] ns]. by exists (unlines out).
Qed.


End round_trips.

(** ** Placeholders *)

Lemma trim_split s : ∃ ws1 ws2, chars s = ws1 ++ chars (trim s) ++ ws2 ∧
  (∀ c, c ∈ ws1 → is_space c = true) ∧ (∀ c, c ∈ ws2 → is_space c = true).
Proof.
  unfold trim, trim_chars. rewrite chars_of_chars.
  destruct (drop_while_split is_space (chars s)) as (pre & Hpre & Hp).
  destruct (drop_while_split is_space (reverse (drop_while is_space (chars s)))) as (post & Hpost & Hq).
  rewrite Forall_forall in Hp, Hq. exists pre, (reverse post). split_and!; [|done|intros c; rewrite elem_of_reverse; apply Hq].
  apply (f_equal reverse) in Hpost. rewrite reverse_involutive, reverse_app in Hpost. by rewrite <-Hpost.
Qed.

(** The key a line of an [.env] points at, and what precedes it. *)
Definition key_of_line (byName : list (string * option string)) (line : string) : option (string * string) :=
  b ← before_eq line;
  match map_get (trim b) byName with
  | Some (Some key) => if bool_decide (key = "") then None else Some (b, key)
  | _ => None
  end.

Lemma reference_line_key byName line :
  reference_line byName line =
  match key_of_line byName line with Some (b, key) => b +:+ "=" +:+ placeholder key | None => line end.
Proof.
  unfold reference_line, key_of_line. destruct (before_eq line) as [b|]; [|done]. cbn [mbind option_bind].
  destruct (map_get (trim b) byName) as [[key|]|]; [|done|done]. by case_bool_decide.
Qed.

Lemma placeholder_read b key :
  env_name (trim b) = true → key ≠ "" → every any_char (chars key) = true →
  match_placeholder (b +:+ "=" +:+ placeholder key) = Some (b +:+ "=", key).
Proof.
  intros Hn Hk Ha. destruct (trim_split b) as (ws1 & ws2 & Hb & H1 & H2).
  unfold env_name in Hn. destruct (chars (trim b)) as [|c n] eqn:Ht; [done|]. apply andb_true_iff in Hn as [Hc Hn].
  assert (Hcs : is_space c = false) by (by destruct (name_start_plain c Hc)).
  assert (Hname : ∀ x, x ∈ c :: n → name_char x = true).
  { intros x [->|Hx]%elem_of_cons; [unfold name_char; by rewrite Hc|]. rewrite every_true in Hn. by apply Hn. }
  set (tail := "="%char :: chars (placeholder key)).
  assert (Hl : chars (b +:+ "=" +:+ placeholder key) = ws1 ++ c :: n ++ ws2 ++ tail).
  { rewrite !chars_app, Hb, <-!app_assoc. done. }
  assert (Hws : ∃ x r, ws2 ++ tail = x :: r ∧ name_char x = false).
  { destruct ws2 as [|x ws2]; [by eexists _, _|]. exists x, (ws2 ++ tail). split; [done|].
    specialize (H2 x (list_elem_of_here _ _)). by destruct x as [[] [] [] [] [] [] [] []]. }
  destruct Hws as (x & r & Hx & Hxn). unfold match_placeholder. rewrite Hl, Hx, take_while_stop, drop_while_stop by done.
  change (c :: n ++ x :: r) with ((c :: n) ++ x :: r). rewrite take_while_stop, drop_while_stop by done.
  rewrite <-Hx. unfold tail. rewrite take_while_stop, drop_while_stop by done. cbn [head]. rewrite Hc. cbn [andb].
  assert (Hd : "="%char :: chars (placeholder key) = chars "=${vault:" ++ chars key ++ ["}"%char]) by (unfold placeholder; by rewrite !chars_app).
  rewrite Hd, (proj2 (prefix_chars _ _)) by (rewrite chars_of_chars; by eexists).
  change 9 with (length (chars "=${vault:")). rewrite drop_app_length.
  rewrite trim_right_stop by done. change (trim_right []) with (@nil ascii).
  rewrite last_snoc, bool_decide_eq_true_2, length_app, Nat.add_sub, take_app_length, Ha by done.
  rewrite bool_decide_eq_false_2 by (intros He; apply Hk, chars_inj, He). cbn [negb andb]. rewrite of_chars_chars.
  do 2 f_equal. apply chars_inj. rewrite chars_of_chars, chars_app, Hb, <-!app_assoc. done.
Qed.

Lemma omap_fmap_in {A B C} (f : B → option C) (g : A → B) (h : A → option C) (l : list A) :
  (∀ x, x ∈ l → f (g x) = h x) → omap f (g <$> l) = omap h l.
Proof.
  induction l as [|x l IH]; intros Hx; [done|]. rewrite fmap_cons.
  change (match f (g x) with Some y => y :: omap f (g <$> l) | None => omap f (g <$> l) end =
          match h x with Some y => y :: omap h l | None => omap h l end).
  rewrite Hx, IH by (by left || (intros; apply Hx; by right)). done.
Qed.

Section references.
Context `{Vault}.

(** The present value of a key, if it can be read. *)
Definition revealed (w : world) (key : string) : option string :=
  match value_of key (vault w) with Ok v => v | Err _ => None end.

Definition filled_line (w : world) (line : string) : string :=
  match match_placeholder line with
  | Some (before, key) => match revealed w key with Some v => before +:+ v | None => line end
  | None => line
  end.
Definition missing_key (w : world) (line : string) : option string :=
  '(_, key) ← match_placeholder line; match revealed w key with Some _ => None | None => Some key end.

(** Reads stamp entries of the vault, and nothing else. *)
Definition same_values (w w' : world) : Prop :=
  secrets (vault w') = secrets (vault w) ∧ bindings w' = bindings w ∧ deployments w' = deployments w ∧ stacks w' = stacks w.

Lemma same_values_revealed w w' key : same_values w w' → revealed w' key = revealed w key.
Proof. intros (Hs & _). unfold revealed, value_of. by rewrite Hs. Qed.

Lemma reveal_on_vault now key w :
  ∃ w', catch (on_vault (reveal now key)) (λ _, mret None) w = (Ok (revealed w key), w', []) ∧ same_values w w'.
Proof.
  destruct (reveal_run now key (vault w)) as (m & Hs & _). destruct (reveal_value now key (vault w)) as [Hr Ho].
  unfold run_state, run_result, run_out in *. unfold catch, on_vault, focus, revealed.
  destruct (reveal now key (vault w)) as [[r v1] o1]. cbn [fst snd] in *. subst.
  destruct (value_of key (vault w)); eexists; (split; [reflexivity|]); by split_and!.
Qed.

Lemma fill_lines_run now lines w0 w :
  same_values w0 w →
  ∃ w', fill_lines now lines w = (Ok (filled_line w0 <$> lines, omap (missing_key w0) lines), w', []) ∧ same_values w0 w'.
Proof.
  revert w. induction lines as [|line lines IH]; intros w H0; [by exists w|]. cbn [fill_lines].
  assert (Hm : omap (missing_key w0) (line :: lines) =
    match missing_key w0 line with Some k => k :: omap (missing_key w0) lines | None => omap (missing_key w0) lines end) by done.
  rewrite fmap_cons, Hm. unfold filled_line at 1, missing_key at 1. destruct (match_placeholder line) as [[before key]|].
  - destruct (reveal_on_vault now key w) as (w1 & Hr & H1).
    destruct (IH w1) as (w2 & Hf & H2); [destruct H0 as (?&?&?&?), H1 as (?&?&?&?); split_and!; congruence|].
    rewrite (svc_bind_run _ _ _ _ _ Hr), (svc_bind_run _ _ _ _ _ Hf), (same_values_revealed w0 w) by done.
    exists w2. split; [|done]. cbn [mbind option_bind]. by destruct (revealed w0 key).
  - destruct (IH w H0) as (w2 & Hf & H2). rewrite (svc_bind_run _ _ _ _ _ Hf). by exists w2.
Qed.

(** A line of an [.env] with the value of its key. *)
Definition resolved_line (byName : list (string * option string)) (w : world) (line : string) : string :=
  match key_of_line byName line with
  | Some (b, key) => b +:+ "=" +:+ default (placeholder key) (revealed w key)
  | None => line
  end.
Definition unresolved_key (byName : list (string * option string)) (w : world) (line : string) : option string :=
  '(_, key) ← key_of_line byName line; match revealed w key with Some _ => None | None => Some key end.

(** Lines a reference can be written on and read from: names of the usual form, keys
    on one line; other lines are no placeholders themselves. *)
Definition referable (byName : list (string * option string)) (line : string) : Prop :=
  match key_of_line byName line with
  | Some (b, key) => env_name (trim b) = true ∧ every any_char (chars key) = true
  | None => match_placeholder line = None
  end.

Lemma key_of_line_ne byName line b key :
  key_of_line byName line = Some (b, key) → key ≠ "" ∧ before_eq line = Some b.
Proof.
  unfold key_of_line. destruct (before_eq line) as [b'|]; [|done]. cbn [mbind option_bind].
  destruct (map_get (trim b') byName) as [[k|]|]; [|done|done]. case_bool_decide; [done|]. by intros [= <- <-].
Qed.

Lemma before_eq_in line b c : before_eq line = Some b → c ∈ chars b → c ∈ chars line.
Proof.
  unfold before_eq. repeat case_match; intros [= <-]. unfold slice_to. rewrite chars_of_chars.
  intros Hc. by apply elem_of_take in Hc as (i & Hi%list_elem_of_lookup_2 & _).
Qed.

Lemma reference_line_filled byName w line :
  referable byName line →
  filled_line w (reference_line byName line) = resolved_line byName w line ∧
  missing_key w (reference_line byName line) = unresolved_key byName w line ∧
  (lf ∉ chars line → lf ∉ chars (reference_line byName line)).
Proof.
  unfold referable, filled_line, missing_key, resolved_line, unresolved_key. rewrite reference_line_key.
  destruct (key_of_line byName line) as [[b key]|] eqn:Hk; [|by intros ->].
  intros [Hn Ha]. apply key_of_line_ne in Hk as [Hne Hb]. rewrite placeholder_read by done. cbn [mbind option_bind].
  split_and!; [|done|].
  - destruct (revealed w key); [|done]. apply chars_inj. by rewrite !chars_app, <-app_assoc.
  - intros Hlf. unfold placeholder. rewrite !chars_app, !elem_of_app. rewrite every_true in Ha.
    intros [Hc|[Hc|[Hc|[Hc|Hc]]]]; [by eapply before_eq_in in Hc|..]; try (by apply Ha in Hc);
      vm_compute in Hc; by repeat (apply elem_of_cons in Hc as [Hc|Hc]; [done|]); apply elem_of_nil in Hc.
Qed.

(** C22: references are filled with what the vault holds.  For an [.env] of lines that
    can be referred from, writing the placeholders and filling them gives every bound
    line with the present value of its key and every other line as it was; when some
    key can no longer be read the whole is refused, and the message names exactly
    those keys.  The vault's values and the other tables are not changed either way. *)
Theorem references_resolve (now : Z) (env : string) (byName : list (string * option string)) (w : world) :
  (∀ line, line ∈ lines_of env → referable byName line) →
  ∃ w', same_values w w' ∧
    fillVaultReferences now (referenceEnv env byName) w =
      ((let missing := omap (unresolved_key byName w) (lines_of env) in
        if bool_decide (missing = []) then Ok (unlines (resolved_line byName w <$> lines_of env))
        else Err (Internal ("These vault keys are gone, so the .env cannot be rebuilt: " +:+ JsText.join ", " missing +:+ "."))),
       w', []).
Proof.
  intros Hr. destruct (lines_of_spec env) as (Hlf & Hne & _). unfold fillVaultReferences, referenceEnv.
  rewrite lines_of_unlines.
  2: { apply Forall_fmap, Forall_forall. intros l Hl. rewrite Forall_forall in Hlf.
       destruct (reference_line_filled byName w l (Hr l Hl)) as (_ & _ & H3). by apply H3, Hlf. }
  2: { intros He%fmap_nil_inv. done. }
  destruct (fill_lines_run now (reference_line byName <$> lines_of env) w w) as (w' & Hf & Hw); [done|].
  exists w'. split; [done|]. rewrite (svc_bind_run _ _ _ _ _ Hf).
  assert (Hfill : filled_line w <$> (reference_line byName <$> lines_of env) = resolved_line byName w <$> lines_of env).
  { rewrite <-list_fmap_compose. apply list_fmap_ext. intros i l Hl%list_elem_of_lookup_2. by apply reference_line_filled, Hr. }
  assert (Hmiss : omap (missing_key w) (reference_line byName <$> lines_of env) = omap (unresolved_key byName w) (lines_of env)).
  { apply omap_fmap_in. intros l Hl. by apply reference_line_filled, Hr. }
  rewrite Hfill, Hmiss, run_throw_if. by case_bool_decide.
Qed.
End references.

(** ** Runs *)

Module Bench.

#[local] Existing Instances plain_vault plain_vault_laws bench_crypto bench_crypto_laws bench_packing bench_packing_laws.

#[local] Instance origin_countable : Countable BindingOrigin.
Proof.
  refine (inj_countable (λ o, match o with Replicator => 0 | GitCredential => 1 | Inferred => 2 | Declared => 3 end)
    (λ n, match n with 0 => Some Replicator | 1 => Some GitCredential | 2 => Some Inferred | _ => Some Declared end) _).
  by intros [].
Defined.
#[local] Instance binding_eq_dec : EqDecision SecretBinding.
Proof. solve_decision. Defined.
#[local] Instance binding_countable : Countable SecretBinding.
Proof.
  refine (inj_countable' (λ b, (sb_varName b, sb_vaultKey b, sb_origin b, sb_digest b)) (λ '(n, k, o, d), Binding n k o d) _).
  by intros [].
Defined.
#[local] Instance payload_eq_dec : EqDecision SecretPayload.
Proof. solve_decision. Defined.
#[local] Instance payload_countable : Countable SecretPayload.
Proof.
  refine (inj_countable' (λ p, (pa_containers p, pa_env p, pa_bindings p, pa_composeSecrets p, pa_files p))
    (λ '(c, e, b, v, f), Payload c e b v f) _).
  by intros [].
Defined.
#[local] Instance payload_json : Json SecretPayload := countable_json.
#[local] Instance payload_json_laws : JsonLaws SecretPayload := countable_json_laws.
#[local] Instance inventory_json : Json SecretInventory := {|
  stringify := λ i, JsText.join "," (in_unbound i); stringify_indented := λ i, JsText.join "," (in_unbound i);
  json_parse := λ _, None
|}.

Definition before (a b : string) : bool := true.
Definition same (v : string) : string := v.
#[local] Abbreviation take_snapshot := (capture same before).

Definition compose : string := unlines
  ["services:"; "  db:"; "    environment:"; "      - DB_PASSWORD = hunter2 "; "      API_TOKEN:   abc"; "      PORT: 5432"].
Definition db : StackContainer := InContainer "db" [("DB_PASSWORD", "hunter2"); ("PORT", "5432"); ("TLS_FILE", "/run/tls.key")].
Definition pg_row : BindingRow := StackSecretBinding "host1" "shop" "DB_PASSWORD" (Some "pg.password") Declared None true 5.
Definition home : world :=
  World (State [SecretRow "pg.password" "ehunter2" 5; SecretRow "shared" "e5432" 5] [] None)
    [Deployment "d1" "host1" "shop" ["DB_PASSWORD"] []] [Stack "host1" "shop" (Some "git.token")] [pg_row].
Definition request (mode : SecretMode) (env : option string) (compose : option string) : CaptureSecretsInput :=
  CaptureInput "host1" "shop" [db] mode env compose (Some "correct horse") (Some (λ path, Some ("contents of " +:+ path))).


Lemma home_unique : unique_bindings home.
Proof. apply NoDup_singleton. Qed.
Lemma home_history : history same 5 (vault home).
Proof. apply started. intros r [->|[->|?%elem_of_nil]%elem_of_cons]%elem_of_cons; done. Qed.


Lemma capture_keeps_declarations_witness :
  unique_bindings home ∧
  run_out (take_snapshot 9 "salt" "iv" (request Embed None (Some compose))) home = [].
Proof.
  split; [exact home_unique|].
  apply (capture_keeps_declarations same before 9 "salt" "iv" (request Embed None (Some compose)) home home_unique).
Defined.

Definition referring : CaptureSecretsInput :=
  request Reference (Some (unlines ["# db"; "DB_PASSWORD=hunter2"; "export DB_PASSWORD=hunter2"; "STRIPE_TOKEN=sk_live_1"]))
    (Some "services:").


Definition keys : list (string * option string) := [("DB_PASSWORD", Some "pg.password"); ("PORT", None)].

Lemma references_resolve_witness :
  (∀ line, line ∈ lines_of (unlines ["DB_PASSWORD=old"; "PORT=1"]) → referable keys line) ∧
  ∃ w', same_values home w' ∧
    fillVaultReferences 10 (referenceEnv (unlines ["DB_PASSWORD=old"; "PORT=1"]) keys) home =
      (Ok (unlines ["DB_PASSWORD=hunter2"; "PORT=1"]), w', []).
Proof.
  assert (Hr : ∀ line, line ∈ lines_of (unlines ["DB_PASSWORD=old"; "PORT=1"]) → referable keys line).
  { intros line [->|[->|?%elem_of_nil]%elem_of_cons]%elem_of_cons; [by split | done | done]. }
  split; [exact Hr|]. exact (references_resolve 10 (unlines ["DB_PASSWORD=old"; "PORT=1"]) keys home Hr).
Defined.

(** *** What a backup does not do *)

(** In a file with Windows line ends no credential is ever taken out: the pattern's
    dot does not match the carriage return. *)
Lemma windows_lines_stay_clear :
  redactCompose (Some ("DB_PASSWORD: hunter2" +:+ String cr nl)) = (Some ("DB_PASSWORD: hunter2" +:+ String cr nl), [], []).
Proof. reflexivity. Qed.

(** Nor out of an entry that is quoted as a whole. *)
Lemma quoted_entry_stays_clear :
  redactCompose (Some ("- " +:+ quoted "DB_PASSWORD=hunter2")) = (Some ("- " +:+ quoted "DB_PASSWORD=hunter2"), [], []).
Proof. reflexivity. Qed.

(** The redacted [.env] beside a sealed snapshot shows every line of a value but the first. *)
Lemma long_value_stays_clear :
  redactEnv (unlines ["TLS_KEY='-----BEGIN KEY-----"; "MIIEpAIBAAKCAQEA"; "-----END KEY-----'"]) =
    unlines ["TLS_KEY=<sealed>"; "MIIEpAIBAAKCAQEA"; "-----END KEY-----'"].
Proof. reflexivity. Qed.

(** A snapshot by reference holds credentials of the [.env] that no container has, or
    that are exported. *)
Lemma reference_snapshot_has_values :
  ∃ cap w1, take_snapshot 9 "salt" "iv" referring home = (Ok cap, w1, []) ∧
    map_get "stack.env.reference" (ca_files cap) =
      Some (unlines ["# db"; "DB_PASSWORD=${vault:pg.password}"; "export DB_PASSWORD=hunter2"; "STRIPE_TOKEN=sk_live_1"]).
Proof. eexists _, _. split; reflexivity. Qed.

(** A name with a dot is written as a reference, but not read as one: the stack comes
    up with the placeholder for a password. *)
Lemma dotted_name_is_not_filled :
  ∃ w', fillVaultReferences 10 (referenceEnv "es.password=hunter2" [("es.password", Some "pg.password")]) home =
    (Ok "es.password=${vault:pg.password}", w', []).
Proof. eexists. reflexivity. Qed.

(** A plain snapshot of a stack without an [.env] loses the credential files it holds. *)
Lemma plain_files_are_lost :
  ∃ cap w1, take_snapshot 9 "salt" "iv" (request Raw None (Some compose)) home = (Ok cap, w1, []) ∧
    in_capturedFiles (ca_inventory cap) = ["/run/tls.key"] ∧
    resolveSnapshotSecrets 10 (ca_files cap) Raw None home = (Ok nothing, home, []).
Proof. eexists _, _. split; [reflexivity|]. split; reflexivity. Qed.

(** What comes back is not the text that went. *)
Lemma restored_text_differs :
  ∃ r vals ns, redactCompose (Some "API_TOKEN:   abc") = (Some r, vals, ns) ∧ restoreCompose r vals = "API_TOKEN: abc".
Proof. eexists _, _, _. split; reflexivity. Qed.

(** Only the value of the first container is looked up: another one's own password is
    neither reported as unbound nor in the vault. *)
Lemma second_value_is_not_seen :
  ∃ cap w1, take_snapshot 9 "salt" "iv"
      (CaptureInput "host1" "shop" [db; InContainer "replica" [("DB_PASSWORD", "other")]] Reference None None None None) home =
        (Ok cap, w1, []) ∧
    in_unbound (ca_inventory cap) = [] ∧
    (iv_containers <$> in_variables (ca_inventory cap)) !! 0 = Some ["db"; "replica"].
Proof. eexists _, _. split; [reflexivity|]. split; reflexivity. Qed.
End Bench.
