(* ===== verification/ComposePorts.v ===== *)
(** * Published ports of a compose file, [stack-backup/ports.ts] and [stack-backup/sandbox.ts]

    A migration moves published ports, a trial restore publishes none.  Both scan
    the lines of the compose file: the block a [ports:] key opens ends at the
    first line that is not indented more.  The regular expressions are written out
    on the characters of a line: a quote and the same quote again around a run of
    characters, the end of the line with an optional comment whose characters are
    no line ends.  Names of JavaScript's own object properties are no variable
    names here. *)

From S2P Require Import Prelude JsText EnvFiles SecretCapture.
From stdpp Require Import gmap strings options.

#[local] Set Default Proof Using "Type*".

(** ** The scan of the lines *)

Definition hash : ascii := "#"%char.

Definition indent_of (l : list ascii) : nat := length (take_while is_space l).

(** The end of a line: white space and an optional comment. *)
Definition line_tail (l : list ascii) : option (list ascii) :=
  match drop_while is_space l with
  | [] => Some []
  | c :: r => if bool_decide (c = hash) && every any_char r then Some (c :: r) else None
  end.

Definition ports_key (trimmed : list ascii) : bool :=
  startsWith "ports:" (of_chars trimmed) && bool_decide (is_Some (line_tail (drop 6 trimmed))).

Inductive place := Outside | Key | Inside.
#[export] Instance place_eq_dec : EqDecision place.
Proof. solve_decision. Defined.

(** [portsIndent] after a line, and where the line is. *)
Definition enter (portsIndent : option nat) (l : list ascii) : option nat * place :=
  let trimmed := trim_chars is_space l in
  let inside :=
    match portsIndent with
    | Some n => if negb (bool_decide (trimmed = [])) && (indent_of l <=? n) then None else portsIndent
    | None => None
    end in
  if ports_key trimmed then (Some (indent_of l), Key)
  else (inside, if bool_decide (is_Some inside) then Inside else Outside).

(** ** One entry *)

(** A quote or none, a run of characters, the same quote; what follows. *)
Definition quoted_run (p : ascii → bool) (l : list ascii) : option (list ascii * list ascii * list ascii) :=
  match l with
  | [] => None
  | q :: r =>
      if is_quote q then
        match take_while p r, drop_while p r with
        | c :: v, q' :: r' => if bool_decide (q' = q) then Some ([q], c :: v, r') else None
        | _, _ => None
        end
      else match take_while p l with [] => None | v => Some ([], v, drop_while p l) end
  end.

Definition spec_char (c : ascii) : bool := negb (is_quote c) && negb (bool_decide (c = hash)).
Definition word_char (c : ascii) : bool := spec_char c && negb (is_space c).

(** White space, a dash, white space; of which the last goes to the value when the
    value would be empty. *)
Definition dash (l : list ascii) : option (list ascii * list ascii) :=
  let ws := take_while is_space l in
  match drop_while is_space l with
  | [] => None
  | c :: r =>
      if bool_decide (c = "-"%char) then
        let s := take_while is_space r in
        let r' := drop_while is_space r in
        match last s with
        | Some x =>
            if match r' with [] => true | y :: _ => bool_decide (y = hash) end
            then Some (ws ++ c :: take (length s - 1) s, x :: r') else Some (ws ++ c :: s, r')
        | None => Some (ws ++ c :: s, r')
        end
      else None
  end.

Definition published (l : list ascii) : option (list ascii * list ascii) :=
  let ws := take_while is_space l in
  let r := drop_while is_space l in
  if startsWith "published:" (of_chars r)
  then Some (ws ++ chars "published:" ++ take_while is_space (drop 10 r), drop_while is_space (drop 10 r)) else None.

Record entry := Entry { e_prefix : list ascii; e_quote : list ascii; e_value : list ascii; e_comment : list ascii }.

Definition comment_tail (c : list ascii) : list ascii := match c with [] => [] | _ => " "%char :: c end.

(** The line rebuilt around another value. *)
Definition with_value (e : entry) (value : list ascii) : list ascii :=
  e_prefix e ++ e_quote e ++ value ++ e_quote e ++ comment_tail (e_comment e).

(** The expressions of the rewriting loops, which reach the end of the line. *)
Definition match_whole (prefix : list ascii → option (list ascii * list ascii)) (p : ascii → bool) (l : list ascii) : option entry :=
  '(pre, r) ← prefix l;
  '(q, v, r') ← quoted_run p r;
  c ← line_tail r';
  Some (Entry pre q v c).
Definition long_entry : list ascii → option entry := match_whole published word_char.
Definition short_entry : list ascii → option entry := match_whole dash spec_char.

(** Those of the reading loop, which do not. *)
Definition match_start (prefix : list ascii → option (list ascii * list ascii)) (p : ascii → bool) (l : list ascii) : option (list ascii) :=
  '(_, r) ← prefix l;
  '(_, v, _) ← quoted_run p r;
  Some v.

(** A mapping rather than a [host:container] text. *)
Definition isMapping (value : list ascii) : bool :=
  startsWith "{" (of_chars value) ||
  (match head (take_while name_char value) with Some c => name_start c | None => false end &&
   match drop_while is_space (drop_while name_char value) with
   | c :: s :: _ => bool_decide (c = ":"%char) && is_space s
   | _ => false
   end).

(** ** Short specs *)

Definition next_depth (depth : nat) (c : ascii) : nat :=
  if bool_decide (c = "{"%char) then S depth else if bool_decide (c = "}"%char) then pred depth else depth.

Fixpoint split_top (sep : ascii) (depth : nat) (l : list ascii) : list (list ascii) :=
  match l with
  | [] => [[]]
  | c :: l' =>
      let d := next_depth depth c in
      if bool_decide (c = sep) && (d =? 0) then [] :: split_top sep d l'
      else match split_top sep d l' with
           | w :: ws => (c :: w) :: ws
           | [] => [[c]]
           end
  end.
Definition splitTop (s : list ascii) (sep : ascii) : list (list ascii) := split_top sep 0 s.

(** Pieces with a separator between them. *)
Fixpoint join_chars (sep : ascii) (ws : list (list ascii)) : list ascii :=
  match ws with
  | [] => []
  | [w] => w
  | w :: ws' => w ++ sep :: join_chars sep ws'
  end.

Record spec := Spec { sp_hostIp : list ascii; sp_host : list ascii; sp_container : list ascii; sp_proto : list ascii }.

Definition parseSpec (s : list ascii) : option spec :=
  match splitTop s "/"%char with
  | [] => None
  | body :: rest =>
      let proto := match rest with [] => [] | _ => "/"%char :: join_chars "/"%char rest end in
      match splitTop body ":"%char with
      | [host; container] => Some (Spec [] (trim_chars is_space host) container proto)
      | [ip; host; container] => Some (Spec ip (trim_chars is_space host) container proto)
      | _ => None
      end
  end.

Definition hostTokenOf (s : list ascii) : option (list ascii) := sp_host <$> parseSpec s.

(** ** Numbers *)

(** [toNumMap]: positive ports only. *)
Definition toNumMap (m : gmap Z Z) : gmap Z Z := filter (λ kv, (0 < kv.1)%Z ∧ (0 < kv.2)%Z) m.

Definition rewriteLiteral (token : list ascii) (lit : gmap Z Z) : option (list ascii) :=
  let t := of_chars (trim_chars is_space token) in
  if all_digits t then (λ n, chars (num_to_string n)) <$> lit !! digits_value t else None.

Definition rewriteSpec (s : list ascii) (lit : gmap Z Z) : option (list ascii) :=
  p ← parseSpec s;
  nt ← rewriteLiteral (sp_host p) lit;
  Some (match sp_hostIp p with [] => [] | ip => ip ++ [":"%char] end ++ nt ++ ":"%char :: sp_container p ++ sp_proto p).

(** ** Reading the ports *)

Definition line_token (l : list ascii) : option (list ascii) :=
  let trimmed := trim_chars is_space l in
  match match_start published word_char trimmed with
  | Some v => Some v
  | None =>
      v ← match_start dash spec_char trimmed;
      let value := trim_chars is_space v in
      if isMapping value then None else hostTokenOf value
  end.

Fixpoint tokens_from (portsIndent : option nat) (lines : list (list ascii)) : list (list ascii) :=
  match lines with
  | [] => []
  | l :: lines' =>
      let '(pi, at_) := enter portsIndent l in
      match at_ with
      | Inside => match line_token l with Some t => t :: tokens_from pi lines' | None => tokens_from pi lines' end
      | _ => tokens_from pi lines'
      end
  end.

Definition text_lines (s : string) : list (list ascii) := chars <$> lines_of s.
Definition of_lines (ls : list (list ascii)) : string := unlines (of_chars <$> ls).

(** What [forEachHostToken] calls its function with. *)
Definition host_tokens (compose : string) : list (list ascii) := tokens_from None (text_lines compose).

(** ** The environment *)

(** White space, a name and an equals sign between white space; what precedes the
    value, the name, and the value. *)
Definition env_line (l : list ascii) : option (list ascii * string * list ascii) :=
  let ws := take_while is_space l in
  let r := drop_while is_space l in
  let name := take_while name_char r in
  let r2 := drop_while name_char r in
  let sp := take_while is_space r2 in
  match drop_while is_space r2 with
  | c :: r3 =>
      if match head name with Some x => name_start x | None => false end && bool_decide (c = "="%char)
      then Some (ws ++ name ++ sp ++ c :: take_while is_space r3, of_chars name, drop_while is_space r3)
      else None
  | [] => None
  end.

Definition env_entry (l : list ascii) : option (string * string) :=
  '(_, name, r) ← env_line l;
  if every is_space (drop_while any_char r)
  then Some (name, of_chars (strip_quotes (take_while any_char r))) else None.

Definition parseEnv (env : string) : list (string * string) :=
  map_of (omap env_entry (text_lines env)).

Definition set_line (vars : list (string * Z)) (l : list ascii) : list ascii * option string :=
  match env_line l with
  | Some (before, name, r) =>
      match map_get name vars with
      | Some n => if every any_char r then (before ++ chars (num_to_string n), Some name) else (l, None)
      | None => (l, None)
      end
  | None => (l, None)
  end.

Definition setEnvVars (env : string) (vars : list (string * Z)) : string :=
  let set := set_line vars <$> text_lines env in
  let seen := omap snd set in
  of_lines ((fst <$> set) ++
    ((λ kn, chars kn.1 ++ "="%char :: chars (num_to_string kn.2)) <$> findMany (λ kn, negb (includes kn.1 seen)) vars)).

(** ** Resolving and applying a map of ports *)

(** The name in braces, and the default after a dash. *)
Definition parseVarToken (t : list ascii) : option (string * option string) :=
  if startsWith "${" (of_chars t) then
    let r := drop 2 t in
    let name := take_while name_char r in
    let r2 := drop_while name_char r in
    if match head name with Some c => name_start c | None => false end then
      let def (d : list ascii) :=
        match last d with
        | Some c => let b := take (length d - 1) d in
                    if bool_decide (c = "}"%char) && negb (includes "}"%char b) then Some (of_chars name, Some (of_chars b)) else None
        | None => None
        end in
      match r2 with
      | c :: r3 =>
          if bool_decide (c = "}"%char) then (if bool_decide (r3 = []) then Some (of_chars name, None) else None)
          else if bool_decide (c = "-"%char) then def r3
          else if bool_decide (c = ":"%char) then
            match r3 with
            | c' :: r4 => if bool_decide (c' = "-"%char) then def r4 else None
            | [] => None
            end
          else None
      | [] => None
      end
    else None
  else None.

Record PortRemapOps := Ops { op_literal : gmap Z Z; op_vars : list (string * Z); op_unresolved : list Z }.

(** The port a variable stands for. *)
Definition current_port (envMap : list (string * string)) (name : string) (def : option string) : option Z :=
  Number (trim (default (default "" def) (map_get name envMap))).

(** One token; the last component is the set of the ports found. *)
Definition resolve_token (want : gmap Z Z) (envMap : list (string * string))
    (acc : gmap Z Z * list (string * Z) * gset Z) (token : list ascii) : gmap Z Z * list (string * Z) * gset Z :=
  let '(literal, vars, resolved) := acc in
  let t := trim_chars is_space token in
  if all_digits (of_chars t) then
    let old := digits_value (of_chars t) in
    match want !! old with
    | Some n => (<[old := n]> literal, vars, {[old]} ∪ resolved)
    | None => acc
    end
  else
    match parseVarToken t with
    | Some (name, def) =>
        match current_port envMap name def with
        | Some current =>
            match want !! current with
            | Some n => (literal, map_set name n vars, {[current]} ∪ resolved)
            | None => acc
            end
        | None => acc
        end
    | None => acc
    end.

Definition resolvePortRemap (compose env : string) (map : gmap Z Z) : PortRemapOps :=
  let want := toNumMap map in
  if bool_decide (want = ∅) then Ops ∅ [] []
  else
    let '(literal, vars, resolved) := foldl (resolve_token want (parseEnv env)) (∅, [], ∅) (host_tokens compose) in
    Ops literal vars (sort Z.leb (filter (λ o, o ∉ resolved) (fst <$> map_to_list want))).

Definition apply_line (lit : gmap Z Z) (l : list ascii) : list ascii :=
  match long_entry l with
  | Some e => match rewriteLiteral (e_value e) lit with Some nt => with_value e nt | None => l end
  | None =>
      match short_entry l with
      | Some e =>
          let value := trim_chars is_space (e_value e) in
          if isMapping value then l
          else match rewriteSpec value lit with Some nt => with_value e nt | None => l end
      | None => l
      end
  end.

(** A scan that rewrites the lines inside of a block; [None] drops the line. *)
Fixpoint rewrite_from (f : list ascii → option (list ascii)) (portsIndent : option nat) (lines : list (list ascii)) : list (list ascii) :=
  match lines with
  | [] => []
  | l :: lines' =>
      let '(pi, at_) := enter portsIndent l in
      match at_ with
      | Inside => match f l with Some l' => l' :: rewrite_from f pi lines' | None => rewrite_from f pi lines' end
      | _ => l :: rewrite_from f pi lines'
      end
  end.

Definition applyPortRemap (compose env : string) (literal : gmap Z Z) (vars : list (string * Z)) : string * string :=
  let lit := toNumMap literal in
  (of_lines (rewrite_from (λ l, Some (apply_line lit l)) None (text_lines compose)),
   match vars with [] => env | _ => setEnvVars env vars end).

(** ** The trial run *)

(** [lastIndexOf] of a character, as what precedes it and what follows. *)
Fixpoint split_last (c : ascii) (l : list ascii) : option (list ascii * list ascii) :=
  match l with
  | [] => None
  | x :: l' =>
      match split_last c l' with
      | Some (a, b) => Some (x :: a, b)
      | None => if bool_decide (x = c) then Some ([], l') else None
      end
  end.

Definition containerSideOnly (value : list ascii) : list ascii :=
  let '(body, proto) := match split_last "/"%char value with Some (a, b) => (a, "/"%char :: b) | None => (value, []) end in
  let container := match split_last ":"%char body with Some (_, b) => b | None => body end in
  container ++ proto.

Definition unpublish_line (l : list ascii) : option (list ascii) :=
  let trimmed := of_chars (trim_chars is_space l) in
  if startsWith "published:" trimmed || startsWith "host_ip:" trimmed then None
  else
    Some (match short_entry l with
          | Some e =>
              let value := trim_chars is_space (e_value e) in
              if isMapping value then l else with_value e (containerSideOnly value)
          | None => l
          end).

Definition unpublishPorts (compose : string) : string :=
  of_lines (rewrite_from unpublish_line None (text_lines compose)).

(** [toLowerCase], the characters a project name may have, the length, the dashes
    at the ends. *)
Definition name_ok (c : ascii) : bool := is_lower c || is_digit c || includes c ["_"%char; "-"%char].
Fixpoint dashed (after : bool) (l : list ascii) : list ascii :=
  match l with
  | [] => []
  | c :: l' => if name_ok c then c :: dashed false l' else if after then dashed true l' else "-"%char :: dashed true l'
  end.
Definition is_dash (c : ascii) : bool := bool_decide (c = "-"%char).
Definition sandboxName (stackName snapshotShortId : string) : string :=
  let base := dashed false (chars (toLowerCase (stackName +:+ "-verify-" +:+ snapshotShortId))) in
  of_chars (trim_chars is_dash (take 54 base)).

(** The name ends in [-verify-] and at least four letters or digits. *)
Definition alnum (c : ascii) : bool := is_lower c || is_digit c.
Definition is_sandbox (name : string) : bool :=
  let l := reverse (chars name) in
  let id := take_while alnum l in
  (4 <=? length id) && startsWith (of_chars (reverse (chars "-verify-"))) (of_chars (drop_while alnum l)).
Definition assertSandbox (name : string) : result string unit :=
  if is_sandbox name then Ok tt
  else Err ("Refusing to tear down " +:+ quoted name +:+ " — it is not a verify sandbox.").

(** ** Numerals *)

Definition push_digit (acc : Z) (c : ascii) : Z := (acc * 10 + Z.of_nat (code c - 48))%Z.

Lemma push_digit_value x : Z.of_nat (code (pretty_N_char (x `mod` 10)) - 48) = Z.of_N (x `mod` 10).
Proof.
  assert (Hx : (x `mod` 10 < 10)%N) by by apply N.mod_lt. destruct (x `mod` 10)%N as [|p]; [done|].
  repeat (destruct p as [p|p|]; try done; try (exfalso; lia)).
Qed.

Lemma fold_pretty x s :
  fold_left push_digit (chars (pretty_N_go x s)) 0%Z = fold_left push_digit (chars s) (Z.of_N x).
Proof.
  revert s. induction (N.lt_wf_0 x) as [x _ IH]; intros s.
  assert (x = 0 ∨ 0 < x)%N as [->|Hx] by lia; [done|].
  rewrite pretty_N_go_step by done. rewrite IH by by apply N.div_lt. rewrite chars_String. cbn [fold_left].
  f_equal. unfold push_digit. rewrite push_digit_value.
  rewrite (N.div_mod x 10) at 3 by done. lia.
Qed.

Lemma number_round_trip n : (0 ≤ n)%Z →
  all_digits (num_to_string n) = true ∧ digits_value (num_to_string n) = n.
Proof.
  intros Hn. rewrite <-(Z2Nat.id n) by done. destruct (digits_of_number (Z.to_nat n)) as (d & ds & Hd & Hall). split.
  - unfold all_digits. rewrite bool_decide_eq_false_2 by (intros He; by rewrite He in Hd).
    cbn [negb andb]. rewrite Hd. apply forallb_forall. intros c Hc. apply Hall. by apply list_elem_of_In.
  - generalize (Z.to_nat n). intros m. unfold digits_value. change (λ acc c, _) with push_digit.
    destruct m as [|m]; [done|].
    change (num_to_string (Z.of_nat (S m))) with (pretty_N_go (Npos (Pos.of_succ_nat m)) "").
    rewrite fold_pretty. cbn. lia.
Qed.

Lemma number_read n : (0 ≤ n)%Z → Number (num_to_string n) = Some n.
Proof.
  intros Hn. destruct (number_round_trip n Hn) as [Hd Hv]. unfold Number.
  rewrite trim_id; [|intros c Hc; by eapply digit_not_space, all_digits_chars].
  destruct (num_to_string n) as [|c s] eqn:Hs; [done|].
  assert (Hc : is_digit c = true) by (eapply all_digits_chars; [exact Hd | by left]).
  rewrite !bool_decide_eq_false_2 by (intros ->; done). by rewrite Hd, Hv.
Qed.

(** ** The environment *)

Lemma text_of_lines ls : Forall (λ l, lf ∉ l) ls → ls ≠ [] → text_lines (of_lines ls) = ls.
Proof.
  intros Hl Hne. unfold text_lines, of_lines. rewrite lines_of_unlines.
  - rewrite <-list_fmap_compose. rewrite <-(list_fmap_id ls) at 2. apply list_fmap_ext. intros i l _. apply chars_of_chars.
  - apply Forall_fmap. eapply Forall_impl; [exact Hl|]. intros l Hlf. cbn. by rewrite chars_of_chars.
  - by intros He%fmap_nil_inv.
Qed.

Lemma text_lines_spec s : Forall (λ l, lf ∉ l) (text_lines s) ∧ text_lines s ≠ [] ∧ of_lines (text_lines s) = s.
Proof.
  destruct (lines_of_spec s) as (Hl & Hne & Hs). unfold text_lines, of_lines. split_and!.
  - apply Forall_fmap. exact Hl.
  - by intros He%fmap_nil_inv.
  - rewrite <-list_fmap_compose. etrans; [|exact Hs]. f_equal. etrans; [|apply list_fmap_id].
    apply list_fmap_ext. intros i l _. apply of_chars_chars.
Qed.

(** A [Map] built from an array answers with the last entry. *)
Definition values_of {V} (k : string) (kvs : list (string * V)) : list V :=
  omap (λ kv, if bool_decide (kv.1 = k) then Some kv.2 else None) kvs.

Lemma values_of_cons {V} k kv (kvs : list (string * V)) :
  values_of k (kv :: kvs) = if bool_decide (kv.1 = k) then kv.2 :: values_of k kvs else values_of k kvs.
Proof. unfold values_of. cbn. by case_bool_decide. Qed.

Lemma values_of_app {V} k (kvs kvs' : list (string * V)) : values_of k (kvs ++ kvs') = values_of k kvs ++ values_of k kvs'.
Proof. apply omap_app. Qed.

Lemma map_of_last {V} k (kvs : list (string * V)) : map_get k (map_of kvs) = last (values_of k kvs).
Proof.
  unfold values_of. induction kvs as [|[k' v] kvs IH] using rev_ind; [done|].
  rewrite map_of_snoc, map_get_set, omap_app, IH. cbn [omap list_omap fst snd].
  destruct (decide (k = k')) as [->|Hne].
  - rewrite !bool_decide_eq_true_2 by done. by rewrite last_snoc.
  - rewrite !bool_decide_eq_false_2 by congruence. by rewrite app_nil_r.
Qed.

(** A run and what stops it. *)
Lemma take_while_app p a b : (∀ x, x ∈ a → p x = true) → (∀ c, head b = Some c → p c = false) → take_while p (a ++ b) = a.
Proof.
  intros Ha Hb. destruct b as [|c b]; [|apply take_while_stop; auto].
  rewrite app_nil_r. induction a as [|x a IH]; [done|]. cbn. rewrite (Ha x) by left. f_equal. apply IH. intros y Hy. apply Ha. by right.
Qed.

Lemma drop_while_app p a b : (∀ x, x ∈ a → p x = true) → (∀ c, head b = Some c → p c = false) → drop_while p (a ++ b) = b.
Proof.
  intros Ha Hb. destruct b as [|c b]; [|apply drop_while_stop; auto].
  rewrite app_nil_r. induction a as [|x a IH]; [done|]. cbn. rewrite (Ha x) by left. apply IH. intros y Hy. apply Ha. by right.
Qed.

Lemma take_drop_while p l : take_while p l ++ drop_while p l = l.
Proof. induction l as [|c l IH]; [done|]. cbn. destruct (p c); [cbn; by f_equal | done]. Qed.

Lemma space_not_name c : is_space c = true → name_char c = false.
Proof. by destruct c as [[] [] [] [] [] [] [] []]. Qed.
Lemma name_not_space c : name_char c = true → is_space c = false.
Proof. by destruct c as [[] [] [] [] [] [] [] []]. Qed.

(** The parts of an assignment. *)
Lemma env_line_parts l b n r :
  env_line l = Some (b, n, r) →
  ∃ ws name sp s, b = ws ++ name ++ sp ++ "="%char :: s ∧ n = of_chars name ∧ l = b ++ r ∧
    (∀ c, c ∈ ws → is_space c = true) ∧ (∀ c, c ∈ name → name_char c = true) ∧
    (∃ c, head name = Some c ∧ name_start c = true) ∧
    (∀ c, c ∈ sp → is_space c = true) ∧ (∀ c, c ∈ s → is_space c = true) ∧ (∀ c, head r = Some c → is_space c = false).
Proof.
  unfold env_line. set (ws := take_while is_space l). set (r0 := drop_while is_space l).
  set (name := take_while name_char r0). set (r2 := drop_while name_char r0). set (sp := take_while is_space r2).
  destruct (drop_while is_space r2) as [|c r3] eqn:Hr; [done|]. destruct (_ && _) eqn:Hc; [|done]. intros [= <- <- <-].
  apply andb_true_iff in Hc as [Hh ->%bool_decide_eq_true].
  exists ws, name, sp, (take_while is_space r3). split_and!; try done.
  - rewrite <-!app_assoc. cbn [app]. rewrite take_drop_while, <-Hr. unfold sp. rewrite take_drop_while.
    unfold name, r2. rewrite take_drop_while. unfold ws, r0. by rewrite take_drop_while.
  - intros c. apply take_while_in.
  - intros c. apply take_while_in.
  - destruct (head name) as [c|]; [by exists c | done].
  - intros c. apply take_while_in.
  - intros c. apply take_while_in.
  - intros c. apply drop_while_head.
Qed.

Lemma env_line_again l b n r r' :
  env_line l = Some (b, n, r) → (∀ c, head r' = Some c → is_space c = false) → env_line (b ++ r') = Some (b, n, r').
Proof.
  intros (ws & name & sp & s & -> & -> & _ & Hws & Hname & (c & Hh & Hc) & Hsp & Hs & _)%env_line_parts Hr'.
  destruct name as [|c' name]; [done|]. injection Hh as ->.
  assert (Hcs : is_space c = false) by (apply name_not_space, Hname; left).
  assert (Hstop : ∀ x, head (sp ++ "="%char :: s ++ r') = Some x → name_char x = false).
  { destruct sp as [|y sp]; intros x [= <-]; [done|]. apply space_not_name, Hsp. left. }
  unfold env_line. rewrite <-!app_assoc. cbn [app]. rewrite take_while_stop, drop_while_stop by done.
  change (c :: name ++ sp ++ "="%char :: s ++ r') with ((c :: name) ++ sp ++ "="%char :: s ++ r').
  rewrite take_while_app, drop_while_app by done. rewrite take_while_stop, drop_while_stop by done.
  cbn [head]. rewrite Hc, bool_decide_eq_true_2 by done. cbn [andb].
  rewrite take_while_app, drop_while_app by done. done.
Qed.

Lemma digits_plain n c : (0 ≤ n)%Z → c ∈ chars (num_to_string n) → is_digit c = true.
Proof. intros Hn Hc. eapply all_digits_chars; [by apply number_round_trip | done]. Qed.

Lemma digit_plain c : is_digit c = true → is_space c = false ∧ any_char c = true ∧ is_quote c = false.
Proof. by destruct c as [[] [] [] [] [] [] [] []]. Qed.

Lemma any_char_all (l : list ascii) : cr ∉ l → lf ∉ l → ∀ c, c ∈ l → any_char c = true.
Proof.
  intros H1 H2 c Hc. unfold any_char. apply negb_true_iff, includes_false.
  intros [->|[->|?%elem_of_nil]%elem_of_cons]%elem_of_cons; done.
Qed.

(** The value of an assignment without a carriage return is the rest of its line. *)
Lemma env_entry_plain l : cr ∉ l → lf ∉ l →
  env_entry l = '(_, name, r) ← env_line l; Some (name, of_chars (strip_quotes r)).
Proof.
  intros H1 H2. unfold env_entry. destruct (env_line l) as [[[b n] r]|] eqn:He; [|done]. cbn [mbind option_bind].
  apply env_line_parts in He as (ws & name & sp & s & _ & _ & -> & _).
  assert (Hr : ∀ c, c ∈ r → any_char c = true).
  { apply any_char_all; intros Hc; [apply H1|apply H2]; apply elem_of_app; by right. }
  pose proof (take_while_app any_char r [] Hr ltac:(done)) as Ht. pose proof (drop_while_app any_char r [] Hr ltac:(done)) as Hd.
  rewrite app_nil_r in Ht, Hd. by rewrite Ht, Hd.
Qed.

Definition set_value (vars : list (string * Z)) (kv : string * string) : string * string :=
  (kv.1, match map_get kv.1 vars with Some n => num_to_string n | None => kv.2 end).

Lemma set_line_entry vars l :
  (∀ k n, map_get k vars = Some n → (0 ≤ n)%Z) → cr ∉ l → lf ∉ l →
  env_entry (set_line vars l).1 = set_value vars <$> env_entry l ∧
  (lf ∉ (set_line vars l).1) ∧
  (set_line vars l).2 = (kv ← env_entry l; if map_has kv.1 vars then Some kv.1 else None).
Proof.
  intros Hv H1 H2. rewrite (env_entry_plain l) by done. unfold set_line.
  destruct (env_line l) as [[[b n] r]|] eqn:He; [|cbn [fst snd mbind option_bind]; by rewrite env_entry_plain, He].
  cbn [mbind option_bind fmap option_fmap option_map]. unfold set_value. cbn [fst snd].
  pose proof (env_line_parts _ _ _ _ He) as (ws & name & sp & s & _ & _ & Hl & _).
  destruct (map_get n vars) as [x|] eqn:Hx.
  - assert (Hall : every any_char r = true).
    { apply every_true, any_char_all; intros Hc; [apply H1|apply H2]; rewrite Hl, elem_of_app; by right. }
    rewrite Hall. cbn [fst snd]. assert (map_has n vars = true) as -> by (apply map_has_get; by eexists).
    assert (Hd : ∀ c, c ∈ chars (num_to_string x) → is_digit c = true) by (intros c; apply digits_plain; eauto).
    assert (Hnl : ∀ z : ascii, is_digit z = false → z ∉ b → z ∉ (b ++ chars (num_to_string x))).
    { intros z Hz Hb Hin. apply elem_of_app in Hin as [Hin|Hin]; [done|]. apply Hd in Hin. congruence. }
    assert ((cr ∉ b) ∧ (lf ∉ b)) as [Hb1 Hb2] by (split; intros Hc; [apply H1|apply H2]; rewrite Hl, elem_of_app; by left).
    split_and!; [|by apply Hnl|done]. rewrite env_entry_plain by by apply Hnl.
    rewrite (env_line_again l b n r); [|done|].
    + cbn [mbind option_bind]. rewrite strip_unquoted; [by rewrite of_chars_chars|].
      intros c Hc%Hd. by apply digit_plain.
    + intros c Hc. apply head_Some_elem_of, Hd in Hc. by apply digit_plain.
  - assert (map_has n vars = false) as -> by (apply not_true_iff_false; rewrite map_has_get, Hx; by intros [??]).
    cbn [fst snd]. rewrite env_entry_plain, He by done. done.
Qed.

Lemma env_line_written k r :
  env_name k = true → (∀ c, head r = Some c → is_space c = false) →
  env_line (chars k ++ "="%char :: r) = Some (chars k ++ ["="%char], k, r).
Proof.
  intros (c & l & Hk & Hc & Hall)%env_name_chars Hr. unfold env_line. rewrite Hk in Hall |- *.
  assert (Hcs : is_space c = false) by (apply name_not_space, Hall; left).
  cbn [app take_while drop_while]. rewrite Hcs. cbn [app].
  change (c :: l ++ "="%char :: r) with ((c :: l) ++ "="%char :: r).
  rewrite take_while_stop, drop_while_stop by done. cbn [head take_while drop_while].
  change (is_space "="%char) with false. cbn beta iota. rewrite Hc, bool_decide_eq_true_2 by done. cbn [andb].
  rewrite <-Hk, of_chars_chars, Hk. destruct r as [|x r]; cbn [take_while drop_while]; by rewrite ?(Hr x).
Qed.

Lemma entries_set vars (ls : list (list ascii)) :
  (∀ l, l ∈ ls → env_entry (set_line vars l).1 = set_value vars <$> env_entry l) →
  omap env_entry (fst <$> (set_line vars <$> ls)) = set_value vars <$> omap env_entry ls.
Proof.
  induction ls as [|l ls IH]; intros Hs; [done|]. rewrite !fmap_cons.
  change (match env_entry (set_line vars l).1 with Some y => y :: omap env_entry (fst <$> (set_line vars <$> ls))
          | None => omap env_entry (fst <$> (set_line vars <$> ls)) end =
          set_value vars <$> (match env_entry l with Some y => y :: omap env_entry ls | None => omap env_entry ls end)).
  rewrite Hs, IH by (by left || (intros x Hx; apply Hs; by right)). by destruct (env_entry l).
Qed.

Section set_env.
Variables (env : string) (vars : list (string * Z)).
Hypothesis no_cr : cr ∉ chars env.
Hypothesis unique_vars : NoDup vars.*1.
Hypothesis vars_ok : ∀ k n, (k, n) ∈ vars → env_name k = true ∧ (0 ≤ n)%Z.

Definition added_lines : list (list ascii) :=
  let seen := omap snd (set_line vars <$> text_lines env) in
  (λ kn, chars kn.1 ++ "="%char :: chars (num_to_string kn.2)) <$> findMany (λ kn, negb (includes kn.1 seen)) vars.

Lemma get_vars k n : map_get k vars = Some n → (k, n) ∈ vars.
Proof.
  unfold map_get. destruct (findFirst _ vars) as [[k' n']|] eqn:Hf; [|done].
  apply findFirst_Some in Hf as [Hin Hk%bool_decide_eq_true]. cbn in *. by intros [= <-]; subst.
Qed.

Lemma line_plain l : l ∈ text_lines env → (cr ∉ l) ∧ (lf ∉ l).
Proof.
  unfold text_lines. intros (s & -> & Hs)%list_elem_of_fmap. apply split_in in Hs as [Hlf Hin].
  split; [|done]. intros Hc. by apply no_cr, Hin.
Qed.

Lemma set_line_env l : l ∈ text_lines env →
  env_entry (set_line vars l).1 = set_value vars <$> env_entry l ∧
  (lf ∉ (set_line vars l).1) ∧
  (set_line vars l).2 = (kv ← env_entry l; if map_has kv.1 vars then Some kv.1 else None).
Proof.
  intros [H1 H2]%line_plain. apply set_line_entry; [|done|done]. intros k n Hk%get_vars. by eapply vars_ok.
Qed.

Lemma added_entry kn : kn ∈ vars →
  env_entry (chars kn.1 ++ "="%char :: chars (num_to_string kn.2)) = Some (kn.1, num_to_string kn.2) ∧
  lf ∉ (chars kn.1 ++ "="%char :: chars (num_to_string kn.2)).
Proof.
  destruct kn as [k n]. cbn [fst snd]. intros [Hk Hn]%vars_ok.
  assert (Hd : ∀ c, c ∈ chars (num_to_string n) → is_digit c = true) by (intros c; by apply digits_plain).
  pose proof (env_name_chars k Hk) as (c & l & _ & _ & Hall).
  assert (Hno : ∀ z : ascii, is_digit z = false → name_char z = false → z ≠ "="%char → z ∉ (chars k ++ "="%char :: chars (num_to_string n))).
  { intros z Hz Hz2 Hz3 [Hin|[?|Hin]%elem_of_cons]%elem_of_app; [apply Hall in Hin; congruence|done|apply Hd in Hin; congruence]. }
  split; [|by apply Hno]. rewrite env_entry_plain by by apply Hno. rewrite env_line_written; [|done|].
  - cbn [mbind option_bind]. rewrite strip_unquoted; [by rewrite of_chars_chars|]. intros x Hx%Hd. by apply digit_plain.
  - intros x Hx. apply head_Some_elem_of, Hd in Hx. by apply digit_plain.
Qed.

Lemma entries_after :
  omap env_entry (text_lines (setEnvVars env vars)) =
  (set_value vars <$> omap env_entry (text_lines env)) ++
  ((λ kn, (kn.1, num_to_string kn.2)) <$>
     findMany (λ kn, negb (includes kn.1 (omap snd (set_line vars <$> text_lines env)))) vars).
Proof.
  unfold setEnvVars. rewrite text_of_lines.
  - rewrite omap_app. f_equal.
    + apply entries_set. intros l Hl. by apply set_line_env.
    + rewrite omap_fmap_in with (h := λ kn, Some (kn.1, num_to_string kn.2)).
      * induction (findMany _ vars) as [|kn kns IH]; [done|]. cbn. by f_equal.
      * intros kn [_ Hkn]%elem_of_findMany. by apply added_entry.
  - apply Forall_app. split.
    + rewrite <-list_fmap_compose. apply Forall_fmap, Forall_forall. intros l Hl. by apply set_line_env.
    + apply Forall_fmap, Forall_forall. intros kn [_ Hkn]%elem_of_findMany. by apply added_entry.
  - destruct (text_lines_spec env) as (_ & Hne & _). by destruct (text_lines env).
Qed.
Lemma values_set k (kvs : list (string * string)) :
  values_of k (set_value vars <$> kvs) =
  match map_get k vars with Some n => const (num_to_string n) <$> values_of k kvs | None => values_of k kvs end.
Proof.
  induction kvs as [|[k' v] kvs IH]; [by destruct (map_get k vars)|].
  rewrite fmap_cons, !values_of_cons, IH. unfold set_value at 1 2. cbn [fst snd].
  case_bool_decide; [subst|done]. unfold set_value. cbn [fst snd]. by destruct (map_get k vars).
Qed.

Lemma seen_names k :
  k ∈ omap snd (set_line vars <$> text_lines env) ↔
  k ∈ vars.*1 ∧ k ∈ (omap env_entry (text_lines env)).*1.
Proof.
  rewrite list_elem_of_omap. split.
  - intros (y & (l & -> & Hl)%list_elem_of_fmap & Hk). destruct (set_line_env l Hl) as (_ & _ & Hs).
    rewrite Hs in Hk. destruct (env_entry l) as [[n v]|] eqn:He; [|done]. cbn in Hk. case_match eqn:Hh; [|done].
    simplify_eq. split; [by apply map_has_keys|]. apply list_elem_of_fmap. exists (k, v). split; [done|].
    apply list_elem_of_omap. by exists l.
  - intros [Hv ([n v] & -> & (l & Hl & He)%list_elem_of_omap)%list_elem_of_fmap]. cbn in *.
    exists (set_line vars l). split; [by apply list_elem_of_fmap_2|]. destruct (set_line_env l Hl) as (_ & _ & ->).
    rewrite He. cbn. by rewrite (proj2 (map_has_keys n vars) Hv).
Qed.

Lemma values_added k p :
  values_of k ((λ kn, (kn.1, num_to_string kn.2)) <$> findMany p vars) =
  match map_get k vars with Some n => if p (k, n) then [num_to_string n] else [] | None => [] end.
Proof.
  clear vars_ok. revert unique_vars. unfold findMany. induction vars as [|[k' n'] t IH]; intros Hu; [done|].
  rewrite fmap_cons, NoDup_cons in Hu. destruct Hu as [Hk' Hu]. specialize (IH Hu). rewrite filter_cons, map_get_cons.
  destruct (decide (k' = k)) as [->|Hne].
  - rewrite bool_decide_eq_true_2 by done. rewrite (proj2 (map_get_None k t)) in IH by done.
    case_decide as Hp; [rewrite Hp|apply not_true_iff_false in Hp; by rewrite Hp].
    rewrite fmap_cons, values_of_cons, IH. cbn [fst snd]. by rewrite bool_decide_eq_true_2.
  - rewrite (bool_decide_eq_false_2 (k' = k)) by done. case_decide; [|done].
    rewrite fmap_cons, values_of_cons. cbn [fst snd]. by rewrite bool_decide_eq_false_2.
Qed.

(** setting ports in an [.env] sets them and nothing else.  Read the way the
    pre-flight reads it, the file has afterwards the new number for every variable
    that was set, whether it had a line, several lines or none, quoted or not, and
    for every other name what it had before. *)
Theorem env_vars_set (k : string) :
  map_get k (parseEnv (setEnvVars env vars)) =
  match map_get k vars with Some n => Some (num_to_string n) | None => map_get k (parseEnv env) end.
Proof using no_cr unique_vars vars_ok.
  unfold parseEnv. rewrite !map_of_last, entries_after, values_of_app.
  rewrite values_set, values_added. destruct (map_get k vars) as [n|] eqn:Hk; [|by rewrite app_nil_r]. cbn [fst].
  destruct (includes k _) eqn:Hi; cbn [negb]; [|by rewrite last_snoc].
  apply includes_true, seen_names in Hi as [_ Hi]. rewrite app_nil_r.
  apply list_elem_of_fmap in Hi as ([k' v] & -> & Hv). cbn [fst].
  assert (Hin : v ∈ values_of k' (omap env_entry (text_lines env))).
  { apply list_elem_of_omap. exists (k', v). split; [done|]. cbn. by rewrite bool_decide_eq_true_2. }
  destruct (values_of k' _) as [|x xs] using rev_ind; [by apply elem_of_nil in Hin|].
  rewrite fmap_app. apply last_snoc.
Qed.
End set_env.

(** ** Short specs *)

Definition depth_after (d : nat) (l : list ascii) : nat := fold_left next_depth l d.

(** No separator outside of braces. *)
Fixpoint no_top (sep : ascii) (d : nat) (l : list ascii) : bool :=
  match l with
  | [] => true
  | c :: l' => negb (bool_decide (c = sep) && (next_depth d c =? 0)) && no_top sep (next_depth d c) l'
  end.

Definition brace (c : ascii) : bool := includes c ["{"%char; "}"%char].

Lemma next_depth_plain d c : brace c = false → next_depth d c = d.
Proof.
  unfold brace, next_depth. rewrite includes_false, !not_elem_of_cons. intros (H1 & H2 & _).
  by rewrite !bool_decide_eq_false_2.
Qed.

Lemma depth_after_app d a b : depth_after d (a ++ b) = depth_after (depth_after d a) b.
Proof. apply fold_left_app. Qed.

Lemma no_top_app sep d a b : no_top sep d (a ++ b) = no_top sep d a && no_top sep (depth_after d a) b.
Proof. revert d. induction a as [|c a IH]; intros d; [done|]. cbn [app no_top]. rewrite IH. by rewrite andb_assoc. Qed.

Lemma plain_depth d l : (∀ c, c ∈ l → brace c = false) → depth_after d l = d.
Proof.
  induction l as [|c l IH]; intros Hl; [done|]. cbn. rewrite next_depth_plain by (apply Hl; left).
  apply IH. intros x Hx. apply Hl. by right.
Qed.

Lemma plain_no_top sep d l : (∀ c, c ∈ l → brace c = false ∧ c ≠ sep) → no_top sep d l = true.
Proof.
  revert d. induction l as [|c l IH]; intros d Hl; [done|]. cbn [no_top]. destruct (Hl c) as [_ Hc]; [by left|].
  rewrite bool_decide_eq_false_2 by done. cbn. apply IH. intros x Hx. apply Hl. by right.
Qed.

Section split_top.
Variable sep : ascii.
Hypothesis sep_plain : brace sep = false.

Lemma split_top_ne d l : split_top sep d l ≠ [].
Proof. destruct l as [|c l]; [done|]. cbn. case_match; [done|]. by destruct (split_top _ _ l). Qed.

Lemma split_top_whole d l : no_top sep d l = true → split_top sep d l = [l].
Proof.
  revert d. induction l as [|c l IH]; intros d; [done|]. cbn [no_top split_top]. intros [Hc Hl]%andb_true_iff.
  apply negb_true_iff in Hc. rewrite Hc. by rewrite IH.
Qed.

Lemma split_top_at d a b :
  no_top sep d a = true → depth_after d a = 0 → split_top sep d (a ++ sep :: b) = a :: split_top sep 0 b.
Proof.
  revert d. induction a as [|c a IH]; intros d.
  - intros _ Hd. cbn in Hd. subst. cbn [app split_top]. rewrite next_depth_plain by done.
    by rewrite bool_decide_eq_true_2.
  - cbn [no_top depth_after fold_left app split_top]. intros [Hc Ha]%andb_true_iff Hd.
    apply negb_true_iff in Hc. rewrite Hc. by rewrite IH.
Qed.

Lemma split_top_parts d l w ws :
  split_top sep d l = w :: ws →
  no_top sep d w = true ∧
  match ws with
  | [] => l = w
  | _ => ∃ l', l = w ++ sep :: l' ∧ depth_after d w = 0 ∧ split_top sep 0 l' = ws
  end.
Proof.
  revert d w ws. induction l as [|c l IH]; intros d w ws; cbn [split_top]; [by intros [= <- <-]|].
  destruct (bool_decide (c = sep) && (next_depth d c =? 0)) eqn:Hc.
  - apply andb_true_iff in Hc as [->%bool_decide_eq_true Hd%Nat.eqb_eq]. rewrite next_depth_plain in Hd |- * by done.
    subst d. intros [= <- <-]. split; [done|]. destruct (split_top sep 0 l) eqn:Hs; [by apply split_top_ne in Hs|].
    by exists l.
  - destruct (split_top sep (next_depth d c) l) as [|v vs] eqn:Hs; [by apply split_top_ne in Hs|].
    intros [= <- <-]. apply IH in Hs as [Hn Hs]. split; [cbn; by rewrite Hc|].
    destruct vs as [|v' vs]; [by rewrite Hs|]. destruct Hs as (l' & -> & Hd & Hl). by exists l'.
Qed.

Lemma join_split_top d l : join_chars sep (split_top sep d l) = l.
Proof.
  revert d. induction l as [|c l IH]; intros d; [done|]. cbn [split_top]. specialize (IH (next_depth d c)).
  case_match eqn:Hc.
  - apply andb_true_iff in Hc as [->%bool_decide_eq_true _].
    destruct (split_top sep (next_depth d sep) l) as [|w ws] eqn:Hs; [by apply split_top_ne in Hs|].
    cbn. by rewrite <-IH.
  - destruct (split_top sep (next_depth d c) l) as [|w [|w' ws]] eqn:Hs; [by apply split_top_ne in Hs|..]; cbn in *; by rewrite IH.
Qed.
End split_top.

(** A spec in parts: what precedes the host, the host with its blanks, the
    container's side. *)
Lemma parseSpec_parts s p :
  parseSpec s = Some p →
  ∃ ipc host0 rest l',
    s = (ipc ++ host0 ++ ":"%char :: sp_container p) ++ sp_proto p ∧ sp_host p = trim_chars is_space host0 ∧
    (ipc = [] ∧ sp_hostIp p = [] ∨ ipc = sp_hostIp p ++ [":"%char] ∧ no_top ":"%char 0 (sp_hostIp p) = true) ∧
    depth_after 0 ipc = 0 ∧ depth_after 0 host0 = 0 ∧ no_top ":"%char 0 host0 = true ∧ no_top ":"%char 0 (sp_container p) = true ∧
    no_top "/"%char 0 (ipc ++ host0 ++ ":"%char :: sp_container p) = true ∧
    (sp_proto p = [] ∧ rest = [] ∨
     sp_proto p = "/"%char :: l' ∧ rest = splitTop l' "/"%char ∧ depth_after 0 (ipc ++ host0 ++ ":"%char :: sp_container p) = 0).
Proof.
  unfold parseSpec, splitTop. destruct (split_top "/" 0 s) as [|body rest] eqn:Hs; [done|].
  apply split_top_parts in Hs as [Hbody Hrest]; [|done].
  assert (Hproto : ∃ l', s = body ++ match rest with [] => [] | _ => "/"%char :: join_chars "/" rest end ∧
    (rest = [] ∨ (match rest with [] => [] | _ => "/"%char :: join_chars "/" rest end = "/"%char :: l' ∧ rest = split_top "/" 0 l' ∧ depth_after 0 body = 0))).
  { destruct rest as [|w ws]; [exists []; subst; rewrite app_nil_r; auto|]. destruct Hrest as (l' & -> & Hd & Hl). exists l'.
    rewrite <-Hl, join_split_top by done. auto. }
  destruct Hproto as (l' & -> & Hp). set (proto := match rest with [] => [] | _ => _ end) in *.
  destruct (split_top ":" 0 body) as [|a [|b [|c [|]]]] eqn:Hb; try done; intros [= <-]; cbn [sp_hostIp sp_host sp_container sp_proto];
    apply split_top_parts in Hb as [Ha (b0 & -> & Hda & Hb)]; try done.
  - apply split_top_parts in Hb as [Hnb ->]; [|done]. exists [], a, rest, l'. cbn [app]. split_and!; try done; [by left|].
    destruct Hp as [->|(? & ? & ?)]; [by left | by right].
  - apply split_top_parts in Hb as [Hnb (c0 & -> & Hdb & Hc)]; [|done]. apply split_top_parts in Hc as [Hnc ->]; [|done].
    assert (He : ∀ t, (a ++ [":"%char]) ++ t = a ++ ":"%char :: t) by (intros t; by rewrite <-app_assoc).
    exists (a ++ [":"%char]), b, rest, l'. rewrite !He. split_and!; try done; [by right| |].
    + by rewrite depth_after_app, Hda.
    + destruct Hp as [->|(? & ? & ?)]; [by left | by right].
Qed.

Definition ports_ok (lit : gmap Z Z) : Prop := map_Forall (λ _ n, (0 < n)%Z) lit.

Lemma toNumMap_ok m : ports_ok (toNumMap m).
Proof. intros k n Hk. apply map_lookup_filter_Some in Hk as [_ [_ ?]]. done. Qed.

Lemma rewritten_literal host lit new :
  ports_ok lit → rewriteLiteral host lit = Some new →
  ∃ n, (0 < n)%Z ∧ new = chars (num_to_string n) ∧ all_digits (of_chars (trim_chars is_space host)) = true ∧
    lit !! digits_value (of_chars (trim_chars is_space host)) = Some n ∧ (∀ c, c ∈ new → is_digit c = true).
Proof.
  intros Hok. unfold rewriteLiteral. case_match eqn:Hd; [|done]. intros (n & Hn & ->)%fmap_Some.
  pose proof (Hok _ _ Hn) as Hpos. cbn in Hpos. exists n. split_and!; try done. intros c. apply digits_plain. lia.
Qed.

Lemma digit_chars c : is_digit c = true →
  is_space c = false ∧ brace c = false ∧ c ≠ ":"%char ∧ c ≠ "/"%char ∧ spec_char c = true ∧ word_char c = true ∧ name_start c = false ∧ c ≠ "{"%char.
Proof. by destruct c as [[] [] [] [] [] [] [] []]. Qed.

Lemma trim_nospace (l : list ascii) : (∀ c, c ∈ l → is_space c = false) → trim_chars is_space l = l.
Proof.
  intros Hl. apply trim_chars_id; intros c Hc; apply Hl; [by apply head_Some_elem_of | by apply last_Some_elem_of].
Qed.

(** What precedes the host in the rebuilt text. *)
Definition ip_part (ip : list ascii) : list ascii := match ip with [] => [] | _ => ip ++ [":"%char] end.

Lemma reparse s p new :
  parseSpec s = Some p → (∀ c, c ∈ new → is_digit c = true) →
  parseSpec (ip_part (sp_hostIp p) ++ new ++ ":"%char :: sp_container p ++ sp_proto p) =
    Some (Spec (sp_hostIp p) new (sp_container p) (sp_proto p)).
Proof.
  intros Hp Hd.
  assert (Hplain : ∀ c, c ∈ new → brace c = false) by (intros c Hc%Hd; by apply digit_chars).
  assert (Hsep : ∀ sep c, sep = ":"%char ∨ sep = "/"%char → c ∈ new → brace c = false ∧ c ≠ sep).
  { intros sep c [->| ->] Hc%Hd; apply digit_chars in Hc; tauto. }
  apply parseSpec_parts in Hp as (ipc & host0 & rest & l' & _ & _ & Hip & Hd1 & Hd2 & _ & Hnc & Hns & Hproto).
  set (ip := sp_hostIp p) in *. set (ct := sp_container p) in *.
  set (body := ip_part ip ++ new ++ ":"%char :: ct).
  assert (Hipd : depth_after 0 (ip_part ip) = 0 ∧ no_top "/" 0 (ip_part ip) = true).
  { destruct Hip as [[-> ->]|[-> Hip]]; [done|]. rewrite no_top_app in Hns. apply andb_true_iff in Hns as [Hns _].
    unfold ip_part. destruct ip; [done|]. split; [exact Hd1 | exact Hns]. }
  destruct Hipd as [Hipd Hipn].
  assert (Hnd : depth_after 0 new = 0) by by apply plain_depth.
  assert (Hbody : no_top "/" 0 body = true ∧ depth_after 0 body = depth_after 0 ct).
  { unfold body. rewrite !no_top_app, !depth_after_app, Hipn, Hipd, Hnd. cbn [no_top andb].
    rewrite plain_no_top by eauto. split; [|done]. rewrite !no_top_app, Hd1, Hd2 in Hns. cbn [no_top] in Hns.
    apply andb_true_iff in Hns as [_ [_ Hns]%andb_true_iff]. exact Hns. }
  destruct Hbody as [Hbn Hbd].
  assert (Hcolon : splitTop body ":" = match ip with [] => [new; ct] | _ => [ip; new; ct] end).
  { unfold splitTop, body, ip_part.
    assert (Hnew : split_top ":" 0 (new ++ ":"%char :: ct) = [new; ct]).
    { rewrite split_top_at; [|done|by apply plain_no_top; eauto|done]. by rewrite split_top_whole. }
    destruct ip as [|x ip']; [done|]. rewrite <-app_assoc. cbn [app].
    destruct Hip as [[_ ?]|[_ Hip]]; [done|]. change (x :: ip' ++ ":"%char :: new ++ ":"%char :: ct) with ((x :: ip') ++ ":"%char :: new ++ ":"%char :: ct).
    rewrite split_top_at; [by rewrite Hnew|done|done|].
    unfold ip_part in Hipd. rewrite depth_after_app in Hipd. exact Hipd. }
  assert (Hnt : ip_part ip ++ new ++ ":"%char :: ct ++ sp_proto p = body ++ sp_proto p) by (unfold body; by rewrite <-!app_assoc).
  rewrite Hnt. unfold parseSpec.
  assert (Hslash : splitTop (body ++ sp_proto p) "/" = body :: rest).
  { unfold splitTop. destruct Hproto as [[-> ->]|(-> & -> & Hdb)]; [rewrite app_nil_r; by apply split_top_whole|].
    apply split_top_at; [done|done|]. rewrite Hbd. rewrite !depth_after_app, Hd1, Hd2 in Hdb. exact Hdb. }
  rewrite Hslash. assert (Hpr : match rest with [] => [] | _ => "/"%char :: join_chars "/" rest end = sp_proto p).
  { destruct Hproto as [[-> ->]|(-> & -> & _)]; [done|]. unfold splitTop. rewrite join_split_top by done.
    destruct (split_top "/" 0 l') eqn:He; [by apply split_top_ne in He | done]. }
  rewrite Hpr, Hcolon. destruct ip; rewrite trim_nospace by (intros c Hc%Hd; by apply digit_chars); done.
Qed.

Lemma rewriteSpec_read s lit nt :
  ports_ok lit → rewriteSpec s lit = Some nt →
  ∃ p new, parseSpec s = Some p ∧ rewriteLiteral (sp_host p) lit = Some new ∧
    nt = ip_part (sp_hostIp p) ++ new ++ ":"%char :: sp_container p ++ sp_proto p ∧
    parseSpec nt = Some (Spec (sp_hostIp p) new (sp_container p) (sp_proto p)).
Proof.
  intros Hok. unfold rewriteSpec. destruct (parseSpec s) as [p|] eqn:Hp; [|done]. cbn [mbind option_bind].
  destruct (rewriteLiteral (sp_host p) lit) as [new|] eqn:Hn; [|done]. intros [= <-].
  set (nt := _ ++ new ++ _). assert (nt = ip_part (sp_hostIp p) ++ new ++ ":"%char :: sp_container p ++ sp_proto p) as ->.
  { unfold nt, ip_part. by destruct (sp_hostIp p). }
  exists p, new. split_and!; [done..|]. apply (reparse s); [done|].
  by destruct (rewritten_literal _ _ _ Hok Hn) as (n & _ & _ & _ & _ & Hd).
Qed.

(** ** Reading one entry *)

Definition spaces (l : list ascii) : Prop := ∀ c, c ∈ l → is_space c = true.

(** What a value of a short entry publishes. *)
Definition token_of (v : list ascii) : option (list ascii) :=
  let value := trim_chars is_space v in if isMapping value then None else hostTokenOf value.

Lemma spaces_app a b : spaces a → spaces b → spaces (a ++ b).
Proof. intros Ha Hb c [?|?]%elem_of_app; auto. Qed.

Lemma drop_spaces l : spaces l → drop_while is_space l = [].
Proof. intros Hl. rewrite <-(app_nil_r l). by apply drop_while_app. Qed.

Lemma trim_is_sides l : trim_chars is_space l = trim_right (drop_while is_space l).
Proof. done. Qed.

Lemma trim_right_spaces l ts : spaces ts → trim_right (l ++ ts) = trim_right l.
Proof.
  intros Ht. induction l as [|c l IH]; [|cbn [app]; by rewrite !trim_right_cons, IH].
  unfold trim_right. cbn [app]. rewrite drop_spaces; [done|]. intros c. rewrite elem_of_reverse. apply Ht.
Qed.

Lemma trim_blank l : spaces l → trim_chars is_space l = [].
Proof. intros Hl. unfold trim_chars. by rewrite (drop_spaces l). Qed.

Lemma trim_spaces_right l ts : spaces ts → trim_chars is_space (l ++ ts) = trim_chars is_space l.
Proof.
  intros Ht. rewrite !trim_is_sides. induction l as [|c l IH]; [cbn [app]; by rewrite (drop_spaces ts)|].
  cbn [app drop_while]. destruct (is_space c); [done|].
  change (c :: l ++ ts) with ((c :: l) ++ ts). by apply trim_right_spaces.
Qed.

Lemma trim_spaces_left s l : spaces s → trim_chars is_space (s ++ l) = trim_chars is_space l.
Proof.
  intros Hs. rewrite !trim_is_sides. f_equal. induction s as [|c s IH]; [done|]. cbn.
  rewrite (Hs c) by left. apply IH. intros x Hx. apply Hs. by right.
Qed.

Lemma token_of_blank v : spaces v → token_of v = None.
Proof. intros Hv. unfold token_of. by rewrite trim_blank. Qed.

Lemma trim_right_split l : ∃ ts, l = trim_right l ++ ts ∧ spaces ts.
Proof.
  unfold trim_right. destruct (drop_while_split is_space (reverse l)) as (pre & Hpre & Hp).
  exists (reverse pre). rewrite <-reverse_app, <-Hpre, reverse_involutive. split; [done|].
  intros c. rewrite elem_of_reverse. rewrite Forall_forall in Hp. apply Hp.
Qed.

Lemma trim_right_last l c : last (trim_right l) = Some c → is_space c = false.
Proof. unfold trim_right. rewrite last_reverse. apply drop_while_head. Qed.

(** Spaces after a run that does not go over them. *)
Lemma take_while_stopped p l ts :
  (∀ c, head ts = Some c → p c = false) →
  take_while p (l ++ ts) = take_while p l ∧ drop_while p (l ++ ts) = drop_while p l ++ ts.
Proof.
  intros Ht. induction l as [|c l [IH1 IH2]]; cbn [app].
  - destruct ts as [|x ts]; [done|]. cbn. by rewrite (Ht x).
  - cbn. destruct (p c); [by rewrite IH1, IH2 | done].
Qed.

Lemma space_facts c : is_space c = true →
  is_quote c = false ∧ word_char c = false ∧ spec_char c = true ∧ c ≠ hash ∧ c ≠ "-"%char ∧ c ≠ "p"%char.
Proof. by destruct c as [[] [] [] [] [] [] [] []]. Qed.

Lemma quote_facts c : is_quote c = true → is_space c = false ∧ spec_char c = false ∧ word_char c = false ∧ c ≠ hash.
Proof. by destruct c as [[] [] [] [] [] [] [] []]. Qed.

Definition run_value (o : option (list ascii * list ascii * list ascii)) : option (list ascii) := snd ∘ fst <$> o.

Lemma quoted_word_trailing l ts :
  spaces ts → run_value (quoted_run word_char (l ++ ts)) = run_value (quoted_run word_char l).
Proof.
  intros Hts. assert (Hh : ∀ c, head ts = Some c → word_char c = false).
  { intros c Hc. apply head_Some_elem_of, Hts in Hc. by apply space_facts. }
  destruct l as [|q r]; cbn [app].
  - destruct ts as [|x ts]; [done|]. cbn [quoted_run]. destruct (space_facts x) as (-> & Hw & _); [apply Hts; left|].
    cbn. by rewrite Hw.
  - cbn [quoted_run]. destruct (is_quote q) eqn:Hq.
    + destruct (take_while_stopped word_char r ts Hh) as [-> ->]. destruct (take_while word_char r); [done|].
      destruct (drop_while word_char r); [|cbn; by case_bool_decide].
      destruct ts as [|x ts]; [done|]. cbn [app]. rewrite bool_decide_eq_false_2; [done|]. intros ->.
      assert (is_space q = true) by (apply Hts; left). apply quote_facts in Hq as (? & _). congruence.
    + change (q :: r ++ ts) with ((q :: r) ++ ts). destruct (take_while_stopped word_char (q :: r) ts Hh) as [-> _].
      by destruct (take_while word_char (q :: r)).
Qed.

Definition run_token (l : list ascii) : option (list ascii) := run_value (quoted_run spec_char l) ≫= token_of.

Lemma token_of_trailing v ts : spaces ts → token_of (v ++ ts) = token_of v.
Proof. intros Ht. unfold token_of. by rewrite trim_spaces_right. Qed.

Lemma take_while_spec_trailing l ts : spaces ts →
  (take_while spec_char (l ++ ts) = l ++ ts ∧ drop_while spec_char (l ++ ts) = [] ∧ take_while spec_char l = l ∧ drop_while spec_char l = []) ∨
  (take_while spec_char (l ++ ts) = take_while spec_char l ∧ ∃ x d, drop_while spec_char l = x :: d ∧ drop_while spec_char (l ++ ts) = x :: d ++ ts).
Proof.
  intros Ht. induction l as [|c l IH]; cbn [app].
  - left. assert (Hs : ∀ c, c ∈ ts → spec_char c = true) by (intros c Hc; apply space_facts; auto).
    rewrite <-(app_nil_r ts), take_while_app, drop_while_app by done. by rewrite app_nil_r.
  - cbn [take_while drop_while]. destruct (spec_char c); [|right; split; [done|]; by exists c, l].
    destruct IH as [(-> & -> & -> & ->)|(-> & x & d & -> & ->)]; [by left|]. right. split; [done|]. by exists x, d.
Qed.

Lemma run_token_trailing l ts : spaces ts → run_token (l ++ ts) = run_token l.
Proof.
  intros Hts. unfold run_token. destruct l as [|q r]; cbn [app].
  - destruct ts as [|x ts]; [done|]. cbn [quoted_run]. destruct (space_facts x) as (-> & _ & Hsp & _); [apply Hts; left|].
    destruct (take_while_spec_trailing [] (x :: ts) Hts) as [(Ht & _)|(_ & ? & ? & [=] & _)]. cbn [app] in Ht. rewrite Ht.
    cbn. by apply token_of_blank.
  - cbn [quoted_run]. destruct (is_quote q) eqn:Hq.
    + destruct (take_while_spec_trailing r ts Hts) as [(-> & -> & -> & ->)|(-> & x & d & -> & ->)].
      * by destruct (r ++ ts), r.
      * destruct (take_while spec_char r); [done|]. by case_bool_decide.
    + change (q :: r ++ ts) with ((q :: r) ++ ts).
      destruct (take_while_spec_trailing (q :: r) ts Hts) as [(-> & -> & -> & ->)|(-> & x & d & _ & _)].
      * cbn. change (q :: r ++ ts) with ((q :: r) ++ ts). by apply token_of_trailing.
      * by destruct (take_while spec_char (q :: r)).
Qed.

(** The reading does not depend on the blanks around the line. *)
Definition untrimmed_token (l : list ascii) : option (list ascii) :=
  match match_start published word_char l with
  | Some v => Some v
  | None => match_start dash spec_char l ≫= token_of
  end.

Lemma match_start_run prefix p l :
  match_start prefix p l = '(_, r) ← prefix l; run_value (quoted_run p r).
Proof.
  unfold match_start, run_value. destruct (prefix l) as [[pre r]|]; [|done]. cbn [mbind option_bind].
  by destruct (quoted_run p r) as [[[q v] r']|].
Qed.

Lemma untrimmed_left l : untrimmed_token (drop_while is_space l) = untrimmed_token l.
Proof.
  unfold untrimmed_token. rewrite !match_start_run.
  assert (Hp : ∀ {A} (f : list ascii → option A),
    ('(_, r) ← published (drop_while is_space l); f r) = ('(_, r) ← published l; f r)).
  { intros A f. unfold published. rewrite drop_while_idemp. by case_match. }
  assert (Hd : ∀ {A} (f : list ascii → option A),
    ('(_, r) ← dash (drop_while is_space l); f r) = ('(_, r) ← dash l; f r)).
  { intros A f. unfold dash. rewrite drop_while_idemp. by repeat case_match. }
  by rewrite Hp, Hd.
Qed.

Lemma prefix_in_text m l ts b :
  (∀ c, c ∈ m → is_space c = false) → spaces ts → l ++ ts = m ++ b → ∃ b', l = m ++ b' ∧ b = b' ++ ts.
Proof.
  revert l. induction m as [|c m IH]; intros l Hm Hts He; [by exists l|]. destruct l as [|x l].
  - cbn in He. subst. exfalso. assert (is_space c = false) by (apply Hm; left).
    assert (is_space c = true) by (apply Hts; left). congruence.
  - cbn in He. simplify_eq. destruct (IH l) as (b' & -> & ->); [|done|done|by exists b'].
    intros y Hy. apply Hm. by right.
Qed.

Definition published_word : list ascii := chars "published:".

Lemma published_word_plain c : c ∈ published_word → is_space c = false.
Proof. revert c. apply Forall_forall. by repeat constructor. Qed.

Lemma starts_published l : startsWith "published:" (of_chars l) = true ↔ ∃ b, l = published_word ++ b.
Proof. unfold startsWith. rewrite prefix_chars, chars_of_chars. done. Qed.

Lemma published_run l0 :
  (∀ c, head l0 = Some c → is_space c = false) →
  match_start published word_char l0 =
  if startsWith "published:" (of_chars l0) then run_value (quoted_run word_char (drop_while is_space (drop 10 l0))) else None.
Proof.
  intros Hh. rewrite match_start_run. unfold published. rewrite (drop_while_id _ l0) by done. by case_match.
Qed.

Lemma drop_spaces_app a ts : (∃ c, c ∈ a ∧ is_space c = false) → drop_while is_space (a ++ ts) = drop_while is_space a ++ ts.
Proof.
  induction a as [|x a IH]; intros (c & Hc & Hs); [by apply elem_of_nil in Hc|]. cbn. destruct (is_space x) eqn:Hx; [|done].
  apply IH. exists c. split; [|done]. apply elem_of_cons in Hc as [->|Hc]; [congruence | done].
Qed.

Lemma published_trailing l1 ts :
  spaces ts → (∀ c, head l1 = Some c → is_space c = false) → (∀ c, last l1 = Some c → is_space c = false) → l1 ≠ [] →
  match_start published word_char (l1 ++ ts) = match_start published word_char l1.
Proof.
  intros Hts Hh Hl Hne. rewrite !published_run; [|done|by destruct l1].
  destruct (startsWith "published:" (of_chars l1)) eqn:H1.
  - apply starts_published in H1 as [b ->]. rewrite (proj2 (starts_published _)) by (exists (b ++ ts); by rewrite <-app_assoc).
    rewrite <-app_assoc. change 10 with (length published_word). rewrite !drop_app_length.
    destruct b as [|x b].
    + cbn [app]. by rewrite drop_spaces.
    + rewrite drop_spaces_app, quoted_word_trailing; [done|done|]. destruct (last (x :: b)) as [c|] eqn:Hc; [|by apply last_None in Hc].
      exists c. split; [by apply last_Some_elem_of|]. apply Hl. rewrite last_app, Hc. done.
  - destruct (startsWith "published:" (of_chars (l1 ++ ts))) eqn:H2; [|done].
    apply starts_published in H2 as [b Hb]. apply prefix_in_text in Hb as (b' & -> & _); [|apply published_word_plain|done].
    apply not_true_iff_false in H1. destruct H1. apply starts_published. by exists b'.
Qed.

Lemma run_token_empty r : match r with [] => true | y :: _ => bool_decide (y = hash) end = true → run_token r = None.
Proof. destruct r as [|y r]; [done|]. by intros ->%bool_decide_eq_true. Qed.

Lemma run_token_blank x r : is_space x = true →
  match r with [] => true | y :: _ => bool_decide (y = hash) end = true → run_token (x :: r) = None.
Proof.
  intros Hx Hr. destruct (space_facts x Hx) as (Hq & _ & Hs & _). unfold run_token. cbn [quoted_run take_while]. rewrite Hq, Hs.
  assert (take_while spec_char r = []) as ->.
  { destruct r as [|y r]; [done|]. by apply bool_decide_eq_true in Hr as ->. }
  cbn. apply token_of_blank. by intros c [->|?%elem_of_nil]%elem_of_cons.
Qed.

(** A value is read after the dash and the white space; the one the pattern gives
    back does not change what is read. *)
Lemma dash_run l :
  match_start dash spec_char l ≫= token_of =
  match drop_while is_space l with
  | c :: r => if bool_decide (c = "-"%char) then run_token (drop_while is_space r) else None
  | [] => None
  end.
Proof.
  rewrite match_start_run. unfold dash. destruct (drop_while is_space l) as [|c r]; [done|]. case_bool_decide; [|done].
  change (_ ≫= token_of) with ((('(_, r1) ← match last (take_while is_space r) with
    | Some x => if match drop_while is_space r with [] => true | y :: _ => bool_decide (y = hash) end
        then Some (take_while is_space l ++ c :: take (length (take_while is_space r) - 1) (take_while is_space r), x :: drop_while is_space r)
        else Some (take_while is_space l ++ c :: take_while is_space r, drop_while is_space r)
    | None => Some (take_while is_space l ++ c :: take_while is_space r, drop_while is_space r) end;
    run_value (quoted_run spec_char r1)) : option (list ascii)) ≫= token_of).
  destruct (last (take_while is_space r)) as [x|] eqn:Hx; [|done].
  destruct (match drop_while is_space r with [] => true | y :: _ => bool_decide (y = hash) end) eqn:Hh; [|done].
  rewrite (run_token_empty _ Hh). apply run_token_blank; [|done].
  apply last_Some_elem_of in Hx. by apply take_while_in in Hx.
Qed.

Lemma line_token_untrimmed l : line_token l = untrimmed_token l.
Proof.
  unfold line_token. change (match match_start published word_char (trim_chars is_space l) with
    Some v => Some v | None => match_start dash spec_char (trim_chars is_space l) ≫= token_of end = untrimmed_token l).
  rewrite <-(untrimmed_left l), trim_is_sides. set (l0 := drop_while is_space l).
  assert (Hh : ∀ c, head l0 = Some c → is_space c = false) by apply drop_while_head.
  destruct (trim_right_split l0) as (ts & Hl & Hts). pose proof (trim_right_last l0) as Hlast.
  set (l1 := trim_right l0) in *. clearbody l1 l0. subst l0. unfold untrimmed_token.
  destruct l1 as [|c r].
  { destruct ts as [|x ts]; [done|]. specialize (Hh x eq_refl). specialize (Hts x (list_elem_of_here _ _)). congruence. }
  rewrite published_trailing; [|done|by intros x [= <-]; apply Hh|done|done]. case_match; [done|].
  rewrite !dash_run. cbn [app drop_while]. rewrite (Hh c) by done. case_bool_decide; [|done].
  destruct r as [|x r]; [cbn [app]; by rewrite (drop_spaces ts)|].
  rewrite drop_spaces_app, run_token_trailing; [done|done|].
  destruct (last (x :: r)) as [y|] eqn:Hy; [|by apply last_None in Hy].
  exists y. split; [by apply last_Some_elem_of|]. apply Hlast. by rewrite <-Hy.
Qed.

(** *** Entries and what is read from them *)

Definition quote_of (q : list ascii) : Prop := q = [] ∨ ∃ y, q = [y] ∧ is_quote y = true.
Definition all (p : ascii → bool) (l : list ascii) : Prop := ∀ c, c ∈ l → p c = true.

Lemma line_tail_shape t c :
  line_tail t = Some c → ∃ sp, spaces sp ∧ t = sp ++ c ∧ (c = [] ∨ ∃ r, c = hash :: r ∧ every any_char r = true).
Proof.
  unfold line_tail. intros Ht. exists (take_while is_space t). split; [intros x; apply take_while_in|].
  pose proof (take_drop_while is_space t) as Hs. destruct (drop_while is_space t) as [|x r].
  - simplify_eq. rewrite app_nil_r in *. split; [done|by left].
  - destruct (_ && _) eqn:Hc; [|done]. apply andb_true_iff in Hc as [->%bool_decide_eq_true Hr]. simplify_eq.
    split; [done|]. right. by exists r.
Qed.

Lemma dash_token_at ws s rest :
  spaces ws → untrimmed_token (ws ++ "-"%char :: s ++ rest) = untrimmed_token ("-"%char :: s ++ rest).
Proof.
  intros Hws. rewrite <-untrimmed_left. rewrite drop_while_stop by done. done.
Qed.

Lemma dash_entry_token ws s q x t c :
  spaces ws → spaces s → quote_of q → all spec_char x → line_tail t = Some c →
  line_token (ws ++ "-"%char :: s ++ q ++ x ++ q ++ t) = token_of x.
Proof.
  intros Hws Hs Hq Hx (sp & Hsp & -> & Hc)%line_tail_shape. rewrite line_token_untrimmed, dash_token_at by done.
  unfold untrimmed_token. rewrite published_run by by intros y [= <-].
  change (startsWith "published:" (of_chars ("-"%char :: _))) with false. cbn beta iota.
  rewrite dash_run. cbn [drop_while]. change (is_space "-"%char) with false. cbn beta iota. rewrite bool_decide_eq_true_2 by done.
  destruct Hq as [->|(y & -> & Hy)]; cbn [app].
  - rewrite !app_assoc, <-(app_assoc s). assert (Hxs : all spec_char (x ++ sp)).
    { intros z [?|Hz%Hsp]%elem_of_app; [auto | by apply space_facts]. }
    rewrite <-(token_of_trailing x sp) by done. set (v := x ++ sp) in *. clearbody v.
    rewrite <-(take_drop_while is_space v) in Hxs |- *.
    set (v1 := take_while is_space v) in *. set (v2 := drop_while is_space v) in *.
    assert (Hv1 : spaces v1) by (intros z; apply take_while_in).
    assert (Ht : token_of (v1 ++ v2) = token_of v2) by (unfold token_of; by rewrite trim_spaces_left). rewrite Ht. clear Ht.
    rewrite <-!app_assoc, app_assoc. destruct v2 as [|z v2'] eqn:Hv2.
    + cbn [app]. rewrite drop_while_app; [|by apply spaces_app|intros y Hy; by destruct Hc as [->|(r & -> & _)]; simplify_eq/=].
      rewrite (token_of_blank []) by by intros ? ?%elem_of_nil. apply run_token_empty. destruct Hc as [->|(r & -> & _)]; [done|].
      by apply bool_decide_eq_true.
    + assert (Hz : is_space z = false) by (apply (drop_while_head is_space v); unfold v2 in Hv2; by rewrite Hv2).
      rewrite drop_while_app; [|by apply spaces_app|by intros y [= <-]].
      assert (Hsz : all spec_char (z :: v2')) by (intros y Hy; apply Hxs, elem_of_app; by right).
      unfold run_token. cbn [app quoted_run]. assert (spec_char z = true) as Hzs by (apply Hsz; left).
      assert (is_quote z = false) as -> by (unfold spec_char in Hzs; by destruct (is_quote z)).
      change (z :: v2' ++ c) with ((z :: v2') ++ c).
      rewrite take_while_app; [done|done|]. intros y Hy. by destruct Hc as [->|(r & -> & _)]; simplify_eq/=.
  - rewrite drop_while_app; [|done|intros z [= <-]; by apply quote_facts]. unfold run_token. cbn [quoted_run]. rewrite Hy.
    destruct (quote_facts y Hy) as (_ & Hys & _). rewrite take_while_stop, drop_while_stop by done.
    destruct x as [|z x]; [done|]. by rewrite bool_decide_eq_true_2.
Qed.

Lemma published_entry_token ws s q x t c :
  spaces ws → spaces s → quote_of q → all word_char x → x ≠ [] → line_tail t = Some c →
  line_token (ws ++ published_word ++ s ++ q ++ x ++ q ++ t) = Some x.
Proof.
  intros Hws Hs Hq Hx Hne (sp & Hsp & -> & Hc)%line_tail_shape. rewrite line_token_untrimmed, <-untrimmed_left.
  rewrite drop_while_app by (done || by intros z [= <-]). unfold untrimmed_token.
  rewrite published_run by by intros y [= <-]. rewrite (proj2 (starts_published _)) by by eexists.
  change 10 with (length published_word). rewrite drop_app_length.
  destruct x as [|z x]; [done|]. assert (Hz : word_char z = true) by (apply Hx; left).
  assert (is_quote z = false ∧ is_space z = false) as [Hzq Hzs].
  { unfold word_char, spec_char in Hz. destruct (is_quote z), (is_space z); rewrite ?andb_false_r in Hz; done. }
  destruct Hq as [->|(y & -> & Hy)]; cbn [app].
  - rewrite drop_while_app; [|done|by intros y [= <-]]. cbn [quoted_run]. rewrite Hzq.
    change (z :: x ++ sp ++ c) with ((z :: x) ++ sp ++ c). rewrite take_while_app; [done|done|].
    intros y Hy. destruct sp as [|y' sp]; cbn in Hy; [by destruct Hc as [->|(r & -> & _)]; simplify_eq/=|].
    simplify_eq. apply space_facts, Hsp. left.
  - rewrite drop_while_app; [|done|intros z' [= <-]; by apply quote_facts]. cbn [quoted_run]. rewrite Hy.
    destruct (quote_facts y Hy) as (_ & _ & Hyw & _). change (z :: x ++ y :: sp ++ c) with ((z :: x) ++ y :: sp ++ c).
    rewrite take_while_stop, drop_while_stop by done. by rewrite bool_decide_eq_true_2.
Qed.

Lemma dash_parts l pre r :
  dash l = Some (pre, r) → ∃ ws s, pre = ws ++ "-"%char :: s ∧ l = pre ++ r ∧ spaces ws ∧ spaces s.
Proof.
  unfold dash. destruct (drop_while is_space l) as [|c r0] eqn:Hd; [done|]. case_bool_decide; [subst|done].
  set (ws := take_while is_space l). assert (Hws : spaces ws) by (intros c; apply take_while_in).
  assert (Hs : spaces (take_while is_space r0)) by (intros c; apply take_while_in).
  assert (Hl : l = ws ++ "-"%char :: take_while is_space r0 ++ drop_while is_space r0).
  { rewrite take_drop_while, <-Hd. unfold ws. by rewrite take_drop_while. }
  assert (Hplain : Some (ws ++ "-"%char :: take_while is_space r0, drop_while is_space r0) = Some (pre, r) →
    ∃ ws s, pre = ws ++ "-"%char :: s ∧ l = pre ++ r ∧ spaces ws ∧ spaces s).
  { intros [= <- <-]. exists ws, (take_while is_space r0). split_and!; try done. by rewrite <-app_assoc. }
  destruct (last (take_while is_space r0)) as [x|] eqn:Hx; [|done]. case_match; [|done]. intros [= <- <-].
  apply last_Some in Hx as [s' Hs']. rewrite Hs' in Hs, Hl |- *. rewrite length_app, Nat.add_sub, take_app_length.
  exists ws, s'. split_and!; try done.
  - rewrite Hl, <-!app_assoc. done.
  - intros c Hc. apply Hs, elem_of_app. by left.
Qed.

Lemma published_parts l pre r :
  published l = Some (pre, r) → ∃ ws s, pre = ws ++ published_word ++ s ∧ l = pre ++ r ∧ spaces ws ∧ spaces s.
Proof.
  unfold published. destruct (startsWith _ _) eqn:Hp; [|done]. apply starts_published in Hp as [b Hb].
  intros [= <- <-]. rewrite Hb. change (drop 10 (published_word ++ b)) with b.
  exists (take_while is_space l), (take_while is_space b). split_and!; [done| |intros c; apply take_while_in..].
  assert (Hl : l = take_while is_space l ++ published_word ++ take_while is_space b ++ drop_while is_space b)
    by (rewrite take_drop_while, <-Hb; by rewrite take_drop_while).
  etrans; [exact Hl|]. by rewrite <-!app_assoc.
Qed.

Lemma quoted_run_parts p l q v r :
  (∀ c, is_quote c = true → p c = false) →
  quoted_run p l = Some (q, v, r) → quote_of q ∧ all p v ∧ v ≠ [] ∧ l = q ++ v ++ q ++ r.
Proof.
  intros Hp. destruct l as [|c l]; [done|]. cbn [quoted_run]. destruct (is_quote c) eqn:Hc.
  - destruct (take_while p l) as [|x v'] eqn:Ht; [done|]. destruct (drop_while p l) as [|q' r'] eqn:Hd; [done|].
    case_bool_decide; [subst|done]. intros [= <- <- <-]. split_and!; [right; by exists c| |done|].
    + rewrite <-Ht. intros z. apply take_while_in.
    + cbn. change (x :: v' ++ c :: r') with ((x :: v') ++ c :: r'). by rewrite <-Ht, <-Hd, take_drop_while.
  - destruct (take_while p (c :: l)) as [|x v'] eqn:Ht; [done|]. intros [= <- <- <-]. split_and!; [by left| |done|].
    + rewrite <-Ht. intros z. apply take_while_in.
    + etrans; [symmetry; apply (take_drop_while p)|]. rewrite Ht. done.
Qed.

Lemma spec_char_quote c : is_quote c = true → spec_char c = false.
Proof. unfold spec_char. by intros ->. Qed.
Lemma word_char_quote c : is_quote c = true → word_char c = false.
Proof. unfold word_char, spec_char. by intros ->. Qed.

Lemma comment_tail_again t c : line_tail t = Some c → line_tail (comment_tail c) = Some c.
Proof.
  intros (sp & _ & _ & [->|(r & -> & Hr)])%line_tail_shape; [done|]. change (line_tail (comment_tail (hash :: r))) with
    (if bool_decide (hash = hash) && every any_char r then Some (hash :: r) else None).
  by rewrite bool_decide_eq_true_2, Hr.
Qed.

Lemma short_parts l e : short_entry l = Some e →
  ∃ ws s t, e_prefix e = ws ++ "-"%char :: s ∧ l = ws ++ "-"%char :: s ++ e_quote e ++ e_value e ++ e_quote e ++ t ∧
    spaces ws ∧ spaces s ∧ quote_of (e_quote e) ∧ all spec_char (e_value e) ∧ line_tail t = Some (e_comment e).
Proof.
  unfold short_entry, match_whole. destruct (dash l) as [[pre r]|] eqn:Hd; [|done]. cbn [mbind option_bind].
  destruct (quoted_run spec_char r) as [[[q v] t]|] eqn:Hq; [|done]. cbn [mbind option_bind].
  destruct (line_tail t) as [c|] eqn:Ht; [|done]. intros [= <-]. cbn [e_prefix e_quote e_value e_comment].
  apply dash_parts in Hd as (ws & s & -> & -> & Hws & Hs).
  apply quoted_run_parts in Hq as (Hq & Hv & _ & ->); [|apply spec_char_quote].
  exists ws, s, t. split_and!; try done. by rewrite <-!app_assoc.
Qed.

Lemma long_parts l e : long_entry l = Some e →
  ∃ ws s t, e_prefix e = ws ++ published_word ++ s ∧ l = ws ++ published_word ++ s ++ e_quote e ++ e_value e ++ e_quote e ++ t ∧
    spaces ws ∧ spaces s ∧ quote_of (e_quote e) ∧ all word_char (e_value e) ∧ e_value e ≠ [] ∧ line_tail t = Some (e_comment e).
Proof.
  unfold long_entry, match_whole. destruct (published l) as [[pre r]|] eqn:Hd; [|done]. cbn [mbind option_bind].
  destruct (quoted_run word_char r) as [[[q v] t]|] eqn:Hq; [|done]. cbn [mbind option_bind].
  destruct (line_tail t) as [c|] eqn:Ht; [|done]. intros [= <-]. cbn [e_prefix e_quote e_value e_comment].
  apply published_parts in Hd as (ws & s & -> & -> & Hws & Hs).
  apply quoted_run_parts in Hq as (Hq & Hv & Hne & ->); [|apply word_char_quote].
  exists ws, s, t. split_and!; try done. by rewrite <-!app_assoc.
Qed.

Lemma short_token l e : short_entry l = Some e → line_token l = token_of (e_value e).
Proof. intros (ws & s & t & _ & -> & ? & ? & ? & ? & ?)%short_parts. by eapply dash_entry_token. Qed.

Lemma long_token l e : long_entry l = Some e → line_token l = Some (e_value e).
Proof. intros (ws & s & t & _ & -> & ? & ? & ? & ? & ? & ?)%long_parts. by eapply published_entry_token. Qed.

Lemma short_rewritten l e x : short_entry l = Some e → all spec_char x → line_token (with_value e x) = token_of x.
Proof.
  intros (ws & s & t & Hp & _ & ? & ? & ? & _ & ?)%short_parts Hx. unfold with_value. rewrite Hp.
  rewrite <-app_assoc. cbn [app]. eapply dash_entry_token; [done..|by eapply comment_tail_again].
Qed.

Lemma long_rewritten l e x : long_entry l = Some e → all word_char x → x ≠ [] → line_token (with_value e x) = Some x.
Proof.
  intros (ws & s & t & Hp & _ & ? & ? & ? & _ & _ & ?)%long_parts Hx Hne. unfold with_value. rewrite Hp, <-!app_assoc.
  eapply published_entry_token; [done..|by eapply comment_tail_again].
Qed.

(** *** The block around an entry *)

Lemma enter_entry pi ws w rest :
  spaces ws → (w = ["-"%char] ∨ w = published_word) →
  enter pi (ws ++ w ++ rest) =
  (match pi with Some n => if length ws <=? n then None else pi | None => None end,
   if bool_decide (is_Some (match pi with Some n => if length ws <=? n then None else pi | None => None end)) then Inside else Outside).
Proof.
  intros Hws Hw. assert (Hhead : ∃ x w', w = x :: w' ∧ is_space x = false).
  { destruct Hw as [->| ->]; by eexists _, _. }
  assert (Htrim : ∃ r, trim_chars is_space (ws ++ w ++ rest) = w ++ r).
  { rewrite trim_spaces_left, trim_is_sides by done. destruct Hhead as (x & w' & He & Hx).
    rewrite drop_while_id by (intros y; rewrite He; by intros [= <-]). exists (trim_right rest).
    destruct Hw as [->| ->]; [apply (trim_right_stop [])|]; [done|].
    by apply (trim_right_stop (take 9 published_word) ":"%char). }
  destruct Htrim as [r Hr]. unfold enter. rewrite Hr.
  assert (ports_key (w ++ r) = false) as -> by by destruct Hw as [->| ->].
  destruct Hhead as (x & w' & He & Hx). rewrite (bool_decide_eq_false_2 (w ++ r = [])) by (by rewrite He).
  assert (indent_of (ws ++ w ++ rest) = length ws) as ->; [|done].
  unfold indent_of. rewrite He. cbn [app]. by rewrite take_while_stop.
Qed.

Lemma short_enter pi l e x : short_entry l = Some e → enter pi (with_value e x) = enter pi l.
Proof.
  intros (ws & s & t & Hp & -> & ? & _)%short_parts. unfold with_value. rewrite Hp, <-app_assoc.
  assert (Hs : ∀ r, ws ++ ("-"%char :: s) ++ r = ws ++ ["-"%char] ++ s ++ r) by done.
  rewrite Hs. etrans; [apply enter_entry; auto|]. symmetry. apply (enter_entry pi ws ["-"%char]); auto.
Qed.

Lemma long_enter pi l e x : long_entry l = Some e → enter pi (with_value e x) = enter pi l.
Proof.
  intros (ws & s & t & Hp & -> & ? & _)%long_parts. unfold with_value. rewrite Hp, <-!app_assoc.
  etrans; [apply enter_entry; auto|]. symmetry. apply enter_entry; auto.
Qed.

(** ** The rewritten entry *)

Lemma isMapping_digit c l : is_digit c = true → isMapping (c :: l) = false.
Proof.
  intros Hc. apply digit_chars in Hc as (_ & _ & _ & _ & _ & _ & Hn & Hb). unfold isMapping.
  assert (startsWith "{" (of_chars (c :: l)) = false) as ->.
  { apply not_true_iff_false. unfold startsWith. intros [r Hr]%prefix_chars. rewrite chars_of_chars in Hr. simplify_eq/=. }
  cbn [orb take_while]. destruct (name_char c); cbn [head]; [by rewrite Hn|done].
Qed.

(** What follows the colon after the address does not make it a mapping. *)
Lemma isMapping_after_ip ip a b :
  ip ≠ [] → (∀ c, head b = Some c → is_space c = false) →
  isMapping (ip ++ ":"%char :: a) = false → isMapping (ip ++ ":"%char :: b) = false.
Proof.
  intros Hne Hb. unfold isMapping. rewrite !orb_false_iff.
  assert (Hcolon : ∀ t : list ascii, ∀ c, head (":"%char :: t) = Some c → name_char c = false ∧ is_space c = false)
    by (intros t c [= <-]; done).
  intros [Hs Hm]. split.
  - destruct ip as [|x ip]; [done|]. revert Hs. unfold startsWith. rewrite <-!not_true_iff_false, !prefix_chars, !chars_of_chars.
    intros Hs [r Hr]. apply Hs. cbn in *. simplify_eq. by eexists.
  - destruct (take_while_stopped name_char ip (":"%char :: a)) as [Ht1 Hd1]; [intros c Hc; by apply (Hcolon a)|].
    destruct (take_while_stopped name_char ip (":"%char :: b)) as [Ht2 Hd2]; [intros c Hc; by apply (Hcolon b)|].
    rewrite Ht1, Hd1 in Hm. rewrite Ht2, Hd2. set (r := drop_while name_char ip) in *. clearbody r.
    destruct (take_while_stopped is_space r (":"%char :: a)) as [_ Hd3]; [intros c Hc; by apply (Hcolon a)|].
    destruct (take_while_stopped is_space r (":"%char :: b)) as [_ Hd4]; [intros c Hc; by apply (Hcolon b)|].
    rewrite Hd3 in Hm. rewrite Hd4. destruct (match head _ with Some _ => _ | None => _ end); [|done]. cbn [andb] in *.
    destruct (drop_while is_space r) as [|x [|y r']]; cbn [app] in *.
    + destruct b as [|c b]; [done|]. rewrite (Hb c) by done. done.
    + destruct (is_space ":"%char) eqn:Hsp; [done|]. by rewrite andb_false_r.
    + exact Hm.
Qed.

Lemma last_colon (a b : list ascii) : last (a ++ ":"%char :: b) = last (":"%char :: b).
Proof. rewrite last_app. by destruct (last (":"%char :: b)) eqn:Hb; [|apply last_None in Hb]. Qed.

Lemma token_of_rewritten v lit nt :
  ports_ok lit → isMapping (trim_chars is_space v) = false → rewriteSpec (trim_chars is_space v) lit = Some nt →
  ∃ host new, token_of v = Some host ∧ rewriteLiteral host lit = Some new ∧ token_of nt = Some new ∧
    (∀ c, c ∈ nt → c ∈ v ∨ is_digit c = true ∨ c = ":"%char).
Proof.
  intros Hok Hm Hr. pose proof (rewriteSpec_read _ _ _ Hok Hr) as (p & new & Hp & Hn & Hnt & Hread).
  destruct (rewritten_literal _ _ _ Hok Hn) as (n & _ & _ & _ & _ & Hd).
  assert (Hne : ∃ d ds, new = d :: ds).
  { unfold rewriteLiteral in Hn. case_match; [|done]. apply fmap_Some in Hn as (m & Hm' & ->).
    pose proof (Hok _ _ Hm') as Hpos. cbn in Hpos. rewrite <-(Z2Nat.id m) by lia.
    destruct (digits_of_number (Z.to_nat m)) as (d & ds & -> & _). by exists d, ds. }
  destruct Hne as (d & ds & ->). assert (Hdd : is_digit d = true) by (apply Hd; left).
  pose proof (parseSpec_parts _ _ Hp) as (ipc & host0 & rest & l' & Hv & _ & Hip & _).
  set (value := trim_chars is_space v) in *. set (ip := sp_hostIp p) in *. set (tl := sp_container p ++ sp_proto p) in *.
  assert (Hlast : last nt = last value).
  { rewrite Hnt, Hv, <-!app_assoc. cbn [app]. fold tl. rewrite app_assoc, last_colon.
    change (d :: ds ++ ":"%char :: tl) with ((d :: ds) ++ ":"%char :: tl). by rewrite app_assoc, last_colon. }
  assert (Hhead : ∀ c, head nt = Some c → is_space c = false).
  { intros c. rewrite Hnt. unfold ip_part. destruct ip as [|x ip'] eqn:Hipe; cbn.
    - intros [= <-]. apply digit_chars in Hdd. naive_solver.
    - intros [= <-]. destruct Hip as [[_ ?]|[-> _]]; [done|]. apply (trim_chars_head is_space v). fold value. by rewrite Hv. }
  assert (Htrim : trim_chars is_space nt = nt).
  { apply trim_chars_id; [done|]. rewrite Hlast. apply trim_chars_last. }
  assert (Hmap : isMapping nt = false).
  { rewrite Hnt. unfold ip_part. destruct ip as [|x ip'] eqn:Hipe; [by apply isMapping_digit|].
    destruct Hip as [[_ ?]|[-> _]]; [done|]. rewrite <-app_assoc. cbn [app]. rewrite Hv, <-!app_assoc in Hm. cbn [app] in Hm.
    eapply (isMapping_after_ip (x :: ip')); [done| |exact Hm]. intros c [= <-]. apply digit_chars in Hdd; naive_solver. }
  exists (sp_host p), (d :: ds). split_and!.
  - unfold token_of. fold value. by rewrite Hm; unfold hostTokenOf; rewrite Hp.
  - done.
  - unfold token_of. rewrite Htrim, Hmap. unfold hostTokenOf. by rewrite Hread.
  - assert (Hval : ∀ c, c ∈ value → c ∈ v).
    { intros c Hc. pose proof (trim_in (of_chars v) c) as Hi. unfold trim in Hi. rewrite !chars_of_chars in Hi. by apply Hi. }
    intros c. rewrite Hnt. unfold ip_part. intros [Hc|[Hc|[->|Hc]%elem_of_cons]%elem_of_app]%elem_of_app; [|auto|auto|].
    + destruct ip as [|x ip'] eqn:Hipe; [by apply elem_of_nil in Hc|]. destruct Hip as [[_ ?]|[-> _]]; [done|]. left. apply Hval.
      rewrite Hv. apply elem_of_app. left. apply elem_of_app. by left.
    + left. apply Hval. rewrite Hv. unfold tl in Hc. apply elem_of_app in Hc as [Hc|Hc]; apply elem_of_app; [left|by right].
      rewrite !elem_of_app. right. right. by right.
Qed.

(** ** The scan as a whole *)

(** The lines inside of the blocks. *)
Fixpoint inside_from (pi : option nat) (lines : list (list ascii)) : list (list ascii) :=
  match lines with
  | [] => []
  | l :: lines' =>
      let '(pi', at_) := enter pi l in
      match at_ with Inside => l :: inside_from pi' lines' | _ => inside_from pi' lines' end
  end.

Definition port_lines (compose : string) : list (list ascii) := inside_from None (text_lines compose).

Lemma tokens_inside pi lines : tokens_from pi lines = omap line_token (inside_from pi lines).
Proof.
  revert pi. induction lines as [|l lines IH]; intros pi; [done|]. cbn [tokens_from inside_from].
  destruct (enter pi l) as [pi' []]; [apply IH..|]. cbn. rewrite <-IH. done.
Qed.

Lemma enter_inside pi l pi' : enter pi l = (pi', Inside) → pi' = pi.
Proof.
  unfold enter. destruct (ports_key _); [done|]. destruct pi as [n|]; [destruct (_ && _)|]; cbn; by intros [= <-].
Qed.

(** What is read from the rewritten lines, when a rewritten line is where the old
    one was. *)
Lemma tokens_rewritten f pi lines :
  (∀ l l' p, f l = Some l' → enter p l' = enter p l) →
  tokens_from pi (rewrite_from f pi lines) = omap (λ l, f l ≫= line_token) (inside_from pi lines).
Proof.
  intros Hf. revert pi. induction lines as [|l lines IH]; intros pi; [done|]. cbn [rewrite_from inside_from].
  destruct (enter pi l) as [pi' at_] eqn:He. destruct at_; cbn [tokens_from]; [rewrite He; apply IH..|].
  cbn [omap list_omap]. destruct (f l) as [l'|] eqn:Hl; cbn [mbind option_bind].
  - cbn [tokens_from]. rewrite (Hf _ _ _ Hl), He, IH. done.
  - apply enter_inside in He as ->. apply IH.
Qed.

(** An entry that is not of a form the rewriting knows publishes nothing the reading
    knows either. *)
Definition regular (l : list ascii) : Prop := long_entry l = None → short_entry l = None → line_token l = None.

(** A token after the rewriting. *)
Definition move_token (lit : gmap Z Z) (t : list ascii) : list ascii := default t (rewriteLiteral t lit).

Lemma all_digit_words new : (∀ c, c ∈ new → is_digit c = true) → all word_char new ∧ all spec_char new.
Proof. intros Hd. split; intros c Hc%Hd%digit_chars; naive_solver. Qed.

Lemma apply_line_token lit l :
  ports_ok lit → regular l → line_token (apply_line lit l) = move_token lit <$> line_token l.
Proof.
  intros Hok Hreg. unfold apply_line. destruct (long_entry l) as [e|] eqn:Hl.
  - rewrite (long_token l e Hl). cbn. unfold move_token. destruct (rewriteLiteral (e_value e) lit) as [nt|] eqn:Hn; [|by apply long_token].
    destruct (rewritten_literal _ _ _ Hok Hn) as (n & Hpos & Hne & _ & _ & Hd). cbn.
    apply (long_rewritten l); [done|by apply all_digit_words|]. subst nt. rewrite <-(Z2Nat.id n) by lia.
    by destruct (digits_of_number (Z.to_nat n)) as (d & ds & -> & _).
  - destruct (short_entry l) as [e|] eqn:Hs; [|by rewrite Hreg].
    rewrite (short_token l e Hs). destruct (isMapping _) eqn:Hm; [rewrite (short_token l e Hs); unfold token_of; by rewrite Hm|].
    destruct (rewriteSpec _ lit) as [nt|] eqn:Hr.
    + destruct (token_of_rewritten _ _ _ Hok Hm Hr) as (host & new & -> & Hn & Ht & Hc). cbn. unfold move_token. rewrite Hn. cbn.
      rewrite <-Ht. apply (short_rewritten l); [done|]. apply short_parts in Hs as (_ & _ & _ & _ & _ & _ & _ & _ & Hv & _).
      intros c [?|[?%digit_chars| ->]]%Hc; [auto|naive_solver|done].
    + rewrite (short_token l e Hs). unfold token_of. rewrite Hm. unfold hostTokenOf, rewriteSpec in *.
      destruct (parseSpec _) as [p|]; [|done]. cbn in *. unfold move_token. by destruct (rewriteLiteral (sp_host p) lit).
Qed.

Lemma apply_line_enter lit l pi : enter pi (apply_line lit l) = enter pi l.
Proof.
  unfold apply_line. repeat case_match; try done; [by apply long_enter | by apply short_enter].
Qed.

(** *** The characters of a rewritten line *)

Lemma entry_chars l e x c :
  short_entry l = Some e ∨ long_entry l = Some e → c ∈ with_value e x → c ∈ l ∨ c ∈ x ∨ c = " "%char.
Proof.
  intros He. assert (∃ pre t, e_prefix e = pre ∧ l = pre ++ e_quote e ++ e_value e ++ e_quote e ++ t ∧ line_tail t = Some (e_comment e))
    as (pre & t & Hp & Hl & (sp & _ & -> & _)%line_tail_shape).
  { destruct He as [(ws & s & t & Hp & -> & _ & _ & _ & _ & Ht)%short_parts|(ws & s & t & Hp & -> & _ & _ & _ & _ & _ & Ht)%long_parts].
    - exists (ws ++ "-"%char :: s), t. split_and!; [done| |done]. by rewrite <-app_assoc.
    - exists (ws ++ published_word ++ s), t. split_and!; [done| |done]. by rewrite <-!app_assoc. }
  unfold with_value. rewrite Hp. subst l. rewrite !elem_of_app. intros [?|[?|[?|[?|Hc]]]]; [tauto..|].
  destruct (e_comment e) as [|y r]; cbn in Hc; [by apply elem_of_nil in Hc|]. apply elem_of_cons in Hc as [->|?]; tauto.
Qed.

Lemma apply_line_chars lit l c :
  ports_ok lit → c ∈ apply_line lit l → c ∈ l ∨ is_digit c = true ∨ c = ":"%char ∨ c = " "%char.
Proof.
  intros Hok. unfold apply_line. destruct (long_entry l) as [e|] eqn:Hl.
  - destruct (rewriteLiteral _ _) as [nt|] eqn:Hn; [|tauto]. destruct (rewritten_literal _ _ _ Hok Hn) as (n & _ & _ & _ & _ & Hd).
    intros [?|[?%Hd|?]]%(entry_chars l); [tauto..|by right].
  - destruct (short_entry l) as [e|] eqn:Hs; [|tauto]. destruct (isMapping _) eqn:Hm; [tauto|].
    destruct (rewriteSpec _ lit) as [nt|] eqn:Hr; [|tauto].
    destruct (token_of_rewritten _ _ _ Hok Hm Hr) as (_ & _ & _ & _ & _ & Hc).
    intros [?|[Hnt|?]]%(entry_chars l); [tauto| |tauto|by left]. apply Hc in Hnt as [Hv|[?|?]]; [left|tauto..].
    apply short_parts in Hs as (ws & s & t & _ & -> & _). do 3 (apply elem_of_app; right; try (apply elem_of_cons; right)).
    apply elem_of_app. by left.
Qed.

Lemma rewritten_lines f pi lines :
  (∀ l l', f l = Some l' → lf ∉ l → lf ∉ l') → Forall (λ l, lf ∉ l) lines → Forall (λ l, lf ∉ l) (rewrite_from f pi lines).
Proof.
  intros Hf. revert pi. induction lines as [|l lines IH]; intros pi Hl; [constructor|].
  inversion_clear Hl as [|? ? H1 H2]. cbn [rewrite_from]. destruct (enter pi l) as [pi' []]; [constructor; [done|by apply IH]..|].
  destruct (f l) as [l'|] eqn:He; [constructor; [by eapply Hf|]|]; by apply IH.
Qed.

(** The tokens of a rewritten file; a file of no line has none either. *)
Lemma host_tokens_rewritten f s :
  (∀ l l' p, f l = Some l' → enter p l' = enter p l) → (∀ l l', f l = Some l' → lf ∉ l → lf ∉ l') →
  host_tokens (of_lines (rewrite_from f None (text_lines s))) = omap (λ l, f l ≫= line_token) (port_lines s).
Proof.
  intros He Hlf. unfold host_tokens, port_lines. destruct (text_lines_spec s) as (Hs & _ & _).
  pose proof (rewritten_lines f None _ Hlf Hs) as Hr. rewrite <-tokens_rewritten by done.
  destruct (rewrite_from f None (text_lines s)) as [|l ls] eqn:Hls; [done|]. by rewrite text_of_lines.
Qed.

(** applying a map of ports moves exactly the ports it names.  The tokens read
    from the rewritten compose file are the ones of the old file, in order, each
    literal port of the map replaced and every other token, variables included, as it
    was; on the lines of a [ports:] block that the rewriting expressions match, or
    from which nothing is read. *)
Theorem remap_exact compose env literal vars :
  Forall regular (port_lines compose) →
  host_tokens (applyPortRemap compose env literal vars).1 = move_token (toNumMap literal) <$> host_tokens compose.
Proof.
  intros Hreg. unfold applyPortRemap. cbn [fst]. set (lit := toNumMap literal).
  assert (Hok : ports_ok lit) by apply toNumMap_ok.
  rewrite host_tokens_rewritten.
  - unfold host_tokens at 1. rewrite tokens_inside. fold (port_lines compose). induction Hreg as [|l ls Hl _ IH]; [done|].
    cbn. rewrite apply_line_token by done. destruct (line_token l); cbn; [f_equal|]; exact IH.
  - intros l l' p [= <-]. apply apply_line_enter.
  - intros l l' [= <-] Hlf Hin. apply apply_line_chars in Hin as [?|[?|[?|?]]]; done.
Qed.

(** ** The trial run *)

Lemma split_last_spec c l :
  match split_last c l with Some (a, b) => l = a ++ c :: b ∧ c ∉ b | None => c ∉ l end.
Proof.
  induction l as [|x l IH]; [by intros ?%elem_of_nil|]. cbn [split_last]. destruct (split_last c l) as [[a b]|].
  - destruct IH as [-> Hb]. done.
  - case_bool_decide as Hx; [by subst|]. by intros [?|?]%elem_of_cons.
Qed.

Lemma split_last_at c a b : c ∉ b → split_last c (a ++ c :: b) = Some (a, b).
Proof.
  intros Hb. induction a as [|x a IH]; cbn [app split_last]; [|by rewrite IH].
  pose proof (split_last_spec c b) as Hs. destruct (split_last c b) as [[a' b']|]; [|by rewrite bool_decide_eq_true_2].
  destruct Hs as [-> _]. destruct Hb. apply elem_of_app. right. left.
Qed.

Lemma split_last_none c l : c ∉ l → split_last c l = None.
Proof.
  intros Hl. pose proof (split_last_spec c l) as Hs. destruct (split_last c l) as [[a b]|]; [|done].
  destruct Hs as [-> _]. destruct Hl. apply elem_of_app. right. left.
Qed.

Lemma no_top_plain sep l : (∀ c, c ∈ l → brace c = false) → no_top sep 0 l = true → sep ∉ l.
Proof.
  intros Hb. induction l as [|c l IH]; [by intros _ ?%elem_of_nil|]. cbn [no_top]. rewrite next_depth_plain by (apply Hb; left).
  rewrite andb_true_r. intros [Hc%negb_true_iff%bool_decide_eq_false Hl]%andb_true_iff [->|Hin]%elem_of_cons; [done|].
  apply IH; [|done..]. intros x Hx. apply Hb. by right.
Qed.

(** What is cut off is the part up to the last colon before the protocol. *)
Lemma container_side value :
  ∃ a proto, containerSideOnly value = a ++ proto ∧ (":"%char ∉ a) ∧ (∀ c, c ∈ a ++ proto → c ∈ value) ∧
    (proto = [] ∨ ∃ b c, split_last "/"%char value = Some (b, c) ∧ proto = "/"%char :: c).
Proof.
  unfold containerSideOnly. pose proof (split_last_spec "/"%char value) as Hv.
  destruct (split_last "/" value) as [[b c]|].
  - destruct Hv as [-> _]. pose proof (split_last_spec ":"%char b) as Hb. destruct (split_last ":" b) as [[x y]|].
    + destruct Hb as [-> Hy]. exists y, ("/"%char :: c). split_and!; [done|done| |by eauto]. intros z. rewrite !elem_of_app, !elem_of_cons. tauto.
    + exists b, ("/"%char :: c). split_and!; [done|done|done|by eauto].
  - pose proof (split_last_spec ":"%char value) as Hb. destruct (split_last ":" value) as [[x y]|].
    + destruct Hb as [-> Hy]. exists y, []. split_and!; [done|done| |auto]. intros z. rewrite !elem_of_app, elem_of_cons, elem_of_nil. tauto.
    + exists value, []. rewrite app_nil_r. by auto.
Qed.

Lemma no_colon_token x : ":"%char ∉ x → token_of x = None.
Proof.
  intros Hx. unfold token_of, hostTokenOf. case_match; [done|]. destruct (parseSpec _) as [p|] eqn:Hp; [|done].
  apply parseSpec_parts in Hp as (ipc & host & rest & l' & Hv & _). destruct Hx.
  pose proof (trim_in (of_chars x) ":"%char) as Hi. unfold trim in Hi. rewrite !chars_of_chars in Hi. apply Hi. rewrite Hv.
  rewrite !elem_of_app, elem_of_cons. tauto.
Qed.

(** No colon after the last slash of an entry. *)
Definition plain_proto (l : list ascii) : Prop :=
  ∀ e a b, short_entry l = Some e → split_last "/"%char (trim_chars is_space (e_value e)) = Some (a, b) → ":"%char ∉ b.

Lemma unpublish_enter l l' pi : unpublish_line l = Some l' → enter pi l' = enter pi l.
Proof.
  unfold unpublish_line. destruct (_ || _); [done|]. intros [= <-]. destruct (short_entry l) as [e|] eqn:Hs; [|done].
  case_match; [done|]. by apply short_enter.
Qed.

Lemma value_in l e c : short_entry l = Some e → c ∈ trim_chars is_space (e_value e) → c ∈ e_value e ∧ c ∈ l.
Proof.
  intros (ws & s & t & _ & -> & _)%short_parts Hc. pose proof (trim_in (of_chars (e_value e)) c) as Hi.
  unfold trim in Hi. rewrite !chars_of_chars in Hi. apply Hi in Hc. split; [done|].
  rewrite !elem_of_app, elem_of_cons, !elem_of_app. tauto.
Qed.

Lemma unpublish_chars l l' : unpublish_line l = Some l' → lf ∉ l → lf ∉ l'.
Proof.
  unfold unpublish_line. destruct (_ || _); [done|]. intros [= <-] Hl. destruct (short_entry l) as [e|] eqn:Hs; [|done].
  case_match; [done|]. intros [?|[Hc|?]]%(entry_chars l); [done| |done|by left].
  destruct (container_side (trim_chars is_space (e_value e))) as (a & proto & He & _ & Hin & _). rewrite He in Hc.
  apply Hin, (value_in l) in Hc as [_ ?]; done.
Qed.

Lemma unpublish_token l : regular l → plain_proto l → unpublish_line l ≫= line_token = None.
Proof.
  intros Hreg Hplain. unfold unpublish_line. destruct (startsWith "published:" _) eqn:Hp; [done|].
  destruct (startsWith "host_ip:" _); [done|]. cbn [orb mbind option_bind]. destruct (short_entry l) as [e|] eqn:Hs.
  - destruct (isMapping _) eqn:Hm; [rewrite (short_token l e Hs); unfold token_of; by rewrite Hm|].
    destruct (container_side (trim_chars is_space (e_value e))) as (a & proto & He & Ha & Hin & Hproto).
    rewrite (short_rewritten l e) by
      (done || (intros c Hc; rewrite He in Hc; apply Hin, (value_in l) in Hc as [Hc _]; [|done];
        apply short_parts in Hs as (_ & _ & _ & _ & _ & _ & _ & _ & Hv & _); by apply Hv)).
    apply no_colon_token. rewrite He, elem_of_app. intros [?|Hc]; [done|].
    destruct Hproto as [->|(b & c & Hb & ->)]; [by apply elem_of_nil in Hc|].
    apply elem_of_cons in Hc as [?|Hc]; [done|]. by eapply Hplain.
  - apply Hreg; [|done]. destruct (long_entry l) as [e|] eqn:Hl; [|done]. exfalso. apply not_true_iff_false in Hp. apply Hp.
    apply long_parts in Hl as (ws & s & t & _ & -> & Hws & _). apply starts_published.
    rewrite trim_spaces_left, trim_is_sides by done. rewrite drop_while_id by by intros c [= <-].
    pose proof (trim_right_stop (take 9 published_word) ":"%char) as Hst. eexists. by apply Hst.
Qed.


(** what is left of an entry is its container's side.  A spec that the migration
    reads as an address, a host port, a container port and a protocol becomes the
    container port and the protocol, in which no host port is read any more. *)
Theorem container_side_kept value p :
  (∀ c, c ∈ value → brace c = false) → parseSpec value = Some p → ":"%char ∉ sp_proto p →
  containerSideOnly value = sp_container p ++ sp_proto p ∧ parseSpec (containerSideOnly value) = None.
Proof.
  intros Hb Hp Hproto. pose proof (parseSpec_parts _ _ Hp) as (ipc & host & rest & l' & Hv & _ & _ & _ & _ & _ & Hc & Hs & Hpr).
  assert (Hbody : ∀ c, c ∈ ipc ++ host ++ ":"%char :: sp_container p → brace c = false).
  { intros c Hin. apply Hb. rewrite Hv. apply elem_of_app. by left. }
  apply no_top_plain in Hs; [|done]. apply no_top_plain in Hc; [|intros c Hin; apply Hbody; rewrite !elem_of_app, elem_of_cons; tauto].
  assert (He : containerSideOnly value = sp_container p ++ sp_proto p).
  { unfold containerSideOnly. destruct Hpr as [[Hp0 _]|(Hp0 & _)]; rewrite Hp0 in *.
    - rewrite app_nil_r in Hv. rewrite Hv, (split_last_none "/"%char) by done. rewrite app_assoc, split_last_at by done. done.
    - pose proof (split_last_spec "/"%char ("/"%char :: l')) as Hl. destruct (split_last "/" ("/"%char :: l')) as [[x y]|]; [|destruct Hl; left].
      destruct Hl as [Hl Hy]. rewrite Hl in *. rewrite Hv, app_assoc, split_last_at by done.
      rewrite <-!app_assoc. cbn [app]. rewrite app_assoc, split_last_at; [by rewrite <-app_assoc|].
      rewrite elem_of_app in *. tauto. }
  split; [done|]. rewrite He. destruct (parseSpec (sp_container p ++ sp_proto p)) as [p'|] eqn:Hp'; [|done].
  apply parseSpec_parts in Hp' as (ipc' & host' & rest' & l2 & Hv' & _).
  assert (Hin : ":"%char ∈ sp_container p ++ sp_proto p) by (rewrite Hv', !elem_of_app, elem_of_cons; tauto).
  apply elem_of_app in Hin as [?|?]; done.
Qed.

(** ** The ports a stack publishes *)

(** The number of a token. *)
Definition port_of (envMap : list (string * string)) (token : list ascii) : option Z :=
  let t := trim_chars is_space token in
  if all_digits (of_chars t) then Some (digits_value (of_chars t))
  else '(name, def) ← parseVarToken t; current_port envMap name def.

Definition published_ports (compose env : string) : list (option Z) := port_of (parseEnv env) <$> host_tokens compose.

(** The port a map says for a port. *)
Definition move_port (want : gmap Z Z) (p : option Z) : option Z := (λ o, default o (want !! o)) <$> p.

(** The literal port of a token, and the variable it names. *)
Definition literal_of (token : list ascii) : option Z :=
  let t := of_chars (trim_chars is_space token) in if all_digits t then Some (digits_value t) else None.
Definition variable_of (token : list ascii) : option (string * option string) :=
  let t := trim_chars is_space token in if all_digits (of_chars t) then None else parseVarToken t.

Section resolving.
Variables (want : gmap Z Z) (envMap : list (string * string)).

Lemma resolve_step literal vars resolved token :
  resolve_token want envMap (literal, vars, resolved) token =
  match port_of envMap token with
  | Some o =>
      match want !! o with
      | Some n =>
          (match literal_of token with Some _ => <[o := n]> literal | None => literal end,
           match variable_of token with Some (name, _) => map_set name n vars | None => vars end, {[o]} ∪ resolved)
      | None => (literal, vars, resolved)
      end
  | None => (literal, vars, resolved)
  end.
Proof.
  unfold resolve_token, port_of, literal_of, variable_of. destruct (all_digits _); [done|].
  destruct (parseVarToken _) as [[name def]|]; [|done]. cbn. by destruct (current_port envMap name def).
Qed.

(** What is known of a state of the loop after the tokens [ts]. *)
Record resolved_for (ts : list (list ascii)) (literal : gmap Z Z) (vars : list (string * Z)) (resolved : gset Z) : Prop := Resolved {
  r_literal : ∀ o n, literal !! o = Some n ↔ want !! o = Some n ∧ ∃ t, t ∈ ts ∧ literal_of t = Some o;
  r_keys : NoDup vars.*1;
  r_vars : ∀ name n, map_get name vars = Some n → ∃ t o def, t ∈ ts ∧ variable_of t = Some (name, def) ∧ current_port envMap name def = Some o ∧ want !! o = Some n;
  r_named : ∀ t o name def, t ∈ ts → variable_of t = Some (name, def) → current_port envMap name def = Some o → is_Some (want !! o) → is_Some (map_get name vars);
  r_resolved : ∀ o, o ∈ resolved ↔ is_Some (want !! o) ∧ Some o ∈ (port_of envMap <$> ts) }.

Lemma port_literal t o : literal_of t = Some o → port_of envMap t = Some o ∧ variable_of t = None.
Proof. unfold literal_of, port_of, variable_of. by destruct (all_digits _). Qed.

Lemma port_variable t : literal_of t = None → port_of envMap t = '(name, def) ← variable_of t; current_port envMap name def.
Proof. unfold literal_of, port_of, variable_of. by destruct (all_digits _). Qed.

Lemma variable_port t name def : variable_of t = Some (name, def) → port_of envMap t = current_port envMap name def ∧ literal_of t = None.
Proof. unfold literal_of, port_of, variable_of. destruct (all_digits _); [done|]. by intros ->. Qed.

Lemma resolved_nil : resolved_for [] ∅ [] ∅.
Proof.
  split; try done.
  - intros o n. rewrite lookup_empty. split; [done|]. by intros (_ & t & ?%elem_of_nil & _).
  - constructor.
  - by intros t o name def ?%elem_of_nil.
  - intros o. rewrite elem_of_empty. split; [done|]. by intros [_ ?%elem_of_nil].
Qed.

(** A token that names no port of the map. *)
Lemma resolved_skip ts token literal vars resolved :
  resolved_for ts literal vars resolved → port_of envMap token ≫= (want !!.) = None → resolved_for (ts ++ [token]) literal vars resolved.
Proof.
  intros [Hl Hk Hv Hn Hr] Hskip.
  assert (Hno : ∀ o, port_of envMap token = Some o → is_Some (want !! o) → False) by (intros o Ho [n Hw]; rewrite Ho in Hskip; cbn in Hskip; congruence).
  split; [|done|..].
  - intros o n. rewrite Hl. split; intros (Hw & t & Ht & Ho); (split; [done|]).
    + exists t. split; [|done]. apply elem_of_app. by left.
    + apply elem_of_app in Ht as [Ht|Ht%list_elem_of_singleton]; [by eauto|]. subst. apply port_literal in Ho as [Ho _]. destruct (Hno o); eauto.
  - intros name n (t & o & def & Ht & ? & ? & ?)%Hv. exists t, o, def. split_and!; [|done..]. apply elem_of_app. by left.
  - intros t o name def [Ht|Ht%list_elem_of_singleton]%elem_of_app Ht' Ho Hw; [by eapply Hn|]. subst.
    destruct (Hno o); [|done]. destruct (variable_port _ _ _ Ht') as [-> _]. done.
  - intros o. rewrite Hr, fmap_app, elem_of_app. split; [tauto|]. intros [Hw [?|Ho%list_elem_of_singleton]]; [done|].
    destruct (Hno o); [by rewrite Ho | done].
Qed.

Lemma resolved_literal ts token literal vars resolved o n :
  resolved_for ts literal vars resolved → literal_of token = Some o → want !! o = Some n →
  resolved_for (ts ++ [token]) (<[o := n]> literal) vars ({[o]} ∪ resolved).
Proof.
  intros [Hl Hk Hv Hn Hr] Ho Hw. destruct (port_literal _ _ Ho) as [Hp Hvar]. split; [|done|..].
  - intros o' n'. destruct (decide (o = o')) as [<-|Hne].
    + rewrite lookup_insert_eq, Hw. split; [|by intros [? _]]. intros [= <-]. split; [done|]. exists token. split; [|done].
      apply elem_of_app. right. by apply list_elem_of_singleton.
    + rewrite lookup_insert_ne, Hl by done. split; intros (Hw' & t & Ht & Ho'); (split; [done|]); exists t; (split; [|done]).
      * apply elem_of_app. by left.
      * apply elem_of_app in Ht as [?|Ht%list_elem_of_singleton]; [done|]. subst. congruence.
  - intros name m (t & o' & def & Ht & ? & ? & ?)%Hv. exists t, o', def. split_and!; [|done..]. apply elem_of_app. by left.
  - intros t o' name def [Ht|Ht%list_elem_of_singleton]%elem_of_app Ht' Ho' Hw'; [by eapply Hn|]. subst. congruence.
  - intros o'. rewrite elem_of_union, elem_of_singleton, Hr, fmap_app, elem_of_app. cbn. rewrite list_elem_of_singleton, Hp.
    split; [intros [->|[? ?]]; [eauto | auto]|]. intros [? [?|[= ->]]]; auto.
Qed.

Lemma resolved_variable ts token literal vars resolved name def o n :
  resolved_for ts literal vars resolved → variable_of token = Some (name, def) → current_port envMap name def = Some o → want !! o = Some n →
  resolved_for (ts ++ [token]) literal (map_set name n vars) ({[o]} ∪ resolved).
Proof.
  intros [Hl Hk Hv Hn Hr] Hvar Ho Hw. destruct (variable_port _ _ _ Hvar) as [Hp Hlit]. rewrite Ho in Hp.
  split; [|by apply map_set_keys|..].
  - intros o' n'. rewrite Hl. split; intros (Hw' & t & Ht & Ho'); (split; [done|]); exists t; (split; [|done]).
    + apply elem_of_app. by left.
    + apply elem_of_app in Ht as [?|Ht%list_elem_of_singleton]; [done|]. subst. congruence.
  - intros name' m. rewrite map_get_set. case_bool_decide as He.
    + intros [= <-]. subst. exists token, o, def. split_and!; [|done..]. apply elem_of_app. right. by apply list_elem_of_singleton.
    + intros (t & o' & def' & Ht & ? & ? & ?)%Hv. exists t, o', def'. split_and!; [|done..]. apply elem_of_app. by left.
  - intros t o' name' def' Ht Ht' Ho' Hw'. rewrite map_get_set. case_bool_decide as He; [done|].
    apply elem_of_app in Ht as [Ht|Ht%list_elem_of_singleton]; [by eapply Hn|]. subst. congruence.
  - intros o'. rewrite elem_of_union, elem_of_singleton, Hr, fmap_app, elem_of_app. cbn. rewrite list_elem_of_singleton, Hp.
    split; [intros [->|[? ?]]; [eauto | auto]|]. intros [? [?|[= ->]]]; auto.
Qed.

Lemma resolved_fold ts :
  let '(literal, vars, resolved) := foldl (resolve_token want envMap) (∅, [], ∅) ts in resolved_for ts literal vars resolved.
Proof.
  induction ts as [|t ts IH] using rev_ind; [apply resolved_nil|]. rewrite foldl_app. cbn [foldl].
  destruct (foldl _ _ ts) as [[literal vars] resolved]. rewrite resolve_step.
  destruct (port_of envMap t) as [o|] eqn:Hp; [|by apply resolved_skip; [|rewrite Hp]].
  destruct (want !! o) as [n|] eqn:Hw; [|by apply resolved_skip; [|rewrite Hp]].
  destruct (literal_of t) as [o'|] eqn:Hl.
  - destruct (port_literal _ _ Hl) as [Hp' ->]. rewrite Hp in Hp'. simplify_eq. by apply resolved_literal.
  - rewrite port_variable in Hp by done. destruct (variable_of t) as [[name def]|] eqn:Hv; [|done]. by eapply resolved_variable.
Qed.
End resolving.

(** The environment gives each variable one port, whatever its defaults. *)
Definition one_port (compose env : string) : Prop :=
  ∀ t t' name def def', t ∈ host_tokens compose → t' ∈ host_tokens compose →
    variable_of t = Some (name, def) → variable_of t' = Some (name, def') →
    current_port (parseEnv env) name def = current_port (parseEnv env) name def'.

Lemma resolve_ops compose env map :
  ∃ resolved, resolved_for (toNumMap map) (parseEnv env) (host_tokens compose)
    (op_literal (resolvePortRemap compose env map)) (op_vars (resolvePortRemap compose env map)) resolved ∧
  (∀ o, o ∈ op_unresolved (resolvePortRemap compose env map) ↔ is_Some (toNumMap map !! o) ∧ o ∉ resolved).
Proof.
  unfold resolvePortRemap. set (want := toNumMap map). case_bool_decide as Hw.
  - exists ∅. cbn [op_literal op_vars op_unresolved]. rewrite Hw. split.
    + split; try done.
      * intros o n. rewrite lookup_empty. split; [done|]. by intros [? _].
      * constructor.
      * intros o. rewrite elem_of_empty, lookup_empty. split; [done|]. by intros [[? ?] _].
    + intros o. rewrite lookup_empty. split; [by intros ?%elem_of_nil|]. by intros [[? ?] _].
  - pose proof (resolved_fold want (parseEnv env) (host_tokens compose)) as Hf.
    destruct (foldl _ _ _) as [[literal vars] resolved]. exists resolved. cbn [op_literal op_vars op_unresolved]. split; [done|].
    intros o. rewrite sort_in, list_elem_of_filter, list_elem_of_fmap. split.
    + intros [Ho ([o' n] & -> & Hin)]. apply elem_of_map_to_list in Hin. cbn in *. split; [by exists n | done].
    + intros [[n Hn] Ho]. split; [done|]. exists (o, n). split; [done|]. by apply elem_of_map_to_list.
Qed.

Lemma toNumMap_pos m k n : toNumMap m !! k = Some n → (0 < k)%Z ∧ (0 < n)%Z.
Proof. intros [_ ?]%map_lookup_filter_Some. done. Qed.

Lemma variable_name t name def : variable_of t = Some (name, def) → env_name name = true.
Proof.
  unfold variable_of, parseVarToken. destruct (all_digits _); [done|]. destruct (startsWith _ _); [|done].
  set (r := drop 2 _). destruct (match head _ with Some c => name_start c | None => false end) eqn:Hh; [|done].
  assert (Hname : env_name (of_chars (take_while name_char r)) = true).
  { unfold env_name. rewrite chars_of_chars. destruct (take_while name_char r) as [|c l] eqn:Ht; [done|]. cbn in Hh. rewrite Hh. cbn.
    apply forallb_forall. intros x Hx%list_elem_of_In. apply (take_while_in name_char r). rewrite Ht. by right. }
  intros Hv. repeat (case_match; try done); simplify_eq; done.
Qed.

Section moved.
Variables (compose env : string) (map : gmap Z Z).
Hypothesis no_cr : cr ∉ chars env.
Hypothesis shared : one_port compose env.

#[local] Abbreviation want := (toNumMap map).
#[local] Abbreviation ops := (resolvePortRemap compose env map).
#[local] Abbreviation moved := (applyPortRemap compose env (op_literal ops) (op_vars ops)).

Lemma moved_literal : toNumMap (op_literal ops) = op_literal ops.
Proof.
  destruct (resolve_ops compose env map) as (r & [Hl _ _ _ _] & _). apply map_filter_id. intros k n [Hw _]%Hl. by apply toNumMap_pos in Hw.
Qed.

Lemma moved_env name :
  map_get name (parseEnv moved.2) =
  match map_get name (op_vars ops) with Some n => Some (num_to_string n) | None => map_get name (parseEnv env) end.
Proof.
  destruct (resolve_ops compose env map) as (r & [_ Hk Hv _ _] & _). unfold applyPortRemap. cbn [snd].
  destruct (op_vars ops) as [|kv kvs] eqn:Hvars; [done|]. rewrite <-Hvars in *. apply env_vars_set; [done..|].
  intros k n Hin. apply map_get_in, Hv in Hin as (t & o & def & _ & Ht & _ & Hw); [|done].
  split; [by eapply variable_name|]. apply toNumMap_pos in Hw. lia.
Qed.

Lemma moved_port t :
  t ∈ host_tokens compose →
  port_of (parseEnv moved.2) (move_token (op_literal ops) t) = move_port want (port_of (parseEnv env) t).
Proof.
  unfold move_port. intros Ht. pose proof moved_env as Henv. destruct (resolve_ops compose env map) as (r & [Hl Hk Hv Hn _] & _).
  unfold move_token, rewriteLiteral. destruct (literal_of t) as [o|] eqn:Hlit.
  - destruct (port_literal (parseEnv env) _ _ Hlit) as [-> _]. cbn [fmap option_fmap option_map].
    unfold literal_of in Hlit. destruct (all_digits _) eqn:Hd; [|done]. simplify_eq. set (o := digits_value _) in *.
    destruct (op_literal ops !! o) as [n|] eqn:Ho; cbn.
    + apply Hl in Ho as [Hw _]. rewrite Hw. cbn. pose proof (toNumMap_pos _ _ _ Hw) as [_ Hpos].
      destruct (number_round_trip n) as [Hd1 Hd2]; [lia|]. unfold port_of.
      rewrite trim_nospace, of_chars_chars by (intros c Hc; eapply digit_not_space, all_digits_chars; [exact Hd1|done]).
      by rewrite Hd1, Hd2.
    + unfold port_of. rewrite Hd. fold o. f_equal. destruct (want !! o) as [n|] eqn:Hw; [|done].
      assert (op_literal ops !! o = Some n) as Hx; [|congruence]. apply Hl. split; [done|]. exists t. split; [done|].
      unfold literal_of. by rewrite Hd.
  - assert (all_digits (of_chars (trim_chars is_space t)) = false) as -> by (unfold literal_of in Hlit; by case_match).
    cbn [default from_option]. rewrite !port_variable by done. destruct (variable_of t) as [[name def]|] eqn:Hvar; [|done].
    cbn [mbind option_bind]. unfold current_port at 1. rewrite Henv. destruct (map_get name (op_vars ops)) as [n|] eqn:Hg.
    + cbn [default from_option]. apply Hv in Hg as (t' & o & def' & Ht' & Hvar' & Ho & Hw). rewrite (shared t t' name def def') by done.
      rewrite Ho. cbn [fmap option_fmap option_map default from_option]. rewrite Hw. cbn [default from_option]. pose proof (toNumMap_pos _ _ _ Hw) as [_ Hpos].
      destruct (number_round_trip n) as [Hd1 _]; [lia|].
      rewrite trim_id by (intros c Hc; eapply digit_not_space, all_digits_chars; [exact Hd1|done]). unfold id. apply number_read. lia.
    + fold (current_port (parseEnv env) name def). destruct (current_port (parseEnv env) name def) as [o|] eqn:Ho; [|done]. cbn. f_equal.
      destruct (want !! o) as [n|] eqn:Hw; [|done]. destruct (Hn t o name def) as [x Hx]; [done..|by eexists|congruence].
Qed.
End moved.


(** ** Names of trial runs *)

Lemma dashed_ok after b : (∀ c, c ∈ b → name_ok c = true) → dashed after b = b.
Proof.
  revert after. induction b as [|c b IH]; intros after Hb; [done|]. cbn. rewrite (Hb c) by left. rewrite IH; [done|].
  intros x Hx. apply Hb. by right.
Qed.

Lemma dashed_app after a c b : name_ok c = true → dashed after (a ++ c :: b) = dashed after a ++ c :: dashed false b.
Proof.
  intros Hc. revert after. induction a as [|x a IH]; intros after; cbn; [by rewrite Hc|].
  destruct (name_ok x); [by rewrite IH|]. destruct after; [apply IH | by rewrite IH].
Qed.

Lemma dashed_length after a : length (dashed after a) ≤ length a.
Proof.
  revert after. induction a as [|x a IH]; intros after; [done|]. cbn [dashed].
  pose proof (IH true). pose proof (IH false). destruct (name_ok x), after; cbn [length]; lia.
Qed.

Lemma dashed_kept after a c : c ∈ a → name_ok c = true → c ∈ dashed after a.
Proof.
  intros Hc Hok. apply list_elem_of_split in Hc as (x & y & ->). rewrite dashed_app by done.
  apply elem_of_app. right. left.
Qed.

Lemma alnum_facts c : alnum c = true → name_ok c = true ∧ is_dash c = false ∧ lower_char c = c.
Proof. by destruct c as [[] [] [] [] [] [] [] []]. Qed.

Definition verify : list ascii := chars "-verify-".

Lemma trim_dashes a id :
  (∃ c, c ∈ a ∧ is_dash c = false) → (∀ c, c ∈ id → alnum c = true) → id ≠ [] →
  trim_chars is_dash (a ++ verify ++ id) = drop_while is_dash a ++ verify ++ id.
Proof.
  intros Ha Hid Hne.
  assert (Hdrop : ∀ r, drop_while is_dash (a ++ r) = drop_while is_dash a ++ r).
  { intros r. induction a as [|x a IH]; destruct Ha as (c & Hc & Hd); [by apply elem_of_nil in Hc|]. cbn. destruct (is_dash x) eqn:Hx; [|done].
    apply IH. exists c. split; [|done]. apply elem_of_cons in Hc as [->|Hc]; [congruence | done]. }
  unfold trim_chars. rewrite Hdrop. rewrite (drop_while_id is_dash (reverse _)); [apply reverse_involutive|].
  intros x Hx. rewrite <-last_reverse, reverse_involutive, !last_app in Hx. destruct (last id) as [y|] eqn:Hy; [|by apply last_None in Hy].
  simplify_eq. by apply alnum_facts, Hid, last_Some_elem_of.
Qed.

(** the name of a trial run is one the teardown accepts.  For a stack name of at
    most 42 characters with a letter, a digit or an underscore, and a snapshot id of
    at least four letters and digits, the name is a project name, not longer than 54,
    and [assertSandbox] lets it be torn down: the id is cut, but not to less than four
    characters. *)
Theorem sandbox_name_accepted stackName shortId c :
  every alnum (chars shortId) = true → 4 ≤ length (chars shortId) → length (chars stackName) ≤ 42 →
  c ∈ chars (toLowerCase stackName) → name_ok c = true → is_dash c = false →
  assertSandbox (sandboxName stackName shortId) = Ok tt ∧ length (chars (sandboxName stackName shortId)) ≤ 54 ∧
  ∃ n, 4 ≤ n ∧ sandboxName stackName shortId =
    (of_chars (drop_while is_dash (dashed false (chars (toLowerCase stackName)))) +:+ "-verify-" +:+ of_chars (take n (chars shortId)))%string.
Proof.
  intros Hid Hlen Hstack Hc Hok Hdash. set (low := chars (toLowerCase stackName)) in *.
  assert (Hall : ∀ x, x ∈ chars shortId → alnum x = true) by (intros x Hx; eapply forallb_forall; [exact Hid | by apply list_elem_of_In]).
  set (id := take (46 - length (dashed false low)) (chars shortId)).
  assert (Hlow : length low = length (chars stackName)) by (unfold low; by rewrite toLowerCase_chars, length_fmap).
  assert (Hd : length (dashed false low) ≤ 42) by (pose proof (dashed_length false low); lia).
  assert (Hidlen : 4 ≤ length id ≤ 46) by (unfold id; rewrite length_take; lia).
  assert (Hidall : ∀ x, x ∈ id → alnum x = true) by (intros x Hx; apply Hall; rewrite <-(take_drop (46 - length (dashed false low)) (chars shortId)); apply elem_of_app; by left).
  assert (Hname : chars (sandboxName stackName shortId) = drop_while is_dash (dashed false low) ++ verify ++ id).
  { unfold sandboxName. rewrite chars_of_chars, toLowerCase_chars, !chars_app, !fmap_app.
    assert (lower_char <$> chars shortId = chars shortId) as ->.
    { rewrite <-(list_fmap_id (chars shortId)) at 2. apply list_fmap_ext. intros i x Hx%list_elem_of_lookup_2. by apply alnum_facts, Hall. }
    change (lower_char <$> chars "-verify-") with verify. rewrite <-toLowerCase_chars. fold low.
    change (low ++ verify ++ chars shortId) with (low ++ "-"%char :: tail verify ++ chars shortId).
    rewrite dashed_app by done. rewrite (dashed_ok false (tail verify ++ chars shortId)) by
      (intros x [Hx|Hx]%elem_of_app; [revert x Hx; apply Forall_forall; by repeat constructor | by apply alnum_facts, Hall]).
    change (dashed false low ++ "-"%char :: tail verify ++ chars shortId) with (dashed false low ++ verify ++ chars shortId).
    rewrite take_app, (take_ge (dashed false low)) by lia. rewrite take_app, (take_ge verify) by (change (length verify) with 8; lia).
    replace (54 - length (dashed false low) - length verify) with (46 - length (dashed false low)) by (change (length verify) with 8; lia).
    fold id. apply trim_dashes; [|done|intros He; rewrite He in Hidlen; cbn in Hidlen; lia]. exists c. split; [by apply dashed_kept | done]. }
  assert (Hguard : is_sandbox (sandboxName stackName shortId) = true).
  { unfold is_sandbox. rewrite Hname, app_assoc, reverse_app. apply andb_true_iff.
    assert (Hr : ∀ x, x ∈ reverse id → alnum x = true) by (intros x; rewrite elem_of_reverse; apply Hidall).
    rewrite reverse_app. change (reverse verify) with (chars "-yfirev-"). split.
    - rewrite take_while_app; [|done|by intros x [= <-]]. rewrite length_reverse. apply Nat.leb_le. lia.
    - rewrite drop_while_app; [|done|by intros x [= <-]]. unfold startsWith. apply prefix_chars. rewrite !chars_of_chars. by eexists. }
  split_and!.
  - unfold assertSandbox. by rewrite Hguard.
  - rewrite Hname, !length_app. cbn [length verify]. change (length verify) with 8.
    destruct (drop_while_split is_dash (dashed false low)) as (pre & Hpre & _).
    assert (length (dashed false low) = length pre + length (drop_while is_dash (dashed false low))) by (rewrite Hpre at 1; apply length_app).
    unfold id. rewrite length_take. lia.
  - exists (46 - length (dashed false low)). split; [lia|]. fold low id.
    rewrite <-(of_chars_chars (sandboxName _ _)), <-(of_chars_chars (of_chars _ +:+ _)). f_equal.
    by rewrite Hname, !chars_app, !chars_of_chars.
Qed.

(** ** Decidable forms of the conditions *)

Definition regularb (l : list ascii) : bool :=
  match long_entry l, short_entry l with
  | None, None => bool_decide (line_token l = None)
  | _, _ => true
  end.

Lemma regular_lines ls : every regularb ls = true → Forall regular ls.
Proof.
  intros Hall. apply Forall_forall. intros l Hl%list_elem_of_In. eapply forallb_forall in Hall; [|exact Hl].
  unfold regularb in Hall. intros Hlong Hshort. rewrite Hlong, Hshort in Hall. by apply bool_decide_eq_true in Hall.
Qed.

Definition plain_protob (l : list ascii) : bool :=
  match short_entry l with
  | Some e => match split_last "/"%char (trim_chars is_space (e_value e)) with Some (_, b) => negb (includes ":"%char b) | None => true end
  | None => true
  end.

Lemma plain_proto_lines ls : every plain_protob ls = true → Forall plain_proto ls.
Proof.
  intros Hall. apply Forall_forall. intros l Hl%list_elem_of_In. eapply forallb_forall in Hall; [|exact Hl].
  unfold plain_protob in Hall. intros e a b He Hb. rewrite He, Hb in Hall. apply negb_true_iff in Hall. by apply includes_false.
Qed.

Definition one_portb (compose env : string) : bool :=
  let ts := omap variable_of (host_tokens compose) in
  every (λ v, every (λ v', negb (bool_decide (v.1 = v'.1)) ||
    bool_decide (current_port (parseEnv env) v.1 v.2 = current_port (parseEnv env) v'.1 v'.2)) ts) ts.

Lemma one_port_check compose env : one_portb compose env = true → one_port compose env.
Proof.
  intros Hall t t' name def def' Ht Ht' Hv Hv'. unfold one_portb in Hall.
  assert (Hin : ∀ t v, t ∈ host_tokens compose → variable_of t = Some v → In v (omap variable_of (host_tokens compose))).
  { intros u v Hu Huv. apply list_elem_of_In, list_elem_of_omap. by exists u. }
  eapply forallb_forall in Hall; [|by eapply (Hin t)]. eapply forallb_forall in Hall; [|by eapply (Hin t')]. cbn [fst snd] in Hall.
  rewrite bool_decide_eq_true_2 in Hall by done. by apply bool_decide_eq_true in Hall.
Qed.

(** ** Examples *)

Module Bench.

Definition compose : string := unlines [
  "services:"; "  web:"; "    image: site"; "    ports:"; "      - '8080:80'   # site"; "      - 127.0.0.1:9000:90/udp";
  "      - ${WEB_PORT:-8000}:8000"; "      - ${API_PORT}:81"; "      - 3000"; "      - target: 3000"; "        published: 8443"; "    restart: always"].
Definition env : string := unlines ["# ports"; "API_PORT = '8081'"; "DB=pg"].
Definition wanted : gmap Z Z := list_to_map [(8080, 18080); (8000, 18000); (8081, 18081); (8443, 18443); (5432, 15432)]%Z.

Example ops_of_map :
  let ops := resolvePortRemap compose env wanted in
  op_literal ops = list_to_map [(8080, 18080); (8443, 18443)]%Z ∧
  op_vars ops = [("WEB_PORT", 18000%Z); ("API_PORT", 18081%Z)] ∧ op_unresolved ops = [5432%Z].
Proof. by vm_compute. Qed.

Example applied :
  let ops := resolvePortRemap compose env wanted in
  applyPortRemap compose env (op_literal ops) (op_vars ops) =
  (unlines ["services:"; "  web:"; "    image: site"; "    ports:"; "      - '18080:80' # site"; "      - 127.0.0.1:9000:90/udp";
     "      - ${WEB_PORT:-8000}:8000"; "      - ${API_PORT}:81"; "      - 3000"; "      - target: 3000"; "        published: 18443"; "    restart: always"],
   unlines ["# ports"; "API_PORT = 18081"; "DB=pg"; "WEB_PORT=18000"]).
Proof. vm_compute. reflexivity. Qed.

Example unpublished :
  unpublishPorts compose =
  unlines ["services:"; "  web:"; "    image: site"; "    ports:"; "      - '80' # site"; "      - 90/udp";
     "      - 8000"; "      - 81"; "      - 3000"; "      - target: 3000"; "    restart: always"].
Proof. vm_compute. reflexivity. Qed.


Lemma remap_exact_witness :
  of_chars <$> host_tokens (applyPortRemap compose env wanted []).1 = ["18080"; "9000"; "${WEB_PORT:-8000}"; "${API_PORT}"; "18443"].
Proof. rewrite (remap_exact compose env wanted []) by (apply regular_lines; vm_compute; reflexivity). vm_compute. reflexivity. Defined.


Lemma container_side_kept_witness : containerSideOnly (chars "127.0.0.1:9000:90/udp") = chars "90/udp".
Proof.
  apply (container_side_kept (chars "127.0.0.1:9000:90/udp")
    (Spec (chars "127.0.0.1") (chars "9000") (chars "90") (chars "/udp"))).
  - apply Forall_forall. by repeat constructor.
  - vm_compute. reflexivity.
  - by apply includes_false.
Defined.

Lemma env_vars_set_witness :
  map_get "API_PORT" (parseEnv (setEnvVars env [("API_PORT", 18081%Z); ("NEW", 1%Z)])) = Some "18081".
Proof.
  assert (Hok : ∀ k n, (k, n) ∈ [("API_PORT", 18081%Z); ("NEW", 1%Z)] → env_name k = true ∧ (0 ≤ n)%Z).
  { intros k n [[= -> ->]|[[= -> ->]|?%elem_of_nil]%elem_of_cons]%elem_of_cons; done. }
  rewrite (env_vars_set env [("API_PORT", 18081%Z); ("NEW", 1%Z)]);
    [vm_compute; reflexivity | by apply includes_false | by apply (bool_decide_unpack _) | exact Hok].
Defined.

Lemma sandbox_name_accepted_witness :
  assertSandbox (sandboxName "My Shop" "1a2b3c4d") = Ok tt ∧ sandboxName "My Shop" "1a2b3c4d" = "my-shop-verify-1a2b3c4d".
Proof.
  split; [|vm_compute; reflexivity]. apply (sandbox_name_accepted "My Shop" "1a2b3c4d" "m"%char); [reflexivity|cbn; lia|cbn; lia|left|reflexivity..].
Defined.

(** *** What the code does otherwise *)

Definition crlf_comment : string := unlines ["ports:"; ("  - 8080:80 # site" +:+ of_chars [cr])%string].
Lemma crlf_resolved_not_applied :
  let ops := resolvePortRemap crlf_comment "" wanted in
  op_literal ops !! 8080%Z = Some 18080%Z ∧ op_unresolved ops = [5432; 8000; 8081; 8443]%Z ∧
  (applyPortRemap crlf_comment "" (op_literal ops) (op_vars ops)).1 = crlf_comment.
Proof. vm_compute. split_and!; reflexivity. Qed.

Definition flow_ports : string := unlines ["ports: ['8080:80']"].
Definition published_first : string := unlines ["ports:"; "  - published: 8080"; "    target: 80"; "  - {published: 8081, target: 81}"].
Lemma still_published : unpublishPorts flow_ports = flow_ports ∧ unpublishPorts published_first = published_first.
Proof. vm_compute. split; reflexivity. Qed.

Definition container_variable : string := unlines ["ports:"; "  - 8080:${PORT:-80}"].
Lemma container_variable_shredded : unpublishPorts container_variable = unlines ["ports:"; "  - -80}"].
Proof. vm_compute. reflexivity. Qed.

Lemma long_name_refused :
  let name := sandboxName "customer-relationship-management-production" "1a2b3c4d" in
  name = "customer-relationship-management-production-verify-1a2" ∧ is_sandbox name = false.
Proof. vm_compute. split; reflexivity. Qed.

Definition defaulted : string := unlines ["ports:"; "  - ${PORT:-8080}:80"].
Lemma empty_variable_unresolved :
  op_vars (resolvePortRemap defaulted "PORT=" {[8080%Z := 18080%Z]}) = [] ∧
  op_vars (resolvePortRemap defaulted "" {[8080%Z := 18080%Z]}) = [("PORT", 18080%Z)].
Proof. vm_compute. split; reflexivity. Qed.

Definition two_defaults : string := unlines ["ports:"; "  - ${PORT:-8080}:80"; "  - ${PORT:-8081}:81"].
Lemma both_defaults_moved :
  let ops := resolvePortRemap two_defaults "" {[8080%Z := 18080%Z]} in
  let '(compose', env') := applyPortRemap two_defaults "" (op_literal ops) (op_vars ops) in
  published_ports two_defaults "" = [Some 8080; Some 8081]%Z ∧ published_ports compose' env' = [Some 18080; Some 18080]%Z.
Proof. vm_compute. split; reflexivity. Qed.

End Bench.
