(* ===== verification/Deployments.v ===== *)
(** * Deployments of the application replicator

    [app-replicator/port-allocator.service.ts] (the choice of a port) and
    [app-replicator/deployment.service.ts]: port resolution and preflight, the
    deploy, edit and removal of an instance, and the record its background run
    leaves.  The host, the backends and the ingress service are inputs; the
    vault is any [SecretStore].  The map of variable names to values holds own
    properties only. *)
From S2P Require Import Prelude JsText Crypto Secrets ComposeOverride EnvFiles.
From stdpp Require Import gmap strings pretty options.

#[local] Open Scope Z_scope.
#[local] Set Default Proof Using "Type*".

(** ** Choosing a port *)

Module PortAllocator.

(** [while (used.has(p) || taken.has(p)) p++] *)
Fixpoint next_free (fuel : nat) (p : Z) (busy : list Z) : Z :=
  match fuel with
  | O => p
  | S fuel' => if includes p busy then next_free fuel' (p + 1) busy else p
  end.

Definition floor_of (containerPort : Z) : Z := if 1024 <=? containerPort then containerPort else 8000.

(** The port, and [taken] with it. *)
Definition suggest (containerPort : Z) (used taken : list Z) : Z * list Z :=
  let p := next_free (S (length (used ++ taken))) (floor_of containerPort) (used ++ taken) in
  (p, taken ++ [p]).

(** One suggestion after the other, as [targetInfo] asks for them. *)
Fixpoint suggest_all (containerPorts used taken : list Z) : list Z :=
  match containerPorts with
  | [] => []
  | c :: rest => let '(p, taken') := suggest c used taken in p :: suggest_all rest used taken'
  end.

End PortAllocator.

(** ** Data *)

Inductive TargetKind := docker | ecs.

#[export] Instance TargetKind_eq_dec : EqDecision TargetKind.
Proof. solve_decision. Defined.

Record FixedPort := Fixed {
  f_service : option string;
  f_containerPort : Z;
  f_hostPort : Z;
  f_hostPortEnd : option Z;
  f_mode : string;
  f_protocol : option string;
  f_variable : option string;
  f_adjustable : bool
}.

Record App := {
  a_id : string;
  a_name : string;
  a_variables : list ReplicatorVariable;
  a_fixedPorts : list FixedPort;
  a_usesGeneratedCompose : bool;
  a_compose : option string;
  a_gitPath : option string
}.

Record Deployment := {
  d_id : string;
  d_appId : string;
  d_targetKind : TargetKind;
  d_instance : string;
  d_name : string;
  d_project : string;
  d_values : env;
  d_secretVars : list string;
  d_extraEnv : env;
  d_extraSecretVars : list string;
  d_extraMounts : list ReplicatorMount;
  d_ports : list ReplicatorPort;
  d_status : string;
  d_phase : option string;
  d_lastMessage : option string;
  d_deployedCommit : option string;
  d_updateAvailable : bool;
  d_availableCommit : option string;
  d_ecs : option string
}.

Record DeployInput := {
  in_instance : string;
  in_targetKind : option TargetKind;
  in_name : string;
  in_values : env;
  in_secrets : env;
  in_ports : list (string * Z);
  in_extraEnv : option (list ExtraEnvEntry);
  in_mounts : option (list json);
  in_forceRebuild : bool
}.

(** The fields of an edit that are [undefined] are [None]. *)
Record RedeployInput := {
  ri_edit : bool;
  ri_values : env;
  ri_secrets : env;
  ri_ports : list (string * Z);
  ri_extraEnv : option (list ExtraEnvEntry);
  ri_mounts : option (list json);
  ri_forceRebuild : bool
}.

(** What the background worker is handed. *)
Record run_args := {
  ra_id : string;
  ra_kind : string;
  ra_ports : list ReplicatorPort;
  ra_values : env;
  ra_secrets : env;
  ra_extras : env;
  ra_mounts : list ReplicatorMount;
  ra_forceRebuild : bool
}.

Inductive effect :=
| Out (o : output)
| Launch (a : run_args).

(** [deployment:<id>:<name>] *)
Definition secretKey (deploymentId varName : string) : string :=
  "deployment:" +:+ deploymentId +:+ ":" +:+ varName.

(** [projectName] of docker-stack.service.ts *)
Fixpoint project_dashes (in_run : bool) (l : list ascii) : list ascii :=
  match l with
  | [] => []
  | c :: l' =>
      if is_lower c || is_digit c || includes c ["_"%char; "-"%char] then c :: project_dashes false l'
      else if in_run then project_dashes true l' else "-"%char :: project_dashes true l'
  end.
Definition projectName (name : string) : string :=
  of_chars (take 63 (drop_while (λ c, negb (is_lower c || is_digit c))
    (project_dashes false (chars (toLowerCase name))))).

(** ** Ports *)

(** [v.containerPort ?? Number(v.default) ?? 8080]; a [NaN] is not nullish. *)
Definition container_port (v : ReplicatorVariable) : option Z :=
  match v_containerPort v with
  | Some p => Some p
  | None => match v_default v with Some d => Number d | None => Some 0 end
  end.

Definition valid_port (p : Z) : bool := (1 <=? p) && (p <=? 65535).

Definition resolve_variable (chosen : list (string * Z)) (v : ReplicatorVariable) :
    result http_error ReplicatorPort :=
  let hostPort := match map_get (v_name v) chosen with
                  | Some p => Some p
                  | None => match v_default v with Some d => Number d | None => container_port v end
                  end in
  match hostPort with
  | Some p =>
      if valid_port p
      then Ok (Port (default "app" (v_service v)) (Some (v_name v)) p (container_port v) "published"
                 (Some true) None None)
      else Err (BadRequest ("Invalid host port for " +:+ v_name v +:+ "."))
  | None => Err (BadRequest ("Invalid host port for " +:+ v_name v +:+ "."))
  end.

Definition resolve_fixed (values : env) (p : FixedPort) : ReplicatorPort :=
  let host :=
    if bool_decide (f_mode p = "host_network") && truthy (f_variable p) then
      match map_get (default "" (f_variable p)) values with
      | Some x => match Number x with
                  | Some n => if valid_port n then n else f_hostPort p
                  | None => f_hostPort p
                  end
      | None => f_hostPort p
      end
    else f_hostPort p in
  Port (default "app" (f_service p)) (f_variable p) host (Some (f_containerPort p)) (f_mode p)
    (Some (f_adjustable p)) (f_hostPortEnd p) (f_protocol p).

Fixpoint resolve_variables (chosen : list (string * Z)) (vs : list ReplicatorVariable) :
    result http_error (list ReplicatorPort) :=
  match vs with
  | [] => Ok []
  | v :: vs' =>
      p ← resolve_variable chosen v;
      ps ← resolve_variables chosen vs';
      Ok (p :: ps)
  end.

Definition resolvePorts (variables : list ReplicatorVariable) (fixedPorts : list FixedPort)
    (chosen : list (string * Z)) (values : env) : result http_error (list ReplicatorPort) :=
  ps ← resolve_variables chosen (findMany (λ v, bool_decide (v_role v = host_port)) variables);
  Ok (ps ++ (resolve_fixed values <$> fixedPorts)).

Definition conflict_text (p : ReplicatorPort) : string :=
  let n := num_to_string (p_hostPort p) in
  if bool_decide (p_mode p = "host_network") then
    if truthy (p_variable p) then
      n +:+ " (in use on the host — this app binds it directly via host networking; change " +:+
        default "" (p_variable p) +:+ " to a free port and deploy again)"
    else n +:+ " (in use on the host — this app binds it directly via host networking and hardcodes the port, so free it on the host or edit the app's compose)"
  else if bool_decide (p_adjustable p = Some false) then
    n +:+ " (in use on the host — hardcoded in the app's compose, so free it on the host or edit the compose)"
  else n +:+ " (already in use on the host — pick a different host port)".

Fixpoint conflicts (used seen : list Z) (ports : list ReplicatorPort) : list string :=
  match ports with
  | [] => []
  | p :: rest =>
      if includes (p_hostPort p) seen then
        (num_to_string (p_hostPort p) +:+ " (assigned twice in this deployment)") :: conflicts used seen rest
      else if includes (p_hostPort p) used then conflict_text p :: conflicts used (p_hostPort p :: seen) rest
      else conflicts used (p_hostPort p :: seen) rest
  end.

Definition preflightPorts (usedPorts exclude : list Z) (ports : list ReplicatorPort) : result http_error unit :=
  let used := filter (λ p, p ∉ exclude) usedPorts in
  let cs := conflicts used [] ports in
  if bool_decide (cs = []) then Ok tt
  else Err (BadRequest ("Port conflict: " +:+ JsText.join "; " cs +:+ ".")).

(** The services a mount may attach to. *)
Definition knownServicesOf (variables : list ReplicatorVariable) (fixedPorts : list FixedPort)
    (portList : list ReplicatorPort) : list string :=
  uniq (omap (λ v, non_empty (v_service v)) variables ++ omap (λ p, non_empty (f_service p)) fixedPorts ++
        omap (λ p, non_empty (Some (p_service p))) portList).

(** ** The service *)

Record state (V : Type) := State { apps : list App; rows : list Deployment; vault : V }.
Arguments State {V} apps rows vault.
Arguments apps {V} s.
Arguments rows {V} s.
Arguments vault {V} s.

Definition is_row (id : string) (r : Deployment) : bool := bool_decide (d_id r = id).
Definition is_app (id : string) (a : App) : bool := bool_decide (a_id a = id).

(** The fields an update writes. *)
Definition set_status (status : string) (phase : option string) (r : Deployment) : Deployment :=
  Build_Deployment (d_id r) (d_appId r) (d_targetKind r) (d_instance r) (d_name r) (d_project r)
    (d_values r) (d_secretVars r) (d_extraEnv r) (d_extraSecretVars r) (d_extraMounts r) (d_ports r)
    status phase (d_lastMessage r) (d_deployedCommit r) (d_updateAvailable r) (d_availableCommit r) (d_ecs r).
Definition set_config (values : env) (ports : list ReplicatorPort) (secretVars : list string)
    (extraEnv : env) (extraSecretVars : list string) (mounts : list ReplicatorMount) (r : Deployment) : Deployment :=
  Build_Deployment (d_id r) (d_appId r) (d_targetKind r) (d_instance r) (d_name r) (d_project r)
    values secretVars extraEnv extraSecretVars mounts ports
    (d_status r) (d_phase r) (d_lastMessage r) (d_deployedCommit r) (d_updateAvailable r)
    (d_availableCommit r) (d_ecs r).
Definition set_ports (values : env) (ports : list ReplicatorPort) (r : Deployment) : Deployment :=
  set_config values ports (d_secretVars r) (d_extraEnv r) (d_extraSecretVars r) (d_extraMounts r) r.
Definition set_place (instance project : string) (r : Deployment) : Deployment :=
  set_status "deployed" None
    (Build_Deployment (d_id r) (d_appId r) (d_targetKind r) instance (d_name r) project
      (d_values r) (d_secretVars r) (d_extraEnv r) (d_extraSecretVars r) (d_extraMounts r) (d_ports r)
      (d_status r) (d_phase r) (d_lastMessage r) (d_deployedCommit r) (d_updateAvailable r)
      (d_availableCommit r) (d_ecs r)).

(** What the backend answered. *)
Record DeployOutcome := {
  oc_ok : bool; oc_message : string; oc_deployedCommit : option (option string);
  oc_refs : option string; oc_gitPath : option string
}.
Definition set_outcome (o : DeployOutcome) (r : Deployment) : Deployment :=
  Build_Deployment (d_id r) (d_appId r) (d_targetKind r) (d_instance r) (d_name r) (d_project r)
    (d_values r) (d_secretVars r) (d_extraEnv r) (d_extraSecretVars r) (d_extraMounts r) (d_ports r)
    (if oc_ok o then "deployed" else "error") None (Some (slice_to 2000 (oc_message o)))
    (default (d_deployedCommit r) (oc_deployedCommit o))
    (if oc_ok o then false else d_updateAvailable r) (if oc_ok o then None else d_availableCommit r)
    (match oc_refs o with Some x => Some x | None => d_ecs r end).
Definition set_failed (message : string) (r : Deployment) : Deployment :=
  Build_Deployment (d_id r) (d_appId r) (d_targetKind r) (d_instance r) (d_name r) (d_project r)
    (d_values r) (d_secretVars r) (d_extraEnv r) (d_extraSecretVars r) (d_extraMounts r) (d_ports r)
    "error" None (Some (slice_to 2000 message)) (d_deployedCommit r) (d_updateAvailable r)
    (d_availableCommit r) (d_ecs r).

Definition blank_lookup (n : string) (m : env) : bool := negb (truthy (map_get n m)).
Definition configurable (v : ReplicatorVariable) : bool :=
  bool_decide (v_role v = plain) || bool_decide (v_role v = host_ip).
Definition map_delete {A} (k : string) (m : list (string * A)) : list (string * A) :=
  deleteMany (λ kv, bool_decide (kv.1 = k)) m.

Definition throw_missing {S E} (missing : list string) : svc S E http_error unit :=
  throw_if (negb (bool_decide (missing = [])))
    (BadRequest ("Missing required value(s): " +:+ JsText.join ", " missing +:+ ".")).

Module DeploymentService.
Section service.
Context {V : Type} `{SecretStore V}.

(** The connector look-ups (with the port scan's answer), the ingress teardown
    and the backend teardown. *)
Context (docker_target ecs_target : string → result http_error unit) (usedPorts : string → list Z).

Abbreviation call := (svc (state V) effect http_error).

Definition with_rows (f : list Deployment → list Deployment) (s : state V) : state V :=
  State (apps s) (f (rows s)) (vault s).

Definition emit (o : output) : call unit := tell (Out o).

(** A call of the vault. *)
Definition vault_call {A} (m : svc V output http_error A) : call A := λ s,
  let '(r, v, o) := m (vault s) in (r, State (apps s) (rows s) v, Out <$> o).

Definition vault_label (project name : string) : MetaInput :=
  Build_MetaInput (Some ("Replicator · " +:+ project +:+ " · " +:+ name)) None None None None None.

Definition store (now : Z) (iv id project : string) (actor : ActorCtx) (kv : string * string) : call unit :=
  vault_call (store_set now iv (secretKey id kv.1) kv.2 (vault_label project kv.1) actor).

(** [.catch(() => {})] on a removal. *)
Definition drop_secret (id : string) (actor : ActorCtx) (name : string) : call unit :=
  catch (vault_call (store_remove (secretKey id name) actor)) (λ _, mret tt).

Definition deploy_missing (input : DeployInput) (variables : list ReplicatorVariable) : list string :=
  v_name <$> findMany (λ v,
    v_required v && negb (includes (v_role v) [host_port; image_tag; container_name]) &&
    blank_lookup (v_name v) (if v_secret v then in_secrets input else in_values input) &&
    bool_decide (v_default v = None)) variables.

Definition supplied_values (variables : list ReplicatorVariable) (values : env) : env :=
  foldl (λ m v, if configurable v then set_some m (v_name v, non_empty (map_get (v_name v) values)) else m)
    [] variables.

Definition supplied_secrets (variables : list ReplicatorVariable) (secrets : env) : list string :=
  v_name <$> findMany (λ v, v_secret v && negb (blank_lookup (v_name v) secrets)) variables.

Definition with_value (m : env) (n : string) : string * string := (n, default "" (map_get n m)).

Definition new_row (id : string) (app : App) (input : DeployInput) (kind : TargetKind) (values : env)
    (secretVars : list string) (extras : Extras) (mounts : list ReplicatorMount)
    (ports : list ReplicatorPort) : Deployment :=
  Build_Deployment id (a_id app) kind (in_instance input) (trim (in_name input))
    (projectName (in_name input)) values secretVars (e_values extras) (e_secretNames extras) mounts ports
    "pending" (Some "Queued…") None None false None None.

Definition deploy (now : Z) (iv id appId : string) (input : DeployInput) (actor : ActorCtx) : call Deployment :=
  s ← get;
  app ← or_throw (findFirst (is_app appId) (apps s)) (NotFound "App not found.");
  let variables := a_variables app in
  let project := projectName (in_name input) in
  throw_if (bool_decide (project = "")) (BadRequest "A valid deployment name is required.") ;;
  let kind := default docker (in_targetKind input) in
  throw_if (a_usesGeneratedCompose app && negb (bool_decide (kind = docker)))
    (BadRequest "This app has no docker-compose.yml of its own, so it can only be deployed to a Docker host for now — commit a Dockerfile and compose file to deploy it to ECS.") ;;
  throw_if (truthy (a_compose app) && negb (bool_decide (kind = docker)))
    (BadRequest "Apps registered from a pasted compose deploy to Docker hosts only for now.") ;;
  throw_if (some (λ r, bool_decide (d_instance r = in_instance input ∧ d_project r = project)) (rows s))
    (BadRequest ("A deployment named " +:+ quoted project +:+ " already exists on that target.")) ;;
  portList ← lift (resolvePorts variables (a_fixedPorts app) (in_ports input) (in_values input));
  (if bool_decide (kind = docker) then
     lift (docker_target (in_instance input)) ;;
     lift (preflightPorts (usedPorts (in_instance input)) [] portList)
   else lift (ecs_target (in_instance input))) ;;
  throw_missing (deploy_missing input variables) ;;
  let values := supplied_values variables (in_values input) in
  let secretVars := supplied_secrets variables (in_secrets input) in
  extras ← lift (splitExtras (in_extraEnv input) variables);
  let blank := findMany (λ n, negb (map_has n (e_secrets extras))) (e_secretNames extras) in
  throw_if (negb (bool_decide (blank = [])))
    (BadRequest ("Give the extra secret variable(s) a value: " +:+ JsText.join ", " blank +:+ ".")) ;;
  throw_if (negb (bool_decide (kind = docker)) && negb (bool_decide (default [] (in_mounts input) = [])))
    (BadRequest "Volume mounts are only supported on Docker-host deployments, not ECS/Fargate.") ;;
  mounts ← (if bool_decide (kind = docker)
            then lift (sanitizeMounts (in_mounts input) (knownServicesOf variables (a_fixedPorts app) portList))
            else mret []);
  let row := new_row id app input kind values secretVars extras mounts portList in
  modify (with_rows (createRow row)) ;;
  for_each (with_value (in_secrets input) <$> secretVars) (store now iv id project actor) ;;
  for_each (with_value (e_secrets extras) <$> e_secretNames extras) (store now iv id project actor) ;;
  tell (Launch (Build_run_args id "deploy" portList values (in_secrets input)
    (e_values extras ++ e_secrets extras) mounts (in_forceRebuild input))) ;;
  mret row.

(** *** Editing and redeploying *)

Definition load (id : string) : call (Deployment * App) :=
  s ← get;
  row ← or_throw (findFirst (is_row id) (rows s)) (NotFound "Deployment not found.");
  app ← or_throw (findFirst (is_app (d_appId row)) (apps s)) (NotFound "The deployment’s app no longer exists.");
  mret (row, app).

(** [reveal(...).catch(() => null)] *)
Definition try_reveal (now : Z) (id name : string) : call (option string) :=
  catch (vault_call (store_reveal now (secretKey id name))) (λ _, mret None).

Fixpoint reveal_into (now : Z) (id : string) (ns : list string) (m : env) : call env :=
  match ns with
  | [] => mret m
  | n :: ns' =>
      v ← try_reveal now id n;
      reveal_into now id ns' (set_some m (n, v))
  end.

Definition resolveStored (now : Z) (row : Deployment) : call (env * env) :=
  secrets ← reveal_into now (d_id row) (d_secretVars row) [];
  extras ← reveal_into now (d_id row) (d_extraSecretVars row) (d_extraEnv row);
  mret (secrets, extras).

Definition merge_value (opts : env) (m : env) (v : ReplicatorVariable) : env :=
  if configurable v then
    match map_get (v_name v) opts with
    | None => m
    | Some x => if bool_decide (x = "") then map_delete (v_name v) m else map_set (v_name v) x m
    end
  else m.

Definition chosen_ports (portList : list ReplicatorPort) (opts : list (string * Z)) : list (string * Z) :=
  foldl (λ m kv, map_set kv.1 kv.2 m)
    (foldl (λ m p,
       if truthy (p_variable p) && negb (bool_decide (p_mode p = "host_network")) &&
          negb (bool_decide (p_adjustable p = Some false))
       then map_set (default "" (p_variable p)) (p_hostPort p) m else m) [] portList) opts.

Definition edit_missing (opts : RedeployInput) (row : Deployment) (merged : env)
    (variables : list ReplicatorVariable) : list string :=
  v_name <$> findMany (λ v,
    v_required v && negb (includes (v_role v) [host_port; host_ip; image_tag; container_name]) &&
    bool_decide (v_default v = None) &&
    (if v_secret v
     then blank_lookup (v_name v) (ri_secrets opts) && negb (includes (v_name v) (d_secretVars row))
     else blank_lookup (v_name v) merged)) variables.

(** The secrets of the schema an edit supplies. *)
Definition rotated (opts : RedeployInput) (variables : list ReplicatorVariable) : list (string * string) :=
  with_value (ri_secrets opts) <$> supplied_secrets variables (ri_secrets opts).

(** The extra secrets, in turn: supplied ones are stored, blank ones kept. *)
Fixpoint keep_extras (now : Z) (iv id project : string) (actor : ActorCtx) (given stored : env)
    (ns : list string) (resolved : env) : call env :=
  match ns with
  | [] => mret resolved
  | n :: ns' =>
      v ← (match map_get n given with
           | Some v => store now iv id project actor (n, v) ;; mret v
           | None => or_throw (map_get n stored)
               (BadRequest ("Give the extra secret variable " +:+ quoted n +:+ " a value."))
           end);
      keep_extras now iv id project actor given stored ns' (map_set n v resolved)
  end.

(** The configuration a redeploy runs with. *)
Record config := {
  c_ports : list ReplicatorPort; c_values : env; c_secrets : env; c_extras : env;
  c_mounts : list ReplicatorMount
}.

Definition apply_edit (now : Z) (iv : string) (row : Deployment) (app : App) (opts : RedeployInput)
    (secrets extras : env) (actor : ActorCtx) : call config :=
  let variables := a_variables app in
  let id := d_id row in
  let project := d_project row in
  let merged := foldl (merge_value (ri_values opts)) (d_values row) variables in
  portList ← lift (resolvePorts variables (a_fixedPorts app)
                     (chosen_ports (d_ports row) (ri_ports opts)) merged);
  (if bool_decide (d_targetKind row = docker)
   then lift (preflightPorts (usedPorts (d_instance row)) (p_hostPort <$> d_ports row) portList)
   else mret tt) ;;
  throw_missing (edit_missing opts row merged variables) ;;
  for_each (rotated opts variables) (store now iv id project actor) ;;
  let secrets' := foldl (λ m kv, map_set kv.1 kv.2 m) secrets (rotated opts variables) in
  let secretVars := uniq (d_secretVars row ++ (fst <$> rotated opts variables)) in
  next ← (match ri_extraEnv opts with
          | None => mret (SplitExtras (d_extraEnv row) [] (d_extraSecretVars row))
          | Some l => lift (splitExtras (Some l) variables)
          end);
  resolved ← keep_extras now iv id project actor (e_secrets next) extras (e_secretNames next) (e_values next);
  for_each (findMany (λ n, negb (includes n (e_secretNames next))) (d_extraSecretVars row))
    (drop_secret id actor) ;;
  throw_if (negb (bool_decide (d_targetKind row = docker)) && negb (bool_decide (default [] (ri_mounts opts) = [])))
    (BadRequest "Volume mounts are only supported on Docker-host deployments, not ECS/Fargate.") ;;
  mounts ← (match ri_mounts opts with
            | None => mret (d_extraMounts row)
            | Some l => lift (sanitizeMounts (Some l) (knownServicesOf variables (a_fixedPorts app) portList))
            end);
  modify (with_rows (updateMany (is_row id)
    (set_config merged portList secretVars (e_values next) (e_secretNames next) mounts))) ;;
  mret (Build_config portList merged secrets' resolved mounts).

Definition redeploy (now : Z) (iv id : string) (opts : RedeployInput) (actor : ActorCtx) : call unit :=
  '(row, app) ← load id;
  throw_if (bool_decide (d_status row = "pending") || bool_decide (d_status row = "updating"))
    (BadRequest "This deployment is already in progress.") ;;
  (if bool_decide (d_targetKind row = docker) then lift (docker_target (d_instance row)) else mret tt) ;;
  '(secrets, extras) ← resolveStored now row;
  c ← (if ri_edit opts then apply_edit now iv row app opts secrets extras actor
       else mret (Build_config (d_ports row) (d_values row) secrets extras (d_extraMounts row)));
  modify (with_rows (updateMany (is_row id) (set_status "updating" (Some "Queued…")))) ;;
  tell (Launch (Build_run_args id "redeploy" (c_ports c) (c_values c) (c_secrets c) (c_extras c)
    (c_mounts c) (ri_forceRebuild opts))).

(** *** The background run *)

Definition run_audit (actor : ActorCtx) (action target : string) : call unit :=
  emit (OAudit (Audit (actorId actor) (actorEmail actor) action (Some target))).

Definition final_action (kind : string) (ok : bool) : string :=
  "replicator." +:+ kind +:+ (if ok then "" else "_failed").

Definition start_run (kind : string) (appName project : string) (actor : ActorCtx) : call unit :=
  run_audit actor ("replicator." +:+ kind +:+ "_started") (appName +:+ "/" +:+ project).

Definition record_failure (id kind appName project : string) (message : string) (actor : ActorCtx) : call unit :=
  modify (with_rows (updateMany (is_row id) (set_failed message))) ;;
  run_audit actor (final_action kind false) (appName +:+ "/" +:+ project) ;;
  emit (OLog Error "replicator" ("[" +:+ project +:+ "] " +:+ kind +:+ " error: " +:+ slice_to 300 message)).

(** The backend answered, or threw.  A row removed meanwhile makes the update
    throw. *)
Definition finish_run (id kind : string) (app : App) (project : string) (answer : DeployOutcome + string)
    (actor : ActorCtx) : call unit :=
  s ← get;
  match answer with
  | inr message => record_failure id kind (a_name app) project message actor
  | inl o =>
      if negb (some (is_row id) (rows s))
      then record_failure id kind (a_name app) project "Record to update not found." actor
      else
        modify (with_rows (updateMany (is_row id) (set_outcome o))) ;;
        (if truthy (oc_gitPath o) && negb (truthy (a_gitPath app)) && negb (a_usesGeneratedCompose app)
         then modify (λ s, State (updateMany (is_app (a_id app))
                (λ a, Build_App (a_id a) (a_name a) (a_variables a) (a_fixedPorts a) (a_usesGeneratedCompose a)
                        (a_compose a) (oc_gitPath o)) (apps s)) (rows s) (vault s))
         else mret tt) ;;
        run_audit actor (final_action kind (oc_ok o)) (a_name app +:+ "/" +:+ project) ;;
        emit (OLog (if oc_ok o then Info else Warn) "replicator"
          ("[" +:+ project +:+ "] " +:+ kind +:+ " " +:+ (if oc_ok o then "succeeded" else "failed") +:+ "."))
  end.

(** *** Removal and re-pointing *)

(** [problems] are those of the ingress and backend teardowns, which never
    stop the clean-up. *)
Definition remove (id : string) (problems : list string) (actor : ActorCtx) : call string :=
  '(row, app) ← load id;
  for_each (d_secretVars row ++ d_extraSecretVars row) (drop_secret id actor) ;;
  modify (with_rows (deleteMany (is_row id))) ;;
  run_audit actor "replicator.remove" (a_name app +:+ "/" +:+ d_project row) ;;
  mret (if bool_decide (problems = [])
        then "Removed " +:+ quoted (d_project row) +:+ " and cleaned up its secrets."
        else "Removed the deployment and its secrets. The host stopped with warnings: " +:+
             JsText.join "; " problems).

Definition repoint (id instance project : string) : call unit :=
  modify (with_rows (updateMany (is_row id) (set_place instance project))).

Definition remap_port (map : list (Z * Z)) (p : ReplicatorPort) : ReplicatorPort :=
  match findFirst (λ kv, bool_decide (kv.1 = p_hostPort p)) (reverse map) with
  | Some (_, n) => Port (p_service p) (p_variable p) n (p_containerPort p) (p_mode p) (p_adjustable p)
                     (p_hostPortEnd p) (p_protocol p)
  | None => p
  end.

Definition remap_value (map : list (Z * Z)) (values : env) (p : ReplicatorPort) : env :=
  match findFirst (λ kv, bool_decide (kv.1 = p_hostPort p)) (reverse map) with
  | Some (_, n) => if truthy (p_variable p) then map_set (default "" (p_variable p)) (num_to_string n) values
                   else values
  | None => values
  end.

(** [map] is the port map with its numeric keys. *)
Definition applyPortRemap (id : string) (map : list (Z * Z)) : call nat :=
  s ← get;
  if bool_decide (map = []) then mret 0%nat
  else match findFirst (is_row id) (rows s) with
  | None => mret 0%nat
  | Some row =>
      let changed := length (findMany (λ p, some (λ kv, bool_decide (kv.1 = p_hostPort p)) map) (d_ports row)) in
      if bool_decide (changed = 0%nat) then mret 0%nat
      else
        modify (with_rows (updateMany (is_row id)
          (set_ports (foldl (remap_value map) (d_values row) (d_ports row)) (remap_port map <$> d_ports row)))) ;;
        mret changed
  end.

End service.
End DeploymentService.

Import PortAllocator DeploymentService.

(** ** A free port *)

Lemma next_free_spec fuel p busy :
  ∃ k : nat, (k ≤ fuel)%nat ∧ next_free fuel p busy = p + Z.of_nat k ∧
    (∀ q, p ≤ q < p + Z.of_nat k → q ∈ busy) ∧ ((k < fuel)%nat → p + Z.of_nat k ∉ busy).
Proof.
  revert p. induction fuel as [|fuel IH]; intros p; simpl.
  - exists 0%nat. split_and!; [lia|lia|lia|lia].
  - destruct (includes p busy) eqn:Hp.
    + apply includes_true in Hp. destruct (IH (p + 1)) as (k & H1 & H2 & H3 & H4).
      exists (S k). split_and!; [lia|rewrite H2; lia| |].
      * intros q Hq. destruct (decide (q = p)) as [->|]; [done|]. apply H3. lia.
      * intros Hk. replace (p + Z.of_nat (S k)) with (p + 1 + Z.of_nat k) by lia. apply H4. lia.
    + apply includes_false in Hp. exists 0%nat. split_and!; [lia|lia|lia|]. intros _.
      by rewrite Z.add_0_r.
Qed.

Lemma next_free_found p busy :
  let r := next_free (S (length busy)) p busy in
  p ≤ r ∧ (r ∉ busy) ∧ ∀ q, p ≤ q < r → q ∈ busy.
Proof.
  intros r. destruct (next_free_spec (S (length busy)) p busy) as (k & Hk & Hr & Hb & Hf).
  unfold r. rewrite Hr. split_and!; [lia| |done]. apply Hf.
  destruct (decide (k = S (length busy))) as [->|]; [exfalso|lia].
  assert (Hs : seqZ p (Z.of_nat (S (length busy))) ⊆+ busy).
  { apply NoDup_submseteq; [apply NoDup_seqZ|]. intros q Hq%elem_of_seqZ. by apply Hb. }
  apply submseteq_length in Hs. rewrite length_seqZ in Hs. lia.
Qed.

Lemma suggest_all_spec cs used taken :
  let ps := suggest_all cs used taken in
  length ps = length cs ∧ NoDup ps ∧ ∀ p, p ∈ ps → (p ∉ used) ∧ p ∉ taken.
Proof.
  revert taken. induction cs as [|c cs IH]; intros taken.
  { split_and!; [done|constructor|by intros p ?%elem_of_nil]. }
  cbn [suggest_all]. unfold suggest. cbv zeta.
  destruct (next_free_found (floor_of c) (used ++ taken)) as (_ & Hn & _).
  set (p := next_free _ _ _) in *. apply not_elem_of_app in Hn as [H1 H2].
  destruct (IH (taken ++ [p])) as (I1 & I2 & I3). split_and!; [cbn [length]; by rewrite I1| |].
  - constructor; [|done]. intros Hp%I3. destruct Hp as [_ Hp]. apply Hp, elem_of_app. right. left.
  - intros q [->|Hq]%elem_of_cons; [done|]. apply I3 in Hq as [? Hq]. split; [done|].
    intros ?. apply Hq, elem_of_app. by left.
Qed.

(** port suggestions.  The search always ends, at the lowest port at or
    above the container's port (or 8000 for a privileged one) that is neither
    used on the host nor already given out; and the suggestions of one wizard
    page are pairwise different free ports. *)
Theorem suggestion_is_lowest_free (containerPort : Z) (used taken : list Z) (containerPorts : list Z) :
  let '(p, taken') := suggest containerPort used taken in
  let lo := if 1024 <=? containerPort then containerPort else 8000 in
  (lo ≤ p ∧ (p ∉ used) ∧ (p ∉ taken) ∧ (∀ q, lo ≤ q < p → q ∈ used ∨ q ∈ taken) ∧ taken' = taken ++ [p]) ∧
  NoDup (suggest_all containerPorts used []) ∧ length (suggest_all containerPorts used []) = length containerPorts ∧
  ∀ q, q ∈ suggest_all containerPorts used [] → q ∉ used.
Proof.
  unfold suggest. cbv zeta. destruct (next_free_found (floor_of containerPort) (used ++ taken)) as (H1 & H2 & H3).
  apply not_elem_of_app in H2 as [H2 H2']. destruct (suggest_all_spec containerPorts used []) as (S1 & S2 & S3).
  split_and!; try done.
  - intros q Hq. by apply elem_of_app, H3.
  - intros q Hq%S3. tauto.
Qed.

(** No upper bound is kept: past the last port the suggestion is none. *)
Lemma suggestion_past_the_last_port : (suggest 65535 [65535] []).1 = 65536 ∧ valid_port 65536 = false.
Proof. done. Qed.

(** ** Preflight *)

Lemma conflicts_nil used seen ports :
  conflicts used seen ports = [] ↔
  NoDup (p_hostPort <$> ports) ∧ ∀ p, p ∈ ports → (p_hostPort p ∉ seen) ∧ p_hostPort p ∉ used.
Proof.
  revert seen. induction ports as [|p ports IH]; intros seen.
  { split; [intros _; split; [constructor|by intros p ?%elem_of_nil]|done]. }
  cbn [conflicts]. rewrite fmap_cons, NoDup_cons.
  destruct (includes _ seen) eqn:Hs; [|destruct (includes _ used) eqn:Hu].
  - apply includes_true in Hs. split; [done|]. intros [_ H]. by destruct (H p (list_elem_of_here _ _)).
  - apply includes_true in Hu. split; [done|]. intros [_ H]. by destruct (H p (list_elem_of_here _ _)).
  - apply includes_false in Hs, Hu. rewrite IH. split.
    + intros [Hn H]. split_and!; [|done|].
      * intros (q & Hk & Hq)%list_elem_of_fmap. destruct (H q Hq) as [Hx _]. apply Hx. rewrite <-Hk. left.
      * intros q [->|Hq]%elem_of_cons; [done|]. destruct (H q Hq) as [Hx Hy]. split; [|done].
        intros ?. apply Hx. by right.
    + intros [[Hp Hn] H]. split; [done|]. intros q Hq. destruct (H q) as [Hx Hy]; [by right|]. split; [|done].
      intros [He|?]%elem_of_cons; [|done]. apply Hp. rewrite <-He. by apply list_elem_of_fmap_2.
Qed.

(** the host-port preflight.  It passes exactly when no two of the
    deployment's ports share a host port and none is in use on the host, the
    ports the deployment itself holds apart. *)
Theorem preflight_exact (usedPorts exclude : list Z) (ports : list ReplicatorPort) :
  preflightPorts usedPorts exclude ports = Ok tt ↔
  NoDup (p_hostPort <$> ports) ∧
  ∀ p, p ∈ ports → p_hostPort p ∈ usedPorts → p_hostPort p ∈ exclude.
Proof.
  unfold preflightPorts. case_bool_decide as Hc.
  - apply conflicts_nil in Hc as [Hn H]. split; [intros _|done]. split; [done|].
    intros p Hp Hu. destruct (H p Hp) as [_ Hx]. rewrite list_elem_of_filter in Hx.
    destruct (decide (p_hostPort p ∈ exclude)); [done|]. by destruct Hx.
  - split; [done|]. intros [Hn H]. destruct Hc. apply conflicts_nil. split; [done|].
    intros p Hp. split; [by intros ?%elem_of_nil|]. intros [Hx Hu]%list_elem_of_filter. by apply Hx, H.
Qed.

(** Only the first port of a published range is looked at. *)
Lemma range_conflict_unseen :
  let range := Port "web" None 3000 (Some 3000) "published" (Some false) (Some 3002) (Some "tcp") in
  preflightPorts [3001; 3002] [] [range] = Ok tt.
Proof. done. Qed.

(** A published variable port without a container port or default: the 8080 the
    code falls back to is never reached, and without a choice it is refused. *)
Lemma default_port_never_used :
  let v := Var "APP_PORT" None host_port None None false false (Some Compose) None None in
  container_port v = Some 0 ∧
  resolve_variable [] v = Err (BadRequest "Invalid host port for APP_PORT.").
Proof. done. Qed.

(** ** Vault keys *)

Definition no_colon (id : string) : Prop := ":"%char ∉ chars id.

Lemma secretKey_inj a b n m : no_colon a → no_colon b → secretKey a n = secretKey b m → a = b ∧ n = m.
Proof.
  unfold secretKey, no_colon. intros Ha Hb He%(f_equal chars). rewrite !chars_app in He.
  apply app_inv_head in He. change (chars ":") with [":"%char] in He. simpl in He.
  assert (Hs : split_chars ":"%char (chars a ++ ":"%char :: chars n) =
               split_chars ":"%char (chars b ++ ":"%char :: chars m)) by by rewrite He.
  rewrite !split_chars_app in Hs by done. injection Hs as Hs _.
  apply chars_inj in Hs as <-. split; [done|]. apply app_inv_head in He. injection He as He. by apply chars_inj.
Qed.

Lemma secretKey_name id n m : secretKey id n = secretKey id m → n = m.
Proof.
  unfold secretKey. intros He%(f_equal chars). rewrite !chars_app in He.
  by apply app_inv_head, app_inv_head, app_inv_head, chars_inj in He.
Qed.

Section vault_lemmas.
Context {V : Type} `{SecretStoreLaws V}.
Implicit Types (s : state V) (v : V).

(** Two vaults that answer every read alike. *)
Definition same_answers v v' : Prop := ∀ k, peek k v = peek k v'.

#[global] Instance same_answers_equiv : Equivalence same_answers.
Proof. split; [by intros v k|intros v w Hv k; by rewrite Hv|intros u v w H1 H2 k; by rewrite H1]. Qed.

Definition holds v k : Prop := ∃ x, x ≠ "" ∧ peek k v = Ok (Some x).

#[global] Instance holds_proper : Proper (same_answers ==> eq ==> iff) holds.
Proof. intros v v' Hv k ? <-. unfold holds. by setoid_rewrite (Hv k). Qed.

(** [v'] answers like [v] except at the keys in [touched]. *)
Definition same_except (touched : string → Prop) v v' : Prop := ∀ k, ¬ touched k → peek k v' = peek k v.

Lemma vault_call_run {A} (m : svc V output http_error A) s :
  vault_call m s = ((m (vault s)).1.1, State (apps s) (rows s) (m (vault s)).1.2, Out <$> (m (vault s)).2).
Proof. unfold vault_call. by destruct (m (vault s)) as [[r v] o]. Qed.

Lemma store_secret_run now iv id project actor kv s :
  ∃ v' o, store now iv id project actor kv s = (Ok tt, State (apps s) (rows s) v', o) ∧
    same_except (λ k, k = secretKey id kv.1) (vault s) v' ∧
    (kv.2 ≠ "" → peek (secretKey id kv.1) v' = Ok (Some kv.2)).
Proof.
  unfold store. rewrite vault_call_run. set (m := store_set _ _ _ _ _ _).
  pose proof (set_result now iv (secretKey id kv.1) kv.2 (vault_label project kv.1) actor (vault s)) as Hr.
  unfold run_result in Hr. fold m in Hr. rewrite Hr. eexists _, _. split; [done|]. split.
  - intros k Hk. by apply (set_peek_ne now iv (secretKey id kv.1) kv.2 (vault_label project kv.1) actor).
  - intros Hne. by apply (set_peek now iv (secretKey id kv.1) kv.2 (vault_label project kv.1) actor).
Qed.

Lemma store_all now iv id project actor l s :
  ∃ v' o, for_each l (store now iv id project actor) s = (Ok tt, State (apps s) (rows s) v', o) ∧
    same_except (λ k, ∃ n, n ∈ fst <$> l ∧ k = secretKey id n) (vault s) v' ∧
    ((∀ kv, kv ∈ l → kv.2 ≠ "") → ∀ n, n ∈ fst <$> l → holds v' (secretKey id n)).
Proof.
  revert s. induction l as [|kv l IH]; intros s; cbn [for_each].
  { exists (vault s), []. split_and!; [by destruct s|done|by intros _ n ?%elem_of_nil]. }
  destruct (store_secret_run now iv id project actor kv s) as (v1 & o1 & H1 & H2 & H3).
  destruct (IH (State (apps s) (rows s) v1)) as (v2 & o2 & I1 & I2 & I3). simpl in I2.
  exists v2, (o1 ++ o2). split_and!.
  - unfold mbind, svc_bind. rewrite H1. by rewrite I1.
  - intros k Hk. rewrite I2, H2; [done|intros ->; apply Hk; exists kv.1; split; [left|done]|].
    intros (n & Hn & ->). apply Hk. exists n. split; [by right|done].
  - intros Hl n Hn. destruct (decide (n ∈ fst <$> l)) as [Hin|Hout].
    + apply I3; [|done]. intros kv' Hkv. apply Hl. by right.
    + rewrite fmap_cons in Hn. apply elem_of_cons in Hn as [->|Hn]; [|done].
      assert (Hne : kv.2 ≠ "") by (apply Hl; left).
      exists kv.2. split; [done|]. rewrite I2; [by apply H3|].
      intros (n & Hin & He%secretKey_name). by rewrite He in Hout.
Qed.

Lemma drop_run id actor n s :
  ∃ v' o, drop_secret id actor n s = (Ok tt, State (apps s) (rows s) v', o) ∧
    same_except (λ k, k = secretKey id n) (vault s) v' ∧ peek (secretKey id n) v' = Ok None.
Proof.
  unfold drop_secret, catch. rewrite vault_call_run. set (m := store_remove _ _).
  pose proof (remove_result (secretKey id n) actor (vault s)) as Hr. unfold run_result in Hr.
  fold m in Hr. rewrite Hr. eexists _, _. split; [done|]. split.
  - intros k Hk. by apply (remove_peek_ne (secretKey id n) actor).
  - apply (remove_peek (secretKey id n) actor).
Qed.

Lemma drop_all id actor l s :
  ∃ v' o, for_each l (drop_secret id actor) s = (Ok tt, State (apps s) (rows s) v', o) ∧
    same_except (λ k, ∃ n, n ∈ l ∧ k = secretKey id n) (vault s) v' ∧
    ∀ n, n ∈ l → peek (secretKey id n) v' = Ok None.
Proof.
  revert s. induction l as [|x l IH]; intros s; cbn [for_each].
  { exists (vault s), []. split_and!; [by destruct s|done|by intros n ?%elem_of_nil]. }
  destruct (drop_run id actor x s) as (v1 & o1 & H1 & H2 & H3).
  destruct (IH (State (apps s) (rows s) v1)) as (v2 & o2 & I1 & I2 & I3). simpl in I2.
  exists v2, (o1 ++ o2). split_and!.
  - unfold mbind, svc_bind. rewrite H1. by rewrite I1.
  - intros k Hk. rewrite I2, H2; [done|intros ->; apply Hk; exists x; split; [left|done]|].
    intros (n & Hn & ->). apply Hk. exists n. split; [by right|done].
  - intros n [->|Hn]%elem_of_cons; [|by apply I3].
    destruct (decide (x ∈ l)) as [Hin|Hno]; [by apply I3|].
    rewrite I2; [done|]. intros (n & Hin & ->%secretKey_name). done.
Qed.

Lemma try_reveal_run now id n s :
  ∃ v' o, try_reveal now id n s =
    (Ok (match peek (secretKey id n) (vault s) with Ok x => x | Err _ => None end),
     State (apps s) (rows s) v', o) ∧ same_answers (vault s) v'.
Proof.
  unfold try_reveal, catch. rewrite vault_call_run. set (m := store_reveal _ _).
  pose proof (reveal_result now (secretKey id n) (vault s)) as Hr.
  unfold run_result in Hr. fold m in Hr. rewrite Hr.
  assert (Hp : same_answers (vault s) (m (vault s)).1.2).
  { intros k. symmetry. apply (reveal_peek now (secretKey id n)). }
  destruct (peek _ _); eexists _, _; done.
Qed.

Lemma reveal_into_run now id ns m s :
  ∃ r v' o, reveal_into now id ns m s = (Ok r, State (apps s) (rows s) v', o) ∧ same_answers (vault s) v' ∧
    r = foldl set_some m ((λ n, (n, match peek (secretKey id n) (vault s) with Ok x => x | Err _ => None end)) <$> ns).
Proof.
  revert m s. induction ns as [|n ns IH]; intros m s; cbn [reveal_into].
  { exists m, (vault s), []. by destruct s. }
  destruct (try_reveal_run now id n s) as (v1 & o1 & H1 & H2).
  set (x := match peek (secretKey id n) (vault s) with Ok x => x | Err _ => None end) in *.
  destruct (IH (set_some m (n, x)) (State (apps s) (rows s) v1)) as (r & v2 & o2 & I1 & I2 & I3). simpl in *.
  exists r, v2, (o1 ++ o2). split_and!.
  - unfold mbind, svc_bind. rewrite H1. by rewrite I1.
  - by rewrite H2.
  - rewrite I3. f_equal. apply list_fmap_ext. intros i y _. by rewrite (H2 (secretKey id y)).
Qed.
End vault_lemmas.

(** ** Running a handler to its end *)

(** Steps that only decide: they read nothing they change and log nothing. *)
Definition decides {S O E A} (m : svc S O E A) : Prop := ∀ s, ∃ r, m s = (r, s, []).

Lemma decides_lift {S O E A} (r : result E A) : decides (lift r : svc S O E A).
Proof. intros s. by eexists. Qed.
Lemma decides_ret {S O E A} (a : A) : decides (mret a : svc S O E A).
Proof. intros s. by eexists. Qed.
Lemma decides_throw_if {S O E} c (e : E) : decides (throw_if c e : svc S O E unit).
Proof. intros s. destruct c; by eexists. Qed.
Lemma decides_or_throw {S O E A} (x : option A) (e : E) : decides (or_throw x e : svc S O E A).
Proof. intros s. destruct x; by eexists. Qed.
Lemma decides_bind {S O E A B} (m : svc S O E A) (k : A → svc S O E B) :
  decides m → (∀ a, decides (k a)) → decides (m ≫= k).
Proof.
  intros Hm Hk s. destruct (Hm s) as [r Hr]. unfold mbind, svc_bind. rewrite Hr.
  destruct r as [a|e]; [|by eexists]. destruct (Hk a s) as [r' Hr']. rewrite Hr'. by eexists.
Qed.
Create HintDb decides.
#[local] Hint Resolve decides_lift decides_ret decides_throw_if decides_or_throw decides_bind : decides.

Lemma decides_cases {S O E A} (b : bool) (m1 m2 : svc S O E A) :
  decides m1 → decides m2 → decides (if b then m1 else m2).
Proof. by destruct b. Qed.
#[local] Hint Resolve decides_cases : decides.

Lemma decides_then {S O E A B} (m : svc S O E A) (k : A → svc S O E B) s :
  decides m → (∃ e, (m ≫= k) s = (Err e, s, [])) ∨ (∃ a, m s = (Ok a, s, []) ∧ (m ≫= k) s = k a s).
Proof.
  intros Hm. destruct (Hm s) as [[a|e] Hr]; [right|left].
  - exists a. split; [done|]. by apply svc_bind_run.
  - exists e. by apply svc_bind_throw.
Qed.

Section extras.
Context {V : Type} `{SecretStoreLaws V}.

Lemma keep_extras_run now iv id project actor given stored ns resolved (s : state V) :
  ∃ r v' o, keep_extras now iv id project actor given stored ns resolved s =
      (r, State (apps s) (rows s) v', o) ∧
    same_except (λ k, ∃ n, n ∈ ns ∧ is_Some (map_get n given) ∧ k = secretKey id n) (vault s) v' ∧
    (is_ok r = true → (∀ n x, map_get n given = Some x → x ≠ "") →
       ∀ n, n ∈ ns → (is_Some (map_get n given) → holds v' (secretKey id n)) ∧
                     (map_get n given = None → is_Some (map_get n stored))).
Proof.
  revert resolved s. induction ns as [|x ns IH]; intros resolved s; cbn [keep_extras].
  { exists (Ok resolved), (vault s), []. split_and!; [by destruct s|done|]. by intros _ _ n ?%elem_of_nil. }
  destruct (map_get x given) as [w|] eqn:Hx.
  - destruct (store_secret_run now iv id project actor (x, w) s) as (v1 & o1 & H1 & H2 & H3). simpl in H2, H3.
    destruct (IH (map_set x w resolved) (State (apps s) (rows s) v1)) as (r & v2 & o2 & I1 & I2 & I3). simpl in *.
    exists r, v2, (o1 ++ o2). split_and!.
    + rewrite svc_bind_assoc. unfold mbind at 1, svc_bind at 1. rewrite H1. cbn.
      rewrite svc_ret_bind, I1. done.
    + intros k Hk. rewrite I2, H2; [done| |].
      * intros ->. apply Hk. exists x. split_and!; [left|by rewrite Hx|done].
      * intros (n & Hn & Hg & ->). apply Hk. exists n. split_and!; [by right|done..].
    + intros Hok Hg n [->|Hn]%elem_of_cons; [|by apply I3]. rewrite Hx. split; [intros _|done].
      destruct (decide (x ∈ ns)) as [Hin|Hno]; [apply (I3 Hok Hg x Hin); by rewrite Hx|].
      exists w. split; [by eapply Hg|]. rewrite I2; [by apply H3; eapply Hg|].
      intros (n & Hn & _ & ->%secretKey_name). done.
  - destruct (map_get x stored) as [w|] eqn:Hs; simpl.
    + destruct (IH (map_set x w resolved) s) as (r & v2 & o2 & I1 & I2 & I3).
      exists r, v2, o2. split_and!.
      * by rewrite svc_ret_bind.
      * intros k Hk. apply I2. intros (n & Hn & Hg & ->). apply Hk. exists n. split_and!; [by right|done..].
      * intros Hok Hg n [->|Hn]%elem_of_cons; [|by apply I3]. rewrite Hx, Hs. split; [by intros []|done].
    + eexists (Err _), (vault s), []. split_and!; [by destruct s|done|done].
Qed.
End extras.

(** ** The vault in step with the rows *)

Definition secret_names (r : Deployment) : list string := d_secretVars r ++ d_extraSecretVars r.

Section hygiene.
Context {V : Type} `{SecretStoreLaws V}.
Context (usedPorts : string → list Z).
Implicit Types (s : state V).

Abbreviation do_edit := (apply_edit usedPorts).

Record in_step (s : state V) : Prop := {
  ids_unique : NoDup (d_id <$> rows s);
  ids_plain : ∀ r, r ∈ rows s → no_colon (d_id r);
  names_split : ∀ r a, r ∈ rows s → findFirst (is_app (d_appId r)) (apps s) = Some a →
    (∀ n, n ∈ d_secretVars r → n ∈ names (a_variables a)) ∧
    (∀ n, n ∈ d_extraSecretVars r → n ∉ names (a_variables a));
  secrets_present : ∀ r n, r ∈ rows s → n ∈ secret_names r → holds (vault s) (secretKey (d_id r) n);
  secrets_listed : ∀ id n, no_colon id → peek (secretKey id n) (vault s) ≠ Ok None →
    ∃ r, r ∈ rows s ∧ d_id r = id ∧ n ∈ secret_names r
}.

(** What an accepted edit did. *)
Lemma accepted_edit now iv row app opts secrets extras actor s c s' o :
  do_edit now iv row app opts secrets extras actor s = (Ok c, s', o) →
  ∃ next values ports mounts,
    (ri_extraEnv opts = None ∧ next = SplitExtras (d_extraEnv row) [] (d_extraSecretVars row) ∨
     ∃ l, ri_extraEnv opts = Some l ∧ splitExtras (Some l) (a_variables app) = Ok next) ∧
    apps s' = apps s ∧
    rows s' = updateMany (is_row (d_id row)) (set_config values ports
      (uniq (d_secretVars row ++ (fst <$> rotated opts (a_variables app)))) (e_values next)
      (e_secretNames next) mounts) (rows s) ∧
    same_except (λ k, ∃ n, k = secretKey (d_id row) n) (vault s) (vault s') ∧
    (∀ n, n ∈ fst <$> rotated opts (a_variables app) → n ∉ d_extraSecretVars row → n ∉ e_secretNames next →
       holds (vault s') (secretKey (d_id row) n)) ∧
    (∀ n, n ∈ e_secretNames next → is_Some (map_get n (e_secrets next)) →
       (∀ k x, map_get k (e_secrets next) = Some x → x ≠ "") → holds (vault s') (secretKey (d_id row) n)) ∧
    (∀ n, n ∉ fst <$> rotated opts (a_variables app) → (n ∈ e_secretNames next → map_get n (e_secrets next) = None) →
       (n ∉ d_extraSecretVars row ∨ n ∈ e_secretNames next) →
       peek (secretKey (d_id row) n) (vault s') = peek (secretKey (d_id row) n) (vault s)) ∧
    (∀ n, n ∈ d_extraSecretVars row → n ∉ e_secretNames next → peek (secretKey (d_id row) n) (vault s') = Ok None).
Proof.
  unfold apply_edit. set (vars := a_variables app). set (id := d_id row). intros Hrun.
  rewrite run_lift in Hrun. destruct (resolvePorts _ _ _ _) as [portList|]; [|done].
  match type of Hrun with (?m ≫= ?k) ?s = _ => destruct (decides_then m k s) as [[e He]|([] & _ & He)];
    [eauto with decides|congruence|] end.
  rewrite He in Hrun. clear He. unfold throw_missing in Hrun. rewrite run_throw_if in Hrun.
  destruct (negb (bool_decide (edit_missing _ _ _ _ = []))); [done|].
  destruct (store_all now iv id (d_project row) actor (rotated opts vars) s) as (v1 & o1 & H1 & H2 & H3).
  apply svc_bind_ok in Hrun as (x1 & s1 & o1' & o1'' & Hst & Hrun & _).
  rewrite H1 in Hst. injection Hst as _ <- _.
  match type of Hrun with (?m ≫= ?k) ?s = _ => destruct (decides_then m k s) as [[e He]|(next & Hnext & He)];
    [destruct (ri_extraEnv opts); eauto with decides|congruence|] end.
  rewrite He in Hrun. clear He.
  destruct (keep_extras_run now iv id (d_project row) actor (e_secrets next) extras (e_secretNames next) (e_values next)
    (State (apps s) (rows s) v1)) as (r2 & v2 & o2 & K1 & K2 & K3). simpl in K1, K2.
  apply svc_bind_ok in Hrun as (resolved & s2 & o2' & o2'' & Hst & Hrun & _).
  rewrite K1 in Hst. injection Hst as -> <- _.
  set (gone := findMany (λ n, negb (includes n (e_secretNames next))) (d_extraSecretVars row)) in *.
  destruct (drop_all id actor gone (State (apps s) (rows s) v2)) as (v3 & o3 & D1 & D2 & D3). simpl in D1, D2.
  apply svc_bind_ok in Hrun as (x3 & s3 & o3' & o3'' & Hst & Hrun & _).
  rewrite D1 in Hst. injection Hst as _ <- _.
  rewrite run_throw_if in Hrun. destruct (_ && _); [done|].
  match type of Hrun with (?m ≫= ?k) ?s = _ => destruct (decides_then m k s) as [[e He]|(mounts & _ & He)];
    [destruct (ri_mounts opts); eauto with decides|congruence|] end.
  rewrite He in Hrun. clear He. rewrite run_modify in Hrun. injection Hrun as _ <- _. simpl.
  assert (Hgone : ∀ n, n ∈ gone ↔ n ∈ d_extraSecretVars row ∧ n ∉ e_secretNames next).
  { intros n. unfold gone. rewrite elem_of_findMany, negb_true_iff, includes_false. tauto. }
  assert (Hrot : ∀ kv, kv ∈ rotated opts vars → kv.2 ≠ "").
  { unfold rotated, supplied_secrets. intros kv (n & -> & (v & -> & [Hv _]%elem_of_findMany)%list_elem_of_fmap)%list_elem_of_fmap.
    apply andb_true_iff in Hv as [_ Hv]. unfold blank_lookup, truthy in Hv. simpl.
    destruct (map_get (v_name v) (ri_secrets opts)) as [x|]; [|done]. simpl. intros ->. done. }
  eexists next, _, _, mounts. split_and!; [|done|done| | | | |].
  - destruct (ri_extraEnv opts) as [l|]; [right|left].
    + exists l. split; [done|]. unfold lift in Hnext. congruence.
    + split; [done|]. unfold mret, svc_ret in Hnext. congruence.
  - intros k Hk. rewrite D2, K2, H2; [done|..]; naive_solver.
  - intros n Hn Hx He. destruct (H3 Hrot n Hn) as (x & Hne & Hp). exists x. split; [done|].
    rewrite D2, K2; [done|..].
    + intros (m & Hm & _ & ->%secretKey_name). done.
    + intros (m & [Hm _]%Hgone & ->%secretKey_name). done.
  - intros n Hn Hg Hne. destruct (K3 eq_refl Hne n Hn) as [K _]. destruct (K Hg) as (x & Hx & Hp).
    exists x. split; [done|]. rewrite D2; [done|].
    intros (m & [_ Hm]%Hgone & ->%secretKey_name). done.
  - intros n Hn Hg Hx. rewrite D2, K2, H2; [done|..].
    + intros (m & Hm & ->%secretKey_name). done.
    + intros (m & Hm & [y Hy] & ->%secretKey_name). rewrite (Hg Hm) in Hy. done.
    + intros (m & [Hm1 Hm2]%Hgone & ->%secretKey_name). destruct Hx; done.
  - intros n Hn Hx. apply D3. by apply Hgone.
Qed.

(** What the invariant reads of a row, and of the apps. *)
Definition row_view (r : Deployment) := (d_id r, d_appId r, d_secretVars r, d_extraSecretVars r).
Definition same_schemas (s s' : state V) : Prop :=
  ∀ id, a_variables <$> findFirst (is_app id) (apps s') = a_variables <$> findFirst (is_app id) (apps s).

Lemma view_in (l l' : list Deployment) r :
  row_view <$> l' = row_view <$> l → r ∈ l' → ∃ r0, r0 ∈ l ∧ row_view r0 = row_view r.
Proof.
  intros He Hr. apply (list_elem_of_fmap_2 row_view) in Hr. rewrite He in Hr.
  apply list_elem_of_fmap in Hr as (r0 & Hv & Hr0). eauto.
Qed.

Lemma in_step_view s s' :
  row_view <$> rows s' = row_view <$> rows s → same_schemas s s' → same_answers (vault s) (vault s') →
  in_step s → in_step s'.
Proof.
  intros Hv Ha Hp [I1 I2 I3 I4 I5].
  assert (Hids : d_id <$> rows s' = d_id <$> rows s).
  { apply (f_equal (fmap (λ x, x.1.1.1))) in Hv. by rewrite <-!list_fmap_compose in Hv. }
  split.
  - by rewrite Hids.
  - intros r Hr. destruct (view_in _ _ _ Hv Hr) as (r0 & Hr0 & [= He _ _ _]). rewrite <-He. by apply I2.
  - intros r a Hr Hf. destruct (view_in _ _ _ Hv Hr) as (r0 & Hr0 & [= _ Happ Hs Hx]).
    specialize (Ha (d_appId r)). rewrite Hf in Ha. simpl in Ha.
    destruct (findFirst (is_app (d_appId r)) (apps s)) as [a0|] eqn:Hf0; [|done].
    injection Ha as Ha. rewrite Ha, <-Hs, <-Hx. apply (I3 r0 a0); [done|]. by rewrite Happ.
  - intros r n Hr Hn. destruct (view_in _ _ _ Hv Hr) as (r0 & Hr0 & [= He _ Hs Hx]).
    rewrite <-Hp, <-He. apply I4; [done|]. unfold secret_names in *. by rewrite Hs, Hx.
  - intros id n Hid Hne. rewrite <-(Hp (secretKey id n)) in Hne.
    destruct (I5 id n Hid Hne) as (r0 & Hr0 & He & Hn).
    destruct (view_in (rows s') (rows s) r0 (eq_sym Hv) Hr0) as (r & Hr & [= Hi _ Hs Hx]).
    exists r. split_and!; [done|congruence|]. unfold secret_names in *. by rewrite Hs, Hx.
Qed.

Lemma view_updateMany p f (l : list Deployment) :
  (∀ r, row_view (f r) = row_view r) → row_view <$> updateMany p f l = row_view <$> l.
Proof. apply fmap_updateMany. Qed.

Lemma same_schemas_refl s s' : apps s' = apps s → same_schemas s s'.
Proof. by intros He id; rewrite He. Qed.

Context (docker_target ecs_target : string → result http_error unit).

Abbreviation do_deploy := (deploy docker_target ecs_target usedPorts).
Abbreviation do_redeploy := (redeploy docker_target usedPorts).

(** A deployment is refused before anything is written, or made whole. *)
Lemma deploy_cases now iv id appId input actor s :
  (∃ e, do_deploy now iv id appId input actor s = (Err e, s, [])) ∨
  ∃ app x row v' o,
    findFirst (is_app appId) (apps s) = Some app ∧
    splitExtras (in_extraEnv input) (a_variables app) = Ok x ∧
    do_deploy now iv id appId input actor s = (Ok row, State (apps s) (rows s ++ [row]) v', o) ∧
    d_id row = id ∧ d_appId row = a_id app ∧
    d_secretVars row = supplied_secrets (a_variables app) (in_secrets input) ∧
    d_extraSecretVars row = e_secretNames x ∧
    same_except (λ k, ∃ n, n ∈ secret_names row ∧ k = secretKey id n) (vault s) v' ∧
    ∀ n, n ∈ secret_names row → holds v' (secretKey id n).
Proof.
  unfold deploy. rewrite run_get, run_or_throw. destruct (findFirst (is_app appId) (apps s)) as [app|] eqn:Happ; [|eauto].
  rewrite run_throw_if. destruct (bool_decide (projectName _ = "")); [eauto|].
  rewrite run_throw_if. destruct (_ && _); [eauto|]. rewrite run_throw_if. destruct (_ && _); [eauto|].
  rewrite run_throw_if. destruct (some _ _); [eauto|]. rewrite run_lift.
  destruct (resolvePorts _ _ _ _) as [portList|]; [|eauto].
  match goal with |- context [(?m ≫= ?k) s] => destruct (decides_then m k s) as [[e He]|([] & _ & He)];
    [case_match; eauto with decides|rewrite He; eauto|rewrite He; clear He] end.
  unfold throw_missing. rewrite run_throw_if. destruct (negb _); [eauto|]. rewrite run_lift.
  destruct (splitExtras _ _) as [x|] eqn:Hx; [|eauto].
  rewrite run_throw_if. destruct (negb (bool_decide (findMany (λ n, negb (map_has n (e_secrets x))) (e_secretNames x) = []))) eqn:Hblank; [eauto|].
  rewrite run_throw_if. destruct (_ && _); [eauto|].
  match goal with |- context [(?m ≫= ?k) s] => destruct (decides_then m k s) as [[e He]|(mounts & _ & He)];
    [case_match; eauto with decides|rewrite He; eauto|rewrite He; clear He] end.
  right. rewrite run_modify.
  set (sv := supplied_secrets (a_variables app) (in_secrets input)).
  set (row := new_row id app input _ _ sv x mounts portList).
  set (s1 := with_rows (createRow row) s).
  set (l1 := with_value (in_secrets input) <$> sv). set (l2 := with_value (e_secrets x) <$> e_secretNames x).
  assert (Hk1 : fst <$> l1 = sv) by (unfold l1; rewrite <-list_fmap_compose; apply list_fmap_id).
  assert (Hk2 : fst <$> l2 = e_secretNames x) by (unfold l2; rewrite <-list_fmap_compose; apply list_fmap_id).
  destruct (store_all now iv id (projectName (in_name input)) actor l1 s1) as (v1 & o1 & A1 & A2 & A3).
  destruct (store_all now iv id (projectName (in_name input)) actor l2 (State (apps s1) (rows s1) v1)) as (v2 & o2 & B1 & B2 & B3).
  simpl in B2. rewrite Hk1 in A2, A3. rewrite Hk2 in B2, B3.
  assert (Hl1 : ∀ kv, kv ∈ l1 → kv.2 ≠ "").
  { intros kv (n & -> & (v & -> & [Hv _]%elem_of_findMany)%list_elem_of_fmap)%list_elem_of_fmap.
    apply andb_true_iff in Hv as [_ Hv]. unfold blank_lookup, truthy in Hv. simpl.
    destruct (map_get (v_name v) (in_secrets input)) as [y|]; [|done]. simpl. by intros ->. }
  assert (Hl2 : ∀ kv, kv ∈ l2 → kv.2 ≠ "").
  { intros kv (n & -> & Hn)%list_elem_of_fmap. simpl.
    apply negb_false_iff, bool_decide_eq_true in Hblank.
    destruct (map_get n (e_secrets x)) as [y|] eqn:Hy.
    - simpl. destruct (accepted_extras _ _ _ Hx) as (_ & _ & _ & _ & Hne). apply (Hne (n, y)), elem_of_app. right.
      unfold map_get in Hy. apply fmap_Some in Hy as ([k z] & Hf & ->).
      apply findFirst_Some in Hf as [Hf Hk%bool_decide_eq_true]. simpl in *. by subst.
    - exfalso. assert (Hin : n ∈ findMany (λ n, negb (map_has n (e_secrets x))) (e_secretNames x)).
      { apply elem_of_findMany. split; [|done]. apply negb_true_iff, not_true_iff_false.
        rewrite map_has_get, Hy. by intros []. }
      rewrite Hblank in Hin. by apply elem_of_nil in Hin. }
  assert (Hfin : ∀ n, n ∈ secret_names row → holds v2 (secretKey id n)).
  { intros n Hn. unfold secret_names in Hn. simpl in Hn.
    destruct (decide (n ∈ e_secretNames x)) as [H2|H2]; [by apply B3|].
    apply elem_of_app in Hn as [Hn|Hn]; [|done]. destruct (A3 Hl1 n Hn) as (y & Hne & Hp).
    exists y. split; [done|]. rewrite B2; [done|]. by intros (m & Hm & ->%secretKey_name). }
  eexists app, x, row, v2, _. split_and!; [done..| | | | | | |done].
  - unfold mbind at 1, svc_bind at 1. rewrite A1. unfold mbind at 1, svc_bind at 1. rewrite B1. done.
  - done.
  - done.
  - done.
  - done.
  - intros k Hk. rewrite B2, A2; [done|..]; intros (n & Hn & ->); apply Hk; exists n; (split; [|done]);
      unfold secret_names; simpl; apply elem_of_app; auto.
Qed.

Lemma deploy_in_step now iv id appId input actor s :
  in_step s → no_colon id → id ∉ d_id <$> rows s →
  in_step (run_state (do_deploy now iv id appId input actor) s).
Proof.
  intros Hi Hid Hfresh. destruct (deploy_cases now iv id appId input actor s)
    as [[e He]|(app & x & row & v' & o & Happ & Hx & He & R1 & R2 & R3 & R4 & Hv & Hh)];
    unfold run_state; rewrite He; [done|]. simpl.
  destruct Hi as [I1 I2 I3 I4 I5]. apply findFirst_Some in Happ as Hid'. destruct Hid' as [_ Hid'%bool_decide_eq_true].
  assert (Hold : ∀ r n, r ∈ rows s → peek (secretKey (d_id r) n) v' = peek (secretKey (d_id r) n) (vault s)).
  { intros r n Hr. apply Hv. intros (m & _ & Hk). apply secretKey_inj in Hk as [Hk _]; [|by apply I2|done].
    apply Hfresh. rewrite <-Hk. by apply list_elem_of_fmap_2. }
  split; simpl.
  - rewrite fmap_app. apply NoDup_app. split_and!; [done| |apply NoDup_singleton].
    intros y Hy ->%list_elem_of_singleton. by rewrite R1 in Hy.
  - intros r [Hr| ->%list_elem_of_singleton]%elem_of_app; [by apply I2|by rewrite R1].
  - intros r a [Hr| ->%list_elem_of_singleton]%elem_of_app Ha; [by apply I3|].
    rewrite R2, Hid', Happ in Ha. injection Ha as <-. rewrite R3, R4. split.
    + intros n (w & -> & [_ Hw]%elem_of_findMany)%list_elem_of_fmap. by apply names_in.
    + intros n Hn. destruct (accepted_extras _ _ _ Hx) as (Hok & _). apply (Hok n), elem_of_app. by right.
  - intros r n [Hr| ->%list_elem_of_singleton]%elem_of_app Hn; [|rewrite R1; by apply Hh].
    destruct (I4 r n Hr Hn) as (w & Hne & Hp). exists w. by rewrite Hold.
  - intros id' n Hid'' Hne. destruct (decide (id' = id)) as [->|Hd].
    + exists row. split_and!; [apply elem_of_app; right; left|done|].
      destruct (decide (n ∈ secret_names row)) as [|Hn]; [done|]. rewrite Hv in Hne.
      * destruct (I5 id n Hid Hne) as (r & Hr & Hri & _). destruct Hfresh. rewrite <-Hri. by apply list_elem_of_fmap_2.
      * by intros (m & Hm & ->%secretKey_name).
    + rewrite Hv in Hne.
      * destruct (I5 id' n Hid'' Hne) as (r & Hr & ? & ?). exists r. split_and!; [|done..]. apply elem_of_app. by left.
      * intros (m & _ & Hk). by apply secretKey_inj in Hk as [Hk _].
Qed.

(** An edit marks no plain entry secret while leaving its value blank. *)
Definition no_blank_toggle (row : Deployment) (app : App) (opts : RedeployInput) : Prop :=
  ∀ l x, ri_extraEnv opts = Some l → splitExtras (Some l) (a_variables app) = Ok x →
  ∀ n, n ∈ e_secretNames x → map_get n (e_secrets x) = None → n ∈ d_extraSecretVars row.

Lemma set_config_view values ports sv ex exs mounts r :
  row_view (set_config values ports sv ex exs mounts r) = (d_id r, d_appId r, sv, exs).
Proof. done. Qed.

Lemma edit_in_step now iv row app opts secrets extras actor s c s' o :
  in_step s → row ∈ rows s → findFirst (is_app (d_appId row)) (apps s) = Some app →
  no_blank_toggle row app opts →
  do_edit now iv row app opts secrets extras actor s = (Ok c, s', o) → in_step s'.
Proof.
  intros [I1 I2 I3 I4 I5] Hrow Happ Htog Hrun.
  destruct (accepted_edit _ _ _ _ _ _ _ _ _ _ _ _ Hrun)
    as (x & values & ports & mounts & Hx & Ha & Hr & Hv & E1 & E2 & E3 & E4).
  set (id := d_id row) in *. set (rot := fst <$> rotated opts (a_variables app)) in *.
  destruct (I3 row app Hrow Happ) as [Hsv Hex].
  assert (Hrotn : ∀ n, n ∈ rot → n ∈ names (a_variables app)).
  { unfold rot, rotated. intros n Hn. rewrite <-list_fmap_compose in Hn.
    apply list_elem_of_fmap in Hn as (m & -> & (v & -> & [_ Hin]%elem_of_findMany)%list_elem_of_fmap). by apply names_in. }
  assert (Hxn : ∀ n, n ∈ e_secretNames x → n ∉ names (a_variables app)).
  { intros n Hn. destruct Hx as [[_ ->]|(l & _ & Hx)]; [by apply Hex|].
    destruct (accepted_extras _ _ _ Hx) as (Hok & _). apply (Hok n), elem_of_app. by right. }
  assert (Hxv : ∀ k y, map_get k (e_secrets x) = Some y → y ≠ "").
  { intros k y Hy. destruct Hx as [[_ ->]|(l & _ & Hx)]; [done|].
    destruct (accepted_extras _ _ _ Hx) as (_ & _ & _ & _ & Hne). apply (Hne (k, y)), elem_of_app. right.
    unfold map_get in Hy. apply fmap_Some in Hy as ([k' z] & Hf & ->).
    apply findFirst_Some in Hf as [Hf Hk%bool_decide_eq_true]. simpl in *. by subst. }
  assert (Hblank : ∀ n, n ∈ e_secretNames x → map_get n (e_secrets x) = None → n ∈ d_extraSecretVars row).
  { intros n Hn Hg. destruct Hx as [[_ ->]|(l & Hl & Hx)]; [done|]. by eapply Htog. }
  assert (Hin : ∀ r, r ∈ rows s' → (r ∈ rows s ∧ d_id r ≠ id) ∨
    (d_id r = id ∧ d_appId r = d_appId row ∧ d_secretVars r = uniq (d_secretVars row ++ rot) ∧ d_extraSecretVars r = e_secretNames x)).
  { rewrite Hr. intros r (r0 & Hr0 & ->)%elem_of_updateMany. unfold is_row. case_bool_decide as Hid; [right|by left].
    assert (r0 = row) as ->; [|done].
    pose proof (findFirst_key d_id (rows s) row I1 Hrow) as H1. pose proof (findFirst_key d_id (rows s) r0 I1 Hr0) as H2.
    rewrite Hid in H2. fold id in H1. congruence. }
  assert (Hother : ∀ i n, no_colon i → i ≠ id → peek (secretKey i n) (vault s') = peek (secretKey i n) (vault s)).
  { intros i n Hi Hne. apply Hv. intros (m & Hk). apply secretKey_inj in Hk as [Hk _]; [done|done|]. by apply I2. }
  split.
  - rewrite Hr. by rewrite fmap_updateMany.
  - intros r [[Hr0 _]|[-> _]]%Hin; by apply I2.
  - intros r a Hr' Ha'. rewrite Ha in Ha'. destruct (Hin r Hr') as [[Hr0 _]|(_ & Hap & Hs & He)]; [by apply I3|].
    rewrite Hap, Happ in Ha'. injection Ha' as <-. rewrite Hs, He. split; [|done].
    intros n. rewrite elem_of_uniq, elem_of_app. intros [?|?]; auto.
  - intros r n Hr' Hn. destruct (Hin r Hr') as [[Hr0 Hne]|(Hi & _ & Hs & He)].
    + destruct (I4 r n Hr0 Hn) as (w & Hw & Hp). exists w. rewrite Hother; [done|by apply I2|done].
    + rewrite Hi. unfold secret_names in Hn. rewrite Hs, He, elem_of_app, elem_of_uniq, elem_of_app in Hn.
      assert (Hold : n ∈ secret_names row → n ∉ rot → (n ∈ e_secretNames x → map_get n (e_secrets x) = None) →
        (n ∉ d_extraSecretVars row ∨ n ∈ e_secretNames x) → holds (vault s') (secretKey id n)).
      { intros Hn' H1 H2 H3. destruct (I4 row n Hrow Hn') as (w & Hw & Hp). exists w. split; [done|]. by rewrite E3. }
      destruct (decide (n ∈ e_secretNames x)) as [Hxs|Hxs].
      * destruct (map_get n (e_secrets x)) as [y|] eqn:Hg; [apply E2; [done|by rewrite Hg|done]|].
        apply Hold; [unfold secret_names; apply elem_of_app; right; by apply Hblank| |done|by right].
        intros Hrt%Hrotn. by apply (Hxn n).
      * destruct (decide (n ∈ rot)) as [Hrt|Hrt].
        -- apply E1; [done| |done]. intros Hxe%Hex. by apply Hxe, Hrotn.
        -- destruct Hn as [[Hn|?]|?]; [|done..]. apply Hold; [unfold secret_names; apply elem_of_app; by left|done|done|].
           left. intros Hxe%Hex. by apply Hxe, Hsv.
  - intros i n Hi Hne. destruct (decide (i = id)) as [->|Hd].
    + assert (Hnew : ∃ r, r ∈ rows s' ∧ d_id r = id).
      { apply (list_elem_of_fmap_2 d_id) in Hrow. assert (Hk : id ∈ d_id <$> rows s').
        { rewrite Hr. by rewrite fmap_updateMany. }
        apply list_elem_of_fmap in Hk as (r & ? & ?). eauto. }
      destruct Hnew as (r & Hr' & Hri). exists r. split_and!; [done..|].
      destruct (Hin r Hr') as [[_ ?]|(_ & _ & Hs & He)]; [done|].
      unfold secret_names. rewrite Hs, He, elem_of_app, elem_of_uniq, elem_of_app.
      destruct (decide (n ∈ e_secretNames x)) as [|Hxs]; [by right|]. left.
      destruct (decide (n ∈ rot)) as [|Hrt]; [by right|]. left.
      destruct (decide (n ∈ d_extraSecretVars row)) as [Hxe|Hxe]; [by rewrite E4 in Hne|].
      rewrite E3 in Hne; [|done|done|by left]. destruct (I5 id n Hi Hne) as (r0 & Hr0 & Hi0 & Hn0).
      assert (r0 = row) as ->.
      { pose proof (findFirst_key d_id (rows s) row I1 Hrow) as H1. pose proof (findFirst_key d_id (rows s) r0 I1 Hr0) as H2.
        rewrite Hi0 in H2. fold id in H1. congruence. }
      unfold secret_names in Hn0. apply elem_of_app in Hn0 as [?|?]; done.
    + rewrite Hother in Hne by done. destruct (I5 i n Hi Hne) as (r0 & Hr0 & Hi0 & Hn0).
      exists r0. split_and!; [|done..]. rewrite Hr. apply elem_of_updateMany. exists r0. split; [done|].
      unfold is_row. by rewrite bool_decide_eq_false_2 by congruence.
Qed.

Lemma load_run id s :
  (∃ e, load id s = (Err e, s, [])) ∨
  ∃ row app, load id s = (Ok (row, app), s, []) ∧ findFirst (is_row id) (rows s) = Some row ∧
    findFirst (is_app (d_appId row)) (apps s) = Some app ∧ row ∈ rows s ∧ d_id row = id.
Proof.
  unfold load. rewrite run_get, run_or_throw. destruct (findFirst (is_row id) (rows s)) as [row|] eqn:Hr; [|eauto].
  rewrite run_or_throw. destruct (findFirst _ (apps s)) as [app|] eqn:Ha; [|eauto].
  right. exists row, app. apply findFirst_Some in Hr as Hr'. destruct Hr' as [? ?%bool_decide_eq_true]. done.
Qed.

Lemma resolveStored_run now row s :
  ∃ r v' o, resolveStored now row s = (Ok r, State (apps s) (rows s) v', o) ∧ same_answers (vault s) v'.
Proof.
  unfold resolveStored.
  destruct (reveal_into_run now (d_id row) (d_secretVars row) [] s) as (r1 & v1 & o1 & A1 & A2 & _).
  destruct (reveal_into_run now (d_id row) (d_extraSecretVars row) (d_extraEnv row) (State (apps s) (rows s) v1))
    as (r2 & v2 & o2 & B1 & B2 & _). simpl in B2.
  eexists (r1, r2), v2, _. split; [|by rewrite A2].
  unfold mbind at 1, svc_bind at 1. rewrite A1. unfold mbind at 1, svc_bind at 1. rewrite B1. done.
Qed.

(** A redeploy that re-runs the stored configuration, whatever comes of it, and
    an edit that is accepted. *)
Lemma redeploy_in_step now iv id opts actor s :
  in_step s →
  (ri_edit opts = true → is_ok (run_result (do_redeploy now iv id opts actor) s) = true ∧
     ∀ row app, findFirst (is_row id) (rows s) = Some row →
       findFirst (is_app (d_appId row)) (apps s) = Some app → no_blank_toggle row app opts) →
  in_step (run_state (do_redeploy now iv id opts actor) s).
Proof.
  intros Hi Hed. unfold run_state, run_result in *. unfold redeploy in *.
  destruct (load_run id s) as [[e He]|(row & app & Hl & Hrow & Happ & Hin & Hid)].
  { by rewrite (svc_bind_throw _ _ s e s []). }
  rewrite (svc_bind_run _ _ s (row, app) s) in * by done. cbn beta iota in *.
  rewrite run_throw_if in *. destruct (_ || _); [done|].
  match goal with |- context [(?m ≫= ?k) s] => destruct (decides_then m k s) as [[e He]|([] & _ & He)];
    [case_match; eauto with decides|by rewrite He|] end.
  rewrite He in *. clear He.
  destruct (resolveStored_run now row s) as ([secrets extras] & v1 & o1 & Hr & Hsame).
  set (s1 := State (apps s) (rows s) v1) in *.
  assert (Hi1 : in_step s1) by (apply (in_step_view s s1); [done|by apply same_schemas_refl|done|done]).
  unfold mbind at 1, svc_bind at 1. unfold mbind at 1, svc_bind at 1 in Hed. rewrite Hr in *.
  cbn beta iota in *.
  destruct (ri_edit opts).
  - destruct (Hed eq_refl) as [Hok Htog]. clear Hed.
    destruct (do_edit now iv row app opts secrets extras actor s1) as [[[c|e] s2] o2] eqn:Hrun.
    + assert (Hi2 : in_step s2) by (eapply edit_in_step; [exact Hi1|exact Hin|exact Happ|by apply Htog|exact Hrun]).
      unfold mbind at 1, svc_bind at 1. rewrite Hrun. cbn.
      apply (in_step_view s2); [|by apply same_schemas_refl|done|done].
      simpl. by apply view_updateMany.
    + exfalso. unfold mbind at 1, svc_bind at 1 in Hok. by rewrite Hrun in Hok.
  - rewrite svc_ret_bind. cbn. apply (in_step_view s1); [|by apply same_schemas_refl|done|done].
    simpl. by apply view_updateMany.
Qed.

Lemma remove_in_step id problems actor s :
  in_step s → in_step (run_state (remove id problems actor) s) ∧
  (is_ok (run_result (remove id problems actor) s) = true →
     no_colon id ∧ ∀ r, r ∈ rows (run_state (remove id problems actor) s) → d_id r ≠ id).
Proof.
  intros Hi. unfold run_state, run_result, remove.
  destruct (load_run id s) as [[e He]|(row & app & Hl & Hrow & Happ & Hin & Hid)].
  { by rewrite (svc_bind_throw _ _ s e s []). }
  rewrite (svc_bind_run _ _ s (row, app) s) by done. cbn beta iota.
  destruct (drop_all id actor (d_secretVars row ++ d_extraSecretVars row) s) as (v1 & o1 & D1 & D2 & D3).
  match goal with |- context [(?m ≫= ?k) s] =>
    assert (Hrun : ∃ msg o, (m ≫= k) s = (Ok msg, State (apps s) (deleteMany (is_row id) (rows s)) v1, o)) end.
  { unfold mbind at 1, svc_bind at 1. rewrite D1. by eexists _, _. }
  destruct Hrun as (msg & o & ->). destruct Hi as [I1 I2 I3 I4 I5].
  assert (Hnc : no_colon id) by (rewrite <-Hid; by apply I2).
  assert (Hsub : ∀ r, r ∈ deleteMany (is_row id) (rows s) → r ∈ rows s ∧ d_id r ≠ id).
  { intros r [Hr Hr']%elem_of_deleteMany. by apply bool_decide_eq_false in Hr. }
  assert (Hother : ∀ i n, no_colon i → i ≠ id → peek (secretKey i n) v1 = peek (secretKey i n) (vault s)).
  { intros i n Hi Hne. apply D2. intros (m & _ & Hk). by apply secretKey_inj in Hk as [? _]. }
  split; [split; simpl|].
  - by apply NoDup_deleteMany.
  - intros r [Hr _]%Hsub. by apply I2.
  - intros r a [Hr _]%Hsub. by apply I3.
  - intros r n [Hr Hne]%Hsub Hn. destruct (I4 r n Hr Hn) as (w & Hw & Hp). exists w. rewrite Hother; auto.
  - intros i n Hi Hne. destruct (decide (i = id)) as [->|Hd].
    + exfalso. apply Hne. destruct (decide (n ∈ secret_names row)) as [Hn|Hn]; [by apply D3|].
      rewrite D2 by (by intros (m & Hm & ->%secretKey_name)).
      destruct (decide (peek (secretKey id n) (vault s) = Ok None)) as [|Hp]; [done|].
      destruct (I5 id n Hi Hp) as (r & Hr & Hri & Hrn).
      assert (r = row) as ->; [|done].
      pose proof (findFirst_key d_id (rows s) row I1 Hin) as H1. pose proof (findFirst_key d_id (rows s) r I1 Hr) as H2.
      rewrite Hri in H2. rewrite Hid in H1. congruence.
    + rewrite Hother in Hne by done. destruct (I5 i n Hi Hne) as (r & Hr & Hri & Hrn).
      exists r. split_and!; [|done..]. apply elem_of_deleteMany. split; [|done].
      apply bool_decide_eq_false. congruence.
  - intros _. split; [done|]. by intros r [_ ?]%Hsub.
Qed.

(** What happens to the deployments: requests, answers of the background runs
    and records moved by the stack migrator. *)
Inductive step s : state V → Prop :=
| step_deploy now iv id appId input actor :
    no_colon id → id ∉ d_id <$> rows s →
    step s (run_state (do_deploy now iv id appId input actor) s)
| step_redeploy now iv id opts actor :
    (ri_edit opts = true → is_ok (run_result (do_redeploy now iv id opts actor) s) = true ∧
       ∀ row app, findFirst (is_row id) (rows s) = Some row →
         findFirst (is_app (d_appId row)) (apps s) = Some app → no_blank_toggle row app opts) →
    step s (run_state (do_redeploy now iv id opts actor) s)
| step_finish id kind app project answer actor :
    step s (run_state (finish_run id kind app project answer actor) s)
| step_remove id problems actor : step s (run_state (remove id problems actor) s)
| step_repoint id instance project : step s (run_state (repoint id instance project) s)
| step_remap id map : step s (run_state (applyPortRemap id map) s).

Lemma variables_updateMany p f (l : list App) i :
  (∀ a, a_id (f a) = a_id a ∧ a_variables (f a) = a_variables a) →
  a_variables <$> findFirst (is_app i) (updateMany p f l) = a_variables <$> findFirst (is_app i) l.
Proof.
  intros Hf. rewrite findFirst_updateMany by (intros a; unfold is_app; by rewrite (proj1 (Hf a))).
  destruct (findFirst _ l) as [a|]; [|done]. simpl. case_match; [by rewrite (proj2 (Hf a))|done].
Qed.

Lemma finish_in_step id kind app project answer actor s :
  in_step s → in_step (run_state (finish_run id kind app project answer actor) s).
Proof.
  intros Hi. apply (in_step_view s); [..|done]; unfold run_state, finish_run, record_failure; rewrite run_get.
  - destruct answer as [o|m]; [destruct (negb _)|]; svc_run; cbn; [by apply view_updateMany| |by apply view_updateMany].
    destruct (_ && _); cbn; by apply view_updateMany.
  - intros i. destruct answer as [o|m]; [destruct (negb _)|]; svc_run; cbn; [done| |done].
    destruct (_ && _); cbn; [|done]. by apply variables_updateMany.
  - destruct answer as [o|m]; [destruct (negb _)|]; svc_run; cbn; [done| |done]. by destruct (_ && _).
Qed.

Lemma remap_in_step id map s : in_step s → in_step (run_state (applyPortRemap id map) s).
Proof.
  intros Hi. unfold run_state, applyPortRemap. rewrite run_get. case_bool_decide; [done|].
  destruct (findFirst _ (rows s)); [|done]. cbv zeta. case_bool_decide; [done|].
  apply (in_step_view s); [|by apply same_schemas_refl|done|done]. cbn. by apply view_updateMany.
Qed.

Lemma step_in_step s s' : step s s' → in_step s → in_step s'.
Proof.
  intros [] Hi.
  - by apply deploy_in_step.
  - by apply redeploy_in_step.
  - by apply finish_in_step.
  - by apply remove_in_step.
  - apply (in_step_view s); [|by apply same_schemas_refl|done|done]. cbn. by apply view_updateMany.
  - by apply remap_in_step.
Qed.

(** C17: the vault and the deployments stay in step.  Over any sequence of
    deploys (refused ones included), plain redeploys, accepted edits, removals,
    background answers and moves, every secret a row names has a non-blank
    value in the vault, so the next redeploy finds it; and the vault keeps no
    value under the key of a deployment that is not there, so a removal leaves
    nothing behind.  The two exceptions the hypotheses exclude, an edit that
    fails half-way and a plain entry flagged secret with its value left blank,
    break this. *)
Theorem vault_stays_in_step s s' :
  in_step s → rtc step s s' →
  (∀ r n, r ∈ rows s' → n ∈ secret_names r → holds (vault s') (secretKey (d_id r) n)) ∧
  (∀ id n, no_colon id → (∀ r, r ∈ rows s' → d_id r ≠ id) → peek (secretKey id n) (vault s') = Ok None) ∧
  (∀ id problems actor, is_ok (run_result (remove id problems actor) s') = true →
     ∀ n, peek (secretKey id n) (vault (run_state (remove id problems actor) s')) = Ok None).
Proof.
  intros Hi Hr.
  assert (Hs : in_step s') by (clear -Hi Hr H0; induction Hr as [|s1 s2 s3 Hst _ IH]; eauto using step_in_step).
  assert (Hgone : ∀ s0, in_step s0 → ∀ id n, no_colon id → (∀ r, r ∈ rows s0 → d_id r ≠ id) →
    peek (secretKey id n) (vault s0) = Ok None).
  { intros s0 Hs0 id n Hid Hno. destruct (decide (peek (secretKey id n) (vault s0) = Ok None)) as [|Hne]; [done|].
    destruct (secrets_listed _ Hs0 id n Hid Hne) as (r & Hr0 & Hri & _). by destruct (Hno r Hr0). }
  split_and!.
  - intros r n. by apply secrets_present.
  - by apply Hgone.
  - intros id problems actor Hok n. destruct (remove_in_step id problems actor s' Hs) as [H1 H2].
    destruct (H2 Hok) as [Hnc Hno]. by apply Hgone.
Qed.
End hygiene.

(** ** A concrete host and vault *)

Section example.

#[local] Existing Instance plain_vault.
#[local] Existing Instance plain_vault_laws.

Definition any_target (_ : string) : result http_error unit := Ok tt.
Definition no_ports (_ : string) : list Z := [].

Definition shop : App := {|
  a_id := "app1"; a_name := "Shop";
  a_variables := [Var "DB_PASSWORD" None secret_role (Some "db") None true true (Some Compose) None None;
                  Var "WEB_PORT" (Some "8080") host_port (Some "web") (Some 80) false false (Some Compose) None None];
  a_fixedPorts := []; a_usesGeneratedCompose := false; a_compose := None; a_gitPath := Some "docker-compose.yml"
|}.

Definition shop_input (extra : list ExtraEnvEntry) : DeployInput := {|
  in_instance := "docker1"; in_targetKind := None; in_name := "Shop EU";
  in_values := []; in_secrets := [("DB_PASSWORD", "s3cret")]; in_ports := [("WEB_PORT", 8081)];
  in_extraEnv := Some extra; in_mounts := None; in_forceRebuild := false
|}.

Definition empty_server : state Secrets.state := State [shop] [] (Secrets.State [] [] None).

Definition deployed (extra : list ExtraEnvEntry) : state Secrets.state :=
  run_state (deploy any_target any_target no_ports 1000 "n" "d1" "app1" (shop_input extra) admin) empty_server.

Lemma empty_in_step : in_step empty_server.
Proof.
  split; simpl.
  - constructor.
  - by intros r ?%elem_of_nil.
  - by intros r a ?%elem_of_nil.
  - by intros r n ?%elem_of_nil.
  - by intros id n _ [].
Qed.

Definition token_extra : list ExtraEnvEntry := [Extra "API_TOKEN" (Some "t0ken") true].

Lemma vault_stays_in_step_witness :
  secret_names <$> rows (deployed token_extra) = [["DB_PASSWORD"; "API_TOKEN"]] ∧
  ∀ r n, r ∈ rows (deployed token_extra) → n ∈ secret_names r →
    holds (vault (deployed token_extra)) (secretKey (d_id r) n).
Proof.
  split; [vm_compute; reflexivity|].
  assert (Hst : rtc (step no_ports any_target any_target) empty_server (deployed token_extra)).
  { apply rtc_once. unfold deployed. apply step_deploy.
    - apply (bool_decide_eq_true_1 _). vm_compute. reflexivity.
    - apply (bool_decide_eq_true_1 _). vm_compute. reflexivity. }
  exact (proj1 (vault_stays_in_step no_ports any_target any_target empty_server (deployed token_extra)
    empty_in_step Hst)).
Defined.

(** An edit stores and removes secrets before it has validated the mounts: it
    is refused, the stored token is gone, and the row still names it. *)
Definition bad_mount_edit : RedeployInput := {|
  ri_edit := true; ri_values := []; ri_secrets := []; ri_ports := [];
  ri_extraEnv := Some []; ri_mounts := Some [entry "web" "bind" "/etc" "/data"]; ri_forceRebuild := false
|}.

Lemma failed_edit_empties_the_vault :
  let s := deployed token_extra in
  let '(r, s', _) := redeploy any_target no_ports 2000 "n" "d1" bad_mount_edit admin (State (apps s)
    (updateMany (is_row "d1") (set_status "deployed" None) (rows s)) (vault s)) in
  is_ok r = false ∧ d_extraSecretVars <$> rows s' = [["API_TOKEN"]] ∧
  peek (secretKey "d1" "API_TOKEN") (vault s) = Ok (Some "t0ken") ∧
  peek (secretKey "d1" "API_TOKEN") (vault s') = Ok None.
Proof. vm_compute. done. Qed.

(** A plain entry flagged secret with its value left blank: this run still gets
    the value, but it is stored nowhere, and the next run will not. *)
Definition toggle_edit : RedeployInput := {|
  ri_edit := true; ri_values := []; ri_secrets := []; ri_ports := [];
  ri_extraEnv := Some [Extra "FEATURE" None true]; ri_mounts := None; ri_forceRebuild := false
|}.

Lemma secret_toggle_loses_the_value :
  let s := deployed [Extra "FEATURE" (Some "on") false] in
  let '(r, s', o) := redeploy any_target no_ports 2000 "n" "d1" toggle_edit admin (State (apps s)
    (updateMany (is_row "d1") (set_status "deployed" None) (rows s)) (vault s)) in
  r = Ok tt ∧
  (omap (λ e, match e with Launch a => Some (ra_extras a) | _ => None end) o) = [[("FEATURE", "on")]] ∧
  (d_extraEnv <$> rows s') = [[]] ∧ (d_extraSecretVars <$> rows s') = [["FEATURE"]] ∧
  peek (secretKey "d1" "FEATURE") (vault s') = Ok None.
Proof. vm_compute. done. Qed.
End example.
