(* ===== verification/FabricTrust.v ===== *)
(** * Trust in the Fabric: agents, host keys, egress ranges and tickets

    [fabric/fabric-credentials.ts], [fabric/fabric-enrollment.service.ts],
    [fabric/fabric-hostkey.ts], the tickets of [fabric/fabric-session.service.ts]
    and, of [fabric/fabric.service.ts], the egress ranges and the targets a
    session may be opened to.  Digests and URLs come from the runtime: they are
    type classes.  The live connections are in [AgentRegistry]. *)
From S2P Require Import Prelude JsText Rbac Net Bearer.
From stdpp Require Import gmap strings pretty options.

#[local] Open Scope Z_scope.
#[local] Set Default Proof Using "Type*".

(** ** Data *)

Inductive agent_status := pending | online | offline | revoked | deleting.

#[export] Instance agent_status_eq_dec : EqDecision agent_status.
Proof. solve_decision. Defined.

Inductive agent_mode := Endpoint | Waypoint.

#[export] Instance agent_mode_eq_dec : EqDecision agent_mode.
Proof. solve_decision. Defined.

(** The columns of an agent, those shown only grouped as [details], those of
    its credentials as [credentials]. *)
Record details := Details {
  ag_name : string;
  hostname : option string;
  os : option string;
  osVersion : option string;
  agentVersion : option string;
  localIp : option string;
  notes : option string;
  tags : list string
}.

Record credentials := Creds {
  enrollHash : option string;
  enrollExpires : option Z;
  credPrefix : option string;
  credHash : option string
}.

Record Agent := AgentRow {
  ag_id : string;
  ag_details : details;
  ag_status : agent_status;
  ag_mode : agent_mode;
  egressCidrs : list string;
  requireApproval : bool;
  ag_creds : credentials;
  lastSeenAt : option Z;
  caTrustedAt : option Z;
  pendingUninstall : option (Z * string)       (** at, by *)
}.

Record AgentTarget := TargetRow {
  t_id : string;
  t_agentId : string;
  t_kind : string;
  t_host : string;
  t_port : Z;
  t_label : option string;
  t_group : option string;
  t_secretRef : option string;
  t_hostKey : option string;
  t_source : string;
  t_webUrl : option string;
  t_webIgnoreCertErrors : bool;
  t_webAutofill : option string
}.

(** The tables; a setting's value is JSON. *)
Record db := Db {
  agents : list Agent;
  targets : list AgentTarget;
  settings : list (string * json)
}.

Definition is_agent (id : string) (a : Agent) : bool := bool_decide (ag_id a = id).
Definition is_target (id : string) (t : AgentTarget) : bool := bool_decide (t_id t = id).
Definition is_setting (key : string) (kv : string * json) : bool := bool_decide (kv.1 = key).

Definition with_agents (f : list Agent → list Agent) (s : db) : db :=
  Db (f (agents s)) (targets s) (settings s).
Definition with_targets (f : list AgentTarget → list AgentTarget) (s : db) : db :=
  Db (agents s) (f (targets s)) (settings s).
Definition with_settings (f : list (string * json) → list (string * json)) (s : db) : db :=
  Db (agents s) (targets s) (f (settings s)).

Definition set_status (st : agent_status) (a : Agent) : Agent :=
  AgentRow (ag_id a) (ag_details a) st (ag_mode a) (egressCidrs a) (requireApproval a) (ag_creds a)
    (lastSeenAt a) (caTrustedAt a) (pendingUninstall a).

Definition set_creds (c : credentials) (a : Agent) : Agent :=
  AgentRow (ag_id a) (ag_details a) (ag_status a) (ag_mode a) (egressCidrs a) (requireApproval a) c
    (lastSeenAt a) (caTrustedAt a) (pendingUninstall a).

Definition set_hostKey (k : option string) (t : AgentTarget) : AgentTarget :=
  TargetRow (t_id t) (t_agentId t) (t_kind t) (t_host t) (t_port t) (t_label t) (t_group t) (t_secretRef t)
    k (t_source t) (t_webUrl t) (t_webIgnoreCertErrors t) (t_webAutofill t).

Abbreviation call := (svc db output http_error).

Definition audit_of (u : SessionUser) (action target : string) : output :=
  OAudit (Audit (Some (su_id u)) (Some (su_email u)) action (Some target)).
Definition audit_system (action target : string) : output := OAudit (Audit None None action (Some target)).

(** ** [fabric/fabric-credentials.ts] *)

Definition ENROLL_PREFIX : string := "cbroenroll_".
Definition CRED_PREFIX : string := "cbroagent_".

Section credentials.
Context `{Digest}.

(** Equal as digests: of one length, and the same bytes. *)
Definition safeEqualHex (a b : string) : bool := bool_decide (unhex a = unhex b).

(** [secret] and [prefix] are the drawn segments. *)
Definition generateEnrollToken (secret : string) : string * string :=
  (ENROLL_PREFIX +:+ secret, sha256_hex secret).

Definition parseEnrollToken (token : string) : option string :=
  if bool_decide (token = "") || negb (startsWith ENROLL_PREFIX token) then None
  else
    let secret := slice_from (String.length ENROLL_PREFIX) token in
    if bool_decide (secret = "") then None else Some secret.

Definition generateCredential (prefix secret : string) : string * string * string :=
  (CRED_PREFIX +:+ prefix +:+ "_" +:+ secret, prefix, sha256_hex secret).

Definition parseCredential (token : string) : option (string * string) :=
  if bool_decide (token = "") || negb (startsWith CRED_PREFIX token) then None
  else
    let rest := slice_from (String.length CRED_PREFIX) token in
    match indexOf "_" rest with
    | None => None
    | Some sep =>
        if (sep =? 0)%nat || (String.length rest - 1 <=? sep)%nat then None
        else Some (slice_to sep rest, slice_from (sep + 1) rest)
    end.

(** ** [FabricService.createAgent] and [FabricEnrollmentService.enroll] *)

Definition ENROLL_TTL_MS : Z := 60 * 60 * 1000.

(** The row the form makes; the answer is the token shown once.  [id] is drawn
    by the database, which refuses one in use. *)
Definition createAgent (now : Z) (id secret name : string) (os : option string) (tags : list string)
    (waypoint : bool) (u : SessionUser) : call string :=
  let '(plaintext, hash) := generateEnrollToken secret in
  let mode := if waypoint then Waypoint else Endpoint in
  let name := if bool_decide (trim name = "")
              then (if waypoint then "Unnamed Waypoint" else "Unnamed machine") else trim name in
  s ← get;
  throw_if (bool_decide (is_Some (findFirst (is_agent id) (agents s)))) (Internal "Unique constraint failed") ;;
  modify (with_agents (createRow (AgentRow id (Details name None os None None None None tags) pending mode [] false
    (Creds (Some hash) (Some (now + ENROLL_TTL_MS)) None None) None None None))) ;;
  tell (audit_of u "fabric.agent.created" id) ;;
  mret plaintext.

Definition enrolls (hash : string) (a : Agent) : bool := bool_decide (enrollHash (ag_creds a) = Some hash).

(** Up to the write: the agent the token is for. *)
Definition enroll_check (now : Z) (token : string) : call Agent :=
  secret ← or_throw (parseEnrollToken token) (Unauthorized "Invalid enrollment token.");
  s ← get;
  agent ← or_throw (findFirst (enrolls (sha256_hex secret)) (agents s))
    (Unauthorized "Enrollment token is invalid or expired.");
  throw_if (bool_decide (ag_status agent = revoked) ||
            from_option (λ e, e <? now) true (enrollExpires (ag_creds agent)))
    (Unauthorized "Enrollment token is invalid or expired.") ;;
  mret agent.

Definition enroll_commit (agent : Agent) (prefix secret : string) : call (string * string) :=
  let '(plaintext, prefix, hash) := generateCredential prefix secret in
  s ← get;
  or_throw (findFirst (is_agent (ag_id agent)) (agents s)) (Internal "Record to update not found.") ;;
  modify (with_agents (updateMany (is_agent (ag_id agent))
    (set_creds (Creds None None (Some prefix) (Some hash))))) ;;
  tell (audit_system "fabric.agent.enrolled" (ag_id agent)) ;;
  mret (ag_id agent, plaintext).

Definition enroll (now : Z) (token prefix secret : string) : call (string * string) :=
  agent ← enroll_check now token;
  enroll_commit agent prefix secret.

(** ** [AgentRegistryService.authenticateOutcome] *)

Inductive auth_outcome := AuthOk (agentId : string) | AuthGone | AuthBad.

Definition has_prefix (prefix : string) (a : Agent) : bool := bool_decide (credPrefix (ag_creds a) = Some prefix).

Definition authenticateOutcome (credential : string) (s : db) : auth_outcome :=
  match parseCredential credential with
  | None => AuthBad
  | Some (prefix, secret) =>
      match findFirst (has_prefix prefix) (agents s) with
      | None => AuthBad
      | Some a =>
          if bool_decide (ag_status a = revoked) then AuthGone
          else if negb (truthy (credHash (ag_creds a))) then AuthBad
          else if negb (safeEqualHex (sha256_hex secret) (default "" (credHash (ag_creds a)))) then AuthBad
          else AuthOk (ag_id a)
      end
  end.

(** The writing half of [FabricService.revokeAgent]. *)
Definition revoke_row (a : Agent) : Agent := set_creds (Creds None None None None) (set_status revoked a).

End credentials.

(** ** [fabric/fabric-hostkey.ts] *)

Record HostKeyActor := {
  hk_userId : string;
  hk_userEmail : option string;
  hk_agentId : string;
  hk_targetId : string;                        (** empty: an ad-hoc connection *)
  hk_host : option string;
  hk_port : option Z
}.

Definition adhocPinKey (agentId host : string) (port : Z) : string :=
  "fabric.adhocHostKey:" +:+ agentId +:+ ":" +:+ host +:+ ":" +:+ num_to_string port.

Definition unreadable_pin : string :=
  "Could not verify the host key (storage error) — refusing to connect. Try again in a moment.".
Definition changed_key : string :=
  "Host key mismatch — refusing to connect (possible MITM, or the host was rebuilt). " +:+
  "If the host is legitimately new, reset its pinned key in Cerebro and reconnect.".

Definition actor_audit (actor : HostKeyActor) (action : string) : output :=
  OAudit (Audit (Some (hk_userId actor)) (hk_userEmail actor) action (Some (hk_agentId actor))).

(** The setting an ad-hoc connection is pinned under; [None] when the
    connection is curated or has nothing to key on. *)
Definition pin_setting (actor : HostKeyActor) : option string :=
  match hk_host actor, hk_port actor with
  | Some host, Some port =>
      if bool_decide (hk_targetId actor = "") && negb (bool_decide (host = "")) && negb (port =? 0)
      then Some (adhocPinKey (hk_agentId actor) host port) else None
  | _, _ => None
  end.

Definition stored_pin (actor : HostKeyActor) (s : db) : option string :=
  if bool_decide (hk_targetId actor = "") then
    match pin_setting actor ≫= λ key, snd <$> findFirst (is_setting key) (settings s) with
    | Some (JStr v) => Some v
    | _ => None
    end
  else findFirst (is_target (hk_targetId actor)) (targets s) ≫= t_hostKey.

Definition upsert_setting (key : string) (v : json) (t : list (string * json)) : list (string * json) :=
  if bool_decide (is_Some (findFirst (is_setting key) t))
  then updateMany (is_setting key) (λ kv, (kv.1, v)) t else createRow (key, v) t.

Definition write_pin (actor : HostKeyActor) (fp : string) (s : db) : db :=
  if bool_decide (hk_targetId actor = "") then
    match pin_setting actor with
    | Some key => with_settings (upsert_setting key (JStr fp)) s
    | None => s
    end
  else with_targets (updateMany (is_target (hk_targetId actor)) (set_hostKey (Some fp))) s.

(** [fingerprint] is the base64 SHA-256 of a key; [read] and [write] say
    whether the storage answers. *)
Definition checkHostKey (fingerprint : string → string) (read write : bool) (actor : HostKeyActor)
    (key : string) : call (bool * option string) :=
  let fp := fingerprint key in
  if bool_decide (hk_targetId actor = "") && bool_decide (pin_setting actor = None) then mret (true, None)
  else if negb read then mret (false, Some unreadable_pin)
  else
    s ← get;
    let stored := stored_pin actor s in
    if negb (truthy stored) then
      when write (modify (write_pin actor fp)) ;;
      tell (actor_audit actor "fabric.hostkey.pinned") ;;
      mret (true, None)
    else if bool_decide (stored = Some fp) then mret (true, None)
    else
      tell (actor_audit actor "fabric.hostkey.mismatch") ;;
      mret (false, Some changed_key).

(** [FabricService.clearHostKey] *)
Definition target_of (agentId targetId : string) (t : AgentTarget) : bool :=
  is_target targetId t && bool_decide (t_agentId t = agentId).

Definition clearHostKey (agentId targetId : string) (u : SessionUser) : call unit :=
  s ← get;
  t ← or_throw (findFirst (target_of agentId targetId) (targets s)) (NotFound "Target not found.");
  modify (with_targets (updateMany (is_target (t_id t)) (set_hostKey None))) ;;
  tell (audit_of u "fabric.hostkey.cleared" agentId).

(** ** Egress ranges and the targets of a session, [fabric/fabric.service.ts] *)

(** One entry of [normalizeCidrs]; [Number] of the text after the slash. *)
Definition normalize_cidr (v : string) : result http_error string :=
  let parts := JsText.split "/"%char v in
  let addr := default "" (parts !! 0%nat) in
  let fam := isIP addr in
  if fam =? 0 then Err (BadRequest ("Invalid CIDR/IP: " +:+ v))
  else
    let maxBits := if fam =? 6 then 128 else 32 in
    match match parts !! 1%nat with None => Some maxBits | Some b => Number b end with
    | Some bits => if (0 <=? bits) && (bits <=? maxBits) then Ok (addr +:+ "/" +:+ num_to_string bits)
                   else Err (BadRequest ("Invalid CIDR mask: " +:+ v))
    | None => Err (BadRequest ("Invalid CIDR mask: " +:+ v))
    end.

Fixpoint normalize_entries (raws : list string) (out : list string) : result http_error (list string) :=
  match raws with
  | [] => Ok out
  | raw :: raws' =>
      let v := trim raw in
      if bool_decide (v = "") then normalize_entries raws' out
      else c ← normalize_cidr v; normalize_entries raws' (out ++ [c])
  end.

Definition normalizeCidrs (raws : list string) : result http_error (list string) :=
  out ← normalize_entries raws []; Ok (take 64 (uniq out)).

(** [bl.addSubnet(addr, Number(bits), ...)]; [None] where it throws. *)
Definition cidr_rule (c : string) : option rule :=
  let parts := JsText.split "/"%char c in
  a ← parse_ip (default "" (parts !! 0%nat));
  b ← parts !! 1%nat ≫= Number;
  if (0 <=? b) && (b <=? full_prefix a) then Some (Rule a b) else None.

Definition ipInCidrs (ip : string) (cidrs : list string) : bool :=
  match parse_ip ip with
  | None => false
  | Some a => match mapM cidr_rule cidrs with Some rules => check rules a | None => false end
  end.

Definition bare_target (agentId kind host : string) (port : Z) (source : string) : AgentTarget :=
  TargetRow "" agentId kind host port None None None None source None false None.

(** [kind_up] is [kind.toUpperCase()]. *)
Definition resolveStoredTarget (connected : bool) (agentId targetId kind : string) : call AgentTarget :=
  s ← get;
  t ← or_throw (findFirst (target_of agentId targetId) (targets s)) (NotFound "Target not found.");
  throw_if (negb (bool_decide (t_kind t = kind)))
    (BadRequest ("This target is not a " +:+ toUpperCase kind +:+ " endpoint.")) ;;
  throw_if (bool_decide ((ag_status <$> findFirst (is_agent (t_agentId t)) (agents s)) = Some deleting))
    (BadRequest "This agent is being removed.") ;;
  throw_if (negb connected) (BadRequest "Agent is offline.") ;;
  mret t.

(** [port] is [Number(adhoc.port)] where that is an integer. *)
Definition resolveAdhocTarget (connected : bool) (agentId kind host : string) (port : option Z) : call AgentTarget :=
  s ← get;
  a ← or_throw (findFirst (is_agent agentId) (agents s)) (NotFound "Agent not found.");
  throw_if (negb (bool_decide (ag_mode a = Waypoint))) (BadRequest "Ad-hoc connections require a Waypoint.") ;;
  throw_if (bool_decide (ag_status a = deleting)) (BadRequest "This Waypoint is being removed.") ;;
  throw_if (negb connected) (BadRequest "Waypoint is offline.") ;;
  let host := trim host in
  throw_if (isIP host =? 0) (BadRequest "Ad-hoc connections require a literal IP address.") ;;
  port ← or_throw (p ← port; if (p <=? 0) || (65535 <? p) then None else Some p) (BadRequest "Invalid port.");
  throw_if (bool_decide (egressCidrs a = []))
    (BadRequest "This Waypoint has no ad-hoc egress ranges configured.") ;;
  throw_if (negb (ipInCidrs host (egressCidrs a)))
    (BadRequest (host +:+ " is not within this Waypoint's egress ranges.")) ;;
  mret (bare_target agentId kind host port "adhoc").

(** ** Routes: the curated targets of a Waypoint *)

(** The WHATWG [URL] of the runtime; [None] where [new URL] throws. *)
Record web_url := WebUrl { u_protocol : string; u_hostname : string; u_port : string; u_href : string }.
Class UrlParser := { parse_web_url : string → option web_url }.

Record RouteInput := {
  ri_kind : string;
  ri_host : option string;
  ri_port : option json;
  ri_label : option string;
  ri_group : option string;
  ri_secretRef : option string;
  ri_webUrl : option string;
  ri_webIgnoreCertErrors : bool;
  ri_webAutofill : option string
}.

(** What [normalizeRoute] answers. *)
Record Route := {
  ro_kind : string;
  ro_host : string;
  ro_port : Z;
  ro_label : option string;
  ro_group : option string;
  ro_secretRef : option string;
  ro_webUrl : option string;
  ro_webIgnoreCertErrors : bool;
  ro_webAutofill : option string
}.

(** [v?.trim() ? v.trim().slice(0, n) : null] *)
Definition clip (n : nat) (v : option string) : option string :=
  let t := trim (default "" v) in if bool_decide (t = "") then None else Some (slice_to n t).

Definition normalizeAutofill (v : option string) : string :=
  if bool_decide (v = Some "off") || bool_decide (v = Some "auto") || bool_decide (v = Some "manual")
  then default "manual" v else "manual".

(** [host === '127.0.0.1' || host.toLowerCase() === 'localhost'] *)
Definition own_loopback (host : string) : bool :=
  bool_decide (host = "127.0.0.1") || bool_decide (toLowerCase host = "localhost").

(** [/^[a-z]+:\/\//i.test(raw)] *)
Definition has_scheme (raw : string) : bool :=
  match indexOf "://" raw with
  | Some i => negb (i =? 0)%nat && forallb (λ c, is_lower (lower_char c)) (take i (chars raw))
  | None => false
  end.

Definition valid_port (port : Z) : bool := (0 <? port) && (port <=? 65535).

Section routes.
Context `{UrlParser}.

Definition normalizeRoute (input : RouteInput) : result http_error Route :=
  let kind := ri_kind input in
  if negb (includes kind ["ssh"; "rdp"; "vnc"; "web"]) then
    Err (BadRequest "kind must be one of ssh, rdp, vnc, web.")
  else
    let label := clip 120 (ri_label input) in
    let group := clip 80 (ri_group input) in
    let secretRef := clip 256 (ri_secretRef input) in
    if bool_decide (kind = "web") then
      let raw := trim (default "" (ri_webUrl input)) in
      if bool_decide (raw = "") then Err (BadRequest "A Remote Browser needs a URL.")
      else match parse_web_url (if has_scheme raw then raw else "https://" +:+ raw) with
      | None => Err (BadRequest "Enter a valid URL, e.g. https://10.20.0.5.")
      | Some u =>
          if negb (bool_decide (u_protocol u = "http:")) && negb (bool_decide (u_protocol u = "https:")) then
            Err (BadRequest "Remote Browser URLs must be http(s).")
          else if own_loopback (u_hostname u) then
            Err (BadRequest "A Waypoint targets the LAN, not its own loopback.")
          else
            let port := if negb (bool_decide (u_port u = "")) then default 0 (Number (u_port u))
                        else if bool_decide (u_protocol u = "https:") then 443 else 80 in
            Ok (Build_Route kind (u_hostname u) port label group secretRef (Some (u_href u))
                  (ri_webIgnoreCertErrors input) (Some (normalizeAutofill (ri_webAutofill input))))
      end
    else
      let host := trim (default "" (ri_host input)) in
      if bool_decide (host = "") then Err (BadRequest "host is required.")
      else if own_loopback host then Err (BadRequest "A Waypoint targets the LAN, not its own loopback.")
      else match Number_json (ri_port input) with
      | Some port =>
          if valid_port port then Ok (Build_Route kind host port label group secretRef None false None)
          else Err (BadRequest "port must be 1–65535.")
      | None => Err (BadRequest "port must be 1–65535.")
      end.

Definition requireWaypoint (id : string) : call Agent :=
  s ← get;
  a ← or_throw (findFirst (is_agent id) (agents s)) (NotFound "Agent not found.");
  throw_if (negb (bool_decide (ag_mode a = Waypoint))) (BadRequest "Routes can only be added to a Waypoint.") ;;
  mret a.

Definition same_route (agentId : string) (r : Route) (t : AgentTarget) : bool :=
  bool_decide (t_agentId t = agentId) && bool_decide (t_kind t = ro_kind r) &&
  bool_decide (t_host t = ro_host r) && bool_decide (t_port t = ro_port r).

Definition row_of (id agentId : string) (hostKey : option string) (r : Route) : AgentTarget :=
  TargetRow id agentId (ro_kind r) (ro_host r) (ro_port r) (ro_label r) (ro_group r) (ro_secretRef r) hostKey
    "curated" (ro_webUrl r) (ro_webIgnoreCertErrors r) (ro_webAutofill r).

(** The three handlers up to the push of the new allow-list. *)
Definition createRoute (newId agentId : string) (input : RouteInput) (u : SessionUser) : call unit :=
  requireWaypoint agentId ;;
  r ← lift (normalizeRoute input);
  s ← get;
  throw_if (bool_decide (is_Some (findFirst (same_route agentId r) (targets s))))
    (BadRequest "A route for this protocol/host/port already exists.") ;;
  modify (with_targets (createRow (row_of newId agentId None r))) ;;
  tell (audit_of u "fabric.route.created" agentId).

(** The unique column pair makes the database refuse a second route of one
    protocol, host and port. *)
Definition updateRoute (agentId targetId : string) (input : RouteInput) (u : SessionUser) : call unit :=
  requireWaypoint agentId ;;
  s ← get;
  row ← or_throw (findFirst (target_of agentId targetId) (targets s)) (NotFound "Route not found.");
  r ← lift (normalizeRoute input);
  let identityChanged := negb (same_route (t_agentId row) r row) in
  throw_if (bool_decide (is_Some (findFirst (λ t, same_route (t_agentId row) r t &&
      negb (is_target targetId t)) (targets s))))
    (Internal "Unique constraint failed") ;;
  modify (with_targets (updateMany (is_target targetId)
    (λ t, row_of (t_id t) (t_agentId t) (if identityChanged then None else t_hostKey t) r))) ;;
  tell (audit_of u "fabric.route.updated" agentId).

Definition deleteRoute (agentId targetId : string) (u : SessionUser) : call unit :=
  requireWaypoint agentId ;;
  s ← get;
  or_throw (findFirst (target_of agentId targetId) (targets s)) (NotFound "Route not found.") ;;
  modify (with_targets (deleteMany (is_target targetId))) ;;
  tell (audit_of u "fabric.route.deleted" agentId).

End routes.

(** ** Tickets, [fabric/fabric-session.service.ts] *)
Module Tickets.

Record descriptor := Desc {
  agentId : string;
  targetId : string;
  userId : string;
  userEmail : option string;
  host : string;
  port : Z;
  kind : string;
  username : option string;
  password : option string;
  privateKey : option string;
  passphrase : option string
}.

(** [tickets]: the descriptor and when it expires. *)
Abbreviation tickets := (gmap string (descriptor * Z)).

Definition prune (now : Z) (t : tickets) : tickets := filter (λ kv, ¬ kv.2.2 < now) t.

(** [token] is the drawn id. *)
Definition issue (now ttlMs : Z) (token : string) (d : descriptor) (t : tickets) : tickets :=
  prune now (<[token := (d, now + ttlMs)]> t).

Definition consume (now : Z) (token : string) (t : tickets) : option descriptor * tickets :=
  (match t !! token with
   | Some (d, expiresAt) => if expiresAt <? now then None else Some d
   | None => None
   end, delete token t).

End Tickets.

(** ** Credentials *)

Lemma slice_prefix p s : slice_from (String.length p) (p +:+ s) = s.
Proof. unfold slice_from. rewrite chars_app, <-length_chars, drop_app_length. apply of_chars_chars. Qed.

Lemma no_prefix p s : startsWith p (p +:+ s) = true ∧ (p ≠ "" → p +:+ s ≠ "").
Proof. split; [apply startsWith_app|]. by destruct p. Qed.

Section credential_lemmas.
Context `{Digest}.

Lemma parse_enroll secret : secret ≠ "" → parseEnrollToken (ENROLL_PREFIX +:+ secret) = Some secret.
Proof.
  intros Hs. unfold parseEnrollToken. rewrite slice_prefix, startsWith_app.
  by rewrite !bool_decide_eq_false_2 by done.
Qed.

Lemma parse_generated prefix secret :
  prefix ≠ "" → secret ≠ "" → "_"%char ∉ chars prefix →
  parseCredential (CRED_PREFIX +:+ prefix +:+ "_" +:+ secret) = Some (prefix, secret).
Proof.
  intros Hp Hs Hu. unfold parseCredential. rewrite slice_prefix, startsWith_app.
  rewrite bool_decide_eq_false_2 by done. cbn [orb negb].
  change (prefix +:+ "_" +:+ secret) with (prefix +:+ String "_" secret).
  rewrite indexOf_char by done. destruct (slice_app prefix secret "_"%char) as (-> & -> & _).
  rewrite <-!length_chars, chars_app, length_app, chars_String. cbn [length].
  destruct prefix as [|c p]; [done|]. destruct secret as [|d q]; [done|].
  rewrite !chars_String. cbn [length].
  destruct (Nat.eqb_spec (S (length (chars p))) 0); [lia|].
  destruct (Nat.leb_spec (S (length (chars p)) + S (S (length (chars q))) - 1) (S (length (chars p)))); [lia|done].
Qed.

(** An update of the row just created. *)
Lemma update_created id f row t :
  id ∉ ag_id <$> t → ag_id row = id →
  updateMany (is_agent id) f (createRow row t) = createRow (f row) t.
Proof using.
  intros Hn Hr. unfold updateMany, createRow. rewrite fmap_app. f_equal.
  - rewrite <-(list_fmap_id t) at 2. apply list_fmap_ext. intros i a Ha. unfold is_agent.
    rewrite bool_decide_eq_false_2; [done|]. intros He. apply Hn. rewrite <-He.
    eapply list_elem_of_fmap_2, list_elem_of_lookup_2, Ha.
  - simpl. unfold is_agent. by rewrite bool_decide_eq_true_2.
Qed.

(** A query that misses the table before a row is created and hits or misses it. *)
Lemma find_created p row (t : list Agent) :
  findFirst p t = None → findFirst p (createRow row t) = if p row then Some row else None.
Proof using. intros Hn. unfold createRow. by rewrite findFirst_app, Hn, findFirst_cons. Qed.

Lemma agent_present a s : a ∈ agents s → is_Some (findFirst (is_agent (ag_id a)) (agents s)).
Proof using.
  intros Ha. destruct (findFirst _ _) eqn:Hn; [by eexists|]. rewrite findFirst_None in Hn.
  specialize (Hn a Ha). unfold is_agent in Hn. by rewrite bool_decide_eq_true_2 in Hn.
Qed.

(** The answers of the two public operations on a known row. *)
Lemma enroll_known now token secret prefix sec s :
  parseEnrollToken token = Some secret →
  enroll now token prefix sec s =
  match findFirst (enrolls (sha256_hex secret)) (agents s) with
  | Some a =>
      if bool_decide (ag_status a = revoked) || from_option (λ e, e <? now) true (enrollExpires (ag_creds a))
      then (Err (Unauthorized "Enrollment token is invalid or expired."), s, [])
      else (Ok (ag_id a, CRED_PREFIX +:+ prefix +:+ "_" +:+ sec),
            with_agents (updateMany (is_agent (ag_id a)) (set_creds (Creds None None (Some prefix) (Some (sha256_hex sec))))) s,
            [audit_system "fabric.agent.enrolled" (ag_id a)])
  | None => (Err (Unauthorized "Enrollment token is invalid or expired."), s, [])
  end.
Proof using.
  intros Hp. unfold enroll, enroll_check, enroll_commit, generateCredential. rewrite Hp. cbn [or_throw].
  svc_run. destruct (findFirst _ (agents s)) as [a|] eqn:Ha; [|done]. svc_run. destruct (_ || _); [done|].
  destruct (agent_present a s) as [b ->]; [by apply findFirst_Some in Ha as [? _]|]. done.
Qed.

Lemma auth_known prefix secret s :
  prefix ≠ "" → secret ≠ "" → "_"%char ∉ chars prefix →
  authenticateOutcome (CRED_PREFIX +:+ prefix +:+ "_" +:+ secret) s =
  match findFirst (has_prefix prefix) (agents s) with
  | None => AuthBad
  | Some a =>
      if bool_decide (ag_status a = revoked) then AuthGone
      else if truthy (credHash (ag_creds a)) && safeEqualHex (sha256_hex secret) (default "" (credHash (ag_creds a)))
      then AuthOk (ag_id a) else AuthBad
  end.
Proof using.
  intros H1 H2 H3. unfold authenticateOutcome. rewrite parse_generated by done.
  destruct (findFirst _ _) as [a|]; [|done]. destruct (bool_decide _); [done|].
  by destruct (truthy _), (safeEqualHex _ _).
Qed.

(** What [revokeAgent] leaves in the tables. *)
Definition revoke_in (id : string) : db → db := with_agents (updateMany (is_agent id) revoke_row).

Lemma create_run now id secret name os tags waypoint u s :
  id ∉ ag_id <$> agents s →
  createAgent now id secret name os tags waypoint u s =
  (Ok (ENROLL_PREFIX +:+ secret),
   with_agents (createRow (AgentRow id (Details (if bool_decide (trim name = "")
       then (if waypoint then "Unnamed Waypoint" else "Unnamed machine") else trim name) None os None None None None tags)
     pending (if waypoint then Waypoint else Endpoint) [] false
     (Creds (Some (sha256_hex secret)) (Some (now + ENROLL_TTL_MS)) None None) None None None)) s,
   [audit_of u "fabric.agent.created" id]).
Proof using.
  intros Hid. unfold createAgent, generateEnrollToken. svc_run.
  rewrite bool_decide_eq_false_2; [by svc_run|]. intros [a Ha]. apply Hid. by apply (find_Some_key ag_id id (agents s) a).
Qed.

(** C30: the life of an agent's credential.  A token from the form enrolls its
    machine once, and only while it is fresh; the credential the machine gets
    then authenticates it, with this secret only; once the agent is revoked it
    authenticates nothing, and a token that was never used cannot enroll it. *)
Theorem credential_lifecycle `{!DigestLaws} (now at_ later : Z) (id name : string) (os : option string)
    (tags : list string) (waypoint : bool) (u : SessionUser) (token_secret prefix secret : string) (s : db) :
  token_secret ≠ "" → prefix ≠ "" → secret ≠ "" → sha256_hex secret ≠ "" → "_"%char ∉ chars prefix →
  id ∉ ag_id <$> agents s →
  findFirst (enrolls (sha256_hex token_secret)) (agents s) = None →
  findFirst (has_prefix prefix) (agents s) = None →
  let s1 := run_state (createAgent now id token_secret name os tags waypoint u) s in
  let token := ENROLL_PREFIX +:+ token_secret in
  let credential := CRED_PREFIX +:+ prefix +:+ "_" +:+ secret in
  let s2 := run_state (enroll at_ token prefix secret) s1 in
  let refused := Err (Unauthorized "Enrollment token is invalid or expired.") in
  run_result (createAgent now id token_secret name os tags waypoint u) s = Ok token ∧
  (now + ENROLL_TTL_MS < at_ → run_result (enroll at_ token prefix secret) s1 = refused ∧ s2 = s1) ∧
  run_result (enroll at_ token prefix secret) (revoke_in id s1) = refused ∧
  (at_ ≤ now + ENROLL_TTL_MS →
     run_result (enroll at_ token prefix secret) s1 = Ok (id, credential) ∧
     (∀ p x, run_result (enroll later token p x) s2 = refused) ∧
     authenticateOutcome credential s2 = AuthOk id ∧
     (∀ other, other ≠ secret → other ≠ "" →
        authenticateOutcome (CRED_PREFIX +:+ prefix +:+ "_" +:+ other) s2 = AuthBad) ∧
     authenticateOutcome credential (revoke_in id s2) = AuthBad).
Proof.
  intros Ht Hp Hs Hh Hu Hid He Hc s1 token credential s2 refused.
  pose proof (parse_enroll token_secret Ht) as Hpt.
  pose proof (create_run now id token_secret name os tags waypoint u s Hid) as Hcre.
  set (mode := if waypoint then Waypoint else Endpoint).
  assert (∃ d, s1 = with_agents (createRow (AgentRow id d pending mode [] false
      (Creds (Some (sha256_hex token_secret)) (Some (now + ENROLL_TTL_MS)) None None) None None None)) s) as [d Hs1]
    by (eexists; unfold s1, run_state; by rewrite Hcre).
  assert (Hrow : ∀ c st r, findFirst (enrolls (sha256_hex token_secret))
      (createRow (AgentRow id d st mode [] false c r None None) (agents s)) =
      if bool_decide (enrollHash c = Some (sha256_hex token_secret))
      then Some (AgentRow id d st mode [] false c r None None) else None) by (intros; by apply find_created).
  assert (Henr : ∀ t, run_result (enroll t token prefix secret) s1 =
      (if now + ENROLL_TTL_MS <? t then refused else Ok (id, credential)) ∧
      run_state (enroll t token prefix secret) s1 = if now + ENROLL_TTL_MS <? t then s1 else
        with_agents (createRow (AgentRow id d pending mode [] false
          (Creds None None (Some prefix) (Some (sha256_hex secret))) None None None)) s).
  { intros t. unfold run_result, run_state. rewrite (enroll_known _ _ _ _ _ _ Hpt), Hs1. simpl.
    rewrite Hrow. simpl. rewrite bool_decide_eq_true_2 by done. simpl.
    destruct (now + ENROLL_TTL_MS <? t); [done|]. simpl. unfold with_agents. simpl. by rewrite update_created. }
  split_and!; [by unfold run_result; rewrite Hcre| | |].
  - intros Hlate. destruct (Henr at_) as [-> Hst]. unfold s2. rewrite Hst.
    destruct (Z.ltb_spec (now + ENROLL_TTL_MS) at_); [done|lia].
  - unfold run_result. rewrite (enroll_known _ _ _ _ _ _ Hpt), Hs1. simpl.
    rewrite update_created by done. unfold revoke_row, set_creds, set_status. simpl. by rewrite Hrow.
  - intros Hin. assert ((now + ENROLL_TTL_MS <? at_) = false) as Hb by lia.
    destruct (Henr at_) as [-> Hst]. fold s2 in Hst. rewrite Hb in Hst |- *. rewrite Hst. split_and!.
    + done.
    + intros p x. unfold run_result. rewrite (enroll_known _ _ _ _ _ _ Hpt). simpl. by rewrite Hrow.
    + unfold credential. rewrite auth_known by done. simpl. rewrite find_created by done.
      unfold has_prefix. simpl. rewrite bool_decide_eq_true_2 by done. simpl.
      unfold safeEqualHex. by rewrite (bool_decide_eq_true_2 (unhex _ = _)), (bool_decide_eq_false_2 (_ = "")) by done.
    + intros other Hne Ho. rewrite auth_known by done. simpl. rewrite find_created by done.
      unfold has_prefix. simpl. rewrite bool_decide_eq_true_2 by done. simpl.
      unfold safeEqualHex. rewrite (bool_decide_eq_false_2 (unhex _ = _)); [by rewrite andb_false_r|].
      by intros Hx%unhex_sha256.
    + unfold credential. rewrite auth_known by done. simpl. rewrite update_created by done.
      by rewrite find_created.
Qed.
End credential_lemmas.

(** Checking a token and using it up are separate statements: two installers at
    once both get a credential, and the first one's is dead on arrival. *)
Lemma interleaved_enrollments_both_succeed `{Digest} now token a p1 x1 p2 x2 s :
  run_result (enroll_check now token) s = Ok a →
  run_result (enroll_commit a p1 x1) s = Ok (ag_id a, CRED_PREFIX +:+ p1 +:+ "_" +:+ x1) ∧
  let s1 := run_state (enroll_commit a p1 x1) s in
  run_result (enroll_commit a p2 x2) s1 = Ok (ag_id a, CRED_PREFIX +:+ p2 +:+ "_" +:+ x2) ∧
  (p1 ≠ "" → x1 ≠ "" → "_"%char ∉ chars p1 → p2 ≠ p1 →
   findFirst (has_prefix p1) (agents s) = None →
   authenticateOutcome (CRED_PREFIX +:+ p1 +:+ "_" +:+ x1) (run_state (enroll_commit a p2 x2) s1) = AuthBad).
Proof.
  intros Hc. assert (a ∈ agents s) as Hin.
  { unfold run_result, enroll_check in Hc. revert Hc. destruct (parseEnrollToken token) as [x|]; [|done]. cbn [or_throw].
    svc_run. destruct (findFirst _ (agents s)) as [b|] eqn:Hb; [|done]. svc_run. destruct (_ || _); [done|].
    intros [= <-]. by apply findFirst_Some in Hb as [? _]. }
  destruct (agent_present a s Hin) as [b Hb]. unfold run_result, run_state, enroll_commit, generateCredential. svc_run.
  rewrite Hb. svc_run. simpl. split; [done|].
  destruct (agent_present (set_creds (Creds None None (Some p1) (Some (sha256_hex x1))) a)
    (with_agents (updateMany (is_agent (ag_id a)) (set_creds (Creds None None (Some p1) (Some (sha256_hex x1))))) s)) as [c Hx].
  { apply elem_of_updateMany. exists a. split; [done|]. unfold is_agent. by rewrite bool_decide_eq_true_2. }
  simpl in Hx. rewrite Hx. svc_run. simpl. split; [done|]. intros H1 H2 H3 Hne Hn. rewrite auth_known by done.
  rewrite findFirst_None in Hn. simpl.
  match goal with |- match ?X with _ => _ end = _ => assert (X = None) as ->; [|done] end.
  apply findFirst_None. intros r (r1 & (r0 & Hr0 & ->)%elem_of_updateMany & ->)%elem_of_updateMany.
  destruct (is_agent (ag_id a) r0) eqn:E.
  - assert (is_agent (ag_id a) (set_creds (Creds None None (Some p1) (Some (sha256_hex x1))) r0) = true) as -> by done.
    unfold has_prefix. simpl. by rewrite bool_decide_eq_false_2 by congruence.
  - rewrite E. by apply Hn.
Qed.

(** ** Host keys *)

Section pins.
Context `{UrlParser} (fingerprint : string → string).

(** What reaches the pins. *)
Inductive trust_event :=
| CheckKey (read write : bool) (actor : HostKeyActor) (key : string)
| ClearKey (agentId targetId : string) (u : SessionUser)
| NewRoute (newId agentId : string) (input : RouteInput) (u : SessionUser)
| EditRoute (agentId targetId : string) (input : RouteInput) (u : SessionUser)
| DropRoute (agentId targetId : string) (u : SessionUser).

(** The state after an event, and for a check whether the key was accepted. *)
Definition trust (e : trust_event) (s : db) : db * option bool :=
  match e with
  | CheckKey r w actor key =>
      let m := checkHostKey fingerprint r w actor key in
      (run_state m s, match run_result m s with Ok (ok, _) => Some ok | Err _ => None end)
  | ClearKey a t u => (run_state (clearHostKey a t u) s, None)
  | NewRoute n a i u => (run_state (createRoute n a i u) s, None)
  | EditRoute a t i u => (run_state (updateRoute a t i u) s, None)
  | DropRoute a t u => (run_state (deleteRoute a t u) s, None)
  end.

(** A run, with the checks answered: actor, key, accepted. *)
Fixpoint trust_run (es : list trust_event) (s : db) : db * list (HostKeyActor * string * bool) :=
  match es with
  | [] => (s, [])
  | e :: es' =>
      let '(s1, a) := trust e s in
      let '(s2, l) := trust_run es' s1 in
      (s2, match e, a with CheckKey _ _ actor key, Some ok => (actor, key, ok) :: l | _, _ => l end)
  end.

(** Two connections are checked against one pin. *)
Definition same_pin (a b : HostKeyActor) : Prop :=
  hk_targetId a = hk_targetId b ∧ (hk_targetId a = "" → pin_setting a = pin_setting b).

(** A pin there is something to key on for. *)
Definition keyed (a : HostKeyActor) : Prop := hk_targetId a = "" → is_Some (pin_setting a).

(** Only an operator's action on the target itself may move its pin. *)
Definition may_reset (a : HostKeyActor) (e : trust_event) : Prop :=
  hk_targetId a ≠ "" ∧
  match e with
  | ClearKey _ t _ | EditRoute _ t _ _ | DropRoute _ t _ => t = hk_targetId a
  | NewRoute _ _ _ _ | CheckKey _ _ _ _ => False
  end.

Lemma stored_pin_same a b s : same_pin a b → stored_pin a s = stored_pin b s.
Proof using.
  intros [Ht Hp]. unfold stored_pin. rewrite <-Ht. case_bool_decide; [|done]. by rewrite Hp.
Qed.

Lemma setting_upsert key k v t :
  snd <$> findFirst (is_setting k) (upsert_setting key v t) =
  if bool_decide (key = k) then Some v else snd <$> findFirst (is_setting k) t.
Proof using.
  unfold upsert_setting. destruct (findFirst (is_setting key) t) as [kv|] eqn:Hf; simpl.
  - rewrite findFirst_updateMany by done. case_bool_decide as Hk.
    + subst. rewrite Hf. simpl. apply findFirst_Some in Hf as [_ Hf]. by rewrite Hf.
    + destruct (findFirst (is_setting k) t) as [kv'|] eqn:Hk'; [|done]. simpl.
      apply findFirst_Some in Hk' as [_ Hk'%bool_decide_eq_true]. unfold is_setting.
      rewrite bool_decide_eq_false_2; [done|]. congruence.
  - unfold createRow. rewrite findFirst_app, findFirst_cons. unfold is_setting at 2. simpl. case_bool_decide as Hk.
    + subst. by rewrite Hf.
    + destruct (findFirst (is_setting k) t); reflexivity.
Qed.

(** A pin written moves no other pin, and reads back. *)
Lemma stored_write_other a b fp s :
  keyed a → keyed b → ¬ same_pin a b → stored_pin b (write_pin a fp s) = stored_pin b s.
Proof using.
  unfold keyed, same_pin, stored_pin, write_pin. intros Ha Hb Hn.
  destruct (bool_decide_reflect (hk_targetId a = "")) as [Ea|Ea];
    destruct (bool_decide_reflect (hk_targetId b = "")) as [Eb|Eb].
  - destruct (Ha Ea) as [ka Hka], (Hb Eb) as [kb Hkb]. rewrite Hka, Hkb. simpl.
    rewrite setting_upsert, bool_decide_eq_false_2; [done|]. intros ->. apply Hn. split; congruence.
  - by destruct (Ha Ea) as [ka ->].
  - done.
  - simpl. rewrite findFirst_updateMany by done. destruct (findFirst _ (targets s)) as [r|] eqn:Hr; [|done].
    apply findFirst_Some in Hr as [_ Hr%bool_decide_eq_true]. simpl. unfold is_target.
    rewrite bool_decide_eq_false_2; [done|]. intros E. apply Hn. split; congruence.
Qed.

Lemma stored_write_same a fp s :
  keyed a → (hk_targetId a ≠ "" → is_Some (findFirst (is_target (hk_targetId a)) (targets s))) →
  stored_pin a (write_pin a fp s) = Some fp.
Proof using.
  unfold keyed, stored_pin, write_pin. intros Ha Hr. case_bool_decide as Ea.
  - destruct (Ha Ea) as [ka ->]. simpl. by rewrite setting_upsert, bool_decide_eq_true_2.
  - destruct (Hr Ea) as [r Hf]. simpl. rewrite findFirst_updateMany, Hf by done. simpl.
    apply findFirst_Some in Hf as [_ Hf]. by rewrite Hf.
Qed.

(** What a check comes to. *)
Lemma check_cases read write actor key s :
  keyed actor →
  let '(r, s', o) := checkHostKey fingerprint read write actor key s in
  if negb read then r = Ok (false, Some unreadable_pin) ∧ s' = s
  else match stored_pin actor s with
  | Some k => if bool_decide (k = "")
              then r = Ok (true, None) ∧ s' = (if write then write_pin actor (fingerprint key) s else s)
              else r = Ok (if bool_decide (k = fingerprint key) then (true, None) else (false, Some changed_key)) ∧ s' = s
  | None => r = Ok (true, None) ∧ s' = (if write then write_pin actor (fingerprint key) s else s)
  end.
Proof using.
  intros Hk. unfold checkHostKey.
  assert (bool_decide (hk_targetId actor = "") && bool_decide (pin_setting actor = None) = false) as ->.
  { unfold keyed in Hk. case_bool_decide as E; [|done]. destruct (Hk E) as [k ->]. done. }
  destruct read; [|done]. cbn [negb]. svc_run. unfold truthy.
  destruct (stored_pin actor s) as [k|]; [destruct (bool_decide_reflect (k = "")) as [E|E]|]; cbn [negb].
  - destruct write; cbn [when]; by svc_run.
  - case_bool_decide as Ek; [|rewrite bool_decide_eq_false_2 by congruence].
    + injection Ek as ->. by rewrite bool_decide_eq_true_2.
    + by svc_run.
  - destruct write; cbn [when]; by svc_run.
Qed.
#[local] Instance same_pin_dec a b : Decision (same_pin a b).
Proof using. unfold same_pin. apply _. Defined.

Lemma stored_targets a f s :
  (hk_targetId a ≠ "" → findFirst (is_target (hk_targetId a)) (f (targets s)) ≫= t_hostKey =
     findFirst (is_target (hk_targetId a)) (targets s) ≫= t_hostKey) →
  stored_pin a (with_targets f s) = stored_pin a s.
Proof using. intros Hf. unfold stored_pin. simpl. case_bool_decide; auto. Qed.

(** An update of another target. *)
Lemma find_other id id' f (t : list AgentTarget) :
  id ≠ id' → (∀ r, t_id (f r) = t_id r) →
  findFirst (is_target id) (updateMany (is_target id') f t) = findFirst (is_target id) t.
Proof using.
  intros Hn Hf. rewrite findFirst_updateMany by (intros r; unfold is_target; by rewrite Hf).
  destruct (findFirst _ t) as [r|] eqn:Hr; [|done]. apply findFirst_Some in Hr as [_ Hr%bool_decide_eq_true].
  simpl. unfold is_target. rewrite bool_decide_eq_false_2; [done|]. congruence.
Qed.

Lemma check_keeps r w actor key a s k :
  keyed a → stored_pin a s = Some k → k ≠ "" →
  stored_pin a (run_state (checkHostKey fingerprint r w actor key) s) = Some k.
Proof using.
  intros Ha Hs Hk. destruct (decide (bool_decide (hk_targetId actor = "") && bool_decide (pin_setting actor = None) = true)) as [Hb|Hb].
  { unfold run_state, checkHostKey. by rewrite Hb. }
  assert (Hka : keyed actor).
  { intros Ht. rewrite Ht, (bool_decide_eq_true_2 ("" = "")) in Hb by done. simpl in Hb.
    destruct (pin_setting actor); [by eexists|]. by destruct Hb. }
  pose proof (check_cases r w actor key s Hka) as Hc. unfold run_state.
  destruct (checkHostKey fingerprint r w actor key s) as [[res s'] o]. simpl.
  assert (Hw : stored_pin actor s = Some k → s' = s).
  { intros Hp. rewrite Hp, (bool_decide_eq_false_2 (k = "")) in Hc by done. destruct r; apply Hc. }
  destruct (decide (same_pin a actor)) as [Hsame|Hdiff].
  - rewrite Hw; [done|]. by rewrite <-(stored_pin_same a actor s Hsame).
  - assert (s' = s ∨ s' = write_pin actor (fingerprint key) s) as [-> | ->]; [|done|].
    { destruct r; simpl in Hc; [|by left; apply Hc].
      destruct (stored_pin actor s) as [x|]; [case_bool_decide|]; destruct w; try (right; apply Hc); left; apply Hc. }
    rewrite stored_write_other; [done..|]. intros [H1 H2]. apply Hdiff. split; [done|]. intros Ht.
    symmetry. apply H2. congruence.
Qed.

Lemma trust_keeps a e s k :
  keyed a → stored_pin a s = Some k → k ≠ "" → ¬ may_reset a e → stored_pin a (trust e s).1 = Some k.
Proof using.
  intros Ha Hs Hk Hm. destruct e as [r w actor key|ag t u|ag n i u|ag t i u|ag t u]; simpl.
  - by apply check_keeps.
  - unfold run_state, clearHostKey. svc_run. destruct (findFirst _ (targets s)) as [row|] eqn:Hr; [|done].
    svc_run. simpl. rewrite stored_targets; [done|]. intros Hne. rewrite find_other; [done| |done].
    apply findFirst_Some in Hr as [_ [Hr%bool_decide_eq_true _]%andb_true_iff]. intros E. apply Hm. split; congruence.
  - unfold run_state, createRoute, requireWaypoint. svc_split; try done. rewrite stored_targets; [done|]. intros Hne.
    unfold createRow. rewrite findFirst_app. unfold stored_pin in Hs.
    rewrite bool_decide_eq_false_2 in Hs by done. by destruct (findFirst _ (targets s)).
  - unfold run_state, updateRoute, requireWaypoint. svc_split; try done;
      (rewrite stored_targets; [done|]; intros Hne; rewrite find_other; [done| |done]; intros E; apply Hm; by split).
  - unfold run_state, deleteRoute, requireWaypoint. svc_split; try done. rewrite stored_targets; [done|]. intros Hne.
    rewrite find_deleteMany_other; [done|]. intros row Hr%bool_decide_eq_true. unfold is_target.
    rewrite bool_decide_eq_false_2; [done|]. intros E. apply Hm. split; congruence.
Qed.

Lemma trust_answer a r w actor key s k :
  keyed a → same_pin a actor → stored_pin a s = Some k → k ≠ "" →
  (trust (CheckKey r w actor key) s).2 = Some (r && bool_decide (k = fingerprint key)).
Proof using.
  intros Ha Hsame Hs Hk. assert (Hka : keyed actor).
  { intros Ht. destruct Hsame as [H1 H2]. rewrite <-H2 by congruence. apply Ha. congruence. }
  pose proof (check_cases r w actor key s Hka) as Hc. simpl. unfold run_result.
  destruct (checkHostKey fingerprint r w actor key s) as [[res s'] o]. simpl.
  rewrite <-(stored_pin_same a actor s Hsame), Hs, (bool_decide_eq_false_2 (k = "")) in Hc by done.
  destruct r; destruct Hc as [-> _]; [|done]. by destruct (bool_decide (k = fingerprint key)).
Qed.

End pins.

(** A target deleted while its ticket is out: the check finds no pin, stores
    none, reports one and accepts any key. *)
Lemma deleted_target_accepts_any_key (fingerprint : string → string) (actor : HostKeyActor) (key : string) (s : db) :
  hk_targetId actor ≠ "" → findFirst (is_target (hk_targetId actor)) (targets s) = None →
  let m := checkHostKey fingerprint true true actor key in
  run_result m s = Ok (true, None) ∧ run_out m s = [actor_audit actor "fabric.hostkey.pinned"] ∧
  stored_pin actor (run_state m s) = None.
Proof.
  intros Ht Hn m. unfold m, run_result, run_out, run_state, checkHostKey.
  rewrite bool_decide_eq_false_2 by done. cbn [andb negb]. svc_run.
  assert (stored_pin actor s = None) as -> by (unfold stored_pin; by rewrite bool_decide_eq_false_2, Hn).
  cbn [truthy negb when]. svc_run. simpl. split_and!; [done..|]. unfold stored_pin, write_pin. rewrite bool_decide_eq_false_2 by done. simpl.
  by rewrite findFirst_updateMany, Hn.
Qed.

(** ** Egress ranges *)

(** The two addresses agree on the network part, counted in 128 bits. *)
Definition in_subnet (a net : ip) (bits : Z) : Prop :=
  let k := 128 - prefix128 net bits in mapped a / 2 ^ k = mapped net / 2 ^ k.

(** The range an operator's entry stands for. *)
Definition denotes (entry : string) (addr : string) (net : ip) (bits : Z) : Prop :=
  let parts := JsText.split "/"%char entry in
  parts !! 0%nat = Some addr ∧ parse_ip addr = Some net ∧ 0 ≤ bits ≤ full_prefix net ∧
  match parts !! 1%nat with None => bits = full_prefix net | Some b => Number b = Some bits end.

Definition range_text (addr : string) (bits : Z) : string := addr +:+ "/" +:+ num_to_string bits.

Lemma isIP_parse addr : isIP addr = match parse_ip addr with Some (V4 _) => 4 | Some (V6 _) => 6 | None => 0 end.
Proof. done. Qed.

Lemma full_prefix_small a bits : 0 ≤ bits ≤ full_prefix a → small bits.
Proof. unfold small. destruct a; simpl; lia. Qed.

Lemma range_text_parts addr net bits :
  parse_ip addr = Some net → small bits →
  JsText.split "/"%char (range_text addr bits) = [addr; num_to_string bits].
Proof.
  intros Ha Hb. unfold range_text. change ("/" +:+ num_to_string bits) with (String "/" (num_to_string bits)).
  rewrite split_app, split_no_sep; [done|by apply not_in_number|].
  intros Hin. by apply (parse_ip_chars addr net) in Hin.
Qed.

Lemma range_rule addr net bits :
  parse_ip addr = Some net → 0 ≤ bits ≤ full_prefix net →
  cidr_rule (range_text addr bits) = Some (Rule net bits).
Proof.
  intros Ha Hb. pose proof (full_prefix_small _ _ Hb) as Hs. unfold cidr_rule.
  rewrite (range_text_parts addr net) by done. simpl. rewrite Ha. simpl.
  destruct (small_number bits Hs) as [-> _]. simpl.
  destruct (Z.leb_spec 0 bits), (Z.leb_spec bits (full_prefix net)); try lia. done.
Qed.

Lemma normalize_cidr_ok v c :
  normalize_cidr v = Ok c ↔ ∃ addr net bits, denotes v addr net bits ∧ c = range_text addr bits.
Proof.
  unfold normalize_cidr, denotes, range_text. set (parts := JsText.split "/"%char v).
  assert (Hne : ∃ addr, parts !! 0%nat = Some addr).
  { unfold parts, JsText.split. destruct (split_chars _ _) eqn:E; [by destruct (split_chars_ne _ _ E)|]. by eexists. }
  destruct Hne as [addr Hp]. rewrite Hp. simpl. split.
  - intros Hok. exists addr. pose proof (isIP_parse addr) as Hf. destruct (parse_ip addr) as [net|]; [|by rewrite Hf in Hok].
    exists net. assert ((isIP addr =? 0) = false ∧ (if isIP addr =? 6 then 128 else 32) = full_prefix net) as [H0 Hm]
      by (rewrite Hf; by destruct net).
    rewrite H0, Hm in Hok.
    destruct (match parts !! 1%nat with Some b => Number b | None => Some (full_prefix net) end) as [bits|] eqn:Hb; [|done].
    destruct ((0 <=? bits) && _) eqn:E; [|done]. injection Hok as <-. exists bits.
    apply andb_true_iff in E as [?%Z.leb_le ?%Z.leb_le]. split_and!; try done.
    destruct (parts !! 1%nat); congruence.
  - intros (addr' & net & bits & (Ha & Hi & Hb & Hn) & ->). injection Ha as <-. pose proof (isIP_parse addr) as Hf.
    rewrite Hi in Hf. assert ((isIP addr =? 0) = false ∧ (if isIP addr =? 6 then 128 else 32) = full_prefix net) as [-> ->]
      by (rewrite Hf; by destruct net).
    assert (match parts !! 1%nat with Some b => Number b | None => Some (full_prefix net) end = Some bits) as ->
      by (destruct (parts !! 1%nat); congruence).
    assert ((0 <=? bits) && (bits <=? full_prefix net) = true) as -> by lia. done.
Qed.

Lemma normalize_entries_ok raws out res :
  normalize_entries raws out = Ok res ↔
  ∃ cs, res = out ++ cs ∧ Forall2 (λ raw c, normalize_cidr (trim raw) = Ok c)
    (filter (λ raw, trim raw ≠ "") raws) cs.
Proof.
  revert out. induction raws as [|raw raws IH]; intros out; simpl.
  - split; [intros [= ->]; exists []; by rewrite app_nil_r|]. intros (cs & -> & Hc).
    apply Forall2_nil_inv_l in Hc as ->. by rewrite app_nil_r.
  - rewrite filter_cons. case_bool_decide as He; [rewrite decide_False by tauto; apply IH|].
    rewrite decide_True by done. unfold mbind, result_bind. destruct (normalize_cidr (trim raw)) as [c|e] eqn:Hc.
    + rewrite IH. split.
      * intros (cs & -> & Hf). exists (c :: cs). split; [by rewrite <-(assoc_L (++))|]. by constructor.
      * intros (cs & -> & Hf). apply Forall2_cons_inv_l in Hf as (c' & cs' & Hc' & Hf & ->).
        assert (c' = c) as -> by congruence. exists cs'. split; [by rewrite <-(assoc_L (++))|done].
    + split; [done|]. intros (cs & _ & Hf). apply Forall2_cons_inv_l in Hf as (c' & cs' & Hc' & _). congruence.
Qed.

(** The stored ranges: each the text of an entry. *)
Lemma normalized_in raws out c :
  normalizeCidrs raws = Ok out → c ∈ out →
  ∃ raw addr net bits, raw ∈ raws ∧ denotes (trim raw) addr net bits ∧ c = range_text addr bits.
Proof.
  unfold normalizeCidrs, mbind, result_bind. destruct (normalize_entries raws []) as [cs|] eqn:Hn; [|done].
  intros [= <-] Hc. apply normalize_entries_ok in Hn as (cs' & -> & Hf). simpl in Hc.
  apply elem_of_take in Hc as (i & Hc & _). apply list_elem_of_lookup_2 in Hc. rewrite elem_of_uniq in Hc.
  apply list_elem_of_lookup in Hc as [j Hj]. destruct (Forall2_lookup_r _ _ _ _ _ Hf Hj) as (raw & Hr & Hok).
  apply list_elem_of_lookup_2, list_elem_of_filter in Hr as [_ Hr]. apply normalize_cidr_ok in Hok. naive_solver.
Qed.

Lemma cidr_rule_bits c net bits : cidr_rule c = Some (Rule net bits) → 0 ≤ bits ≤ full_prefix net.
Proof.
  intros (net' & _ & (b & _ & Hr)%bind_Some)%bind_Some. destruct (_ && _) eqn:E; [|done]. injection Hr as -> ->. lia.
Qed.

Lemma check_ranges cidrs ip a :
  (∀ c, c ∈ cidrs → is_Some (cidr_rule c)) → parse_ip ip = Some a →
  ipInCidrs ip cidrs = true ↔
  ∃ c net bits, c ∈ cidrs ∧ cidr_rule c = Some (Rule net bits) ∧ in_subnet a net bits.
Proof.
  intros Hc Ha. unfold ipInCidrs. rewrite Ha.
  destruct (mapM cidr_rule cidrs) as [rules|] eqn:Hm.
  2:{ exfalso. apply mapM_None in Hm. apply Exists_exists in Hm as (c & Hin & Hn). specialize (Hc c Hin).
      rewrite Hn in Hc. by destruct Hc. }
  apply mapM_Some in Hm. unfold check. rewrite some_true.
  assert (Hrule : ∀ r c, cidr_rule c = Some r → rule_matches a r = true ↔ in_subnet a (net_addr r) (net_prefix r)).
  { intros [net bits] c Hr. unfold rule_matches, in_subnet. simpl. rewrite Z.eqb_eq.
    assert (0 ≤ 128 - prefix128 net bits).
    { apply cidr_rule_bits in Hr. destruct net; simpl in *; lia. }
    by rewrite !Z.shiftr_div_pow2. }
  split.
  - intros (r & Hr & Hmatch). apply list_elem_of_lookup in Hr as [i Hi].
    destruct (Forall2_lookup_r _ _ _ _ _ Hm Hi) as (c & Hl & Hcr). exists c, (net_addr r), (net_prefix r).
    split_and!; [by eapply list_elem_of_lookup_2|by destruct r|by eapply Hrule].
  - intros (c & net & bits & Hin & Hcr & Hs). apply list_elem_of_lookup in Hin as [i Hi].
    destruct (Forall2_lookup_l _ _ _ _ _ Hm Hi) as (r & Hl & Hcr'). exists r.
    assert (r = Rule net bits) as -> by congruence. split; [by eapply list_elem_of_lookup_2|by eapply Hrule].
Qed.

Lemma range_text_again addr net bits :
  parse_ip addr = Some net → 0 ≤ bits ≤ full_prefix net →
  trim (range_text addr bits) = range_text addr bits ∧ range_text addr bits ≠ "" ∧
  normalize_cidr (range_text addr bits) = Ok (range_text addr bits).
Proof.
  intros Ha Hb. pose proof (full_prefix_small _ _ Hb) as Hs. split_and!.
  - apply trim_id. intros c. unfold range_text. rewrite !chars_app, !elem_of_app.
    intros [Hc|[Hc|Hc]].
    + by apply (addr_char_not c), (parse_ip_chars addr net).
    + by apply list_elem_of_singleton in Hc as ->.
    + by apply digit_not_space, (small_number bits Hs).
  - unfold range_text. by destruct addr.
  - apply normalize_cidr_ok. exists addr, net, bits. split; [|done]. unfold denotes.
    rewrite (range_text_parts addr net) by done. split_and!; try done; try lia. by apply small_number.
Qed.

(** What may be stored. *)
Lemma normalized_spec raws out :
  normalizeCidrs raws = Ok out →
  NoDup out ∧ (length out ≤ 64)%nat ∧ normalizeCidrs out = Ok out ∧
  ∀ c, c ∈ out → ∃ raw addr net bits, raw ∈ raws ∧ denotes (trim raw) addr net bits ∧
    c = range_text addr bits ∧ cidr_rule c = Some (Rule net bits).
Proof.
  intros Hn. pose proof (λ c Hc, normalized_in raws out c Hn Hc) as Hin.
  assert (Hd : NoDup out ∧ (length out ≤ 64)%nat).
  { unfold normalizeCidrs, mbind, result_bind in Hn. destruct (normalize_entries raws []) as [cs|]; [|done].
    injection Hn as <-. split; [|rewrite length_take; lia].
    eapply sublist_NoDup; [apply (NoDup_uniq cs)|apply sublist_take]. }
  destruct Hd as [Hd Hl]. split_and!; [done..| |].
  - assert (He : normalize_entries out [] = Ok out).
    { apply normalize_entries_ok. exists out. split; [done|].
      assert (Hall : ∀ c, c ∈ out → trim c = c ∧ c ≠ "" ∧ normalize_cidr c = Ok c).
      { intros c (raw & addr & net & bits & _ & (_ & Hi & Hb & _) & ->)%Hin. by apply (range_text_again addr net). }
      clear -Hall. induction out as [|c out IH]; [done|].
      destruct (Hall c (list_elem_of_here _ _)) as (H1 & H2 & H3).
      rewrite filter_cons_True by (by rewrite H1). constructor; [by rewrite H1|].
      apply IH. intros c' Hc'. apply Hall. by right. }
    unfold normalizeCidrs. rewrite He. simpl. by rewrite uniq_NoDup, take_ge by done.
  - intros c Hc. destruct (Hin c Hc) as (raw & addr & net & bits & Hr & Hden & ->).
    exists raw, addr, net, bits. split_and!; [done..|]. destruct Hden as (_ & Hi & Hb & _). by apply range_rule.
Qed.

(** ad-hoc connections stay in the Waypoint's ranges.  What an operator may
    store is a list of at most 64 different ranges, each the meaning of an
    entry, and storing it again changes nothing; with such a list an ad-hoc
    target is given exactly when the agent is a live Waypoint not being removed,
    the host is a literal address, the port valid, and some range holds the
    address; the target is that host and port and nothing stored. *)
Theorem adhoc_targets_in_range (raws out : list string) (connected : bool) (id kind host : string)
    (port : option Z) (s : db) (t : AgentTarget) (a : Agent) :
  normalizeCidrs raws = Ok out →
  findFirst (is_agent id) (agents s) = Some a → egressCidrs a = out →
  (NoDup out ∧ (length out ≤ 64)%nat ∧ normalizeCidrs out = Ok out ∧
   ∀ c, c ∈ out → ∃ raw addr net bits, raw ∈ raws ∧ denotes (trim raw) addr net bits ∧
     c = range_text addr bits ∧ cidr_rule c = Some (Rule net bits)) ∧
  (run_result (resolveAdhocTarget connected id kind host port) s = Ok t ↔
   ag_mode a = Waypoint ∧ ag_status a ≠ deleting ∧ connected = true ∧
   ∃ x p, parse_ip (trim host) = Some x ∧ port = Some p ∧ 1 ≤ p ≤ 65535 ∧
     (∃ c net bits, c ∈ out ∧ cidr_rule c = Some (Rule net bits) ∧ in_subnet x net bits) ∧
     t = bare_target id kind (trim host) p "adhoc").
Proof.
  intros Hn Ha Hout. pose proof (normalized_spec raws out Hn) as Hspec. split; [done|].
  destruct Hspec as (_ & _ & _ & Hin).
  assert (Hrule : ∀ c, c ∈ out → is_Some (cidr_rule c)).
  { intros c (raw & addr & net & bits & _ & _ & _ & ->)%Hin. by eexists. }
  unfold run_result, resolveAdhocTarget. svc_run. rewrite Ha, Hout. svc_run.
  destruct (bool_decide_reflect (ag_mode a = Waypoint)) as [Hm|Hm]; simpl; [|by split; [|intros (? & _)]].
  destruct (bool_decide_reflect (ag_status a = deleting)) as [Hs|Hs]; simpl; [by split; [|intros (_ & ? & _)]|].
  destruct connected; simpl; [|by split; [|intros (_ & _ & ? & _)]].
  destruct (parse_ip (trim host)) as [x|] eqn:Hx.
  2:{ rewrite (proj2 (isIP_0 _) Hx). split; [done|]. by intros (_ & _ & _ & x & p & ? & _). }
  assert ((isIP (trim host) =? 0) = false) as ->.
  { apply Z.eqb_neq. intros E%isIP_0. congruence. }
  destruct port as [p|]; simpl; [|by split; [|intros (_ & _ & _ & x' & p & _ & ? & _)]].
  destruct ((p <=? 0) || (65535 <? p)) eqn:Hp; simpl.
  { split; [done|]. intros (_ & _ & _ & x' & p' & _ & [= <-] & ? & _). lia. }
  svc_run. destruct (bool_decide_reflect (out = [])) as [He|He].
  { split; [done|]. intros (_ & _ & _ & x' & p' & _ & _ & _ & (c & ? & ? & Hc & _) & _). rewrite He in Hc. by apply elem_of_nil in Hc. }
  pose proof (check_ranges out (trim host) x Hrule Hx) as Hck.
  destruct (ipInCidrs (trim host) out); simpl.
  - split; [intros [= <-]|by intros (_ & _ & _ & x' & p' & _ & [= <-] & _ & _ & ->)].
    split_and!; [done..|]. exists x, p. split_and!; [done|done|lia|lia|by apply Hck|done].
  - split; [done|]. intros (_ & _ & _ & x' & p' & [= <-] & _ & _ & Hc & _). by apply Hck in Hc.
Qed.

(** A mask left empty after the slash is the number 0: the whole of IPv4. *)
Lemma trailing_slash_opens_everything :
  normalizeCidrs ["10.20.0.5/"] = Ok ["10.20.0.5/0"] ∧ ipInCidrs "8.8.8.8" ["10.20.0.5/0"] = true.
Proof. by vm_compute. Qed.

(** ** Tickets *)

Section tickets.
Import Tickets.

Inductive ticket_op :=
| Issue (now ttlMs : Z) (token : string) (d : descriptor)
| Redeem (now : Z) (token : string).

Definition op_time (o : ticket_op) : Z := match o with Issue now _ _ _ | Redeem now _ => now end.
Definition issues (token : string) (o : ticket_op) : bool :=
  match o with Issue _ _ t _ => bool_decide (t = token) | Redeem _ _ => false end.
Definition redeems (token : string) (o : ticket_op) : bool :=
  match o with Redeem _ t => bool_decide (t = token) | Issue _ _ _ _ => false end.

Definition ticket_step (o : ticket_op) (t : tickets) : tickets * option descriptor :=
  match o with
  | Issue now ttl token d => (issue now ttl token d t, None)
  | Redeem now token => let '(a, t') := consume now token t in (t', a)
  end.

(** The store after a run, and the redemptions that gave a session. *)
Fixpoint ticket_run (ops : list ticket_op) (t : tickets) : tickets * list (Z * string * descriptor) :=
  match ops with
  | [] => (t, [])
  | o :: ops' =>
      let '(t1, a) := ticket_step o t in
      let '(t2, l) := ticket_run ops' t1 in
      (t2, match o, a with Redeem now token, Some d => (now, token, d) :: l | _, _ => l end)
  end.

Definition opened (token : string) (l : list (Z * string * descriptor)) : nat :=
  countWhere (λ x, bool_decide (x.1.2 = token)) l.

Lemma prune_keeps now token t x :
  prune now t !! token = Some x ↔ t !! token = Some x ∧ now ≤ x.2.
Proof. unfold prune. rewrite map_lookup_filter_Some. simpl. rewrite Z.nlt_ge. done. Qed.

Lemma prune_None now token t : t !! token = None → prune now t !! token = None.
Proof.
  intros Hn. destruct (prune now t !! token) as [x|] eqn:E; [|done]. apply prune_keeps in E as [E _]. congruence.
Qed.

Lemma tickets_bounded token ops t :
  (opened token (ticket_run ops t).2 ≤
   countWhere (issues token) ops + (if bool_decide (is_Some (t !! token)) then 1 else 0))%nat.
Proof.
  revert t. induction ops as [|o ops IH]; intros t; [unfold opened, countWhere, findMany; simpl; lia|].
  rewrite countWhere_cons. simpl. destruct (ticket_step o t) as [t1 a] eqn:Ho. specialize (IH t1).
  destruct (ticket_run ops t1) as [t2 l]. simpl in IH |- *.
  assert (Hle : ((if bool_decide (is_Some (t1 !! token)) then 1 else 0) +
    (match o, a with Redeem _ tk, Some _ => if bool_decide (tk = token) then 1 else 0 | _, _ => 0 end) ≤
    (if issues token o then 1 else 0) + (if bool_decide (is_Some (t !! token)) then 1 else 0))%nat).
  { destruct o as [now ttl tk d|now tk]; simpl in Ho |- *.
    - injection Ho as <- <-. destruct (bool_decide_reflect (tk = token)) as [->|Hne]; [repeat case_bool_decide; lia|].
      destruct (t !! token) as [x|] eqn:Ht.
      + rewrite (bool_decide_eq_true_2 (is_Some (Some x))) by by eexists. case_bool_decide; lia.
      + unfold Tickets.issue. rewrite prune_None; [simpl; lia|]. by rewrite lookup_insert_ne.
    - unfold consume in Ho. injection Ho as <- <-. destruct (bool_decide_reflect (tk = token)) as [->|Hne].
      + rewrite lookup_delete_eq. destruct (t !! token) as [[d e]|]; simpl; [|lia]. destruct (e <? now); vm_compute; lia.
      + rewrite lookup_delete_ne by done. destruct (bool_decide _); repeat case_match; lia. }
  destruct o as [now ttl tk d|now tk]; [simpl in *; lia|]. destruct a as [d|]; [|simpl in *; lia].
  unfold opened in *. rewrite countWhere_cons. simpl in *. lia.
Qed.

(** Where a stored ticket comes from. *)
Definition from_issue (ops : list ticket_op) (t : tickets) : Prop :=
  ∀ token d e, t !! token = Some (d, e) → ∃ t0 ttl, Issue t0 ttl token d ∈ ops ∧ e = t0 + ttl.

Lemma tickets_sound all ops t :
  from_issue all t → (∀ o, o ∈ ops → o ∈ all) →
  ∀ now token d, (now, token, d) ∈ (ticket_run ops t).2 →
  ∃ t0 ttl, Issue t0 ttl token d ∈ all ∧ now ≤ t0 + ttl.
Proof.
  revert t. induction ops as [|o ops IH]; intros t Hf Hall now token d; [by intros ?%elem_of_nil|].
  simpl. destruct (ticket_step o t) as [t1 a] eqn:Ho.
  assert (Hf1 : from_issue all t1).
  { intros tk d' e. destruct o as [n ttl tk' d0|n tk']; simpl in Ho; [|unfold consume in Ho]; injection Ho as <- <-.
    - intros [Hl _]%prune_keeps. apply lookup_insert_Some in Hl as [[-> [= -> <-]]|[_ Hl]]; [|by apply Hf].
      exists n, ttl. split; [apply Hall; left|done].
    - intros [_ Hl]%lookup_delete_Some. by apply Hf. }
  specialize (IH t1 Hf1 (λ o' Ho', Hall o' (list_elem_of_further _ _ _ Ho')) now token d).
  destruct (ticket_run ops t1) as [t2 l]. simpl in IH |- *.
  destruct o as [n ttl tk d0|n tk]; [done|]. destruct a as [d'|]; [|done].
  intros [[= <- <- <-]|Hin]%elem_of_cons; [|by apply IH]. simpl in Ho. unfold consume in Ho. injection Ho as _ Ho.
  destruct (t !! token) as [[d0 e]|] eqn:Ht; [|done]. destruct (Z.ltb_spec e now); [done|]. injection Ho as ->.
  destruct (Hf _ _ _ Ht) as (t0 & ttl & ? & ->). eauto.
Qed.

(** A ticket waits for its redemption. *)
Lemma ticket_waits token d e ops t :
  t !! token = Some (d, e) →
  Forall (λ o, op_time o ≤ e ∧ issues token o = false ∧ redeems token o = false) ops →
  (ticket_run ops t).1 !! token = Some (d, e).
Proof.
  revert t. induction ops as [|o ops IH]; intros t Ht Hops; [done|].
  apply Forall_cons in Hops as [(Hn & Hi & Hr) Hops]. simpl. destruct (ticket_step o t) as [t1 a] eqn:Ho.
  assert (t1 !! token = Some (d, e)) as Ht1.
  { destruct o as [n ttl tk d0|n tk]; simpl in *; [|unfold consume in Ho]; injection Ho as <- <-.
    - apply bool_decide_eq_false in Hi. apply prune_keeps. by rewrite lookup_insert_ne.
    - apply bool_decide_eq_false in Hr. by rewrite lookup_delete_ne. }
  specialize (IH t1 Ht1 Hops). by destruct (ticket_run ops t1).
Qed.

(** a session ticket opens one session.  Over any sequence of issues and
    redemptions in which no token is drawn twice, a token opens at most one
    session, the one it was issued for and before its time is up; and the first
    redemption in time always succeeds, whatever happens to other tickets. *)
Theorem ticket_redeemed_once (ops : list ticket_op) (token : string) :
  (countWhere (issues token) ops ≤ 1)%nat →
  (opened token (ticket_run ops ∅).2 ≤ 1)%nat ∧
  (∀ now d, (now, token, d) ∈ (ticket_run ops ∅).2 →
     ∃ t0 ttl, Issue t0 ttl token d ∈ ops ∧ now ≤ t0 + ttl) ∧
  (∀ pre mid t0 ttl d now, ops = pre ++ Issue t0 ttl token d :: mid → 0 ≤ ttl → now ≤ t0 + ttl →
     Forall (λ o, op_time o ≤ now ∧ redeems token o = false) mid →
     (consume now token (ticket_run ops ∅).1).1 = Some d).
Proof.
  intros Hone. split_and!.
  - pose proof (tickets_bounded token ops ∅) as Hb. rewrite lookup_empty in Hb. simpl in Hb. lia.
  - intros now d. apply (tickets_sound ops ops); [|done]. intros tk d' e. by rewrite lookup_empty.
  - intros pre mid t0 ttl d now -> Httl Hnow Hmid.
    assert (Hrun : ∀ a b t, (ticket_run (a ++ b) t).1 = (ticket_run b (ticket_run a t).1).1).
    { intros a b. induction a as [|o a IH]; intros t; [done|]. simpl. destruct (ticket_step o t) as [t1 x].
      specialize (IH t1). destruct (ticket_run (a ++ b) t1), (ticket_run a t1). done. }
    rewrite Hrun. set (t := (ticket_run pre ∅).1). simpl.
    rewrite countWhere_app, countWhere_cons in Hone. simpl in Hone. rewrite bool_decide_eq_true_2 in Hone by done.
    pose proof (ticket_waits token d (t0 + ttl) mid (issue t0 ttl token d t)) as Hw.
    destruct (ticket_run mid (issue t0 ttl token d t)) as [t2 l] eqn:Hm. simpl in Hw |- *.
    unfold consume. simpl. rewrite Hw; [destruct (Z.ltb_spec (t0 + ttl) now); [lia|done]| |].
    + apply prune_keeps. rewrite lookup_insert_eq. simpl. split; [done|lia].
    + apply Forall_forall. intros o Hin. rewrite Forall_forall in Hmid. destruct (Hmid o Hin) as [H1 H2].
      split_and!; [lia| |done]. destruct (issues token o) eqn:Hi; [|done].
      assert (countWhere (issues token) mid = 0)%nat as Hz by lia. unfold countWhere in Hz.
      apply length_zero_iff_nil in Hz. assert (Hx : o ∈ findMany (issues token) mid) by by apply elem_of_findMany.
      rewrite Hz in Hx. by apply elem_of_nil in Hx.
Qed.
End tickets.

(** ** Witnesses: a digest that writes its input, a parser that knows no URL *)

Section examples.
#[local] Existing Instance toy_digest.

#[local] Instance toy_laws : DigestLaws.
Proof. split. by intros a b H. Qed.

#[local] Instance no_urls : UrlParser := {| parse_web_url := λ _, None |}.

Definition operator : SessionUser := Build_SessionUser "u1" "op@example.org" "Op" "admin" "Administrator" [] "local".

Definition empty_db : db := Db [] [] [].

Lemma credential_lifecycle_witness :
  let s1 := run_state (createAgent 0 "a1" "tok" "Nas" None [] false operator) empty_db in
  run_result (enroll 1000 "cbroenroll_tok" "p1" "s1") s1 = Ok ("a1", "cbroagent_p1_s1") ∧
  authenticateOutcome "cbroagent_p1_s1" (run_state (enroll 1000 "cbroenroll_tok" "p1" "s1") s1) = AuthOk "a1".
Proof.
  pose proof (credential_lifecycle 0 1000 2000 "a1" "Nas" None [] false operator "tok" "p1" "s1" empty_db
    ltac:(discriminate) ltac:(discriminate) ltac:(discriminate) ltac:(discriminate)
    ltac:(apply (bool_decide_unpack _); vm_compute; exact I) ltac:(apply not_elem_of_nil) eq_refl eq_refl)
    as (_ & _ & _ & H).
  destruct (H ltac:(apply Z.leb_le; reflexivity)) as (H1 & _ & H2 & _). split; [exact H1|exact H2].
Defined.

Definition lan_host : HostKeyActor := Build_HostKeyActor "u1" None "wp1" "" (Some "10.20.0.7") (Some 22).

Definition pinned_db : db := Db [] [] [(adhocPinKey "wp1" "10.20.0.7" 22, JStr "fpA")].


Definition waypoint : Agent :=
  AgentRow "wp1" (Details "Lab" None None None None None None []) online Waypoint ["10.20.0.0/16"] false
    (Creds None None None None) None None None.

Lemma adhoc_targets_in_range_witness :
  normalizeCidrs [" 10.20.0.0/16 "] = Ok ["10.20.0.0/16"] ∧
  (run_result (resolveAdhocTarget true "wp1" "ssh" "10.20.0.7" (Some 22)) (Db [waypoint] [] []) =
    Ok (bare_target "wp1" "ssh" "10.20.0.7" 22 "adhoc")).
Proof.
  split; [vm_compute; reflexivity|].
  apply (proj2 (adhoc_targets_in_range [" 10.20.0.0/16 "] ["10.20.0.0/16"] true "wp1" "ssh" "10.20.0.7" (Some 22)
    (Db [waypoint] [] []) (bare_target "wp1" "ssh" "10.20.0.7" 22 "adhoc") waypoint
    ltac:(vm_compute; reflexivity) eq_refl eq_refl)).
  split; [reflexivity|]. split; [discriminate|]. split; [reflexivity|].
  exists (V4 169082887), 22. split; [vm_compute; reflexivity|]. split; [reflexivity|]. split; [split; discriminate|].
  split; [|reflexivity]. exists "10.20.0.0/16", (V4 169082880), 16.
  split; [left|]. split; vm_compute; reflexivity.
Defined.

Import Tickets.

Definition ssh_session : descriptor := Desc "a1" "t1" "u1" None "127.0.0.1" 22 "ssh" (Some "root") None None None.

Lemma ticket_redeemed_once_witness :
  (opened "tk" (ticket_run [Issue 0 30000 "tk" ssh_session; Redeem 100 "tk"; Redeem 200 "tk"] ∅).2 ≤ 1)%nat ∧
  (consume 30000 "tk" (ticket_run [Issue 0 30000 "tk" ssh_session] ∅).1).1 = Some ssh_session.
Proof.
  split.
  - apply (ticket_redeemed_once [Issue 0 30000 "tk" ssh_session; Redeem 100 "tk"; Redeem 200 "tk"] "tk").
    apply Nat.leb_le. vm_compute. reflexivity.
  - refine (proj2 (proj2 (ticket_redeemed_once [Issue 0 30000 "tk" ssh_session] "tk" _)) [] [] 0 30000 ssh_session 30000
      eq_refl _ _ _).
    + apply Nat.leb_le. vm_compute. reflexivity.
    + discriminate.
    + discriminate.
    + constructor.
Defined.
End examples.
