(* ===== verification/AgentRegistry.v ===== *)
(** * The live agents

    [fabric/agent-registry.service.ts] with the upgrade handler of
    [fabric/fabric-agent-relay.ts], the cadences of [fabric/fabric-config.ts]
    and the administration of agents in [fabric/fabric.service.ts].

    The registry keeps the connection of every live agent, a heartbeat timer
    per connection and a grace timer per agent that dropped; each connection
    carries a multiplexer of [StreamMux], which outlives it.  A handler that
    reads the database and acts on what it read later is cut at those awaits:
    what is left of it waits in [work], and other events come in between.  The
    handlers whose writes do not depend on what they read run in one step. *)
From S2P Require Import Prelude JsText Rbac Net Bearer Crypto Secrets StreamMux FabricTrust.
From stdpp Require Import gmap strings pretty options.

#[local] Open Scope Z_scope.
#[local] Set Default Proof Using "Type*".

(** ** [fabric/fabric-config.ts] *)

(** A positive integer from the environment, or the default. *)
Definition envInt (v : option string) (fallback : Z) : Z :=
  match v ≫= Number with Some n => if 0 <? n then n else fallback | None => fallback end.

Definition FABRIC_HEARTBEAT_MS : Z := 15000.
Definition FABRIC_MISSED_BEATS_OFFLINE : Z := 3.

(** The variables of the environment the registry reads. *)
Record environment := Environment {
  env_heartbeat : option string;
  env_missed : option string;
  env_grace : option string
}.

Definition heartbeatMs (e : environment) : Z := envInt (env_heartbeat e) FABRIC_HEARTBEAT_MS.
Definition missedBeatsOffline (e : environment) : Z := envInt (env_missed e) FABRIC_MISSED_BEATS_OFFLINE.
Definition offlineGraceMs (e : environment) : Z := envInt (env_grace e) 60000.
Definition beatWindowMs (e : environment) : Z := heartbeatMs e * (missedBeatsOffline e + 1).
Definition reconcileGraceMs (e : environment) : Z := Z.max (beatWindowMs e) (offlineGraceMs e) + 30000.

(** ** State *)

(** A [LiveAgent]; its multiplexer is the one numbered as its socket. *)
Record conn := Conn { ws : nat; lastBeat : Z; offlineTimer : nat }.

Record hello := Hello {
  h_agentVersion : option string;
  h_os : option string;
  h_osVersion : option string;
  h_hostname : option string;
  h_localIp : option string;
  h_targets : list (string * option Z * option string)   (** kind, integer port, label *)
}.

(** The rest of a handler that waits for the database, with what it holds.
    [FinalizeWrite] also remembers when the agent was given up, for the
    theorems. *)
Inductive rest :=
| Accepting (id : string)
| HelloRead (id : string) (sock : nat) (f : hello)
| HelloWrite (id : string) (f : hello) (before : Agent)
| FinalizeRead (id reason : string) (given_up : Z)
| FinalizeWrite (id reason : string) (row : Agent) (given_up : Z)
| Reconciling (staleBefore : Z) (rows : list (string * option Z))
| PurgeRead (id : string)
| PurgeWrite (row : Agent)
| RevokeWrite (row : Agent) (u : SessionUser)
| EnrollWrite (row : Agent) (prefix secret : string).

Record state (V : Type) := State {
  tables : db;
  vault : V;
  live : gmap string conn;
  pendingOffline : gmap string nat;
  offlineTimers : gmap nat (string * Z);           (** armed: agent, due *)
  graceTimers : gmap nat (string * string * Z);    (** armed: agent, reason, due *)
  uninstallTimers : list (string * Z);             (** armed: agent, due *)
  muxes : gmap nat mux;                            (** by socket *)
  work : gmap nat rest;
  fresh_id : nat                                   (** numbers timers, sockets, rests *)
}.
Arguments State {V} _ _ _ _ _ _ _ _ _ _.
Arguments tables {V} _.
Arguments vault {V} _.
Arguments live {V} _.
Arguments pendingOffline {V} _.
Arguments offlineTimers {V} _.
Arguments graceTimers {V} _.
Arguments uninstallTimers {V} _.
Arguments muxes {V} _.
Arguments work {V} _.
Arguments fresh_id {V} _.

Inductive agent_frame :=
| HelloAck (allow : option (list (string * Z) * list string))
| SetAllow (allow : list (string * Z)) (egress : list string)
| InstallCa (key : string)
| Uninstall (signature : option string).

Inductive effect :=
| Out (o : output)
| Frame (sock : nat) (f : agent_frame)
| CloseSocket (sock : nat) (code : option Z)
| Tunnel (sock : nat) (l : list StreamMux.effect)
| HttpAnswer (code : Z).

Section registry.
Context {V : Type} `{SecretStore V} `{Bearer.Digest}.

(** The environment; the CA key pushed to new hosts when auto-trust is on; the
    uninstall signature for a credential hash. *)
Context (env : environment) (autoTrustKey : option string) (uninstallToken : string → option string).

Abbreviation call := (svc (state V) effect http_error).

Definition with_tables (f : db → db) (s : state V) : state V :=
  State (f (tables s)) (vault s) (live s) (pendingOffline s) (offlineTimers s) (graceTimers s)
    (uninstallTimers s) (muxes s) (work s) (fresh_id s).
Definition with_uninstalls (f : list (string * Z) → list (string * Z)) (s : state V) : state V :=
  State (tables s) (vault s) (live s) (pendingOffline s) (offlineTimers s) (graceTimers s)
    (f (uninstallTimers s)) (muxes s) (work s) (fresh_id s).
Definition with_muxes (f : gmap nat mux → gmap nat mux) (s : state V) : state V :=
  State (tables s) (vault s) (live s) (pendingOffline s) (offlineTimers s) (graceTimers s)
    (uninstallTimers s) (f (muxes s)) (work s) (fresh_id s).

(** A handler waits: its rest is put aside. *)
Definition later (r : rest) (s : state V) : state V :=
  State (tables s) (vault s) (live s) (pendingOffline s) (offlineTimers s) (graceTimers s)
    (uninstallTimers s) (muxes s) (<[fresh_id s := r]> (work s)) (S (fresh_id s)).
Definition done_with (n : nat) (s : state V) : state V :=
  State (tables s) (vault s) (live s) (pendingOffline s) (offlineTimers s) (graceTimers s)
    (uninstallTimers s) (muxes s) (delete n (work s)) (fresh_id s).

Definition emit (o : output) : call unit := tell (Out o).

(** A call that only touches the tables. *)
Definition on_tables {A} (m : svc db output http_error A) : call A := λ s,
  let '(r, t, o) := m (tables s) in (r, with_tables (λ _, t) s, Out <$> o).

(** A step of the multiplexer of a socket. *)
Definition tunnel (sock : nat) (e : StreamMux.event) : call unit :=
  s ← get;
  match muxes s !! sock with
  | Some m => let '(m', l) := StreamMux.step e m in
              modify (with_muxes (<[sock := m']>)) ;; tell (Tunnel sock l)
  | None => mret tt
  end.

(** ** Connections and timers *)

Definition isOnline (id : string) (s : state V) : bool := bool_decide (is_Some (live s !! id)).

Definition statusOf (id : string) (stored : agent_status) (s : state V) : agent_status :=
  if bool_decide (stored = deleting) then deleting
  else if isOnline id s || bool_decide (is_Some (pendingOffline s !! id)) then online
  else if bool_decide (stored = FabricTrust.pending) || bool_decide (stored = revoked) then stored
  else offline.

(** [clearTimeout(entry.offlineTimer); live.delete(id)] *)
Definition drop_conn (id : string) (e : conn) (s : state V) : state V :=
  State (tables s) (vault s) (delete id (live s)) (pendingOffline s) (delete (offlineTimer e) (offlineTimers s))
    (graceTimers s) (uninstallTimers s) (muxes s) (work s) (fresh_id s).

(** The entry goes, with its timer and its streams, and its socket is closed. *)
Definition teardown (id : string) (code : option Z) : call unit :=
  s ← get;
  match live s !! id with
  | None => mret tt
  | Some e =>
      modify (drop_conn id e) ;;
      tunnel (ws e) Dispose ;;
      tell (CloseSocket (ws e) code)
  end.

Definition disconnect (id : string) (code : Z) : call unit := teardown id (Some code).

Definition clear_grace (id : string) (s : state V) : state V :=
  match pendingOffline s !! id with
  | Some n => State (tables s) (vault s) (live s) (delete id (pendingOffline s)) (offlineTimers s)
                (delete n (graceTimers s)) (uninstallTimers s) (muxes s) (work s) (fresh_id s)
  | None => s
  end.

(** [armOfflineTimer], the new entry and its multiplexer; the socket and the
    timer get the next two numbers. *)
Definition add_conn (now : Z) (id : string) (s : state V) : state V :=
  let sock := fresh_id s in let timer := S sock in
  State (tables s) (vault s) (<[id := Conn sock now timer]> (live s)) (pendingOffline s)
    (<[timer := (id, now + beatWindowMs env)]> (offlineTimers s)) (graceTimers s) (uninstallTimers s)
    (<[sock := new_mux]> (muxes s)) (work s) (S timer).

Definition register (now : Z) (id : string) : call unit :=
  modify (clear_grace id) ;;
  teardown id (Some 4000) ;;
  modify (add_conn now id).

Definition arm_grace (now : Z) (id reason : string) (s : state V) : state V :=
  let n := fresh_id s in
  State (tables s) (vault s) (live s) (<[id := n]> (pendingOffline s)) (offlineTimers s)
    (<[n := (id, reason, now + offlineGraceMs env)]> (graceTimers s)) (uninstallTimers s) (muxes s) (work s) (S n).

Definition beginOffline (now : Z) (id reason : string) : call unit :=
  teardown id None ;;
  s ← get;
  if bool_decide (is_Some (pendingOffline s !! id)) then mret tt
  else modify (arm_grace now id reason).

Definition handleClose (now : Z) (id : string) (sock : nat) : call unit :=
  s ← get;
  match live s !! id with
  | Some e => if (ws e =? sock)%nat then beginOffline now id "connection closed" else mret tt
  | None => mret tt
  end.

(** [finalizeOffline] up to its read. *)
Definition finalizeOffline (now : Z) (id reason : string) : call unit :=
  modify (clear_grace id) ;;
  s ← get;
  if isOnline id s then mret tt else modify (later (FinalizeRead id reason now)).

Definition finalize_read (id reason : string) (given_up : Z) : call unit :=
  s ← get;
  match findFirst (is_agent id) (agents (tables s)) with
  | None => mret tt
  | Some a =>
      if includes (ag_status a) [revoked; offline; deleting] then mret tt
      else modify (later (FinalizeWrite id reason a given_up))
  end.

Definition alert_of (key title body dedupe : string) : output :=
  OAlert (Alert key title body (Some dedupe) None None).

Definition host_suffix (h : option string) : string :=
  if truthy h then " (" +:+ default "" h +:+ ")" else "".

Definition finalize_write (id reason : string) (a : Agent) : call unit :=
  modify (with_tables (with_agents (updateMany (is_agent id) (set_status offline)))) ;;
  emit (audit_system "fabric.agent.offline" id) ;;
  emit (alert_of "fabric.agent_offline" ("Fabric agent offline: " +:+ ag_name (ag_details a))
    (ag_name (ag_details a) +:+ host_suffix (hostname (ag_details a)) +:+ " stopped checking in (" +:+ reason +:+ ").")
    ("fabric-offline:" +:+ id)).

(** The three timers.  A heartbeat timer that fires is no longer armed. *)
Definition fire_offline (now : Z) (n : nat) : call unit :=
  s ← get;
  match offlineTimers s !! n with
  | None => mret tt
  | Some (id, due) =>
      if now <? due then mret tt
      else
        modify (λ s, State (tables s) (vault s) (live s) (pendingOffline s) (delete n (offlineTimers s))
          (graceTimers s) (uninstallTimers s) (muxes s) (work s) (fresh_id s)) ;;
        beginOffline now id "missed heartbeats"
  end.

(** [pendingOffline.delete(agentId); void this.finalizeOffline(...)] *)
Definition fire_grace (now : Z) (n : nat) : call unit :=
  s ← get;
  match graceTimers s !! n with
  | None => mret tt
  | Some (id, reason, due) =>
      if now <? due then mret tt
      else
        modify (λ s, State (tables s) (vault s) (live s) (delete id (pendingOffline s)) (offlineTimers s)
          (delete n (graceTimers s)) (uninstallTimers s) (muxes s) (work s) (fresh_id s)) ;;
        finalizeOffline now id reason
  end.

Definition fire_uninstall (now : Z) (id : string) : call unit :=
  s ← get;
  if some (λ x, bool_decide (x.1 = id) && (x.2 <=? now)) (uninstallTimers s) then
    modify (with_uninstalls (deleteMany (λ x, bool_decide (x.1 = id) && (x.2 <=? now)))) ;;
    disconnect id 4003
  else mret tt.

(** The minute's reconciliation: the rows marked online, then one by one. *)
Definition reconcileOffline (now : Z) : call unit :=
  modify (λ s, later (Reconciling (now - reconcileGraceMs env)
    ((λ a, (ag_id a, lastSeenAt a)) <$> findMany (λ a, bool_decide (ag_status a = online)) (agents (tables s)))) s).

Definition reconcile_next (now staleBefore : Z) (rows : list (string * option Z)) : call unit :=
  match rows with
  | [] => mret tt
  | (id, lastSeen) :: rows' =>
      s ← get;
      (if isOnline id s || bool_decide (is_Some (pendingOffline s !! id)) then mret tt
       else if from_option (λ t, staleBefore <? t) false lastSeen then mret tt
       else finalizeOffline now id "no heartbeat (reconciled)") ;;
      modify (later (Reconciling staleBefore rows'))
  end.

(** ** Frames from the agents *)

Definition send (id : string) (f : agent_frame) : call unit :=
  s ← get;
  match live s !! id with Some e => tell (Frame (ws e) f) | None => mret tt end.

(** One target an agent reports about itself, on its own loopback. *)
Definition reported (suppress : bool) (t : string * option Z * option string) : option (string * Z * option string) :=
  let '(kind, port, label) := t in
  if negb (includes kind ["ssh"; "rdp"; "vnc"]) then None
  else match port with
  | None => None
  | Some p =>
      if (p <=? 0) || (65535 <? p) then None
      else if suppress && bool_decide (kind = "rdp") && (p =? 3389) then None
      else Some (kind, p, label)
  end.

Definition at_loopback (id kind : string) (port : Z) (t : AgentTarget) : bool :=
  bool_decide (t_agentId t = id) && bool_decide (t_kind t = kind) && bool_decide (t_host t = "127.0.0.1") &&
  (t_port t =? port).

Definition relabel (label : option string) (t : AgentTarget) : AgentTarget :=
  TargetRow (t_id t) (t_agentId t) (t_kind t) (t_host t) (t_port t)
    (match label with Some l => Some l | None => t_label t end) (t_group t) (t_secretRef t)
    (t_hostKey t) (t_source t) (t_webUrl t) (t_webIgnoreCertErrors t) (t_webAutofill t).

(** [newId] numbers the rows the database makes. *)
Definition upsert_target (newId id : string) (x : string * Z * option string) (ts : list AgentTarget) : list AgentTarget :=
  let '(kind, port, label) := x in
  if bool_decide (is_Some (findFirst (at_loopback id kind port) ts))
  then updateMany (at_loopback id kind port) (relabel label) ts
  else createRow (TargetRow newId id kind "127.0.0.1" port label None None None "discovered" None false None) ts.

Fixpoint upsert_all (newIds : nat → string) (n : nat) (id : string) (xs : list (string * Z * option string))
    (ts : list AgentTarget) : list AgentTarget :=
  match xs with
  | [] => ts
  | x :: xs' => upsert_all newIds (S n) id xs' (upsert_target (newIds n) id x ts)
  end.

Definition syncTargets (newIds : nat → string) (id : string) (ts : list (string * option Z * option string)) (s : db) : db :=
  match findFirst (is_agent id) (agents s) with
  | Some (AgentRow _ _ _ Waypoint _ _ _ _ _ _) => s
  | a =>
      let suppress := bool_decide ((a ≫= λ a, os (ag_details a)) = Some "linux") in
      let s' := with_targets (upsert_all newIds 0 id (omap (reported suppress) ts)) s in
      if suppress then with_targets (deleteMany (at_loopback id "rdp" 3389)) s' else s'
  end.

(** The addresses a Waypoint may dial, by first occurrence of [host:port]. *)
Fixpoint dedupe_hosts (seen : list string) (rows : list (string * Z)) : list (string * Z) :=
  match rows with
  | [] => []
  | (host, port) :: rows' =>
      let key := host +:+ ":" +:+ num_to_string port in
      if includes key seen then dedupe_hosts seen rows' else (host, port) :: dedupe_hosts (key :: seen) rows'
  end.

Definition computeAllow (id : string) (s : db) : list (string * Z) :=
  dedupe_hosts [] ((λ t, (t_host t, t_port t)) <$> findMany (λ t, bool_decide (t_agentId t = id)) (targets s)).

Definition pushAllow (id : string) : call bool :=
  s ← get;
  if negb (isOnline id s) then mret false
  else
    let egress := default [] (egressCidrs <$> findFirst (is_agent id) (agents (tables s))) in
    send id (SetAllow (computeAllow id (tables s)) egress) ;;
    mret true.

Definition requestUninstall (now : Z) (id : string) : call bool :=
  s ← get;
  match live s !! id with
  | None => mret false
  | Some e =>
      let hash := findFirst (is_agent id) (agents (tables s)) ≫= λ a, credHash (ag_creds a) in
      let token := if truthy hash then hash ≫= uninstallToken else None in
      tell (Frame (ws e) (Uninstall token)) ;;
      modify (with_uninstalls (λ l, l ++ [(id, now + 3000)])) ;;
      mret true
  end.

Definition requestInstallCa (id key : string) : call bool :=
  s ← get;
  if negb (isOnline id s) then mret false else send id (InstallCa key) ;; mret true.

Definition beat (now : Z) (id : string) (e : conn) (s : state V) : state V :=
  State (tables s) (vault s) (<[id := Conn (ws e) now (offlineTimer e)]> (live s)) (pendingOffline s)
    (offlineTimers s) (graceTimers s) (uninstallTimers s) (muxes s) (work s) (fresh_id s).

(** The hello: up to its read, from its read to its write, and its write with
    all that follows. *)
Definition onHello (now : Z) (id : string) (f : hello) : call unit :=
  s ← get;
  match live s !! id with
  | None => mret tt
  | Some e => modify (beat now id e) ;; modify (later (HelloRead id (ws e) f))
  end.

Definition hello_read (now : Z) (id : string) (sock : nat) (f : hello) : call unit :=
  s ← get;
  match findFirst (is_agent id) (agents (tables s)) with
  | None => tell (CloseSocket sock (Some 4003))
  | Some a =>
      if bool_decide (ag_status a = revoked) then tell (CloseSocket sock (Some 4003))
      else if bool_decide (ag_status a = deleting) then
        requestUninstall now id ;;
        emit (audit_system "fabric.agent.uninstall_pushed" id)
      else modify (later (HelloWrite id f a))
  end.

Definition either {A} (a b : option A) : option A := match a with Some _ => a | None => b end.

(** The columns a hello writes. *)
Definition greet (now : Z) (f : hello) (before a : Agent) : Agent :=
  let b := ag_details before in
  AgentRow (ag_id a)
    (Details (ag_name (ag_details a)) (either (h_hostname f) (hostname b)) (either (h_os f) (os b))
      (either (h_osVersion f) (osVersion b)) (either (h_agentVersion f) (agentVersion b))
      (either (h_localIp f) (localIp b)) (notes (ag_details a)) (tags (ag_details a)))
    online (ag_mode a) (egressCidrs a) (requireApproval a) (ag_creds a) (Some now) (caTrustedAt a) (pendingUninstall a).

Definition hello_write (newIds : nat → string) (now : Z) (id : string) (f : hello) (before : Agent) : call unit :=
  s ← get;
  match findFirst (is_agent id) (agents (tables s)) with
  | None => throw (Internal "Record to update not found.")
  | Some _ =>
      modify (with_tables (with_agents (updateMany (is_agent id) (greet now f before)))) ;;
      when (negb (bool_decide (ag_mode before = Waypoint)))
        (modify (with_tables (syncTargets newIds id (h_targets f)))) ;;
      when (negb (bool_decide (ag_status before = online)))
        (emit (audit_system "fabric.agent.online" id) ;;
         when (bool_decide (ag_status before = offline))
           (emit (alert_of "fabric.agent_online" ("Fabric agent back online: " +:+ ag_name (ag_details before))
             (ag_name (ag_details before) +:+ host_suffix (h_hostname f) +:+ " reconnected to Cerebro.")
             ("fabric-online:" +:+ id)))) ;;
      s ← get;
      send id (HelloAck (if bool_decide (ag_mode before = Waypoint)
                         then Some (computeAllow id (tables s), egressCidrs before) else None)) ;;
      match caTrustedAt before, autoTrustKey with
      | None, Some key => ok ← requestInstallCa id key;
                          when ok (emit (audit_system "fabric.ca.autotrust_pushed" id))
      | _, _ => mret tt
      end
  end.

Definition rearm (now : Z) (id : string) (e : conn) (s : state V) : state V :=
  let timer := fresh_id s in
  State (tables s) (vault s) (<[id := Conn (ws e) now timer]> (live s)) (pendingOffline s)
    (<[timer := (id, now + beatWindowMs env)]> (delete (offlineTimer e) (offlineTimers s))) (graceTimers s)
    (uninstallTimers s) (muxes s) (work s) (S timer).

Definition set_seen (now : Z) (a : Agent) : Agent :=
  AgentRow (ag_id a) (ag_details a) (ag_status a) (ag_mode a) (egressCidrs a) (requireApproval a) (ag_creds a)
    (Some now) (caTrustedAt a) (pendingUninstall a).
Definition set_trusted (now : Z) (a : Agent) : Agent :=
  AgentRow (ag_id a) (ag_details a) (ag_status a) (ag_mode a) (egressCidrs a) (requireApproval a) (ag_creds a)
    (lastSeenAt a) (Some now) (pendingUninstall a).

Definition onHeartbeat (now : Z) (id : string) : call unit :=
  s ← get;
  match live s !! id with
  | None => mret tt
  | Some e =>
      modify (rearm now id e) ;;
      modify (with_tables (with_agents (updateMany (is_agent id) (set_seen now))))
  end.

Definition onCaResult (now : Z) (id : string) (ok : bool) : call unit :=
  when ok (modify (with_tables (with_agents (updateMany (is_agent id) (set_trusted now))))) ;;
  emit (audit_system (if ok then "fabric.ca.host_trusted" else "fabric.ca.host_trust_failed") id).

(** [purgeUninstalledAgent], cut at its read. *)
Definition purge_read (id : string) : call unit :=
  s ← get;
  match findFirst (is_agent id) (agents (tables s)) with
  | Some a => if bool_decide (ag_status a = deleting) then modify (later (PurgeWrite a)) else mret tt
  | None => mret tt
  end.

(** Deleting an agent deletes its targets: the relation cascades. *)
Definition delete_agent (id : string) (s : db) : db :=
  with_targets (deleteMany (λ t, bool_decide (t_agentId t = id))) (with_agents (deleteMany (is_agent id)) s).

Definition purge_write (a : Agent) : call unit :=
  modify (with_tables (delete_agent (ag_id a))) ;;
  emit (audit_system "fabric.agent.uninstalled" (ag_id a)) ;;
  disconnect (ag_id a) 4003.

(** Control frames for the multiplexer, data frames, and new streams. *)
Definition agent_tunnel (id : string) (e : StreamMux.event) : call unit :=
  s ← get;
  match live s !! id with Some c => tunnel (ws c) e | None => mret tt end.

Definition openStream (id host : string) (port : Z) : call unit :=
  s ← get;
  match live s !! id with
  | Some c => tunnel (ws c) (Open host port)
  | None => throw (Internal "Agent is not connected.")
  end.

(** ** The upgrade of a socket *)

Definition connect (credential : string) : call unit :=
  s ← get;
  if bool_decide (credential = "") then tell (HttpAnswer 401)
  else match authenticateOutcome credential (tables s) with
  | AuthGone => tell (HttpAnswer 410)
  | AuthBad => tell (HttpAnswer 401)
  | AuthOk id => modify (later (Accepting id))
  end.

(** ** Administration *)

Definition find_agent (id : string) (s : state V) : result http_error Agent :=
  match findFirst (is_agent id) (agents (tables s)) with
  | Some a => Ok a
  | None => Err (NotFound "Agent not found.")
  end.

(** The disconnect comes first, the write after it. *)
Definition revokeAgent (id : string) (u : SessionUser) : call unit :=
  s ← get;
  a ← lift (find_agent id s);
  disconnect id 4003 ;;
  modify (later (RevokeWrite a u)).

Definition revoke_write (a : Agent) (u : SessionUser) : call unit :=
  s ← get;
  or_throw (findFirst (is_agent (ag_id a)) (agents (tables s))) (Internal "Record to update not found.") ;;
  modify (with_tables (with_agents (updateMany (is_agent (ag_id a)) revoke_row))) ;;
  emit (audit_of u "fabric.agent.revoked" (ag_id a)).

(** [.catch(() => undefined)] on the removal of a vault entry. *)
Definition forget_secret (u : SessionUser) (key : string) : call unit := λ s,
  let '(_, v, o) := store_remove key (Actor (Some (su_id u)) (Some (su_email u))) (vault s) in
  (Ok tt, State (tables s) v (live s) (pendingOffline s) (offlineTimers s) (graceTimers s)
     (uninstallTimers s) (muxes s) (work s) (fresh_id s), Out <$> o).

Definition secret_refs (id : string) (s : db) : list string :=
  omap (λ t, if truthy (t_secretRef t) then t_secretRef t else None)
    (findMany (λ t, bool_decide (t_agentId t = id)) (targets s)).

Definition set_deleting (now : Z) (by_ : string) (a : Agent) : Agent :=
  AgentRow (ag_id a) (ag_details a) deleting (ag_mode a) (egressCidrs a) (requireApproval a) (ag_creds a)
    (lastSeenAt a) (caTrustedAt a) (Some (now, by_)).

Definition deleteAgent (now : Z) (id : string) (u : SessionUser) : call unit :=
  s ← get;
  a ← lift (find_agent id s);
  for_each (secret_refs id (tables s)) (forget_secret u) ;;
  modify (with_tables (with_agents (updateMany (is_agent id) (set_deleting now (su_email u))))) ;;
  requestUninstall now id ;;
  emit (audit_of u "fabric.agent.delete_requested" id).

Definition retryUninstall (now : Z) (id : string) (u : SessionUser) : call bool :=
  s ← get;
  a ← lift (find_agent id s);
  throw_if (negb (bool_decide (ag_status a = deleting))) (BadRequest "Agent is not pending removal.") ;;
  b ← requestUninstall now id;
  emit (audit_of u "fabric.agent.uninstall_retried" id) ;;
  mret b.

Definition forceRemoveAgent (id : string) (u : SessionUser) : call unit :=
  s ← get;
  a ← lift (find_agent id s);
  throw_if (negb (bool_decide (ag_status a = deleting)))
    (BadRequest "Only a pending-removal agent can be force-removed.") ;;
  disconnect id 4003 ;;
  modify (with_tables (delete_agent id)) ;;
  emit (audit_of u "fabric.agent.force_removed" id).

(** The fields of the edit form; a field left out is not changed. *)
Record agent_patch := {
  pa_name : option string;
  pa_tags : option (list string);
  pa_notes : option (option string);
  pa_egressCidrs : option (list string);
  pa_requireApproval : option bool
}.

Definition patched (p : agent_patch) (egress : option (list string)) (a : Agent) : Agent :=
  let d := ag_details a in
  AgentRow (ag_id a)
    (Details (from_option trim (ag_name d) (pa_name p)) (hostname d) (os d) (osVersion d) (agentVersion d) (localIp d)
      (from_option (clip 2000) (notes d) (pa_notes p))
      (from_option (λ l, take 20 (filter (λ t, t ≠ "") (trim <$> l))) (tags d) (pa_tags p)))
    (ag_status a) (ag_mode a) (default (egressCidrs a) egress) (default (requireApproval a) (pa_requireApproval p))
    (ag_creds a) (lastSeenAt a) (caTrustedAt a) (pendingUninstall a).

Definition updateAgent (id : string) (p : agent_patch) (u : SessionUser) : call unit :=
  s ← get;
  a ← lift (find_agent id s);
  throw_if (bool_decide ((trim <$> pa_name p) = Some "")) (BadRequest "Name cannot be empty.") ;;
  throw_if (bool_decide (is_Some (pa_egressCidrs p)) && negb (bool_decide (ag_mode a = Waypoint)))
    (BadRequest "Egress ranges apply only to a Waypoint.") ;;
  egress ← match pa_egressCidrs p with
           | Some l => cs ← lift (normalizeCidrs l); mret (Some cs)
           | None => mret None
           end;
  modify (with_tables (with_agents (updateMany (is_agent id) (patched p egress)))) ;;
  emit (audit_of u "fabric.agent.updated" id) ;;
  match egress with Some _ => pushAllow id ;; mret tt | None => mret tt end.


(** ** Events *)

(** Everything that happens to the registry.  [Resume n] lets the rest of the
    handler numbered [n] go on; [Consumer] is a session using a stream. *)
Inductive event :=
| CreateAgent (id secret name : string) (os : option string) (tags : list string) (waypoint : bool) (u : SessionUser)
| Enroll (token prefix secret : string)
| Connect (credential : string)
| SocketClosed (id : string) (sock : nat)
| HelloFrame (id : string) (f : hello)
| Heartbeat (id : string)
| TargetsFrame (newIds : nat → string) (id : string) (ts : list (string * option Z * option string))
| CaResult (id : string) (ok : bool)
| UninstallAck (id : string)
| StreamFrame (id : string) (f : frame) (stream : option Z)
| StreamData (id : string) (stream : Z) (payload : bytes)
| OpenStream (id host : string) (port : Z)
| Consumer (sock : nat) (e : StreamMux.event)
| OfflineTimer (n : nat)
| GraceTimer (n : nat)
| UninstallTimer (id : string)
| Minute
| Resume (newIds : nat → string) (n : nat)
| Revoke (id : string) (u : SessionUser)
| Delete (id : string) (u : SessionUser)
| RetryUninstall (id : string) (u : SessionUser)
| ForceRemove (id : string) (u : SessionUser)
| Edit (id : string) (p : agent_patch) (u : SessionUser).

Definition ignore {A} (m : call A) : call unit := m ;; mret tt.

(** What a consumer may do with a stream it holds, and the timer of its open. *)
Definition consumer_event (e : StreamMux.event) : bool :=
  match e with Timeout _ | AttachData _ _ | AttachClose _ _ | Write _ _ | Close _ => true | _ => false end.

Definition resume (newIds : nat → string) (now : Z) (r : rest) : call unit :=
  match r with
  | Accepting id => register now id
  | HelloRead id sock f => hello_read now id sock f
  | HelloWrite id f a => hello_write newIds now id f a
  | FinalizeRead id reason g => finalize_read id reason g
  | FinalizeWrite id reason a _ => finalize_write id reason a
  | Reconciling stale rows => reconcile_next now stale rows
  | PurgeRead id => purge_read id
  | PurgeWrite a => purge_write a
  | RevokeWrite a u => revoke_write a u
  | EnrollWrite a prefix secret => ignore (on_tables (enroll_commit a prefix secret))
  end.

Definition handle (now : Z) (e : event) : call unit :=
  match e with
  | CreateAgent id secret name os tags w u => ignore (on_tables (createAgent now id secret name os tags w u))
  | Enroll token prefix secret => a ← on_tables (enroll_check now token); modify (later (EnrollWrite a prefix secret))
  | Connect credential => connect credential
  | SocketClosed id sock => handleClose now id sock
  | HelloFrame id f => onHello now id f
  | Heartbeat id => onHeartbeat now id
  | TargetsFrame newIds id ts => modify (with_tables (syncTargets newIds id ts))
  | CaResult id ok => onCaResult now id ok
  | UninstallAck id => modify (later (PurgeRead id))
  | StreamFrame id f n => agent_tunnel id (Control f n)
  | StreamData id n b => agent_tunnel id (Data n b)
  | OpenStream id host port => openStream id host port
  | Consumer sock e => if consumer_event e then tunnel sock e else mret tt
  | OfflineTimer n => fire_offline now n
  | GraceTimer n => fire_grace now n
  | UninstallTimer id => fire_uninstall now id
  | Minute => reconcileOffline now
  | Resume newIds n =>
      s ← get;
      match work s !! n with
      | Some r => modify (done_with n) ;; resume newIds now r
      | None => mret tt
      end
  | Revoke id u => revokeAgent id u
  | Delete id u => deleteAgent now id u
  | RetryUninstall id u => ignore (retryUninstall now id u)
  | ForceRemove id u => forceRemoveAgent id u
  | Edit id p u => updateAgent id p u
  end.

(** A history with its times, from a registry that starts with these tables. *)
Definition started (t : db) (v : V) : state V := State t v ∅ ∅ ∅ ∅ [] ∅ ∅ 0.

Definition react (x : state V * list effect) (te : Z * event) : state V * list effect :=
  (run_state (handle te.1 te.2) x.1, x.2 ++ run_out (handle te.1 te.2) x.1).

Definition run_history (t : db) (v : V) (h : list (Z * event)) : state V * list effect :=
  foldl react (started t v, []) h.


(** ** Links between connections, timers and sockets *)

(** Each connection has its armed heartbeat timer and each armed one its
    connection; the same for grace timers and agents that dropped; no agent is
    both; sockets are not shared; a multiplexer is disposed exactly when its
    socket is no agent's connection. *)
Record linked (s : state V) : Prop := {
  l_live id e : live s !! id = Some e → ∃ due, offlineTimers s !! offlineTimer e = Some (id, due);
  l_timer n id due : offlineTimers s !! n = Some (id, due) → ∃ e, live s !! id = Some e ∧ offlineTimer e = n;
  l_pending id n : pendingOffline s !! id = Some n → ∃ r due, graceTimers s !! n = Some (id, r, due);
  l_grace n id r due : graceTimers s !! n = Some (id, r, due) → pendingOffline s !! id = Some n;
  l_apart id n : pendingOffline s !! id = Some n → live s !! id = None;
  l_socket id id' e e' : live s !! id = Some e → live s !! id' = Some e' → ws e = ws e' → id = id';
  l_mux id e : live s !! id = Some e → ∃ m, muxes s !! ws e = Some m ∧ disposed m = false;
  l_dead k m : muxes s !! k = Some m → disposed m = false → ∃ id e, live s !! id = Some e ∧ ws e = k;
  l_fresh_timer n x : offlineTimers s !! n = Some x → (n < fresh_id s)%nat;
  l_fresh_grace n x : graceTimers s !! n = Some x → (n < fresh_id s)%nat;
  l_fresh_mux n x : muxes s !! n = Some x → (n < fresh_id s)%nat
}.

(** Not harmless: a rest that may end in an offline alert. *)
Definition gives_up (r : rest) : bool :=
  match r with FinalizeRead _ _ _ | FinalizeWrite _ _ _ _ | Reconciling _ _ => true | _ => false end.

(** A step that leaves the links alone. *)
Record soft (s s' : state V) : Prop := {
  s_live : live s' = live s;
  s_pending : pendingOffline s' = pendingOffline s;
  s_timers : offlineTimers s' = offlineTimers s;
  s_grace : graceTimers s' = graceTimers s;
  s_mux k : disposed <$> muxes s' !! k = disposed <$> muxes s !! k;
  s_fresh : (fresh_id s ≤ fresh_id s')%nat;
  s_work n r : work s' !! n = Some r → work s !! n = Some r ∨ gives_up r = false
}.

#[local] Instance soft_preorder : PreOrder soft.
Proof using.
  split.
  - intros s. split; try done. by left.
  - intros s1 s2 s3 [a1 a2 a3 a4 a5 a6 a7] [b1 b2 b3 b4 b5 b6 b7]. split; try congruence; try lia.
    intros n r [Hr|?]%b7; [by apply a7|by right].
Qed.

Lemma linked_soft s s' : soft s s' → linked s → linked s'.
Proof using.
  intros [a1 a2 a3 a4 a5 a6 a7] [b1 b2 b3 b4 b5 b6 b7 b8 b9 b10 b11].
  assert (Hm : ∀ k m, muxes s' !! k = Some m → ∃ m0, muxes s !! k = Some m0 ∧ disposed m0 = disposed m).
  { intros k m Hk. specialize (a5 k). rewrite Hk in a5. simpl in a5. destruct (muxes s !! k) as [m0|]; [|done].
    injection a5 as a5. eauto. }
  split; rewrite ?a1, ?a2, ?a3, ?a4; try done.
  - intros id e He. destruct (b7 id e He) as (m & Hk & Hd). specialize (a5 (ws e)). rewrite Hk in a5. simpl in a5.
    destruct (muxes s' !! ws e) as [m'|]; [|done]. injection a5 as a5. exists m'. split; [done|congruence].
  - intros k m Hk Hd. destruct (Hm k m Hk) as (m0 & Hk0 & Hd0). apply (b8 k m0); congruence.
  - intros n x Hn. specialize (b9 n x Hn). lia.
  - intros n x Hn. specialize (b10 n x Hn). lia.
  - intros n x Hn. destruct (Hm n x Hn) as (m0 & Hk0 & _). specialize (b11 n m0 Hk0). lia.
Qed.

Lemma soft_tables f s : soft s (with_tables f s).
Proof using. split; try done. by left. Qed.
Lemma soft_uninstalls f s : soft s (with_uninstalls f s).
Proof using. split; try done. by left. Qed.
Lemma soft_done n s : soft s (done_with n s).
Proof using. split; try done. simpl. intros k r [_ Hr]%lookup_delete_Some. by left. Qed.
Lemma soft_later r s : gives_up r = false → soft s (later r s).
Proof using.
  intros Hr. split; try done; simpl; [lia|]. intros n r' [[_ <-]|[_ H']]%lookup_insert_Some; [by right|by left].
Qed.

Lemma softly_on_tables {A} (m : svc db output http_error A) : along soft (on_tables m).
Proof using. intros s. unfold run_state, on_tables. destruct (m (tables s)) as [[r t] o]. apply soft_tables. Qed.

Lemma softly_forget u key : along soft (forget_secret u key).
Proof using.
  intros s. unfold run_state, forget_secret. destruct (store_remove _ _ _) as [[r v] o]. split; try done. by left.
Qed.

(** A multiplexer's step other than its disposal keeps it as it is. *)
Lemma on_object_disposed o f m : disposed (on_object o f m).1 = disposed m.
Proof using. unfold on_object. destruct (objects m !! o); [|done]. by destruct (f _). Qed.

Lemma drop_stream_disposed id m : disposed (drop_stream id m).1 = disposed m.
Proof using. unfold drop_stream. destruct (streams m !! id); [|done]. by rewrite on_object_disposed. Qed.

Lemma step_disposed e m : e ≠ Dispose → disposed (StreamMux.step e m).1 = disposed m.
Proof using.
  intros He. destruct e as [host port|p|f id|id b|o a|o a|o b|o|]; try done; simpl; rewrite ?on_object_disposed; try done.
  - unfold StreamMux.openStream. by destruct (disposed m) eqn:E.
  - unfold openTimeout. by destruct (timers m !! p).
  - unfold handleControl. destruct id as [id|]; [|done]. destruct f.
    + by destruct (StreamMux.pending m !! id).
    + destruct (StreamMux.pending m !! id); [done|apply drop_stream_disposed].
    + destruct (StreamMux.pending m !! id) as [p|].
      * simpl. pose proof (drop_stream_disposed id (set_waiting (delete id (StreamMux.pending m)) (delete p (timers m)) m)) as Hd.
        destruct (drop_stream id _). apply Hd.
      * pose proof (drop_stream_disposed id m). by destruct (drop_stream id m).
    + done.
  - unfold handleData. destruct (streams m !! id); [apply on_object_disposed|done].
  - unfold write. by destruct (objects m !! o).
  - unfold close. destruct (objects m !! o) as [x|]; [|done]. by destruct (closed x).
Qed.

Lemma each_disposed os m : disposed (each (λ o, on_object o (peerClosed o)) os m).1 = disposed m.
Proof using.
  revert m. induction os as [|o os IH]; intros m; [done|]. simpl.
  pose proof (on_object_disposed o (peerClosed o) m). destruct (on_object o _ m) as [m1 e1]. specialize (IH m1).
  destruct (each _ os m1). simpl in *. congruence.
Qed.

Lemma dispose_disposed m : disposed (StreamMux.step Dispose m).1 = true.
Proof using.
  simpl. unfold dispose. set (m1 := Mux _ _ _ _ _ _ _ _).
  pose proof (each_disposed (snd <$> map_to_list (streams m)) m1). by destruct (each _ _ m1).
Qed.

(** A run of [tunnel]. *)
Lemma tunnel_run sock e s :
  tunnel sock e s =
  match muxes s !! sock with
  | Some m => (Ok tt, with_muxes (<[sock := (StreamMux.step e m).1]>) s, [Tunnel sock (StreamMux.step e m).2])
  | None => (Ok tt, s, [])
  end.
Proof using.
  unfold tunnel. svc_run. destruct (muxes s !! sock) as [m|]; [|done].
  destruct (StreamMux.step e m). by svc_run.
Qed.

Lemma softly_tunnel sock e : e ≠ Dispose → along soft (tunnel sock e).
Proof using.
  intros He s. unfold run_state. rewrite tunnel_run. destruct (muxes s !! sock) as [m|] eqn:Hm; [|done].
  split; try done; [|by left]. intros k. simpl. destruct (decide (sock = k)) as [<-|Hk].
  - rewrite lookup_insert_eq, Hm. simpl. by rewrite step_disposed.
  - by rewrite lookup_insert_ne.
Qed.

Ltac softly := repeat first
  [ apply softly_on_tables | apply softly_forget | apply softly_tunnel; first [done | by intros ->]
  | apply soft_tables | apply soft_uninstalls | apply soft_done | by apply soft_later | along_step ].

Lemma softly_send id f : along soft (send id f).
Proof using. unfold send. softly. Qed.
#[local] Hint Resolve softly_send : along.
Lemma softly_requestUninstall now id : along soft (requestUninstall now id).
Proof using. unfold requestUninstall. softly. Qed.
#[local] Hint Resolve softly_requestUninstall : along.
Lemma softly_pushAllow id : along soft (pushAllow id).
Proof using. unfold pushAllow. softly. Qed.
#[local] Hint Resolve softly_pushAllow : along.
Lemma softly_requestInstallCa id key : along soft (requestInstallCa id key).
Proof using. unfold requestInstallCa. softly. Qed.
#[local] Hint Resolve softly_requestInstallCa : along.

(** The events all of whose steps are soft. *)
Definition is_soft (e : event) : bool :=
  match e with
  | SocketClosed _ _ | HelloFrame _ _ | Heartbeat _ | OfflineTimer _ | GraceTimer _ | UninstallTimer _ | Minute
  | Resume _ _ | Revoke _ _ | ForceRemove _ _ => false
  | _ => true
  end.

Lemma handle_soft now e : is_soft e = true → along soft (handle now e).
Proof using.
  intros He. assert (Hc : ∀ sock e', e = Consumer sock e' → along soft (if consumer_event e' then tunnel sock e' else mret tt)).
  { intros sock e' _. destruct (consumer_event e') eqn:Hc; softly. }
  destruct e; try done; try by apply Hc. all: simpl; unfold ignore, connect, onCaResult, emit, agent_tunnel, openStream,
    deleteAgent, retryUninstall, updateAgent; softly.
Qed.

(** The rests all of whose steps are soft. *)
Definition soft_rest (r : rest) : bool :=
  match r with
  | HelloRead _ _ _ | HelloWrite _ _ _ | FinalizeWrite _ _ _ _ | PurgeRead _ | RevokeWrite _ _ | EnrollWrite _ _ _ => true
  | _ => false
  end.

Lemma resume_soft newIds now r :
  soft_rest r = true → along soft (resume newIds now r).
Proof using.
  destruct r; intros Hr; try done; simpl; unfold hello_read, hello_write, finalize_write, purge_read, revoke_write, ignore, emit;
    softly.
Qed.

(** ** The steps that move links *)

Lemma linked_drop id e m s :
  linked s → live s !! id = Some e → disposed m = true →
  linked (with_muxes (<[ws e := m]>) (drop_conn id e s)).
Proof using.
  intros [b1 b2 b3 b4 b5 b6 b7 b8 b9 b10 b11] He Hm. split; simpl.
  - intros id' e' [Hne He']%lookup_delete_Some. destruct (b1 id' e' He') as [due Hd]. exists due.
    rewrite lookup_delete_ne; [done|]. intros Heq. rewrite <-Heq in Hd.
    destruct (b1 id e He) as [due' Hd']. congruence.
  - intros n id' due [Hne Hn]%lookup_delete_Some. destruct (b2 n id' due Hn) as (e' & He' & Ht).
    exists e'. split; [|done]. rewrite lookup_delete_ne; [done|]. intros <-. congruence.
  - done.
  - done.
  - intros id' n Hn. apply lookup_delete_None. right. by eapply b5.
  - intros id1 id2 e1 e2 [_ H1]%lookup_delete_Some [_ H2]%lookup_delete_Some. by apply b6.
  - intros id' e' [Hne He']%lookup_delete_Some. destruct (b7 id' e' He') as (m' & Hk & Hd). exists m'.
    rewrite lookup_insert_ne; [done|]. intros Hw. by apply Hne, (b6 _ _ _ _ He He').
  - intros k m' [[<- <-]|[Hne Hk]]%lookup_insert_Some Hd; [congruence|].
    destruct (b8 k m' Hk Hd) as (id' & e' & He' & Hw). exists id', e'. split; [|done].
    rewrite lookup_delete_ne; [done|]. intros <-. congruence.
  - intros n x [_ Hn]%lookup_delete_Some. by eapply b9.
  - done.
  - intros n x [[<- <-]|[_ Hn]]%lookup_insert_Some; [|by eapply b11]. destruct (b7 id e He) as (m' & Hk & _). by eapply b11.
Qed.

(** What a teardown leaves. *)
Lemma teardown_spec id code s :
  linked s → ∃ s' o, teardown id code s = (Ok tt, s', o) ∧ linked s' ∧
    live s' = delete id (live s) ∧ pendingOffline s' = pendingOffline s ∧ graceTimers s' = graceTimers s ∧
    work s' = work s ∧ tables s' = tables s ∧ (is_Some (live s !! id) ∨ s' = s).
Proof using.
  intros Hl. unfold teardown. svc_run. destruct (live s !! id) as [e|] eqn:He.
  - destruct (l_mux s Hl id e He) as (m & Hm & Hd). svc_run. unfold mbind, svc_bind. rewrite tunnel_run. simpl. rewrite Hm.
    eexists _, _. split; [reflexivity|]. split; [|by split_and!; [..|left]].
    apply (linked_drop id e _ s Hl He). apply dispose_disposed.
  - eexists _, _. split; [reflexivity|]. split_and!; try done; [|by right]. by rewrite delete_id.
Qed.

Lemma linked_clear id s : linked s → linked (clear_grace id s).
Proof using.
  intros [b1 b2 b3 b4 b5 b6 b7 b8 b9 b10 b11]. unfold clear_grace.
  destruct (pendingOffline s !! id) as [n|] eqn:Hn; [|by split]. split; simpl; try done.
  - intros id' n' [Hne Hn']%lookup_delete_Some. destruct (b3 id' n' Hn') as (r & due & Hg). exists r, due.
    rewrite lookup_delete_ne; [done|]. intros <-. destruct (b3 id n Hn) as (r' & due' & Hg'). congruence.
  - intros n' id' r due [Hne Hg]%lookup_delete_Some. apply b4 in Hg. rewrite lookup_delete_ne; [done|]. intros <-. congruence.
  - intros id' n' [_ Hn']%lookup_delete_Some. by eapply b5.
  - intros n' x [_ Hg]%lookup_delete_Some. by eapply b10.
Qed.

Lemma clear_grace_spec id s :
  live (clear_grace id s) = live s ∧ work (clear_grace id s) = work s ∧ tables (clear_grace id s) = tables s ∧
  (linked s → pendingOffline (clear_grace id s) !! id = None) ∧
  (∀ id' n, pendingOffline (clear_grace id s) !! id' = Some n → pendingOffline s !! id' = Some n) ∧
  (∀ n x, graceTimers (clear_grace id s) !! n = Some x → graceTimers s !! n = Some x).
Proof using.
  unfold clear_grace. destruct (pendingOffline s !! id) as [n|] eqn:Hn; [|done]. split_and!; simpl; try done.
  - intros _. apply lookup_delete_eq.
  - by intros id' n' [_ ?]%lookup_delete_Some.
  - by intros n' x [_ ?]%lookup_delete_Some.
Qed.

Lemma linked_add now id s :
  linked s → live s !! id = None → pendingOffline s !! id = None → linked (add_conn now id s).
Proof using.
  intros [b1 b2 b3 b4 b5 b6 b7 b8 b9 b10 b11] Hn Hp. split; simpl; try done.
  - intros id' e [[<- <-]|[Hne He]]%lookup_insert_Some; simpl; [rewrite lookup_insert_eq; eauto|].
    destruct (b1 id' e He) as [due Hd]. exists due. rewrite lookup_insert_ne; [done|].
    intros Heq. apply b9 in Hd. lia.
  - intros n id' due [[<- [= <- <-]]|[Hne Ht]]%lookup_insert_Some; [rewrite lookup_insert_eq; by eexists|].
    destruct (b2 n id' due Ht) as (e & He & Het). exists e. rewrite lookup_insert_ne; [done|]. intros <-. congruence.
  - intros id' n Hp'. rewrite lookup_insert_ne; [by eapply b5|]. intros <-. congruence.
  - intros id1 id2 e1 e2 [[<- <-]|[Hne1 H1]]%lookup_insert_Some [[<- <-]|[Hne2 H2]]%lookup_insert_Some; simpl; try done.
    + intros Hw. destruct (b7 id2 e2 H2) as (m & Hm & _). apply b11 in Hm. lia.
    + intros Hw. destruct (b7 id1 e1 H1) as (m & Hm & _). apply b11 in Hm. lia.
    + by apply b6.
  - intros id' e [[<- <-]|[Hne He]]%lookup_insert_Some; simpl; [rewrite lookup_insert_eq; by eexists|].
    destruct (b7 id' e He) as (m & Hm & Hd). exists m. rewrite lookup_insert_ne; [done|]. intros Heq. apply b11 in Hm. lia.
  - intros k m [[<- <-]|[Hne Hk]]%lookup_insert_Some Hd; [exists id; rewrite lookup_insert_eq; by eexists|].
    destruct (b8 k m Hk Hd) as (id' & e & He & Hw). exists id', e. rewrite lookup_insert_ne; [done|]. intros <-. congruence.
  - intros n x [[<- _]|[_ Hx]]%lookup_insert_Some; [lia|]. apply b9 in Hx. lia.
  - intros n x Hx%b10. lia.
  - intros n x [[<- _]|[_ Hx]]%lookup_insert_Some; [lia|]. apply b11 in Hx. lia.
Qed.

Lemma linked_arm now id reason s :
  linked s → live s !! id = None → pendingOffline s !! id = None → linked (arm_grace now id reason s).
Proof using.
  intros [b1 b2 b3 b4 b5 b6 b7 b8 b9 b10 b11] Hn Hp. split; simpl; try done.
  - intros id' n [[<- <-]|[Hne Hn']]%lookup_insert_Some; [rewrite lookup_insert_eq; eauto|].
    destruct (b3 id' n Hn') as (r & due & Hg). exists r, due. rewrite lookup_insert_ne; [done|].
    intros Heq. apply b10 in Hg. lia.
  - intros n id' r due [[<- [= <- <- <-]]|[Hne Hg]]%lookup_insert_Some; [by rewrite lookup_insert_eq|].
    apply b4 in Hg. rewrite lookup_insert_ne; [done|]. intros <-. congruence.
  - intros id' n [[<- _]|[Hne Hn']]%lookup_insert_Some; [done|]. by eapply b5.
  - intros n x Hx%b9. lia.
  - intros n x [[<- _]|[_ Hx]]%lookup_insert_Some; [lia|]. apply b10 in Hx. lia.
  - intros n x Hx%b11. lia.
Qed.

(** A changed entry for the same socket, with its timer. *)
Lemma linked_beat now id e s : linked s → live s !! id = Some e → linked (beat now id e s).
Proof using.
  intros [b1 b2 b3 b4 b5 b6 b7 b8 b9 b10 b11] He. split; simpl; try done.
  - intros id' e' [[<- <-]|[_ He']]%lookup_insert_Some; simpl; by eapply b1.
  - intros n id' due Ht. destruct (b2 n id' due Ht) as (e' & He' & Hn). destruct (decide (id = id')) as [<-|Hne].
    + rewrite lookup_insert_eq. eexists. split; [done|]. simpl. congruence.
    + rewrite lookup_insert_ne by done. eauto.
  - intros id' n Hn. rewrite lookup_insert_ne; [by eapply b5|]. intros <-. apply b5 in Hn. congruence.
  - intros id1 id2 e1 e2 [[<- <-]|[_ H1]]%lookup_insert_Some [[<- <-]|[_ H2]]%lookup_insert_Some; simpl; try done; by apply b6.
  - intros id' e' [[<- <-]|[_ He']]%lookup_insert_Some; simpl; by eapply b7.
  - intros k m Hk Hd. destruct (b8 k m Hk Hd) as (id' & e' & He' & Hw). destruct (decide (id = id')) as [<-|Hne].
    + exists id. rewrite lookup_insert_eq. eexists. split; [done|]. simpl. congruence.
    + exists id', e'. by rewrite lookup_insert_ne.
Qed.

Lemma linked_rearm now id e s : linked s → live s !! id = Some e → linked (rearm now id e s).
Proof using.
  intros [b1 b2 b3 b4 b5 b6 b7 b8 b9 b10 b11] He. split; simpl.
  - intros id' e' [[<- <-]|[Hne He']]%lookup_insert_Some; simpl; [rewrite lookup_insert_eq; eauto|].
    destruct (b1 id' e' He') as [due Hd]. exists due.
    rewrite lookup_insert_ne by (intros Heq; apply b9 in Hd; lia). rewrite lookup_delete_ne; [done|].
    intros Heq. rewrite <-Heq in Hd. destruct (b1 id e He) as [due' Hd']. congruence.
  - intros n id' due [[<- [= <- <-]]|[Hne [Hne' Ht]%lookup_delete_Some]]%lookup_insert_Some;
      [rewrite lookup_insert_eq; by eexists|].
    destruct (b2 n id' due Ht) as (e' & He' & Hn). exists e'. rewrite lookup_insert_ne; [done|]. intros <-. congruence.
  - done.
  - done.
  - intros id' n Hn. rewrite lookup_insert_ne; [by eapply b5|]. intros <-. apply b5 in Hn. congruence.
  - intros id1 id2 e1 e2 [[<- <-]|[_ H1]]%lookup_insert_Some [[<- <-]|[_ H2]]%lookup_insert_Some; simpl; try done; by apply b6.
  - intros id' e' [[<- <-]|[_ He']]%lookup_insert_Some; simpl; by eapply b7.
  - intros k m Hk Hd. destruct (b8 k m Hk Hd) as (id' & e' & He' & Hw). destruct (decide (id = id')) as [<-|Hne].
    + exists id. rewrite lookup_insert_eq. eexists. split; [done|]. simpl. congruence.
    + exists id', e'. by rewrite lookup_insert_ne.
  - intros n x [[<- _]|[_ [_ Hx]%lookup_delete_Some]]%lookup_insert_Some; [lia|]. apply b9 in Hx. lia.
  - intros n x Hx%b10. lia.
  - intros n x Hx%b11. lia.
Qed.

(** ** What an event can do *)

(** A step that starts no countdown and gives no agent up. *)
Definition quiet (s s' : state V) : Prop :=
  linked s → linked s' ∧ (∀ n x, graceTimers s' !! n = Some x → graceTimers s !! n = Some x) ∧
  ∀ n r, work s' !! n = Some r → work s !! n = Some r ∨ gives_up r = false.

#[local] Instance quiet_preorder : PreOrder quiet.
Proof using.
  split.
  - intros s Hl. split_and!; [done|done|by left].
  - intros s1 s2 s3 H1 H2 Hl. destruct (H1 Hl) as (Hl2 & Hg2 & Hw2), (H2 Hl2) as (Hl3 & Hg3 & Hw3).
    split_and!; [done|by eauto|]. intros n r [Hr|?]%Hw3; [by apply Hw2|by right].
Qed.

Lemma quiet_soft s s' : soft s s' → quiet s s'.
Proof using. intros Hs Hl. split_and!; [by eapply linked_soft|by rewrite (s_grace _ _ Hs)|apply Hs]. Qed.

Lemma quietly_soft {A} (m : call A) : along soft m → along quiet m.
Proof using. intros Hm s. apply quiet_soft, Hm. Qed.

Lemma quietly_teardown id code : along quiet (teardown id code).
Proof using.
  intros s Hl. destruct (teardown_spec id code s Hl) as (s' & o & Hr & Hl' & _ & _ & Hg & Hw & _).
  unfold run_state. rewrite Hr. simpl. rewrite Hg, Hw. split_and!; try done. by left.
Qed.

Lemma quietly_register now id : along quiet (register now id).
Proof using.
  intros s Hl. unfold register, run_state. svc_run.
  destruct (clear_grace_spec id s) as (_ & Cw & _ & Cp & _ & Cg).
  destruct (teardown_spec id (Some 4000) _ (linked_clear id s Hl)) as (s' & o & Hr & Hl' & Hv & Hp & Hg & Hw & _).
  unfold mbind, svc_bind. rewrite Hr. simpl. split_and!.
  - apply linked_add; [done|rewrite Hv; apply lookup_delete_eq|rewrite Hp; by apply Cp].
  - intros n x. rewrite Hg. apply Cg.
  - intros n r. rewrite Hw, Cw. by left.
Qed.

#[local] Hint Resolve quietly_teardown quietly_register : along.
Ltac quietly := repeat first [solve [apply quietly_soft; softly] | along_step].

(** The origin of a rest that gives up. *)
Definition snapshot (t : db) : list (string * option Z) :=
  (λ a, (ag_id a, lastSeenAt a)) <$> findMany (λ a, bool_decide (ag_status a = online)) (agents t).

Definition origin (now : Z) (s : state V) (r : rest) : Prop :=
  match r with
  | FinalizeRead id _ g =>
      g = now ∧ live s !! id = None ∧
      ((∃ n reason due, graceTimers s !! n = Some (id, reason, due) ∧ due ≤ now) ∨
       (pendingOffline s !! id = None ∧
        ∃ n stale seen rows, work s !! n = Some (Reconciling stale ((id, seen) :: rows)) ∧ from_option (λ t, t ≤ stale) True seen))
  | FinalizeWrite id reason _ g => ∃ n, work s !! n = Some (FinalizeRead id reason g)
  | Reconciling stale rows =>
      (∃ n row, work s !! n = Some (Reconciling stale (row :: rows))) ∨
      (stale = now - reconcileGraceMs env ∧ rows = snapshot (tables s))
  | _ => True
  end.

Definition progress (now : Z) (s s' : state V) : Prop :=
  linked s' ∧
  (∀ n id r due, graceTimers s' !! n = Some (id, r, due) →
     graceTimers s !! n = Some (id, r, due) ∨ is_Some (live s !! id) ∧ due = now + offlineGraceMs env) ∧
  ∀ n r, work s' !! n = Some r → gives_up r = true → work s !! n = Some r ∨ origin now s r.

Lemma progress_quiet now s s' : linked s → quiet s s' → progress now s s'.
Proof using.
  intros Hl Hq. destruct (Hq Hl) as (Hl' & Hg & Hw). split_and!; [done|by left; apply Hg|].
  intros n r [Hr|?]%Hw Hgu; [by left|congruence].
Qed.

Lemma progress_same now s : linked s → progress now s s.
Proof using. intros Hl. split_and!; [done|by left..]. Qed.

Lemma beginOffline_progress now id reason s :
  linked s → is_Some (live s !! id) → progress now s (run_state (beginOffline now id reason) s).
Proof using.
  intros Hl [e He]. unfold beginOffline, run_state.
  destruct (teardown_spec id None s Hl) as (s1 & o & Hr & Hl1 & Hv & Hp & Hg & Hw & _).
  unfold mbind at 1, svc_bind at 1. rewrite Hr. rewrite run_get.
  assert (Hpn : pendingOffline s1 !! id = None).
  { rewrite Hp. destruct (pendingOffline s !! id) as [n|] eqn:Hn; [|done]. apply (l_apart s Hl) in Hn. congruence. }
  rewrite bool_decide_eq_false_2 by (rewrite Hpn; by intros [? ?]). simpl. split_and!.
  - apply linked_arm; [done|rewrite Hv; apply lookup_delete_eq|done].
  - intros n id' r due. simpl. rewrite Hg. intros [[_ [= <- _ <-]]|[_ ?]]%lookup_insert_Some; [right; by split|by left].
  - intros n r. simpl. rewrite Hw. by left.
Qed.

(** A fired heartbeat timer is the connection's own. *)
Lemma fire_offline_run now n s :
  linked s → run_state (fire_offline now n) s =
  match offlineTimers s !! n with
  | Some (id, due) => if now <? due then s else run_state (beginOffline now id "missed heartbeats") s
  | None => s
  end.
Proof using.
  intros Hl. unfold fire_offline, run_state. rewrite run_get. destruct (offlineTimers s !! n) as [[id due]|] eqn:Hn; [|done].
  destruct (now <? due); [done|]. rewrite run_modify.
  destruct (l_timer s Hl n id due Hn) as (e & He & <-). unfold beginOffline, teardown. svc_run. simpl. rewrite He. svc_run.
  unfold mbind, svc_bind. rewrite !tunnel_run. simpl.
  assert (Hd : ∀ m : gmap nat (string * Z), delete (offlineTimer e) (delete (offlineTimer e) m) = delete (offlineTimer e) m)
    by (intros m; by rewrite delete_delete_eq).
  unfold drop_conn. simpl. rewrite Hd. done.
Qed.

(** The links do not mention the rests. *)
Lemma linked_later r s : linked s → linked (later r s).
Proof using.
  intros [b1 b2 b3 b4 b5 b6 b7 b8 b9 b10 b11]. split; simpl; try done; intros n x Hx.
  - apply b9 in Hx. lia.
  - apply b10 in Hx. lia.
  - apply b11 in Hx. lia.
Qed.

Lemma finalize_progress now id reason s0 s :
  linked s →
  (∀ n x, graceTimers s !! n = Some x → graceTimers s0 !! n = Some x) →
  (∀ n r, work s !! n = Some r → gives_up r = true → work s0 !! n = Some r ∨ origin now s0 r) →
  (live s !! id = None → origin now s0 (FinalizeRead id reason now)) →
  progress now s0 (run_state (finalizeOffline now id reason) s).
Proof using.
  intros Hl Hg Hw Ho. unfold finalizeOffline, run_state. svc_run. unfold isOnline.
  destruct (clear_grace_spec id s) as (Cv & Cw & _ & _ & _ & Cg). pose proof (linked_clear id s Hl) as Hlc. rewrite Cv.
  case_bool_decide as Hon; simpl.
  - split_and!; [done|left; by apply Hg, Cg|]. intros n r. rewrite Cw. apply Hw.
  - assert (live s !! id = None) as Hn by (destruct (live s !! id); [by destruct Hon; eexists|done]). split_and!.
    + by apply linked_later.
    + left. by apply Hg, Cg.
    + intros n r. simpl. rewrite Cw. intros [[_ <-]|[_ Hr]]%lookup_insert_Some Hgu; [right; by apply Ho|by apply Hw].
Qed.

Lemma fire_grace_progress now n s : linked s → progress now s (run_state (fire_grace now n) s).
Proof using.
  intros Hl. unfold fire_grace, run_state. rewrite run_get. destruct (graceTimers s !! n) as [[[id reason] due]|] eqn:Hn;
    [|by apply progress_same].
  destruct (Z.ltb_spec now due); [by apply progress_same|].
  rewrite run_modify. pose proof (l_grace s Hl _ _ _ _ Hn) as Hp.
  assert (State (tables s) (vault s) (live s) (delete id (pendingOffline s)) (offlineTimers s) (delete n (graceTimers s))
    (uninstallTimers s) (muxes s) (work s) (fresh_id s) = clear_grace id s) as -> by (unfold clear_grace; by rewrite Hp).
  destruct (clear_grace_spec id s) as (Cv & Cw & _ & _ & _ & Cg). apply finalize_progress.
  - by apply linked_clear.
  - apply Cg.
  - intros k r. rewrite Cw. by left.
  - intros _. split_and!; [done|by eapply l_apart|]. left. exists n, reason, due. by split.
Qed.

Lemma reconcile_next_progress now stale rows n0 s :
  linked s → work s !! n0 = Some (Reconciling stale rows) →
  progress now s (run_state (reconcile_next now stale rows) (done_with n0 s)).
Proof using.
  intros Hl Hn0. assert (Hq : quiet s (done_with n0 s)) by apply quiet_soft, soft_done.
  destruct rows as [|[id seen] rows]; [by apply progress_quiet|]. simpl.
  set (s1 := done_with n0 s). assert (Hl1 : linked s1) by by apply Hq.
  (* the check of one row, then the rest of the rows *)
  assert (Hm : ∀ m : call unit, (∀ s', (m s').1.1 = Ok tt) → progress now s (run_state m s1) →
    progress now s (run_state (m ;; modify (later (Reconciling stale rows))) s1)).
  { intros m Hok (P1 & P2 & P3). unfold run_state, mbind, svc_bind in *. specialize (Hok s1).
    destruct (m s1) as [[r s'] o]. simpl in *. subst r. simpl. split_and!; [by apply linked_later|done|].
    intros n r. simpl. intros [[_ <-]|[_ Hr]]%lookup_insert_Some Hgu; [|by apply P3].
    right. left. by exists n0, (id, seen). }
  unfold run_state. rewrite run_get. case_match eqn:Hon; [apply Hm; [done|by apply progress_quiet]|].
  apply orb_false_iff in Hon as [Ho%bool_decide_eq_false Hp%bool_decide_eq_false].
  destruct (from_option _ false seen) eqn:Hseen; [apply Hm; [done|by apply progress_quiet]|].
  apply Hm.
  { intros s'. unfold finalizeOffline. svc_run. by case_match. }
  apply finalize_progress; [done|done| |].
  - intros k r Hr _. left. simpl in Hr. by apply lookup_delete_Some in Hr as [_ ?].
  - intros Hn. split_and!; [done|done|]. right. split.
    + simpl in Hp. destruct (pendingOffline s !! id); [|done]. by destruct Hp; eexists.
    + exists n0, stale, seen, rows. split; [done|]. destruct seen as [t|]; [|done]. simpl in *. lia.
Qed.

Lemma handle_progress now e s : linked s → progress now s (run_state (handle now e) s).
Proof using.
  intros Hl. destruct (is_soft e) eqn:He; [by apply progress_quiet, quietly_soft, handle_soft|].
  destruct e; try done; simpl.
  - unfold run_state, handleClose. rewrite run_get. destruct (live s !! id) as [c|] eqn:Hc; [|by apply progress_same].
    destruct (_ =? _)%nat; [by apply beginOffline_progress; [|eexists]|by apply progress_same].
  - unfold run_state, onHello. rewrite run_get. destruct (live s !! id) as [c|] eqn:Hc; [|by apply progress_same].
    rewrite run_modify. apply progress_quiet; [done|]. etransitivity; [|by apply quiet_soft, soft_later].
    intros _. split_and!; [by apply linked_beat|by intros|by left].
  - unfold run_state, onHeartbeat. rewrite run_get. destruct (live s !! id) as [c|] eqn:Hc; [|by apply progress_same].
    rewrite run_modify. apply progress_quiet; [done|]. etransitivity; [|apply quiet_soft, soft_tables].
    intros _. split_and!; [by apply linked_rearm|done|by left].
  - rewrite fire_offline_run by done. destruct (offlineTimers s !! n) as [[id due]|] eqn:Hn; [|by apply progress_same].
    destruct (now <? due); [by apply progress_same|].
    apply beginOffline_progress; [done|]. destruct (l_timer s Hl n id due Hn) as (c & Hc & _). by eexists.
  - by apply fire_grace_progress.
  - apply progress_quiet; [done|]. enough (along quiet (fire_uninstall now id)) as Hm by apply Hm. unfold fire_uninstall, disconnect. quietly.
  - unfold run_state, reconcileOffline, modify. simpl. split_and!; [by apply linked_later|by left|].
    intros n r. simpl. intros [[_ <-]|[_ Hr]]%lookup_insert_Some _; [|by left]. right. by right.
  - unfold run_state. rewrite run_get. destruct (work s !! n) as [r|] eqn:Hr; [|by apply progress_same].
    rewrite run_modify. assert (Hq : quiet s (done_with n s)) by apply quiet_soft, soft_done.
    destruct (soft_rest r) eqn:Hs.
    { apply progress_quiet; [done|]. etransitivity; [exact Hq|]. by apply quietly_soft, resume_soft. }
    destruct r as [id| | |id reason g| |stale rows| |a| |]; try done; simpl.
    + apply progress_quiet; [done|]. etransitivity; [exact Hq|]. apply quietly_register.
    + unfold finalize_read. rewrite run_get. simpl.
      destruct (findFirst _ _) as [a|]; [|by apply progress_quiet].
      destruct (includes _ _); [by apply progress_quiet|]. destruct (Hq Hl) as (Hl1 & _ & Hw).
      split_and!; [by apply linked_later|by left|]. simpl.
      intros k r [[_ <-]|[_ [_ Hk]%lookup_delete_Some]]%lookup_insert_Some _; [|by left]. right. by exists n.
    + by apply reconcile_next_progress.
    + apply progress_quiet; [done|]. etransitivity; [exact Hq|]. enough (along quiet (purge_write a)) as Hm by apply Hm.
      unfold purge_write, disconnect, emit. quietly.
  - apply progress_quiet; [done|]. enough (along quiet (revokeAgent id u)) as Hm by apply Hm. unfold revokeAgent, disconnect, emit. quietly.
  - apply progress_quiet; [done|]. enough (along quiet (forceRemoveAgent id u)) as Hm by apply Hm. unfold forceRemoveAgent, disconnect, emit. quietly.
Qed.

(** ** Histories *)

Section histories.
Context (t : db) (v : V).

Abbreviation run := (run_history t v).
Abbreviation after h := (run h).1.

Lemma run_history_snoc h te : run (h ++ [te]) = react (run h) te.
Proof using. unfold run_history. by rewrite foldl_app. Qed.

Lemma after_snoc h te : after (h ++ [te]) = (handle te.1 te.2 (after h)).1.2.
Proof using. by rewrite run_history_snoc. Qed.

Lemma linked_started : linked (started t v).
Proof using. by split. Qed.

Lemma linked_after h : linked (after h).
Proof using.
  induction h as [|te h IH] using rev_ind; [apply linked_started|].
  rewrite after_snoc. by apply handle_progress.
Qed.

Lemma progress_after te h : progress te.1 (after h) (after (h ++ [te])).
Proof using. rewrite after_snoc. apply handle_progress, linked_after. Qed.

(** C29: connections and timers stay in step.  After any history: the armed
    heartbeat timers are those of the connections, one each; the armed grace
    timers are those of the agents that dropped, one each; an agent that is
    connected is not counted down; two agents do not share a socket; and a
    multiplexer is undisposed exactly while its socket is a connection. *)
Theorem timers_follow_connections (h : list (Z * event)) :
  let s := after h in
  (∀ id n, (∃ due, offlineTimers s !! n = Some (id, due)) ↔ (∃ e, live s !! id = Some e ∧ offlineTimer e = n)) ∧
  (∀ id n, (∃ reason due, graceTimers s !! n = Some (id, reason, due)) ↔ pendingOffline s !! id = Some n) ∧
  (∀ id n, pendingOffline s !! id = Some n → isOnline id s = false) ∧
  (∀ id id' e e', live s !! id = Some e → live s !! id' = Some e' → ws e = ws e' → id = id') ∧
  (∀ k, (∃ m, muxes s !! k = Some m ∧ disposed m = false) ↔ (∃ id e, live s !! id = Some e ∧ ws e = k)).
Proof using.
  intros s. destruct (linked_after h) as [b1 b2 b3 b4 b5 b6 b7 b8 _ _ _]. fold s in b1, b2, b3, b4, b5, b6, b7, b8.
  split_and!.
  - intros id n. split; [intros (due & Hd); by eapply b2|]. intros (e & He & <-). by apply b1.
  - intros id n. split; [intros (r & due & Hd); by eapply b4|]. apply b3.
  - intros id n Hn. unfold isOnline. rewrite (b5 id n Hn). by apply bool_decide_eq_false_2; intros [? ?].
  - exact b6.
  - intros k. split; [intros (m & Hm & Hd); by eapply b8|]. intros (id & e & He & <-). by eapply b7.
Qed.
End histories.
End registry.

(** ** Deleting an agent *)

Section deletion.
Context {V : Type} `{SecretStoreLaws V} (uninstallToken : string → option string).

Lemma forget_run u key (s : state V) :
  run_result (forget_secret u key) s = Ok tt ∧
  tables (run_state (forget_secret u key) s) = tables s ∧ live (run_state (forget_secret u key) s) = live s ∧
  (∀ k, peek k (vault (run_state (forget_secret u key) s)) = if bool_decide (k = key) then Ok None else peek k (vault s)) ∧
  (∀ k f, Frame k f ∉ run_out (forget_secret u key) s).
Proof using All.
  unfold run_result, run_state, run_out, forget_secret.
  pose proof (remove_peek key (Actor (Some (su_id u)) (Some (su_email u))) (vault s)) as H1'.
  pose proof (remove_peek_ne key (Actor (Some (su_id u)) (Some (su_email u))) (vault s)) as H2'.
  unfold run_state in H1', H2'. destruct (store_remove _ _ _) as [[r x] o]. simpl in *. split_and!; try done.
  - intros k. case_bool_decide as Hk; [by subst|by apply H2'].
  - intros k f Hin. by apply list_elem_of_fmap in Hin as (y & ? & _).
Qed.

Lemma forget_keys_run u keys (s : state V) :
  let m := for_each keys (forget_secret u) in
  run_result m s = Ok tt ∧ tables (run_state m s) = tables s ∧ live (run_state m s) = live s ∧
  (∀ k, peek k (vault (run_state m s)) = if includes k keys then Ok None else peek k (vault s)) ∧
  (∀ k f, Frame k f ∉ run_out m s).
Proof using All.
  revert s. induction keys as [|key keys IH]; intros s; [split_and!; [done..|intros k f; apply not_elem_of_nil]|]. cbn [for_each].
  destruct (forget_run u key s) as (Fr & Ft & Fl & Fp & Fo). unfold run_result, run_state, run_out, mbind, svc_bind in *.
  destruct (forget_secret u key s) as [[r s1] o]. simpl in *. subst r.
  destruct (IH s1) as (Ir & It & Il & Ip & Io). unfold run_result, run_state, run_out in *.
  destruct (for_each keys _ s1) as [[r s2] o2]. simpl in *. split_and!; [done|congruence|congruence| |].
  - intros k. rewrite Ip, Fp. unfold includes. repeat case_bool_decide; try done; set_solver.
  - intros k f. rewrite elem_of_app. by intros [?%Fo|?%Io].
Qed.

Lemma secret_refs_spec id k (x : db) :
  k ∈ secret_refs id x ↔ ∃ tg, tg ∈ targets x ∧ t_agentId tg = id ∧ t_secretRef tg = Some k ∧ k ≠ "".
Proof using.
  unfold secret_refs. rewrite list_elem_of_omap. setoid_rewrite elem_of_findMany. split.
  - intros (tg & [Hi%bool_decide_eq_true Ht] & Hk). exists tg. destruct (t_secretRef tg) as [r|]; [|done].
    destruct (truthy (Some r)) eqn:Hr; [|done]. injection Hk as ->. split_and!; [done..|by intros ->].
  - intros (tg & Ht & Hi & Hk & Hne). exists tg. rewrite Hk. split; [split; [by apply bool_decide_eq_true|done]|].
    unfold truthy. by rewrite bool_decide_eq_false_2.
Qed.

Lemma requestUninstall_run now id (s : state V) :
  requestUninstall uninstallToken now id s =
  match live s !! id with
  | None => (Ok false, s, [])
  | Some e =>
      let hash := findFirst (is_agent id) (agents (tables s)) ≫= λ a, credHash (ag_creds a) in
      (Ok true, with_uninstalls (λ l, l ++ [(id, now + 3000)]) s,
       [Frame (ws e) (AgentRegistry.Uninstall (if truthy hash then hash ≫= uninstallToken else None))])
  end.
Proof using. unfold requestUninstall. svc_run. by destruct (live s !! id). Qed.

(** C31: deleting an agent leaves no credential of its behind.  The deletion
    succeeds on every known agent: the vault entries its targets name are gone
    and no other entry's answer changes, the row (and no other) is marked with
    the time and the administrator, the targets and the connections stay for
    the uninstallation, and the machine is told to uninstall exactly when it is
    connected, by a frame signed for its credential when it has one. *)
Theorem deletion_clears_credentials (now : Z) (id : string) (u : SessionUser) (s : state V) (a : Agent) :
  findFirst (is_agent id) (agents (tables s)) = Some a →
  let m := deleteAgent uninstallToken now id u in
  run_result m s = Ok tt ∧
  (∀ tg k, tg ∈ targets (tables s) → t_agentId tg = id → t_secretRef tg = Some k → k ≠ "" →
     peek k (vault (run_state m s)) = Ok None) ∧
  (∀ k, (∀ tg, tg ∈ targets (tables s) → t_agentId tg = id → t_secretRef tg ≠ Some k) →
     peek k (vault (run_state m s)) = peek k (vault s)) ∧
  tables (run_state m s) = with_agents (updateMany (is_agent id) (set_deleting now (su_email u))) (tables s) ∧
  live (run_state m s) = live s ∧
  (∀ k f, Frame k f ∈ run_out m s ↔
     ∃ e, live s !! id = Some e ∧ k = ws e ∧
       f = AgentRegistry.Uninstall (if truthy (credHash (ag_creds a)) then credHash (ag_creds a) ≫= uninstallToken else None)).
Proof using All.
  intros Ha m. destruct (forget_keys_run u (secret_refs id (tables s)) s) as (Fr & Ft & Fl & Fp & Fo).
  assert (Hm : m s = let '(_, s1, o) := for_each (secret_refs id (tables s)) (forget_secret u) s in
    let s2 := with_tables (with_agents (updateMany (is_agent id) (set_deleting now (su_email u)))) s1 in
    let '(_, s3, o') := requestUninstall uninstallToken now id s2 in
    (Ok tt, s3, o ++ o' ++ [Out (audit_of u "fabric.agent.delete_requested" id)])).
  { unfold m, deleteAgent, find_agent, emit. rewrite run_get, Ha. svc_run. unfold run_result in Fr. unfold mbind at 1, svc_bind at 1.
    destruct (for_each _ _ s) as [[r s1] o]. simpl in Fr. subst r. svc_run. unfold mbind, svc_bind. rewrite requestUninstall_run.
    by destruct (live _ !! id). }
  unfold run_result, run_state, run_out in *. rewrite Hm. destruct (for_each _ _ s) as [[r s1] o]. simpl in *. subst r.
  rewrite requestUninstall_run. simpl. rewrite Ft, Fl.
  assert (Hh : findFirst (is_agent id) (updateMany (is_agent id) (set_deleting now (su_email u)) (agents (tables s)))
    = Some (set_deleting now (su_email u) a)).
  { rewrite findFirst_updateMany by done. rewrite Ha. simpl. by apply findFirst_Some in Ha as [_ ->]. }
  split_and!.
  - by destruct (live s !! id).
  - intros tg k Ht Hi Hk Hne. specialize (Fp k).
    rewrite (proj2 (includes_true k _)) in Fp by (apply secret_refs_spec; by exists tg).
    by destruct (live s !! id).
  - intros k Hk. specialize (Fp k). rewrite (proj2 (includes_false k _)) in Fp.
    + by destruct (live s !! id).
    + rewrite secret_refs_spec. intros (tg & Ht & Hi & Hs & _). by apply (Hk tg).
  - by destruct (live s !! id); simpl; rewrite Ft.
  - by destruct (live s !! id).
  - intros k f. destruct (live s !! id) as [e|]; simpl.
    + rewrite Hh. simpl. rewrite elem_of_app, !elem_of_cons, elem_of_nil. split.
      * intros [?%Fo|[[= -> ->]|[?|[]]]]; [done|by exists e|done].
      * intros (e' & [= <-] & -> & ->). by right; left.
    + rewrite elem_of_app, elem_of_cons, elem_of_nil. split; [by intros [?%Fo|[?|[]]]|by intros (e & ? & _)].
Qed.
End deletion.

(** ** A concrete registry: a digest that writes its input, a vault that marks
    its entries *)

Section example.
#[local] Existing Instance toy_digest.
#[local] Existing Instance plain_vault.
#[local] Existing Instance plain_vault_laws.

Definition nas : Agent :=
  AgentRow "a1" (Details "Nas" (Some "nas.lan") None None None None None []) online Endpoint [] false
    (Creds None None (Some "p1") (Some (sha256_hex "s1"))) (Some 0) None None.
Definition empty_vault : Secrets.state := Secrets.State [] [] None.

Definition keyed_target : AgentTarget :=
  TargetRow "t1" "a1" "ssh" "127.0.0.1" 22 None None (Some "fabric/a1/t1") None "manual" None false None.
Definition with_credential : AgentRegistry.state Secrets.state :=
  started (Db [nas] [keyed_target] [])
    (run_state (store_set 0 "n" "fabric/a1/t1" "{}" no_meta admin) empty_vault).

Lemma deletion_clears_credentials_witness :
  peek "fabric/a1/t1" (vault with_credential) = Ok (Some "{}") ∧
  peek "fabric/a1/t1" (vault (run_state (deleteAgent (λ _, None) 5000 "a1" operator) with_credential)) = Ok None.
Proof.
  split; [vm_compute; reflexivity|].
  destruct (deletion_clears_credentials (λ _, None) 5000 "a1" operator with_credential nas eq_refl) as (_ & Hk & _).
  apply (Hk keyed_target); [left|reflexivity|reflexivity|discriminate].
Defined.
End example.
