(* ===== verification/AgentHistory.v ===== *)
(** * Histories of the agent registry

    What holds of every history of the events of [AgentRegistry]: an offline
    alert is preceded by an outage as long as the grace, and the row of an agent
    goes only on request.  Then the races the cuts of the handlers allow, as
    runs. *)
From S2P Require Import Prelude JsText Rbac Net Bearer Crypto Secrets StreamMux FabricTrust AgentRegistry.
From stdpp Require Import gmap strings pretty options.

#[local] Open Scope Z_scope.
#[local] Set Default Proof Using "Type*".

Section history.
Context {V : Type} `{SecretStoreLaws V} `{Bearer.Digest}.
Context (env : environment) (autoTrustKey : option string) (uninstallToken : string → option string).
Context (t : db) (v : V).

Abbreviation step te s := (handle env autoTrustKey uninstallToken te.1 te.2 s).
Abbreviation run := (run_history env autoTrustKey uninstallToken t v).
Abbreviation after h := (run h).1.

(** ** Outages *)

(** The time of the last event that found the agent connected. *)
Definition last_up (id : string) (h : list (Z * event)) : option Z :=
  (foldl (λ x te, (react env autoTrustKey uninstallToken x.1 te, if isOnline id x.1.1 then Some te.1 else x.2))
     ((started t v, []), None) h).2.

Lemma last_up_snoc id h te :
  last_up id (h ++ [te]) = if isOnline id (after h) then Some te.1 else last_up id h.
Proof using.
  unfold last_up. rewrite foldl_app. simpl. match goal with |- context [foldl ?f _ h] => set (F := f) end.
  assert (∀ x, (foldl F x h).1 = foldl (react env autoTrustKey uninstallToken) x.1 h) as Hx; [|by rewrite Hx].
  clear. induction h as [|te h IH]; intros x; [done|]. apply (IH (F x te)).
Qed.

(** A countdown started when the agent was last connected. *)
Lemma grace_due h n id reason due :
  graceTimers (after h) !! n = Some (id, reason, due) →
  ∃ u, last_up id h = Some u ∧ due = u + offlineGraceMs env.
Proof using.
  induction h as [|te h IH] using rev_ind; [done|]. rewrite last_up_snoc. intros Hn.
  destruct (progress_after env autoTrustKey uninstallToken t v te h) as (_ & Hg & _). destruct (Hg n id reason due Hn) as [Hn'|[Hup ->]].
  - unfold isOnline. rewrite (l_apart _ (linked_after env autoTrustKey uninstallToken t v h) id n) by by eapply l_grace; [apply linked_after|].
    rewrite bool_decide_eq_false_2 by by intros [? ?]. by apply IH.
  - unfold isOnline. rewrite bool_decide_eq_true_2 by done. by eexists.
Qed.

(** The agent is given up after [h], at [g]: it is not connected, and either it
    was last connected a grace before, or it was found by a reconciliation that
    read its row as online and not seen for the reconciliation's grace. *)
Definition given_up_after (id : string) (h : list (Z * event)) (g : Z) : Prop :=
  isOnline id (after h) = false ∧
  ((∃ u, last_up id h = Some u ∧ u + offlineGraceMs env ≤ g) ∨
   (pendingOffline (after h) !! id = None ∧
    ∃ h0 tm e h' seen, h = h0 ++ (tm, e) :: h' ∧ (id, seen) ∈ snapshot (tables (after h0)) ∧
      from_option (λ s, s ≤ tm - reconcileGraceMs env) True seen)).

Definition given_up_in (id : string) (h : list (Z * event)) (g : Z) : Prop :=
  ∃ h1 e h2, h = h1 ++ (g, e) :: h2 ∧ given_up_after id h1 g.

(** What a waiting rest rests on. *)
Definition founded (h : list (Z * event)) (r : rest) : Prop :=
  match r with
  | FinalizeRead id _ g | FinalizeWrite id _ _ g => given_up_in id h g
  | Reconciling stale rows =>
      ∃ h0 tm e h', h = h0 ++ (tm, e) :: h' ∧ stale = tm - reconcileGraceMs env ∧
        ∀ x, x ∈ rows → x ∈ snapshot (tables (after h0))
  | _ => True
  end.

Lemma founded_snoc h te r : founded h r → founded (h ++ [te]) r.
Proof using.
  destruct r; try done; simpl.
  1,2: intros (h1 & e & h2 & -> & Hg); exists h1, e, (h2 ++ [te]); by rewrite <-app_assoc.
  intros (h0 & tm & e & h' & -> & Hr). exists h0, tm, e, (h' ++ [te]). by rewrite <-app_assoc.
Qed.

Lemma work_founded h n r : work (after h) !! n = Some r → founded h r.
Proof using.
  revert n r. induction h as [|te h IH] using rev_ind; [done|]. intros n r Hr.
  destruct (gives_up r) eqn:Hgu; [|by destruct r].
  destruct (progress_after env autoTrustKey uninstallToken t v te h) as (_ & _ & Hw). destruct (Hw n r Hr Hgu) as [Hr'|Ho]; [by eapply founded_snoc, IH|].
  destruct r as [| | |id reason g|id reason a g|stale rows| | | |]; try done; simpl in Ho.
  - destruct Ho as (-> & Hl & Ho). exists h, te.2, []. destruct te as [g e]. split; [done|]. split.
    { unfold isOnline. rewrite Hl. by apply bool_decide_eq_false_2; intros [? ?]. }
    destruct Ho as [(n' & re & due & Hn & Hd)|(Hp & n' & stale & seen & rows & Hn & Hs)].
    + left. destruct (grace_due _ _ _ _ _ Hn) as (u & Hu & ->). by exists u.
    + right. split; [done|]. destruct (IH _ _ Hn) as (h0 & tm & e0 & h' & -> & -> & Hin).
      exists h0, tm, e0, h', seen. split_and!; [done|apply Hin; by left|done].
  - destruct Ho as (n' & Hn). by apply (founded_snoc h te (FinalizeRead id reason g)), (IH n').
  - destruct Ho as [(n' & row & Hn)|[-> ->]].
    + apply (founded_snoc h te (Reconciling stale rows)). destruct (IH _ _ Hn) as (h0 & tm & e & h' & Hh & Hs & Hin).
      exists h0, tm, e, h'. split_and!; [done..|]. intros x Hx. apply Hin. by right.
    + exists h, te.1, te.2, []. split_and!; [by destruct te|done|done].
Qed.
(** ** Who raises the alert *)

Definition offline_alert (id : string) (o : effect) : Prop :=
  ∃ a, o = Out (OAlert a) ∧ al_key a = "fabric.agent_offline" ∧ al_dedupeKey a = Some ("fabric-offline:" +:+ id).

Definition calm (o : effect) : Prop :=
  match o with Out (OAlert a) => al_key a ≠ "fabric.agent_offline" | _ => True end.

Abbreviation quiet_call m := (emits calm (m : svc (state V) effect http_error _)).

Lemma calm_on_tables {A} (m : svc db output http_error A) :
  emits (λ o, ∃ a, o = OAudit a) m → quiet_call (on_tables m).
Proof using.
  intros Hm s. specialize (Hm (tables s)). unfold run_out, on_tables in *.
  destruct (m (tables s)) as [[r t'] o]. simpl in *.
  apply Forall_fmap. eapply Forall_impl; [exact Hm|]. by intros x [a ->].
Qed.

Lemma calm_forget u key : quiet_call (forget_secret u key).
Proof using All.
  intros s. unfold run_out, forget_secret. pose proof (remove_out key (Actor (Some (su_id u)) (Some (su_email u))) (vault s)) as Ho.
  unfold run_out in Ho. destruct (store_remove _ _ _) as [[r x] o]. simpl in *.
  apply Forall_fmap. eapply Forall_impl; [exact Ho|]. by intros y [a ->].
Qed.

Lemma calm_tunnel sock e : quiet_call (tunnel sock e).
Proof using.
  intros s. unfold run_out. rewrite tunnel_run. destruct (muxes s !! sock); [|done]. simpl. by repeat constructor.
Qed.

Ltac audits := unfold createAgent, enroll_check, enroll_commit, generateEnrollToken, generateCredential; emits; by eexists.
Ltac calm := repeat first
  [ apply calm_forget | apply calm_tunnel | apply calm_on_tables; solve [audits] | emits_step | done ].

Lemma calm_teardown id code : quiet_call (teardown id code).
Proof using. unfold teardown. calm. Qed.
#[local] Hint Resolve calm_teardown : emits.
Lemma calm_send id f : quiet_call (send id f).
Proof using. unfold send. calm. Qed.
#[local] Hint Resolve calm_send : emits.
Lemma calm_uninstall now id : quiet_call (requestUninstall uninstallToken now id).
Proof using. unfold requestUninstall. calm. Qed.
#[local] Hint Resolve calm_uninstall : emits.

Lemma calm_finalize now id reason : quiet_call (finalizeOffline now id reason).
Proof using. unfold finalizeOffline. calm. Qed.
#[local] Hint Resolve calm_finalize : emits.
Lemma calm_begin now id reason : quiet_call (beginOffline env now id reason).
Proof using. unfold beginOffline. calm. Qed.
#[local] Hint Resolve calm_begin : emits.

Definition is_finalize (r : rest) : bool := match r with FinalizeWrite _ _ _ _ => true | _ => false end.
Definition is_resume (e : event) : bool := match e with Resume _ _ => true | _ => false end.

Lemma resume_calm newIds now r :
  is_finalize r = false →
  quiet_call (resume env autoTrustKey uninstallToken newIds now r).
Proof using.
  destruct r; intros Hr; try done; simpl;
    unfold register, hello_read, hello_write, requestInstallCa, finalize_read, reconcile_next, purge_read, purge_write,
      revoke_write, ignore, disconnect, emit; calm.
Qed.

Lemma handle_calm now e :
  is_resume e = false → quiet_call (handle env autoTrustKey uninstallToken now e).
Proof using All.
  destruct e; intros He; try done; simpl;
    unfold ignore, connect, handleClose, onHello, onHeartbeat, onCaResult, agent_tunnel, openStream, fire_offline, fire_grace,
      fire_uninstall, reconcileOffline, revokeAgent, deleteAgent, retryUninstall, forceRemoveAgent, updateAgent, pushAllow,
      disconnect, emit; calm.
Qed.

(** Only the write of an agent given up raises it. *)
Lemma alert_origin te s id o :
  o ∈ (step te s).2 → offline_alert id o →
  ∃ newIds n reason a g, te.2 = Resume newIds n ∧ work s !! n = Some (FinalizeWrite id reason a g).
Proof using All.
  destruct te as [now e]. simpl. intros Ho (al & -> & Hk & Hd).
  assert (Hcalm : ∀ m : svc (state V) effect http_error unit, quiet_call m → Out (OAlert al) ∉ (m s).2).
  { intros m Hm Hin. specialize (Hm s). rewrite Forall_forall in Hm. by apply (Hm _ Hin). }
  destruct (is_resume e) eqn:He; [|by apply (handle_calm now) in He as Hc%Hcalm].
  destruct e as [| | | | | | | | | | | | | | | | |newIds n| | | | |]; try done. simpl in Ho. rewrite run_get in Ho.
  destruct (work s !! n) as [r|] eqn:Hr; [|by apply not_elem_of_nil in Ho].
  destruct (is_finalize r) eqn:Hf.
  2: { exfalso. revert Ho. apply Hcalm. apply emits_bind; [apply emits_modify|intros _; by apply resume_calm]. }
  destruct r as [| | | |id' reason a g| | | | |]; try done. exists newIds, n, reason, a, g. split; [done|].
  assert (id' = id) as ->; [|done].
  rewrite run_modify in Ho. unfold resume, finalize_write, emit in Ho. rewrite run_modify, run_tell in Ho. simpl in Ho.
  rewrite !elem_of_cons in Ho. destruct Ho as [Ho|[Ho|Ho%not_elem_of_nil]]; [done| |done].
  injection Ho as ->. simpl in Hd. by simplify_eq/=.
Qed.

(** C10: an offline alert is preceded by an outage.  If an event raises the alert
    that an agent stopped checking in, then at some earlier point of the history
    the agent was given up: it was not connected then, and either the last event
    that had found it connected lies at least the grace period back, or the
    minute's reconciliation had read its row as online with no sign of life for
    its own, longer, grace and no countdown was running.  A connection that
    comes back within the grace raises nothing. *)
Theorem offline_alert_needs_outage (h : list (Z * event)) (te : Z * event) (id : string) (o : effect) :
  o ∈ (step te (after h)).2 → offline_alert id o →
  ∃ h1 g e h2, h = h1 ++ (g, e) :: h2 ∧ isOnline id (after h1) = false ∧
    ((∃ u, last_up id h1 = Some u ∧ u + offlineGraceMs env ≤ g) ∨
     (pendingOffline (after h1) !! id = None ∧
      ∃ h0 tm e0 h' seen, h1 = h0 ++ (tm, e0) :: h' ∧ (id, seen) ∈ snapshot (tables (after h0)) ∧
        from_option (λ s, s ≤ tm - reconcileGraceMs env) True seen)).
Proof using All.
  intros Ho Ha. destruct (alert_origin _ _ _ _ Ho Ha) as (newIds & n & reason & a & g & _ & Hw).
  destruct (work_founded h n _ Hw) as (h1 & e & h2 & -> & Hg). by exists h1, g, e, h2.
Qed.

(** ** Rows that go *)

Definition ids (s : state V) : list string := ag_id <$> agents (tables s).

(** The row is marked for removal. *)
Definition marked (id : string) (x : db) : Prop := ∃ a, a ∈ agents x ∧ ag_id a = id ∧ ag_status a = deleting.

Section tame.
Context (may_mark : string → Prop).

(** A change of the tables that removes no agent and marks only some. *)
Record keeping (x y : db) : Prop := {
  k_ids id : id ∈ ag_id <$> agents x → id ∈ ag_id <$> agents y;
  k_marked id : marked id y → marked id x ∨ may_mark id
}.

#[export] Instance keeping_preorder : PreOrder keeping.
Proof using.
  split; [split; by auto|]. intros x y z [a1 a2] [b1 b2]. split; [by auto|].
  intros id [Hm|?]%b2; [by apply a2|by right].
Qed.

Lemma keeping_update p f x :
  (∀ a, ag_id (f a) = ag_id a) →
  (∀ a, a ∈ agents x → p a = true → ag_status (f a) = deleting → ag_status a = deleting ∨ may_mark (ag_id a)) →
  keeping x (with_agents (updateMany p f) x).
Proof using.
  intros Hid Hst. split; simpl.
  - intros id. by rewrite fmap_updateMany.
  - intros id (a & (b & Hb & ->)%elem_of_updateMany & Hi & Hs). destruct (p b) eqn:Hp; [|by left; exists b].
    rewrite Hid in Hi. destruct (Hst b Hb Hp Hs) as [?|?]; [by left; exists b|right; congruence].
Qed.

Lemma keeping_same x y : agents x = agents y → keeping x y.
Proof using. intros He. split; unfold marked; rewrite He; auto. Qed.

Lemma keeping_create row x : ag_status row ≠ deleting → keeping x (with_agents (createRow row) x).
Proof using.
  intros Hr. split; simpl.
  - intros id. rewrite fmap_createRow, elem_of_app. by left.
  - intros id (a & [Ha| ->]%elem_of_createRow & Hi & Hs); [by left; exists a|done].
Qed.

Lemma keeping_sync newIds id ts x : keeping x (syncTargets newIds id ts x).
Proof using. apply keeping_same. unfold syncTargets. by repeat case_match. Qed.

(** A step that removes and marks no agent, and prepares no purge. *)
Definition purges (r : rest) : bool := match r with PurgeRead _ | PurgeWrite _ => true | _ => false end.

Record tame (s s' : state V) : Prop := {
  t_tables : keeping (tables s) (tables s');
  t_work n r : work s' !! n = Some r → purges r = true → work s !! n = Some r
}.

#[export] Instance tame_preorder : PreOrder tame.
Proof using.
  split; [intros s; split; [done|by auto]|]. intros s1 s2 s3 [a1 a2] [b1 b2]. split; [by transitivity (tables s2)|auto].
Qed.

Lemma tame_tables f s : keeping (tables s) (f (tables s)) → tame s (with_tables f s).
Proof using. by split. Qed.

Lemma tame_same s s' : tables s' = tables s → work s' = work s → tame s s'.
Proof using. intros H1' H2'. split; [by rewrite H1'|by rewrite H2']. Qed.

Lemma tame_later r s : purges r = false → tame s (later r s).
Proof using. intros Hr. split; [done|]. simpl. intros n r' [[_ <-]|[_ H']]%lookup_insert_Some ?; congruence. Qed.

Lemma tame_done n s : tame s (done_with n s).
Proof using. split; [done|]. simpl. by intros k r [_ Hr]%lookup_delete_Some _. Qed.

Lemma tame_clear id s : tame s (clear_grace id s).
Proof using. apply tame_same; unfold clear_grace; by case_match. Qed.

Lemma tamely_on_tables {A} (m : svc db output http_error A) : along keeping m → along tame (on_tables m).
Proof using.
  intros Hm s. specialize (Hm (tables s)). unfold run_state, on_tables in *. destruct (m (tables s)) as [[r x] o].
  by apply tame_tables.
Qed.

Lemma tamely_forget u key : along tame (forget_secret u key).
Proof using.
  intros s. unfold run_state, forget_secret. destruct (store_remove _ _ _) as [[r x] o]. by apply tame_same.
Qed.

Lemma tamely_tunnel sock e : along tame (tunnel sock e).
Proof using. intros s. unfold run_state. rewrite tunnel_run. by destruct (muxes s !! sock). Qed.

Ltac row := intros; simpl in *; first
  [ done | by left
  | match goal with E : is_agent _ _ = true |- _ => apply bool_decide_eq_true in E; subst; right; eauto end ].
Ltac keeping := unfold createAgent, enroll_check, enroll_commit, generateEnrollToken, generateCredential;
  repeat first [apply keeping_create; done | apply keeping_update; solve [row] | along_step].
Ltac tamely := repeat first
  [ apply tamely_forget | apply tamely_tunnel | apply tamely_on_tables; solve [keeping]
  | by apply tame_same | by apply tame_later | apply tame_done | apply tame_clear
  | apply tame_tables; first [apply keeping_sync | apply keeping_update; solve [row]]
  | match goal with
    | |- tame _ (later _ ?s) => transitivity s; [|by apply tame_later]
    | |- tame _ (with_tables _ ?s) => transitivity s; [|apply tame_tables]
    end
  | apply keeping_update; solve [row]
  | along_step ].

Lemma tamely_teardown id code : along tame (teardown id code).
Proof using. unfold teardown. tamely. Qed.
#[local] Hint Resolve tamely_teardown : along.
Lemma tamely_send id f : along tame (send id f).
Proof using. unfold send. tamely. Qed.
#[local] Hint Resolve tamely_send : along.
Lemma tamely_uninstall now id : along tame (requestUninstall uninstallToken now id).
Proof using. unfold requestUninstall. tamely. Qed.
#[local] Hint Resolve tamely_uninstall : along.
Lemma tamely_finalize now id reason : along tame (finalizeOffline now id reason).
Proof using. unfold finalizeOffline. tamely. Qed.
#[local] Hint Resolve tamely_finalize : along.
Lemma tamely_begin now id reason : along tame (beginOffline env now id reason).
Proof using. unfold beginOffline. tamely. Qed.
#[local] Hint Resolve tamely_begin : along.

Lemma resume_tame newIds now r : purges r = false → along tame (resume env autoTrustKey uninstallToken newIds now r).
Proof using.
  destruct r; intros Hr; try done; simpl;
    unfold register, hello_read, hello_write, requestInstallCa, finalize_read, finalize_write, reconcile_next,
      revoke_write, ignore, disconnect, emit; tamely.
Qed.

Definition may_remove (e : event) : bool :=
  match e with ForceRemove _ _ | UninstallAck _ | Resume _ _ => true | _ => false end.

Lemma handle_tame now e : may_remove e = false → (∀ id u, e = AgentRegistry.Delete id u → may_mark id) → along tame (handle env autoTrustKey uninstallToken now e).
Proof using.
  destruct e; intros He Hd; try done; simpl;
    unfold ignore, connect, handleClose, onHello, onHeartbeat, onCaResult, agent_tunnel, openStream, fire_offline, fire_grace,
      fire_uninstall, reconcileOffline, revokeAgent, deleteAgent, retryUninstall, updateAgent, pushAllow,
      disconnect, emit; tamely.
Qed.
End tame.

(** ** Requests and confirmations of a removal *)

Definition requested (id : string) (h : list (Z * event)) : Prop :=
  marked id t ∨ ∃ tm u, (tm, AgentRegistry.Delete id u) ∈ h.
Definition acked (id : string) (h : list (Z * event)) : Prop := ∃ tm, (tm, UninstallAck id) ∈ h.

Lemma requested_snoc id h te : requested id h → requested id (h ++ [te]).
Proof using. intros [?|(tm & u & Hin)]; [by left|]. right. exists tm, u. apply elem_of_app. by left. Qed.
Lemma acked_snoc id h te : acked id h → acked id (h ++ [te]).
Proof using. intros (tm & Hin). exists tm. apply elem_of_app. by left. Qed.

(** The purge of an agent waits for its confirmation, and that for a request. *)
Definition purge_grounds (h : list (Z * event)) (r : rest) : Prop :=
  match r with
  | PurgeRead id => acked id h
  | PurgeWrite a => acked (ag_id a) h ∧ requested (ag_id a) h
  | _ => True
  end.

Record orderly (h : list (Z * event)) (s : state V) : Prop := {
  o_marked id : marked id (tables s) → requested id h;
  o_work n r : work s !! n = Some r → purge_grounds h r
}.

Lemma purge_grounds_snoc h te r : purge_grounds h r → purge_grounds (h ++ [te]) r.
Proof using. destruct r; try done; simpl; [apply acked_snoc|]. intros []. split; [by apply acked_snoc|by apply requested_snoc]. Qed.

Lemma orderly_snoc te h s s' :
  orderly h s →
  (∀ id, marked id (tables s') → marked id (tables s) ∨ requested id (h ++ [te])) →
  (∀ n r, work s' !! n = Some r → work s !! n = Some r ∨ purge_grounds (h ++ [te]) r) →
  orderly (h ++ [te]) s'.
Proof using.
  intros [o1 o2] Hm Hw. split.
  - intros id [Hi|?]%Hm; [by apply requested_snoc, o1|done].
  - intros n r [Hr|?]%Hw; [by eapply purge_grounds_snoc, o2|done].
Qed.

(** Removing a row marks nothing, and takes only that row. *)
Lemma delete_agent_marked id id' x : marked id' (delete_agent id x) → marked id' x.
Proof using. intros (a & [_ Ha]%elem_of_deleteMany & Hr). by exists a. Qed.

Lemma delete_agent_ids id id' x :
  id' ∈ ag_id <$> agents x → id' ∉ ag_id <$> agents (delete_agent id x) → id' = id.
Proof using.
  intros (a & -> & Ha)%list_elem_of_fmap Hn. destruct (decide (ag_id a = id)) as [|Hne]; [done|]. destruct Hn.
  apply list_elem_of_fmap. exists a. split; [done|]. apply elem_of_deleteMany. split; [|done].
  unfold is_agent. by apply bool_decide_eq_false_2.
Qed.

Lemma teardown_tables id code (s : state V) :
  tables (run_state (teardown id code) s) = tables s ∧ work (run_state (teardown id code) s) = work s.
Proof using.
  unfold run_state, teardown. svc_run. destruct (live s !! id) as [e|]; [|done]. svc_run.
  unfold mbind, svc_bind. rewrite tunnel_run. by destruct (muxes _ !! _).
Qed.

(** What the two removals leave. *)
Lemma force_remove_run id u (s : state V) :
  let s' := run_state (forceRemoveAgent id u) s in
  work s' = work s ∧ (tables s' = tables s ∨ marked id (tables s) ∧ tables s' = delete_agent id (tables s)).
Proof using.
  unfold run_state, forceRemoveAgent, find_agent. svc_run. destruct (findFirst _ _) as [a|] eqn:Ha; [|split; by auto].
  cbn [lift]. svc_run. destruct (bool_decide (ag_status a = deleting)) eqn:Hd; [|split; by auto]. svc_run.
  destruct (teardown_tables id (Some 4003) s) as [Ht Hw]. unfold disconnect, run_state, mbind, svc_bind in *.
  destruct (teardown id (Some 4003) s) as [[[[]|e] s1] o] eqn:Hr; simpl in *; rewrite Hw, Ht; [|split; by auto].
  split; [done|]. right. split; [|done]. apply findFirst_Some in Ha as [Ha Hi]. exists a.
  split_and!; [done|by apply bool_decide_eq_true in Hi|by apply bool_decide_eq_true in Hd].
Qed.

Lemma purge_write_run a (s : state V) :
  work (run_state (purge_write a) s) = work s ∧
  tables (run_state (purge_write a) s) = delete_agent (ag_id a) (tables s).
Proof using.
  unfold purge_write, emit, disconnect. unfold run_state. rewrite run_modify, run_tell.
  destruct (teardown_tables (ag_id a) (Some 4003) (with_tables (delete_agent (ag_id a)) s)) as [Ht Hw].
  unfold run_state in *. destruct (teardown _ _ _) as [[r s1] o]. simpl in *. by rewrite Hw, Ht.
Qed.

Definition deletes (te : Z * event) (id : string) : Prop := ∃ u, te.2 = AgentRegistry.Delete id u.

(** What one event does to the rows and to the waiting purges. *)
Inductive removal (te : Z * event) (s : state V) : state V → Prop :=
| removes_none s' : tame (deletes te) s s' → removal te s s'
| ack_received id : te.2 = UninstallAck id → removal te s (later (PurgeRead id) s)
| purge_decided n a :
    work s !! n = Some (PurgeRead (ag_id a)) → marked (ag_id a) (tables s) →
    removal te s (later (PurgeWrite a) (done_with n s))
| removes_one id s' :
    (∃ u, te.2 = ForceRemove id u ∧ marked id (tables s)) ∨ (∃ n a, work s !! n = Some (PurgeWrite a) ∧ ag_id a = id) →
    tables s' = delete_agent id (tables s) → (∀ n r, work s' !! n = Some r → work s !! n = Some r) →
    removal te s s'.

Lemma step_removal te s : removal te s (step te s).1.2.
Proof using.
  destruct te as [now e]. change (step (now, e) s).1.2 with (run_state (handle env autoTrustKey uninstallToken now e) s).
  destruct (may_remove e) eqn:He.
  2: { apply removes_none, handle_tame; [done|]. intros id u ->. by eexists. }
  destruct e as [| | | | | | | |id| | | | | | | | |newIds n| | | |id u|]; try done.
  - by apply ack_received.
  - simpl. unfold run_state. rewrite run_get. destruct (work s !! n) as [r|] eqn:Hr; [|by apply removes_none].
    rewrite run_modify. destruct (purges r) eqn:Hp.
    2: { apply removes_none. etransitivity; [apply tame_done|]. by apply resume_tame. }
    destruct r as [| | | | | |id|a| |]; try done; simpl.
    + unfold purge_read. rewrite run_get. destruct (findFirst _ _) as [a|] eqn:Ha; [|apply removes_none, tame_done].
      case_bool_decide as Hd; [|apply removes_none, tame_done]. apply findFirst_Some in Ha as [Ha Hi%bool_decide_eq_true].
      apply (purge_decided _ _ n a); [by rewrite Hi|by exists a].
    + destruct (purge_write_run a (done_with n s)) as [Hw Ht]. apply (removes_one _ _ (ag_id a)).
      * right. by exists n, a.
      * exact Ht.
      * intros k r. unfold run_state in Hw. rewrite Hw. simpl. by intros [_ ?]%lookup_delete_Some.
  - destruct (force_remove_run id u s) as [Hw [Ht|[Hm Ht]]]; simpl.
    + by apply removes_none, tame_same.
    + apply (removes_one _ _ id); [left; by exists u|done|by rewrite Hw].
Qed.

Lemma orderly_after h : orderly h (after h).
Proof using.
  induction h as [|te h IH] using rev_ind; [split; [by left|done]|]. rewrite after_snoc.
  assert (Hlast : ∀ e, te.2 = e → (te.1, e) ∈ h ++ [te]).
  { intros e <-. apply elem_of_app. right. apply list_elem_of_singleton. by destruct te. }
  destruct (step_removal te (after h)) as [s' [[_ Hm] Hw]|id Hid|n a Hn Hm|id s' Hg Ht Hw];
    apply (orderly_snoc te h (after h)); try done; simpl.
  - intros id [?|(u & He)]%Hm; [by left|]. right. right. exists te.1, u. by apply Hlast.
  - intros n r Hr. destruct (purges r) eqn:Hp; [left; by apply Hw|right; by destruct r].
  - by left.
  - intros n r [[_ <-]|[_ Hr]]%lookup_insert_Some; [right; exists te.1; by apply Hlast|by left].
  - by left.
  - intros k r [[_ <-]|[_ [_ Hr]%lookup_delete_Some]]%lookup_insert_Some; [|by left]. right.
    split; [by apply acked_snoc, (o_work _ _ IH n _ Hn)|by apply requested_snoc, (o_marked _ _ IH)].
  - intros i Hi. left. rewrite Ht in Hi. by eapply delete_agent_marked.
  - intros n r Hr. left. by apply Hw.
Qed.

(** C28: an agent is removed only on request, and only once its machine is known
    to be clean or someone insists.  If an event takes the row of an agent out
    of the database, then its removal had been requested (or the row was marked
    for it from the start), and either the machine had acknowledged the
    uninstallation, or the event is an administrator's forced removal.  Nothing
    else, a revocation, a stray acknowledgement, a dead connection, a race with
    a hello, removes a row. *)
Theorem rows_leave_on_request (h : list (Z * event)) (te : Z * event) (id : string) :
  id ∈ ids (after h) → id ∉ ids (after (h ++ [te])) →
  (marked id t ∨ ∃ tm u, (tm, AgentRegistry.Delete id u) ∈ h) ∧
  ((∃ tm, (tm, UninstallAck id) ∈ h) ∨ ∃ u, te.2 = ForceRemove id u).
Proof using.
  unfold ids. rewrite after_snoc. intros Hin Hout. pose proof (orderly_after h) as [o1 o2].
  destruct (step_removal te (after h)) as [s' [[Hk _] _]|i Hid|n a Hn Hm|i s' Hg Ht Hw]; try done.
  - by apply Hk in Hin.
  - rewrite Ht in Hout. rewrite (delete_agent_ids _ _ _ Hin Hout) in *.
    destruct Hg as [(u & Hu & Hm)|(n & a & Hn & <-)].
    + split; [by apply o1|right; by exists u].
    + destruct (o2 n _ Hn) as [Ha Hr]. split; [done|by left].
Qed.
End history.

(** ** Runs on a concrete registry: a digest that writes its input, a vault that
    marks its entries, the default cadences *)

Section examples.
#[local] Existing Instance toy_digest.
#[local] Existing Instance plain_vault.
#[local] Existing Instance plain_vault_laws.

Definition defaults : environment := Environment None None None.
Definition no_ids (_ : nat) : string := "t".
Definition one_agent : db := Db [nas] [] [].
Definition nas_hello : hello := Hello None (Some "linux") None (Some "nas") None [].

Abbreviation play := (run_history defaults None (λ _, None) one_agent empty_vault).

(** The agent connects on socket 1, with heartbeat timer 2, and says hello. *)
Definition connects : list (Z * event) :=
  [(0, Connect "cbroagent_p1_s1"); (0, Resume no_ids 0); (100, HelloFrame "a1" nas_hello);
   (100, Resume no_ids 3); (100, Resume no_ids 4)].
(** Its socket closes; a minute later grace timer 5 fires and it is given up. *)
Definition drops : list (Z * event) :=
  connects ++ [(1000, SocketClosed "a1" 1); (61000, GraceTimer 5); (61000, Resume no_ids 6)].
Definition its_alert : effect :=
  Out (alert_of "fabric.agent_offline" "Fabric agent offline: Nas" "Nas (nas) stopped checking in (connection closed)."
    "fabric-offline:a1").

Lemma offline_alert_needs_outage_witness :
  its_alert ∈ (handle defaults None (λ _, None) 61000 (Resume no_ids 7) (play drops).1).2 ∧
  ∃ h1 g e h2, drops = h1 ++ (g, e) :: h2 ∧ isOnline "a1" (play h1).1 = false.
Proof.
  assert (Hin : its_alert ∈ (handle defaults None (λ _, None) 61000 (Resume no_ids 7) (play drops).1).2)
    by (vm_compute; right; left).
  split; [exact Hin|].
  destruct (offline_alert_needs_outage defaults None (λ _, None) one_agent empty_vault drops (61000, Resume no_ids 7) "a1"
    its_alert Hin ltac:(by eexists)) as (h1 & g & e & h2 & Hh & Hoff & _).
  exists h1, g, e, h2. split; [exact Hh|exact Hoff].
Defined.

(** The removal: asked for, confirmed, purged. *)
Definition removal_run : list (Z * event) :=
  connects ++ [(2000, AgentRegistry.Delete "a1" operator); (2100, UninstallAck "a1"); (2100, Resume no_ids 5)].

Lemma rows_leave_on_request_witness :
  "a1" ∈ ids (play removal_run).1 ∧ ("a1" ∉ ids (play (removal_run ++ [(2100, Resume no_ids 6)])).1) ∧
  ((∃ tm, (tm, UninstallAck "a1") ∈ removal_run) ∨ ∃ u, Resume no_ids 6 = ForceRemove "a1" u).
Proof.
  assert (H1 : "a1" ∈ ids (play removal_run).1) by (apply (bool_decide_unpack _); vm_compute; exact I).
  assert (H2 : "a1" ∉ ids (play (removal_run ++ [(2100, Resume no_ids 6)])).1)
    by (apply (bool_decide_unpack _); vm_compute; exact I).
  split; [exact H1|split; [exact H2|]].
  exact (proj2 (rows_leave_on_request defaults None (λ _, None) one_agent empty_vault removal_run (2100, Resume no_ids 6)
    "a1" H1 H2)).
Defined.

(** A hello read before a deletion is written after it: the tombstone turns
    online again, and the acknowledgement of the uninstallation that was pushed
    meanwhile finds nothing to purge. *)
Definition late_hello : list (Z * event) :=
  [(0, Connect "cbroagent_p1_s1"); (0, Resume no_ids 0); (100, HelloFrame "a1" nas_hello); (100, Resume no_ids 3);
   (101, AgentRegistry.Delete "a1" operator); (102, Resume no_ids 4); (200, UninstallAck "a1"); (200, Resume no_ids 5)].

Lemma late_hello_undoes_deletion :
  (λ a, (ag_id a, ag_status a)) <$> agents (tables (play late_hello).1) = [("a1", online)] ∧ work (play late_hello).1 = ∅.
Proof. split; vm_compute; reflexivity. Qed.

(** A socket that was authenticated before a revocation registers after it: the
    revoked agent is connected, and streams to it open. *)
Definition late_register : list (Z * event) :=
  [(0, Connect "cbroagent_p1_s1"); (1, Revoke "a1" operator); (2, Resume no_ids 1); (3, Resume no_ids 0)].

Lemma late_register_survives_revocation :
  let s := (play late_register).1 in
  ag_status <$> agents (tables s) = [revoked] ∧ isOnline "a1" s = true ∧
  run_result (openStream "a1" "127.0.0.1" 22) s = Ok tt.
Proof. split_and!; vm_compute; reflexivity. Qed.

(** An agent that reconnects while it is being given up is written offline, and
    the alert raised, after its hello has marked it online. *)
Definition late_finalize : list (Z * event) :=
  drops ++ [(61001, Connect "cbroagent_p1_s1"); (61001, Resume no_ids 8); (61002, HelloFrame "a1" nas_hello);
            (61002, Resume no_ids 11); (61002, Resume no_ids 12); (61003, Resume no_ids 7)].

Lemma late_finalize_marks_live_agent_offline :
  let s := (play late_finalize).1 in
  ag_status <$> agents (tables s) = [offline] ∧ isOnline "a1" s = true ∧ its_alert ∈ (play late_finalize).2.
Proof. split_and!; [vm_compute; reflexivity..|]. apply list_elem_of_In. vm_compute. tauto. Qed.
End examples.
