(* ===== verification/DockerHost.v ===== *)
(** * Docker hosts

    What the stack operations ask of a Docker engine, the operations on the
    containers of one compose project of [stack-migrate/stack-migrate.service.ts],
    and [stack-backup/quiesce.ts], which freezes a stack for a capture.

    The engine is third-party code: its containers and volumes are a type class
    whose laws are the documented effects of the calls.  Any call may fail:
    [ext n] tells how the [n]-th call to the outside ends.  The texts of the
    engine's errors, and the lines the operations log, are not modelled. *)
From S2P Require Import Prelude JsText.
From stdpp Require Import gmap strings options.

#[local] Open Scope Z_scope.
#[local] Set Default Proof Using "Type*".

Record Container := ContainerInfo {
  c_id : string;
  c_name : string;
  c_project : option string;   (** label com.docker.compose.project *)
  c_service : option string;
  c_state : string;
  c_created : Z
}.

#[export] Instance container_eq_dec : EqDecision Container.
Proof. solve_decision. Defined.

Definition set_state (st : string) (c : Container) : Container :=
  ContainerInfo (c_id c) (c_name c) (c_project c) (c_service c) st (c_created c).

(** [new Set(['running', 'restarting'])] *)
Definition RUNNING (c : Container) : bool := includes (c_state c) ["running"; "restarting"].

Inductive action :=
| Stop (id : string)
| Start (id : string)
| Pause (id : string)
| Unpause (id : string)
| Remove (id : string)
| RemoveVolume (name : string).

#[export] Instance action_eq_dec : EqDecision action.
Proof. solve_decision. Defined.

Class Docker (H : Type) := {
  containers : H → list Container;
  volumes : H → list (string * option string);   (** name, project label *)
  perform : action → H → H
}.

Definition is_container (id : string) (c : Container) : bool := bool_decide (c_id c = id).

(** What the Engine API documents of its calls. *)
Definition acted (a : action) : list Container → list Container :=
  match a with
  | Stop id => updateMany (is_container id) (set_state "exited")
  | Start id | Unpause id => updateMany (is_container id) (set_state "running")
  | Pause id => updateMany (is_container id) (set_state "paused")
  | Remove id => deleteMany (is_container id)
  | RemoveVolume _ => id
  end.

Class DockerLaws (H : Type) `{Docker H} : Prop := {
  perform_containers a h : containers (perform a h) = acted a (containers h);
  perform_volumes a h : volumes (perform a h) =
    match a with RemoveVolume n => deleteMany (λ v, bool_decide (v.1 = n)) (volumes h) | _ => volumes h end
}.

(** How a call to the outside ends: with its effect and an answer, with an error
    and no effect, or with its effect and an error (a lost answer). *)
Inductive answer := Done | Refused | Lost.

(** [Cancelled] is the [CancelledError] of the migrator. *)
Inductive failure := Cancelled | Failed (msg : string) | Http (e : http_error).

#[export] Instance failure_eq_dec : EqDecision failure.
Proof. solve_decision. Defined.

Inductive docker_event :=
| Asked (host : string) (a : action) (ok : bool)
| Listed (host : string) (ok : bool).

Record site (H : Type) := Site { hosts : gmap string H; tick : nat }.
Arguments Site {H} _ _.
Arguments hosts {H} _.
Arguments tick {H} _.

Section calls.
Context {H : Type} `{Docker H} (ext : nat → answer).

Abbreviation call := (svc (site H) docker_event failure).

Definition engine_error : failure := Failed "Docker engine error".

Definition on_host (host : string) (f : H → H) (s : site H) : site H := Site (alter f host (hosts s)) (tick s).
Definition next_tick (s : site H) : site H := Site (hosts s) (S (tick s)).

(** Whether the call was answered; an error is thrown. *)
Definition outcome {E} (host : string) (f : H → H) (ev : bool → E) : svc (site H) E failure unit :=
  s ← get;
  modify next_tick ;;
  match ext (tick s) with
  | Done => modify (on_host host f) ;; tell (ev true)
  | Refused => tell (ev false) ;; throw engine_error
  | Lost => modify (on_host host f) ;; tell (ev false) ;; throw engine_error
  end.

Definition ask (host : string) (a : action) : call unit := outcome host (perform a) (Asked host a).

Definition listContainers (host : string) : call (list Container) :=
  outcome host id (Listed host) ;;
  s ← get;
  match hosts s !! host with Some h => mret (containers h) | None => throw engine_error end.

Definition listVolumes (host : string) : call (list (string * option string)) :=
  outcome host id (Listed host) ;;
  s ← get;
  match hosts s !! host with Some h => mret (volumes h) | None => throw engine_error end.

(** [try { await m; n++ } catch { … }] *)
Definition attempt (m : call unit) : call bool := catch (m ;; mret true) (λ _, mret false).

Fixpoint tally {A} (xs : list A) (f : A → call unit) : call nat :=
  match xs with
  | [] => mret 0%nat
  | x :: xs' => ok ← attempt (f x); n ← tally xs' f; mret (if (ok : bool) then S n else n)
  end.

(** ** The containers of a project *)

Definition in_project (project : string) (c : Container) : bool := bool_decide (c_project c = Some project).

Definition projectContainers (host project : string) : call (list Container) :=
  cs ← listContainers host;
  mret (findMany (in_project project) cs).

Definition newest_first : list Container → list Container := sort (λ a b, c_created b <=? c_created a).
Definition oldest_first : list Container → list Container := sort (λ a b, c_created a <=? c_created b).

Definition stopProject (host project : string) : call nat :=
  cs ← projectContainers host project;
  tally (newest_first (findMany RUNNING cs)) (λ c, ask host (Stop (c_id c))).

Definition startProject (host project : string) : call nat :=
  cs ← projectContainers host project;
  tally (oldest_first (findMany (λ c, negb (RUNNING c)) cs)) (λ c, ask host (Start (c_id c))).

Definition removeProjectContainers (host project : string) : call nat :=
  cs ← projectContainers host project;
  tally cs (λ c, ask host (Remove (c_id c))).

(** The listing is inside the [try]. *)
Definition removeProjectVolumes (host project : string) : call nat :=
  catch
    (vs ← listVolumes host;
     tally (findMany (λ v, bool_decide (v.2 = Some project)) vs) (λ v, ask host (RemoveVolume v.1)))
    (λ _, mret 0%nat).

(** ** [stack-backup/quiesce.ts] *)

Inductive QuiesceMode := hot | pause | stop.

Definition freeze (mode : QuiesceMode) (id : string) : action :=
  match mode with pause => Pause id | _ => Stop id end.
Definition thaw (mode : QuiesceMode) (id : string) : action :=
  match mode with pause => Unpause id | _ => Start id end.

(** The containers touched so far, in the order they were. *)
Definition resumeAll (host : string) (mode : QuiesceMode) (done : list Container) : call unit :=
  tally (reverse done) (λ c, ask host (thaw mode (c_id c))) ;; mret tt.

(** What quiescing returns: the containers to put back. *)
Fixpoint freeze_each (host : string) (mode : QuiesceMode) (targets done : list Container) : call (list Container) :=
  match targets with
  | [] => mret done
  | c :: targets' =>
      ok ← attempt (ask host (freeze mode (c_id c)));
      if (ok : bool) then freeze_each host mode targets' (done ++ [c])
      else resumeAll host mode done ;; throw (Failed ("Could not quiesce " +:+ c_name c))
  end.

(** [inspected] are the containers the inspection found. *)
Definition quiesceStack (host : string) (mode : QuiesceMode) (inspected : list Container) : call (list Container) :=
  match mode with
  | hot => mret []
  | _ => freeze_each host mode (newest_first (findMany RUNNING inspected)) []
  end.

(** The closure it returns, with its flag. *)
Definition resume (host : string) (mode : QuiesceMode) (done : list Container) (resumed : bool) : call bool :=
  if resumed then mret true else resumeAll host mode done ;; mret true.

(** [const r = await quiesce(); try { body } finally { await r(); }] *)
Definition with_frozen (host : string) (mode : QuiesceMode) (inspected : list Container) (body : call unit) : call unit :=
  done ← quiesceStack host mode inspected;
  finally body (resume host mode done false ;; mret tt).
End calls.

(** ** Runs of the calls *)

Section runs.
Context {H : Type} `{DockerLaws H} (ext : nat → answer).

Abbreviation call := (svc (site H) docker_event failure).

Lemma outcome_run {E} host f (ev : bool → E) (s : site H) :
  outcome ext host f ev s =
  match ext (tick s) with
  | Done => (Ok tt, on_host host f (next_tick s), [ev true])
  | Refused => (Err engine_error, next_tick s, [ev false])
  | Lost => (Err engine_error, on_host host f (next_tick s), [ev false])
  end.
Proof using. unfold outcome. svc_run. by destruct (ext (tick s)). Qed.

Lemma attempt_run (m : call unit) s :
  attempt m s = (Ok (is_ok (run_result m s)), run_state m s, run_out m s).
Proof using.
  unfold attempt, catch, run_result, run_state, run_out, mbind, svc_bind.
  destruct (m s) as [[[[]|e] s1] o]; simpl; by rewrite ?app_nil_r.
Qed.

(** A call in an [attempt], and in a [tally]. *)
Lemma tally_cons {A} (x : A) xs (f : A → call unit) s :
  tally (x :: xs) f s =
  let '(r1, s1, o1) := f x s in
  let '(r2, s2, o2) := tally xs f s1 in
  ((n ← r2; Ok (if is_ok r1 then S n else n)), s2, o1 ++ o2).
Proof using.
  cbn [tally]. unfold mbind at 1, svc_bind at 1. rewrite attempt_run. unfold run_result, run_state, run_out.
  destruct (f x s) as [[r1 s1] o1]. simpl. unfold mbind, svc_bind. destruct (tally xs f s1) as [[[n|e] s2] o2]; simpl;
    by rewrite ?app_nil_r.
Qed.

Lemma tally_ok {A} (xs : list A) f s : ∃ n, run_result (tally xs (f : A → call unit)) s = Ok n ∧ (n ≤ length xs)%nat.
Proof using.
  revert s. induction xs as [|x xs IH]; intros s; [by exists 0%nat|]. unfold run_result in *. rewrite tally_cons.
  destruct (f x s) as [[r1 s1] o1]. destruct (IH s1) as (n & Hn & Hl). destruct (tally xs f s1) as [[r2 s2] o2].
  simpl in *. subst r2. eexists. split; [done|]. destruct (is_ok r1); simpl; lia.
Qed.

(** A removal that throws has removed nothing. *)
Lemma remove_refused host project (s s' : site H) e o :
  removeProjectContainers ext host project s = (Err e, s', o) → hosts s' = hosts s ∧ o = [Listed host false] ∨ hosts s' = hosts s ∧ o = [Listed host true].
Proof using.
  unfold removeProjectContainers, projectContainers, listContainers.
  intros [Hl | (cs & s1 & o1 & o2 & _ & Ht & _)]%svc_bind_err.
  2: { destruct (tally_ok cs (λ c, ask ext host (Remove (c_id c))) s1) as (n & Hn & _). unfold run_result in Hn. by rewrite Ht in Hn. }
  apply svc_bind_err in Hl as [Hl | (? & ? & ? & ? & _ & Hl & _)]; [|done].
  unfold mbind, svc_bind in Hl. rewrite outcome_run in Hl. unfold on_host in Hl. rewrite (alter_id id) in Hl by done.
  destruct (ext (tick s)); simpl in Hl; [destruct (hosts s !! host); simpl in Hl|..]; simplify_eq; simpl; auto.
Qed.

(** The containers of a host. *)
Definition held (host : string) (s : site H) : option (list Container) := containers <$> hosts s !! host.

Lemma held_on_host host a s cs : held host s = Some cs → held host (on_host host (perform a) (next_tick s)) = Some (acted a cs).
Proof using All.
  unfold held, on_host. simpl. rewrite lookup_alter_eq. destruct (hosts s !! host); [|done]. simpl. intros [= <-].
  by rewrite perform_containers.
Qed.

(** When no answer is lost a [tally] did what was answered, and all of it when
    nothing was refused. *)
Lemma tally_done {A} (xs : list A) (a : A → action) host s cs :
  (∀ n, ext n ≠ Lost) → held host s = Some cs →
  let m := tally xs (λ x, ask ext host (a x)) in
  ∃ done, done `sublist_of` xs ∧ run_result m s = Ok (length done) ∧
    held host (run_state m s) = Some (foldl (λ cs x, acted (a x) cs) cs done) ∧
    ((∀ x, x ∈ xs → Asked host (a x) false ∉ run_out m s) → done = xs).
Proof using All.
  intros HL. revert s cs. induction xs as [|x xs IH]; intros s cs Hs m; subst m; [by exists []|].
  unfold run_result, run_state, run_out in *. destruct (tally (x :: xs) _ s) as [[r s'] o] eqn:E.
  rewrite tally_cons in E. unfold ask at 1 in E. rewrite outcome_run in E.
  destruct (ext (tick s)) eqn:Hx; [| |by destruct (HL (tick s))].
  - destruct (IH _ _ (held_on_host _ (a x) _ _ Hs)) as (done & Hd & Hr & Hh & Ho). simpl in *.
    destruct (tally xs _ _) as [[r2 s2] o2]. injection E as <- <- <-. simpl in *. subst r2. exists (x :: done).
    split_and!; [by apply sublist_skip|done|done|]. intros Hin. f_equal. apply Ho. intros y Hy ?. apply (Hin y); by right.
  - destruct (IH (next_tick s) cs Hs) as (done & Hd & Hr & Hh & Ho). simpl in *.
    destruct (tally xs _ _) as [[r2 s2] o2]. injection E as <- <- <-. simpl in *. subst r2. exists done.
    split_and!; [by apply sublist_cons|done|done|]. intros Hin. exfalso. apply (Hin x); by left.
Qed.
End runs.

(** ** What the calls do to the hosts

    [grows Q m]: a run of [m] takes the hosts along the preorder [Q], which the
    effects asked for follow. *)

Section hosts_along.
Context {H : Type} `{Docker H} (ext : nat → answer) (Q : gmap string H → gmap string H → Prop) `{!PreOrder Q}.

Definition follows (host : string) (f : H → H) : Prop := ∀ m, Q m (alter f host m).
Definition on_hosts (s s' : site H) : Prop := Q (hosts s) (hosts s').

#[export] Instance on_hosts_preorder : PreOrder on_hosts.
Proof. split; unfold on_hosts; [by intros s|]. intros s1 s2 s3 ??. by etransitivity. Qed.

Lemma follows_id host : follows host (λ h, h).
Proof. intros m. rewrite alter_id; [done|]. by intros. Qed.

Lemma along_outcome {E} host f (ev : bool → E) : follows host f → along on_hosts (outcome ext host f ev).
Proof.
  intros Hf s. unfold run_state. rewrite outcome_run. unfold on_hosts. destruct (ext (tick s)); simpl; first [apply Hf|done].
Qed.

#[local] Opaque outcome.

Lemma along_listed host : along on_hosts (listContainers ext host).
Proof. unfold listContainers. along. apply along_outcome, follows_id. Qed.

Lemma along_tally {A} (xs : list A) (f : A → svc (site H) docker_event failure unit) :
  (∀ x, along on_hosts (f x)) → along on_hosts (tally xs f).
Proof. intros Hf. induction xs as [|x xs IH]; cbn [tally]; unfold attempt; along; auto. Qed.

Lemma along_stop host project : (∀ id, follows host (perform (Stop id))) → along on_hosts (stopProject ext host project).
Proof.
  intros Hf. unfold stopProject, projectContainers. along; [apply along_outcome, follows_id|].
  apply along_tally. intros c. by apply along_outcome.
Qed.

Lemma along_start host project : (∀ id, follows host (perform (Start id))) → along on_hosts (startProject ext host project).
Proof.
  intros Hf. unfold startProject, projectContainers. along; [apply along_outcome, follows_id|].
  apply along_tally. intros c. by apply along_outcome.
Qed.

Lemma along_remove host project :
  (∀ id, follows host (perform (Remove id))) → along on_hosts (removeProjectContainers ext host project).
Proof.
  intros Hf. unfold removeProjectContainers, projectContainers. along; [apply along_outcome, follows_id|].
  apply along_tally. intros c. by apply along_outcome.
Qed.

Lemma along_remove_volumes host project :
  (∀ n, follows host (perform (RemoveVolume n))) → along on_hosts (removeProjectVolumes ext host project).
Proof.
  intros Hf. unfold removeProjectVolumes, listVolumes. along; [apply along_outcome, follows_id|].
  apply along_tally. intros v. by apply along_outcome.
Qed.
End hosts_along.

(** ** The window of a capture *)

Definition as_state (ids : list string) (st : string) : list Container → list Container :=
  updateMany (λ c, includes (c_id c) ids) (set_state st).

Definition frozen_state (mode : QuiesceMode) : string := match mode with pause => "paused" | _ => "exited" end.

Lemma as_state_ext ids ids' st cs : (∀ i, i ∈ ids ↔ i ∈ ids') → as_state ids st cs = as_state ids' st cs.
Proof.
  intros Hi. unfold as_state, updateMany. apply list_fmap_ext. intros _ c _.
  assert (includes (c_id c) ids = includes (c_id c) ids') as ->; [|done].
  apply eq_true_iff_eq. by rewrite !includes_true.
Qed.

Lemma as_state_over ids ids' st st' cs : (∀ i, i ∈ ids' → i ∈ ids) → as_state ids st (as_state ids' st' cs) = as_state ids st cs.
Proof.
  intros Hi. unfold as_state, updateMany. rewrite <-list_fmap_compose. apply list_fmap_ext. intros _ c _. simpl.
  destruct (includes (c_id c) ids') eqn:E'; [|done]. simpl. apply includes_true, Hi, includes_true in E'. by rewrite E'.
Qed.

Lemma as_state_snoc ids id st cs :
  updateMany (is_container id) (set_state st) (as_state ids st cs) = as_state (ids ++ [id]) st cs.
Proof.
  unfold as_state, updateMany. rewrite <-list_fmap_compose. apply list_fmap_ext. intros _ c _. simpl.
  unfold is_container, includes. destruct (bool_decide (c_id c ∈ ids)) eqn:E; simpl; repeat case_bool_decide; try done; set_solver.
Qed.

Lemma as_state_nil st cs : as_state [] st cs = cs.
Proof. unfold as_state, updateMany. rewrite <-(list_fmap_id cs) at 2. by apply list_fmap_ext. Qed.

Lemma frozen_snoc mode ids id cs :
  acted (freeze mode id) (as_state ids (frozen_state mode) cs) = as_state (ids ++ [id]) (frozen_state mode) cs.
Proof. destruct mode; apply as_state_snoc. Qed.

Lemma foldl_state (a : string → action) st (xs : list Container) cs :
  (∀ id cs, acted (a id) cs = updateMany (is_container id) (set_state st) cs) →
  foldl (λ cs c, acted (a (c_id c)) cs) cs xs = as_state (c_id <$> xs) st cs.
Proof.
  intros Ha. induction xs as [|x xs IH] using rev_ind; [by rewrite as_state_nil|].
  rewrite foldl_app, fmap_app. simpl. by rewrite IH, Ha, as_state_snoc.
Qed.

Lemma thawed mode xs cs :
  foldl (λ cs c, acted (thaw mode (c_id c)) cs) cs xs = as_state (c_id <$> xs) "running" cs.
Proof. apply foldl_state. by destruct mode. Qed.

Lemma newest_first_in c l : c ∈ newest_first l ↔ c ∈ l.
Proof. apply sort_in. Qed.

(** ** Stopping and starting a project *)

Section project_runs.
Context {H : Type} `{DockerLaws H} (ext : nat → answer) (no_lost : ∀ n, ext n ≠ Lost) (host project : string).

Lemma listContainers_run (s : site H) cs :
  held host s = Some cs →
  listContainers ext host s = (Ok cs, next_tick s, [Listed host true]) ∨
  listContainers ext host s = (Err engine_error, next_tick s, [Listed host false]).
Proof using no_lost.
  intros Hs. unfold listContainers, mbind, svc_bind. rewrite !outcome_run. unfold held in Hs.
  destruct (ext (tick s)) eqn:Hx; [left|by right|by destruct (no_lost (tick s))].
  unfold on_host. simpl. rewrite lookup_alter_eq. destruct (hosts s !! host) eqn:E; [|done]. simpl in *. injection Hs as <-.
  unfold next_tick. simpl. by rewrite (alter_id id).
Qed.

(** What a listing and a [tally] of calls to the containers it gives do. *)
Lemma project_run (sel : list Container → list Container) (a : string → action) (s : site H) cs st :
  (∀ id cs, acted (a id) cs = updateMany (is_container id) (set_state st) cs) → held host s = Some cs →
  let m := (l ← projectContainers ext host project; tally (sel l) (λ c, ask ext host (a (c_id c)))) in
  let xs := sel (findMany (in_project project) cs) in
  ∃ done, done `sublist_of` xs ∧ held host (run_state m s) = Some (as_state (c_id <$> done) st cs) ∧
    (run_result m s = Ok (length done) ∨ ∃ e, run_result m s = Err e ∧ done = [] ∧ Listed host false ∈ run_out m s) ∧
    (Listed host false ∉ run_out m s → (∀ x, x ∈ xs → Asked host (a (c_id x)) false ∉ run_out m s) → done = xs).
Proof using All.
  intros Ha Hs m xs. unfold m, projectContainers, run_result, run_state, run_out, mbind, svc_bind.
  destruct (listContainers_run s cs Hs) as [-> | ->]; simpl.
  - fold xs. assert (Hs1 : held host (next_tick s) = Some cs) by done.
    destruct (tally_done ext xs (λ c, a (c_id c)) host _ cs no_lost Hs1) as (done & Hd & Hr & Hh & Ho).
    unfold run_result, run_state, run_out in *. destruct (tally xs _ _) as [[r s2] o]. simpl in *. subst r. exists done.
    rewrite (foldl_state a st) in Hh by done. split_and!; [done|done|by left|]. intros _ Hin. apply Ho.
    intros x Hx ?. apply (Hin x Hx). by right.
  - exists []. split_and!; [apply sublist_nil_l|by rewrite as_state_nil|right; eexists; split_and!; [done|done|by left]|].
    intros Hl. destruct Hl. by left.
Qed.

End project_runs.

Section window.
Context {H : Type} `{DockerLaws H} (ext : nat → answer).
Context (no_lost : ∀ n, ext n ≠ Lost) (host : string) (mode : QuiesceMode).

Abbreviation call := (svc (site H) docker_event failure).

(** No call that brings a container back is refused. *)
Definition thaws_answered (o : list docker_event) : Prop := ∀ id, Asked host (thaw mode id) false ∉ o.

Lemma resumeAll_run cs done (s : site H) :
  held host s = Some cs → thaws_answered (run_out (resumeAll ext host mode done) s) →
  run_result (resumeAll ext host mode done) s = Ok tt ∧
  held host (run_state (resumeAll ext host mode done) s) = Some (as_state (c_id <$> done) "running" cs).
Proof using All.
  intros Hs Ho. unfold resumeAll, run_result, run_state, run_out, thaws_answered, mbind, svc_bind in *.
  destruct (tally_done ext (reverse done) (λ c, thaw mode (c_id c)) host s cs no_lost Hs) as (xs & _ & Hr & Hh & Hx).
  unfold run_result, run_state, run_out in Hr, Hh, Hx. destruct (tally _ _ s) as [[r s1] o]. simpl in *. subst r.
  simpl in *. rewrite Hx in Hh; [|intros x _ Hin; apply (Ho (c_id x)), elem_of_app; by left].
  split; [done|]. rewrite Hh, thawed. f_equal. apply as_state_ext. intros i. by rewrite fmap_reverse, elem_of_reverse.
Qed.

Lemma freeze_each_run cs targets done (s : site H) :
  let m := freeze_each ext host mode targets done in
  held host s = Some (as_state (c_id <$> done) (frozen_state mode) cs) →
  match run_result m s with
  | Ok done' => done' = done ++ targets ∧ held host (run_state m s) = Some (as_state (c_id <$> done') (frozen_state mode) cs)
  | Err _ => thaws_answered (run_out m s) →
      ∃ done', done' ⊆ done ++ targets ∧ held host (run_state m s) = Some (as_state (c_id <$> done') "running" cs)
  end.
Proof using All.
  revert done s. induction targets as [|c targets IH]; intros done s; intros m Hs; [by rewrite app_nil_r|].
  subst m. unfold run_result, run_state, run_out in *.
  destruct (freeze_each ext host mode (c :: targets) done s) as [[r s'] o] eqn:E. cbn [freeze_each] in E. unfold mbind at 1, svc_bind at 1 in E. rewrite attempt_run in E. unfold run_result, run_state, run_out, ask in E.
  rewrite outcome_run in E. destruct (ext (tick s)) eqn:Hx; simpl in E; [| |by destruct (no_lost (tick s))].
  - assert (Hs1 : held host (on_host host (perform (freeze mode (c_id c))) (next_tick s)) =
      Some (as_state (c_id <$> (done ++ [c])) (frozen_state mode) cs)).
    { rewrite fmap_app. simpl. rewrite <-frozen_snoc. by apply held_on_host. }
    specialize (IH (done ++ [c]) _ Hs1). destruct (freeze_each _ _ _ _ _ _) as [[r2 s2] o2]. injection E as <- <- <-.
    simpl in *. rewrite <-app_assoc in IH. destruct r2; [done|]. intros Ho. apply IH. intros id Hin. apply (Ho id). by right.
  - pose proof (resumeAll_run _ done (next_tick s) Hs) as Hr. unfold run_result, run_state, run_out, mbind, svc_bind in *.
    destruct (resumeAll _ _ _ _ _) as [[r1 s1] o1]. simpl in *. destruct r1; injection E as <- <- <-; intros Ho;
      (destruct Hr as [? Hh]; [intros id Hin; apply (Ho id); right; rewrite ?elem_of_app; by auto|]); [|done].
    exists done. split; [set_solver|]. rewrite Hh. f_equal. by apply as_state_over.
Qed.

Definition targets_of (inspected : list Container) : list Container :=
  match mode with hot => [] | _ => newest_first (findMany RUNNING inspected) end.

Lemma targets_running c inspected : c ∈ targets_of inspected → RUNNING c = true ∧ c ∈ inspected.
Proof using. unfold targets_of. destruct mode; [by intros ?%not_elem_of_nil| |]; by rewrite newest_first_in, elem_of_findMany. Qed.

Lemma quiesceStack_run cs inspected (s : site H) :
  held host s = Some cs →
  let m := quiesceStack ext host mode inspected in
  match run_result m s with
  | Ok done => done = targets_of inspected ∧ held host (run_state m s) = Some (as_state (c_id <$> done) (frozen_state mode) cs)
  | Err _ => thaws_answered (run_out m s) →
      ∃ done, done ⊆ targets_of inspected ∧ held host (run_state m s) = Some (as_state (c_id <$> done) "running" cs)
  end.
Proof using All.
  intros Hs. unfold quiesceStack, targets_of.
  assert (held host s = Some (as_state (c_id <$> []) (frozen_state mode) cs)) as Hs0 by (simpl; by rewrite as_state_nil).
  pose proof (freeze_each_run cs (newest_first (findMany RUNNING inspected)) [] s Hs0) as Hf. by destruct mode.
Qed.

(** Putting back what was frozen changes nothing but the state of what ran. *)
Lemma restored_rows cs done inspected :
  NoDup (c_id <$> cs) → (∀ c, c ∈ inspected → RUNNING c = true → c ∈ cs) → done ⊆ targets_of inspected →
  Forall2 (λ c c', c' = c ∨ RUNNING c = true ∧ c' = set_state "running" c) cs (as_state (c_id <$> done) "running" cs).
Proof using.
  intros Hnd Hin Hd. unfold as_state, updateMany. rewrite Forall2_fmap_r. apply Forall2_same_length_lookup_2; [done|].
  intros i c c' Hc Hc'. assert (c' = c) as -> by congruence. simpl.
  destruct (includes (c_id c) (c_id <$> done)) eqn:E; [|by left]. right. split; [|done].
  apply includes_true, list_elem_of_fmap in E as (d & Hid & Hdd). apply Hd, targets_running in Hdd as [Hr Hdi].
  assert (c = d) as ->; [|done]. eapply (NoDup_key c_id); [exact Hnd|by eapply list_elem_of_lookup_2|by apply Hin|done].
Qed.

End window.

(** ** An engine *)

Module Bench.
Record engine := Engine { cs : list Container; vs : list (string * option string) }.

#[export] Instance engine_docker : Docker engine := {|
  containers := cs;
  volumes := vs;
  perform a h := Engine (acted a (cs h))
    match a with RemoveVolume n => deleteMany (λ v, bool_decide (v.1 = n)) (vs h) | _ => vs h end
|}.

#[export] Instance engine_laws : DockerLaws engine.
Proof. split; intros; by destruct a. Qed.

Definition web : Container := ContainerInfo "c1" "web" (Some "shop") (Some "web") "running" 2.
Definition db : Container := ContainerInfo "c2" "db" (Some "shop") (Some "db") "restarting" 1.
Definition old : Container := ContainerInfo "c3" "old" (Some "shop") (Some "job") "exited" 0.
Definition box : engine := Engine [web; db; old] [("shop_data", Some "shop"); ("other", None)].
Definition one : site engine := Site {["h" := box]} 0.
End Bench.
Import Bench.


(** Without [no_lost] it fails: a container frozen by a call whose answer is
    lost is not among those put back, and stays stopped. *)
Lemma lost_freeze_is_not_undone :
  let m := with_frozen (λ n, if bool_decide (n = 1%nat) then Lost else Done) "h" stop (cs box) (mret tt) in
  run_out m one = [Asked "h" (Stop "c1") true; Asked "h" (Stop "c2") false; Asked "h" (Start "c1") true] ∧
  (c_state <$> default [] (held "h" (run_state m one))) = ["running"; "exited"; "exited"].
Proof. split; by vm_compute. Qed.
