(* ===== verification/Migration.v ===== *)
(** * Moving a stack to another host

    [stack-migrate/stack-migrate.service.ts]: the run of a migration, its
    cutover, its rollback and the operations on its row, over [DockerHost].

    A run is one program: what fails, and when the operator's cancellation is
    seen, are inputs ([ext] and [aborted], by the number of the call), so the
    theorems hold for every failure at every call.  The captures and restores
    of [stack-backup] are calls whose effect on a host is a class.  The plan is
    an input, with its conflicts and failing checks; the texts of messages and
    logs, durations and the progress of images are not modelled. *)
From S2P Require Import Prelude JsText Rbac Bearer FabricTrust DockerHost.
From stdpp Require Import gmap strings pretty options.

#[local] Open Scope Z_scope.
#[local] Set Default Proof Using "Type*".

(** ** Data *)

Inductive step_name :=
| planned | transferring_images | pre_copying | pre_restoring | quiescing | capturing | restoring | verifying
| awaiting_cutover | completing | cancelling | done_ | failed | cancelled_ | rolled_back.
Inductive run_status := running | success | error | cancelled.

#[export] Instance step_name_eq_dec : EqDecision step_name.
Proof. solve_decision. Defined.
#[export] Instance run_status_eq_dec : EqDecision run_status.
Proof. solve_decision. Defined.

(** [MigrateIngressSpec]; the tunnel and certificate go through unchanged. *)
Record Spec := IngressSpec { i_instance : string; i_hostname : string; i_port : Z; i_path : option string }.

Record Run := MigrationRun {
  r_id : string;
  r_source : string;
  r_stack : string;
  r_dest : string;
  r_destStack : string;
  r_step : step_name;
  r_status : run_status;
  r_snapshot : option string;
  r_sourceKept : bool;
  r_ingress : list Spec;
  r_flipped : bool;
  r_replicator : option string;
  r_repointed : bool;
  r_portMap : list (Z * Z);
  r_archived : bool
}.

(** A capture policy, [enabled] or a migration's scratch one. *)
Record Policy := CapturePolicy { cp_id : string; cp_instance : string; cp_stack : string; cp_enabled : bool }.

Record Plan := MigratePlan {
  pl_source : string;
  pl_stack : string;
  pl_dest : string;
  pl_destStack : string;
  pl_conflicts : list string;
  pl_failed : list string;             (** checks that fail *)
  pl_crossArch : bool;                 (** the architecture check warns *)
  pl_builds : nat;                     (** services built from source *)
  pl_needsPassphrase : bool;
  pl_ingress : list Spec;
  pl_replicator : option string;
  pl_ports : list Z                    (** published host ports *)
}.

Record Input := StartInput {
  in_force : bool;
  in_overwrite : bool;
  in_quiesce : option bool;
  in_warm : option bool;
  in_preRestore : option bool;
  in_rebuild : bool;
  in_gitSource : bool;                 (** a Git source is known *)
  in_destSsh : bool;                   (** the target host has SSH *)
  in_passphrase : bool;
  in_portMap : list (Z * Z);
  in_repoint : option bool
}.

(** What an execution tells of its calls, in order. *)
Inductive effect :=
| Host (e : docker_event)
| Images (host : string) (built ok : bool)
| Captured (policy : string) (ok : bool)
| RestoreStarted (host stack : string) (ok : bool)
| Restored (host stack : string) (deploy ok : bool)
| RouteSet (r : Spec) (upstream : string) (port : Z) (ok : bool)
| RoutesRepointed (deployment upstream : string) (ports : list (Z * Z)) (ok : bool)
| Repointed (deployment host stack : string) (ok : bool)
| PortsRemapped (deployment : string) (ports : list (Z * Z)) (ok : bool)
| StackForgotten (host stack : string) (ok : bool)
| Resolved (host : string) (ok : bool)
| Audited (o : output).

(** What a capture leaves of the source host, and a restore of the target. *)
Class Pipeline (H : Type) := {
  captured : H → H;
  restored : bool → string → H → H
}.

(** The state.  [sourceStopped] is the local variable of the execution. *)
Record world (H : Type) := World {
  docker : site H;
  runs : list Run;
  policies : list Policy;
  active : list string;                (** targets with a migration *)
  tasks : list string;                 (** runs with a live task *)
  sourceStopped : bool
}.
Arguments World {H} _ _ _ _ _ _.
Arguments docker {H} _.
Arguments runs {H} _.
Arguments policies {H} _.
Arguments active {H} _.
Arguments tasks {H} _.
Arguments sourceStopped {H} _.

Definition is_run (id : string) (r : Run) : bool := bool_decide (r_id r = id).
Definition is_policy (id : string) (p : Policy) : bool := bool_decide (cp_id p = id).
Definition policy_of (instance stack : string) (p : Policy) : bool :=
  bool_decide (cp_instance p = instance) && bool_decide (cp_stack p = stack).

Definition set_step (st : step_name) (r : Run) : Run :=
  MigrationRun (r_id r) (r_source r) (r_stack r) (r_dest r) (r_destStack r) st (r_status r) (r_snapshot r)
    (r_sourceKept r) (r_ingress r) (r_flipped r) (r_replicator r) (r_repointed r) (r_portMap r) (r_archived r).
Definition set_status (s : run_status) (r : Run) : Run :=
  MigrationRun (r_id r) (r_source r) (r_stack r) (r_dest r) (r_destStack r) (r_step r) s (r_snapshot r)
    (r_sourceKept r) (r_ingress r) (r_flipped r) (r_replicator r) (r_repointed r) (r_portMap r) (r_archived r).
Definition set_snapshot (x : string) (r : Run) : Run :=
  MigrationRun (r_id r) (r_source r) (r_stack r) (r_dest r) (r_destStack r) (r_step r) (r_status r) (Some x)
    (r_sourceKept r) (r_ingress r) (r_flipped r) (r_replicator r) (r_repointed r) (r_portMap r) (r_archived r).
Definition set_kept (b : bool) (r : Run) : Run :=
  MigrationRun (r_id r) (r_source r) (r_stack r) (r_dest r) (r_destStack r) (r_step r) (r_status r) (r_snapshot r)
    b (r_ingress r) (r_flipped r) (r_replicator r) (r_repointed r) (r_portMap r) (r_archived r).
Definition set_flipped (b : bool) (r : Run) : Run :=
  MigrationRun (r_id r) (r_source r) (r_stack r) (r_dest r) (r_destStack r) (r_step r) (r_status r) (r_snapshot r)
    (r_sourceKept r) (r_ingress r) b (r_replicator r) (r_repointed r) (r_portMap r) (r_archived r).
Definition set_repointed (b : bool) (r : Run) : Run :=
  MigrationRun (r_id r) (r_source r) (r_stack r) (r_dest r) (r_destStack r) (r_step r) (r_status r) (r_snapshot r)
    (r_sourceKept r) (r_ingress r) (r_flipped r) (r_replicator r) b (r_portMap r) (r_archived r).
Definition set_archived (b : bool) (r : Run) : Run :=
  MigrationRun (r_id r) (r_source r) (r_stack r) (r_dest r) (r_destStack r) (r_step r) (r_status r) (r_snapshot r)
    (r_sourceKept r) (r_ingress r) (r_flipped r) (r_replicator r) (r_repointed r) (r_portMap r) b.

Definition set_docker {H} (d : site H) (w : world H) : world H :=
  World d (runs w) (policies w) (active w) (tasks w) (sourceStopped w).
Definition set_runs {H} (rs : list Run) (w : world H) : world H :=
  World (docker w) rs (policies w) (active w) (tasks w) (sourceStopped w).
Definition set_policies {H} (ps : list Policy) (w : world H) : world H :=
  World (docker w) (runs w) ps (active w) (tasks w) (sourceStopped w).
Definition set_active {H} (ks : list string) (w : world H) : world H :=
  World (docker w) (runs w) (policies w) ks (tasks w) (sourceStopped w).
Definition set_tasks {H} (ts : list string) (w : world H) : world H :=
  World (docker w) (runs w) (policies w) (active w) ts (sourceStopped w).
Definition set_stopped {H} (b : bool) (w : world H) : world H :=
  World (docker w) (runs w) (policies w) (active w) (tasks w) b.

(** ** Ports *)

Definition port_get (m : list (Z * Z)) (p : Z) : option Z := snd <$> findFirst (λ kv, kv.1 =? p) m.
Definition remap (m : list (Z * Z)) (p : Z) : Z := default p (port_get m p).
Definition with_port (r : Spec) (p : Z) : Spec := IngressSpec (i_instance r) (i_hostname r) p (i_path r).

(** Assignment to a key of an object. *)
Definition port_set (k v : Z) (m : list (Z * Z)) : list (Z * Z) :=
  if some (λ kv, kv.1 =? k) m then updateMany (λ kv, kv.1 =? k) (λ kv, (kv.1, v)) m else m ++ [(k, v)].

(** The loop of [validatePortMap]. *)
Fixpoint validate_ports (published kept newSeen : list Z) (raw out : list (Z * Z)) : result failure (list (Z * Z)) :=
  match raw with
  | [] => Ok out
  | (old, nw) :: raw' =>
      if negb (includes old published) then
        Err (Http (BadRequest ("Port " +:+ num_to_string old +:+ " is not published by this stack, so it can't be remapped.")))
      else if (nw <? 1) || (65535 <? nw) then
        Err (Http (BadRequest (String "034" "" +:+ num_to_string nw +:+ String "034" " is not a valid host port for " +:+ num_to_string old +:+ ".")))
      else if nw =? old then validate_ports published kept newSeen raw' out
      else if includes nw kept || includes nw newSeen then
        Err (Http (BadRequest ("New port " +:+ num_to_string nw +:+
          " collides with another port this stack publishes — pick a different one.")))
      else validate_ports published kept (nw :: newSeen) raw' (port_set old nw out)
  end.

Definition validatePortMap (raw : list (Z * Z)) (published : list Z) : result failure (list (Z * Z)) :=
  validate_ports published (findMany (λ p, negb (includes p (raw.*1))) published) [] raw [].

(** [invertMap]; a later pair wins. *)
Definition invertMap (m : list (Z * Z)) : list (Z * Z) := foldl (λ out kv, port_set kv.2 kv.1 out) [] m.

(** ** Health of the target *)

(** What one look at a container gives: its listing and its inspection, which
    can fail. *)
Record Seen := Look {
  se_health : option string;           (** State.Health.Status *)
  se_running : option bool;            (** State.Running *)
  se_status : option string;           (** State.Status *)
  se_state : string;                   (** of the listing *)
  se_exit0 : bool                      (** the listing's status has (0) *)
}.

Definition is_running (c : Seen) : bool := default (bool_decide (se_state c = "running")) (se_running c).
Definition finishedCleanly (c : Seen) : bool :=
  negb (is_running c) && bool_decide (se_status c = Some "exited") && se_exit0 c.
Definition is_up (c : Seen) : bool := is_running c || finishedCleanly c.
Definition is_healthy (c : Seen) : bool :=
  if truthy (se_health c) then bool_decide (se_health c = Some "healthy") else is_up c.

Inductive verdict := Healthy | Degraded | Down.

#[export] Instance verdict_eq_dec : EqDecision verdict.
Proof. solve_decision. Defined.

(** One observation: [None] when the containers cannot be listed. *)
Abbreviation observation := (option (list Seen)).

(** The state of the wait: the healthy observations in a row, and whether the
    last one had everything up. *)
Definition observe (o : observation) (st : nat * bool) : nat * bool :=
  match o with
  | None | Some [] => (st.1, false)
  | Some cs => (if every is_healthy cs then S st.1 else 0%nat, every is_up cs)
  end.

Fixpoint settle (obs : list observation) (st : nat * bool) : verdict :=
  match obs with
  | [] => if st.2 then Degraded else Down
  | o :: obs' => let st' := observe o st in if 2 <=? st'.1 then Healthy else settle obs' st'
  end%nat.

(** ** The migrator *)

Section migrator.
Context {H : Type} `{Docker H} `{Pipeline H}.
(** How the calls end; when the cancellation is seen; the addresses of hosts;
    the snapshots and identifiers of new rows; the looks at the target. *)
Context (ext : nat → answer) (aborted : nat → bool) (ip : string → string).
Context (snapshot : nat → string) (fresh : nat → string) (looks : nat → list observation).

Abbreviation prog := (svc (world H) effect failure).

Definition on_site {E A} (g : E → effect) (m : svc (site H) E failure A) : prog A := λ w,
  match m (docker w) with (r, s, o) => (r, set_docker s w, g <$> o) end.

Definition on_engine {A} (m : svc (site H) docker_event failure A) : prog A := on_site Host m.

(** A call to another service, with its effect on a host. *)
Definition outside (host : string) (f : H → H) (ev : bool → effect) : prog unit :=
  on_site id (outcome ext host f ev).

Definition now : prog nat := gets (λ w, tick (docker w)).
Definition advance : prog unit := modify (λ w, set_docker (next_tick (docker w)) w).

(** A call that touches no host. *)
Definition service (ev : bool → effect) : prog unit := outside "" (λ h, h) ev.

(** [ck], and the check of each turn of a wait *)
Definition ck : prog unit := t ← now; advance ;; when (aborted t) (throw Cancelled).

Definition patch (id : string) (f : Run → Run) : prog unit :=
  modify (λ w, set_runs (updateMany (is_run id) f (runs w)) w).
Definition setStep (id : string) (st : step_name) : prog unit := patch id (set_step st).
Definition finish (id : string) (st : run_status) (step : step_name) : prog unit :=
  patch id (λ r, set_status st (set_step step r)).

Definition bad_request (msg : string) : failure := Http (BadRequest msg).

Definition hostOrThrow (id : string) : prog unit :=
  w ← get; match hosts (docker w) !! id with Some _ => mret tt | None => throw (bad_request "Choose a Docker host.") end.

(** Reading the connector's configuration can fail. *)
Definition accessFor (id : string) : prog unit := hostOrThrow id ;; outside id (λ h, h) (Resolved id).

Definition hostIpFor (id : string) : prog string :=
  w ← get;
  match hosts (docker w) !! id with
  | None => mret ""
  | Some _ => outside id (λ h, h) (Resolved id) ;; mret (ip id)
  end.

(** ** Captures and restores *)

(** The policy, and whether it is a scratch one, to be deleted. *)
Definition ensureCapturePolicy (p : Plan) : prog (string * bool) :=
  w ← get;
  match findFirst (policy_of (pl_source p) (pl_stack p)) (policies w) with
  | Some x => mret (cp_id x, false)
  | None =>
      let id := fresh (tick (docker w)) in
      advance ;;
      modify (λ w, set_policies (createRow (CapturePolicy id (pl_source p) (pl_stack p) false) (policies w)) w) ;;
      mret (id, true)
  end.

Definition cleanup (policy : string * bool) : prog unit :=
  when policy.2 (modify (λ w, set_policies (deleteMany (is_policy policy.1) (policies w)) w)).

Definition runBackup (p : Plan) (policy : string) : prog string :=
  outside (pl_source p) captured (Captured policy) ;;
  ck ;;
  t ← now;
  mret (snapshot t).

Definition restoreToTarget (p : Plan) : prog unit :=
  outside (pl_dest p) (restored true (pl_destStack p)) (Restored (pl_dest p) (pl_destStack p) true) ;;
  ck.

(** Only starting it can fail the run. *)
Definition restoreDataToTarget (p : Plan) : prog unit :=
  outside (pl_dest p) (λ h, h) (RestoreStarted (pl_dest p) (pl_destStack p)) ;;
  settled (outside (pl_dest p) (restored false (pl_destStack p)) (Restored (pl_dest p) (pl_destStack p) false)) ;;
  ck.

(** One look every five seconds, until the verdict or the deadline. *)
Fixpoint watch (obs : list observation) (st : nat * bool) : prog verdict :=
  match obs with
  | [] => mret (if st.2 then Degraded else Down)
  | o :: obs' =>
      ck ;;
      let st' := observe o st in
      if (2 <=? st'.1)%nat then mret Healthy else watch obs' st'
  end.

Definition waitHealthy : prog verdict := t ← now; watch (looks t) (0%nat, false).

(** ** Execution *)

Definition quiesces (i : Input) : bool := default true (in_quiesce i).
Definition warm_copy (i : Input) : bool := quiesces i && default true (in_warm i).
Definition live_copy (i : Input) : bool := warm_copy i && default true (in_preRestore i).

Definition rebuild_images (id : string) (i : Input) (p : Plan) : prog unit :=
  when (in_rebuild i && negb (pl_builds p =? 0)%nat)
    (ck ;;
     if negb (in_gitSource i) then mret tt
     else if negb (in_destSsh i) then
       throw (Failed "Rebuild on target needs SSH access to the target host (none is configured).")
     else
       setStep id transferring_images ;;
       outside (pl_dest p) (λ h, h) (Images (pl_dest p) true)).

Definition transfer_images (id : string) (p : Plan) : prog unit :=
  ck ;;
  setStep id transferring_images ;;
  outside (pl_dest p) (λ h, h) (Images (pl_dest p) false).

Definition clear_target (i : Input) (p : Plan) : prog unit :=
  when (in_overwrite i || in_force i) (ck ;; on_engine (removeProjectContainers ext (pl_dest p) (pl_destStack p)) ;; mret tt).

Definition pre_copy (id : string) (i : Input) (p : Plan) (policy : string) : prog unit :=
  when (warm_copy i)
    (ck ;;
     setStep id pre_copying ;;
     runBackup p policy ;;
     when (live_copy i) (ck ;; setStep id pre_restoring ;; restoreDataToTarget p)).

Definition quiesce_source (id : string) (i : Input) (p : Plan) : prog unit :=
  ck ;;
  when (quiesces i)
    (setStep id quiescing ;;
     stopped ← on_engine (stopProject ext (pl_source p) (pl_stack p));
     modify (set_stopped (0 <? stopped)%nat)).

Definition capture_final (id : string) (p : Plan) (policy : string) : prog unit :=
  ck ;;
  setStep id capturing ;;
  snap ← runBackup p policy;
  patch id (set_snapshot snap).

Definition restore_final (id : string) (p : Plan) : prog unit :=
  ck ;; setStep id restoring ;; restoreToTarget p.

Definition verify (id : string) : prog unit :=
  ck ;;
  setStep id verifying ;;
  v ← waitHealthy;
  when (bool_decide (v = Down)) (throw (Failed "The migrated stack did not come up")).

(** Before and after the source is stopped. *)
Definition prepare (id : string) (i : Input) (p : Plan) (policy : string) : prog unit :=
  rebuild_images id i p ;; transfer_images id p ;; clear_target i p ;; pre_copy id i p policy.

Definition move_data (id : string) (p : Plan) (policy : string) : prog unit :=
  capture_final id p policy ;; restore_final id p ;; verify id.

Definition pipeline (id : string) (i : Input) (p : Plan) (policy : string) : prog unit :=
  prepare id i p policy ;; quiesce_source id i p ;; move_data id p policy.

Definition attempt_run_of (id : string) (i : Input) (p : Plan) : prog unit :=
  hostOrThrow (pl_source p) ;;
  hostOrThrow (pl_dest p) ;;
  accessFor (pl_source p) ;;
  accessFor (pl_dest p) ;;
  policy ← ensureCapturePolicy p;
  finally (pipeline id i p policy.1) (cleanup policy).

(** Both failure paths bring a stopped source back. *)
Definition restart_source (p : Plan) : prog unit :=
  w ← get;
  when (sourceStopped w)
    (settled (accessFor (pl_source p) ;; on_engine (startProject ext (pl_source p) (pl_stack p))) ;; mret tt).

Definition remove_target (host stack : string) (ssh : bool) : prog unit :=
  accessFor host ;;
  on_engine (removeProjectContainers ext host stack) ;;
  on_engine (removeProjectVolumes ext host stack) ;;
  when ssh (settled (service (StackForgotten host stack)) ;; mret tt).

(** The end of the [try], and the handlers of its [catch]. *)
Definition conclude (id : string) (i : Input) (p : Plan) (r : result failure unit) (now_aborted : bool) : prog unit :=
  match r with
  | Ok _ => finish id success awaiting_cutover
  | Err e =>
      if bool_decide (e = Cancelled) || now_aborted then
        setStep id cancelling ;;
        restart_source p ;;
        settled (remove_target (pl_dest p) (pl_destStack p) (in_destSsh i)) ;;
        finish id cancelled cancelled_
      else
        restart_source p ;;
        finish id error failed
  end.

Definition execute (id : string) (i : Input) (p : Plan) : prog unit :=
  modify (set_stopped false) ;;
  r ← settled (attempt_run_of id i p);
  t ← now;
  conclude id i p r (aborted t).

(** ** Starting and cancelling *)

Definition target_key (dest stack : string) : string := dest +:+ "/" +:+ stack.

Definition crossArch_conflict : string :=
  "This is a cross-architecture migration (source ≠ target CPU) and the images are built from source — enable " +:+
  String "034" "" +:+ "Rebuild images on the target" +:+ String "034" "" +:+
  " so they're built natively, or they won't start on the target. (Override with force only if the target can emulate the source architecture.)".

Definition extraConflicts (i : Input) (p : Plan) : list string :=
  if pl_crossArch p && negb (pl_builds p =? 0)%nat && negb (in_rebuild i) then [crossArch_conflict] else [].

(** [unresolved] are the ports the compose rewrite cannot move. *)
Context (unresolved : list (Z * Z) → list Z).

Definition blockers (i : Input) (p : Plan) : list string := pl_conflicts p ++ extraConflicts i p ++ pl_failed p.

(** The checks before the row: the port map and the deployment to re-point. *)
Definition start_check (i : Input) (p : Plan) (locked : list string) : result failure (list (Z * Z) * option string) :=
  if negb (bool_decide (blockers i p = [])) && negb (in_force i) then
    Err (bad_request ("Migration blocked: " +:+ String.concat " · " (blockers i p)))
  else if pl_needsPassphrase p && negb (in_passphrase i) then
    Err (bad_request "This stack's backup seals its secrets — supply the passphrase so the target .env can be rebuilt.")
  else if includes (target_key (pl_dest p) (pl_destStack p)) locked then
    Err (bad_request "A migration is already running for that target.")
  else
    portMap ← validatePortMap (in_portMap i) (pl_ports p);
    if negb (bool_decide (portMap = [])) && negb (bool_decide (unresolved portMap = [])) && negb (in_force i) then
      Err (bad_request ("Can't remap host port(s) " +:+ String.concat ", " (num_to_string <$> unresolved portMap) +:+
        " — not a simple published port in the compose (a range, IPv6 host, or absent). Fix the remap or choose a different target."))
    else Ok (portMap, if default true (in_repoint i) then pl_replicator p else None).

Definition new_run (id : string) (p : Plan) (portMap : list (Z * Z)) (replicator : option string) : Run :=
  MigrationRun id (pl_source p) (pl_stack p) (pl_dest p) (pl_destStack p) planned running None true
    ((λ r, with_port r (remap portMap (i_port r))) <$> pl_ingress p) false replicator false portMap false.

Context (u : option (string * string)).   (** the actor *)

Definition audit_target (stack destStack : string) : string := stack +:+ " → " +:+ destStack.
Definition record_audit (action target : string) : prog unit :=
  tell (Audited (OAudit (Audit (fst <$> u) (snd <$> u) action (Some target)))).

(** The row and the locks; the execution follows, and drops the locks. *)
Definition start (i : Input) (p : Plan) : prog string :=
  w ← get;
  checked ← lift (start_check i p (active w));
  t ← now;
  let id := fresh t in
  advance ;;
  modify (λ w, set_runs (createRow (new_run id p checked.1 checked.2) (runs w)) w) ;;
  record_audit "stack.migrate.started" (audit_target (pl_stack p) (pl_destStack p)) ;;
  modify (λ w, set_active (target_key (pl_dest p) (pl_destStack p) :: active w) (set_tasks (id :: tasks w) w)) ;;
  mret id.

Definition settle_locks (id : string) (p : Plan) : prog unit :=
  modify (λ w, set_active (findMany (λ k, negb (bool_decide (k = target_key (pl_dest p) (pl_destStack p)))) (active w))
    (set_tasks (findMany (λ t, negb (bool_decide (t = id))) (tasks w)) w)).

Definition migrate (i : Input) (p : Plan) : prog unit :=
  id ← start i p;
  finally (execute id i p) (settle_locks id p).

Definition find_run (id : string) : prog Run :=
  w ← get; or_throw (findFirst (is_run id) (runs w)) (Http (NotFound "Migration run not found.")).

(** Without a live task the row is settled here; with one its execution sees
    the signal and settles it. *)
Definition cancel (id : string) : prog bool :=
  row ← find_run id;
  throw_if (negb (bool_decide (r_status row = running))) (bad_request "Only a running migration can be cancelled.") ;;
  w ← get;
  let live := includes id (tasks w) in
  when (negb live) (finish id cancelled cancelled_) ;;
  record_audit "stack.migrate.cancelled" (audit_target (r_stack row) (r_destStack row)) ;;
  mret live.

(** ** Cutover *)

Fixpoint flip (routes : list Spec) (upstream : string) (port : Z → Z) : prog unit :=
  match routes with
  | [] => mret tt
  | r :: routes' =>
      service (RouteSet r upstream (port (i_port r))) ;;
      flip routes' upstream port
  end.

Definition flip_routes (row : Run) : prog unit :=
  when (negb (bool_decide (r_ingress row = [])))
    (targetIp ← hostIpFor (r_dest row);
     throw_if (bool_decide (targetIp = "")) (bad_request "Could not resolve the target host IP for the ingress flip.") ;;
     flip (r_ingress row) targetIp (remap (r_portMap row)) ;;
     patch (r_id row) (set_flipped true)).

(** [numericMap] and [invertMap] give [undefined] for an empty map. *)
Definition repoint_deployment (row : Run) (host stack : string) (ports : list (Z * Z)) (best_effort : bool) : prog unit :=
  match r_replicator row with
  | None => mret tt
  | Some dep =>
      addr ← hostIpFor host;
      when (negb (bool_decide (addr = "")))
        (r ← settled (service (RoutesRepointed dep addr ports));
         when (negb best_effort) (lift r)) ;;
      service (Repointed dep host stack) ;;
      when (negb (bool_decide (ports = []))) (settled (service (PortsRemapped dep ports)) ;; mret tt) ;;
      patch (r_id row) (set_repointed (negb best_effort))
  end.

Definition teardown_source (row : Run) : prog unit :=
  accessFor (r_source row) ;;
  on_engine (removeProjectContainers ext (r_source row) (r_stack row)) ;;
  finish (r_id row) success done_ ;;
  patch (r_id row) (set_kept false) ;;
  record_audit "stack.migrate.cutover" (audit_target (r_stack row) (r_destStack row)).

Definition failure_message (e : failure) : string :=
  match e with
  | Cancelled => "cancelled"
  | Failed m => m
  | Http (BadRequest m | NotFound m | Forbidden m | Unauthorized m | TooManyRequests m | Internal m) => m
  end.

Definition complete (id : string) : prog unit :=
  row ← find_run id;
  throw_if (negb (bool_decide (r_step row = awaiting_cutover))) (bad_request "This migration is not awaiting cutover.") ;;
  patch id (set_step completing) ;;
  catch
    (flip_routes row ;;
     repoint_deployment row (r_dest row) (r_destStack row) (r_portMap row) false ;;
     teardown_source row)
    (λ e, patch id (set_step awaiting_cutover) ;; throw (bad_request ("Could not cut over: " +:+ failure_message e))).

(** ** Rollback *)

Fixpoint flip_back (routes : list Spec) (upstream : string) : prog unit :=
  match routes with
  | [] => mret tt
  | r :: routes' => settled (service (RouteSet r upstream (i_port r))) ;; flip_back routes' upstream
  end.

Definition unflip_routes (row : Run) : prog unit :=
  when (negb (bool_decide (r_ingress row = [])) && r_flipped row)
    (sourceIp ← hostIpFor (r_source row);
     when (negb (bool_decide (sourceIp = "")))
       (flip_back (r_ingress row) sourceIp ;; patch (r_id row) (set_flipped false))).

(** [destSsh]: the target host has SSH. *)
Definition rollback (id : string) (destSsh : bool) : prog unit :=
  row ← find_run id;
  throw_if (negb (bool_decide (r_step row = awaiting_cutover)) && negb (bool_decide (r_step row = failed)))
    (bad_request "Only a migration awaiting cutover (or a failed one) can be rolled back.") ;;
  catch
    (accessFor (r_source row) ;;
     on_engine (startProject ext (r_source row) (r_stack row)) ;;
     unflip_routes row ;;
     when (r_repointed row)
       (repoint_deployment row (r_source row) (r_stack row) (invertMap (r_portMap row)) true) ;;
     remove_target (r_dest row) (r_destStack row) destSsh ;;
     finish id success rolled_back ;;
     record_audit "stack.migrate.rolledback" (audit_target (r_stack row) (r_destStack row)))
    (λ e, throw (bad_request ("Rollback failed: " +:+ failure_message e))).

(** ** The rows *)

Definition forceFail (id : string) : prog unit :=
  row ← find_run id;
  throw_if (negb (bool_decide (r_status row = running))) (bad_request "Only a running migration can be force-failed.") ;;
  finish id error failed ;;
  record_audit "stack.migrate.force_failed" (audit_target (r_stack row) (r_destStack row)).

Definition in_flight (r : Run) : bool := bool_decide (r_status r = running) || bool_decide (r_step r = awaiting_cutover).

Definition dismiss (id : string) : prog unit :=
  row ← find_run id;
  throw_if (in_flight row)
    (bad_request "This migration is still active — cancel, complete or roll it back before dismissing it.") ;;
  patch id (set_archived true) ;;
  record_audit "stack.migrate.dismiss" (audit_target (r_stack row) (r_destStack row)).

Definition dismissable (r : Run) : bool := negb (r_archived r) && negb (in_flight r).

Definition dismissFinished : prog nat :=
  w ← get;
  let n := countWhere dismissable (runs w) in
  modify (λ w, set_runs (updateMany dismissable (set_archived true) (runs w)) w) ;;
  when (0 <? n)%nat (record_audit "stack.migrate.dismiss-all" "finished migrations") ;;
  mret n.

Definition restoreToList (id : string) : prog unit := find_run id ;; patch id (set_archived false).

(** A restart: the locks and tasks of the process are gone. *)
Definition fail_interrupted (r : Run) : Run := set_status error (set_step failed r).

Definition onModuleInit : prog unit :=
  modify (λ w, set_active [] (set_tasks [] w)) ;;
  modify (λ w, set_runs (updateMany (λ r, bool_decide (r_status r = running)) fail_interrupted (runs w)) w) ;;
  modify (λ w, set_runs (updateMany (λ r, bool_decide (r_step r = completing)) (set_step awaiting_cutover) (runs w)) w).
End migrator.

(** ** What a migration does to the tables *)

Section tables.
Context {H : Type} `{Docker H} `{Pipeline H}.
Context (ext : nat → answer) (aborted : nat → bool) (ip : string → string).

(** A view of the world that the calls and the fields of a row leave as it is. *)
Context {T : Type} (view : world H → T).

Definition same_view (w w' : world H) : Prop := view w' = view w.

#[export] Instance same_view_preorder : PreOrder same_view.
Proof using. split; [by intros w|]. unfold same_view. intros w1 w2 w3 ??. congruence. Qed.

Class View : Prop := {
  view_docker d w : view (set_docker d w) = view w;
  view_patch id f w : (∀ r, r_id (f r) = r_id r) → view (set_runs (updateMany (is_run id) f (runs w)) w) = view w
}.
Context `{!View}.

Lemma view_site {E A} (g : E → effect) (m : svc (site H) E failure A) : along same_view (on_site g m).
Proof. intros w. unfold run_state, on_site, same_view. destruct (m (docker w)) as [[??]?]. apply view_docker. Qed.

Lemma view_outside host f ev : along same_view (outside (H := H) ext host f ev).
Proof. apply view_site. Qed.

Lemma view_service ev : along same_view (service (H := H) ext ev).
Proof. apply view_outside. Qed.

Lemma view_access host : along same_view (accessFor (H := H) ext host).
Proof. unfold accessFor, hostOrThrow. along. apply view_outside. Qed.

Lemma view_ip host : along same_view (hostIpFor (H := H) ext ip host).
Proof. unfold hostIpFor. along. apply view_outside. Qed.

Lemma view_ck : along same_view (ck (H := H) aborted).
Proof.
  intros w. unfold run_state, ck, now, advance, when, same_view. svc_run. destruct (aborted _); simpl; apply view_docker.
Qed.

Lemma view_row id f : (∀ r, r_id (f r) = r_id r) → along same_view (patch (H := H) id f).
Proof. intros Hf w. by apply view_patch. Qed.

Lemma view_watch obs st : along same_view (watch (H := H) aborted obs st).
Proof.
  revert st. induction obs as [|o obs IH]; intros st; cbn [watch]; [done|].
  apply along_bind; [apply view_ck|intros _]. along.
Qed.
End tables.

Section rows.
Context {H : Type}.

Lemma patched_row id f r (w : world H) : (∀ r, r_id (f r) = r_id r) →
  findFirst (is_run id) (runs w) = Some r → findFirst (is_run id) (runs (run_state (patch id f) w)) = Some (f r).
Proof using.
  intros Hf Hr. simpl. rewrite (findFirst_updateMany (is_run id)) by (intros r'; unfold is_run; by rewrite Hf).
  rewrite Hr. simpl. apply findFirst_Some in Hr as [_ Hid]. by rewrite Hid.
Qed.

(** What an execution keeps but for its own row's fields. *)
Definition registry (w : world H) : list string * list Policy * list string * list string :=
  (r_id <$> runs w, policies w, active w, tasks w).
Abbreviation same_registry := (same_view registry).

#[export] Instance registry_view : View registry.
Proof. split; [done|]. intros id f w Hf. unfold registry. simpl. by rewrite fmap_updateMany. Qed.

#[export] Instance flag_view : View (sourceStopped (H := H)).
Proof. by split. Qed.
End rows.
Abbreviation same_registry := (same_view registry).

Lemma patch_docker {H} id f (w : world H) : docker (run_state (patch id f) w) = docker w.
Proof. done. Qed.

Lemma ck_run {H} aborted (w : world H) :
  ck aborted w = (if aborted (tick (docker w)) then Err Cancelled else Ok tt, set_docker (next_tick (docker w)) w, []).
Proof. unfold ck, now, advance, when. svc_run. by destruct (aborted _). Qed.

Lemma patch_run {H} id f (w : world H) : patch id f w = (Ok tt, run_state (patch id f) w, []).
Proof. done. Qed.

(** No container or volume is acted upon. *)
Definition passive (o : effect) : Prop := ∀ h a ok, o ≠ Host (Asked h a ok).

Lemma service_ok {H} `{Docker H} ext ev (w w' : world H) o : service ext ev w = (Ok tt, w', o) → o = [ev true].
Proof. unfold service, outside, on_site. rewrite outcome_run. by destruct (ext _); intros [= _ <-]. Qed.

Lemma service_passive {H} `{Docker H} ext ev : (∀ b, passive (ev b)) → emits passive (service (H := H) ext ev).
Proof.
  intros Hp w. unfold run_out, service, outside, on_site. rewrite outcome_run. destruct (ext _); repeat constructor; apply Hp.
Qed.

Lemma access_passive {H} `{Docker H} ext host : emits passive (accessFor (H := H) ext host).
Proof.
  unfold accessFor, hostOrThrow. emits. intros w. unfold run_out, outside, on_site. rewrite outcome_run.
  by destruct (ext _); repeat constructor.
Qed.

Lemma ip_passive {H} `{Docker H} ext ip host : emits passive (hostIpFor (H := H) ext ip host).
Proof.
  unfold hostIpFor. emits. intros w. unfold run_out, outside, on_site. rewrite outcome_run.
  by destruct (ext _); repeat constructor.
Qed.

Lemma ip_ok {H} `{Docker H} ext ip host (w w' : world H) a o : hostIpFor ext ip host w = (Ok a, w', o) → a = "" ∨ a = ip host.
Proof.
  unfold hostIpFor. svc_run. destruct (hosts _ !! host); [|intros [= <- _ _]; by left].
  intros ([] & ? & ? & ? & _ & [= <- _ _] & _)%svc_bind_ok. by right.
Qed.

Lemma access_run {H} `{Docker H} ext host (w : world H) :
  is_Some (hosts (docker w) !! host) →
  let w1 := set_docker (next_tick (docker w)) w in
  accessFor ext host w = (Ok tt, w1, [Resolved host true]) ∨ accessFor ext host w = (Err engine_error, w1, [Resolved host false]).
Proof.
  intros [h Hh] w1. unfold accessFor, hostOrThrow, outside, on_site. svc_run. rewrite Hh. svc_run.
  unfold next_tick, w1. rewrite outcome_run. unfold on_host. destruct (ext _); [left|right..]; simpl; by rewrite ?(alter_id (λ h, h)).
Qed.

(** ** What a migration does to the hosts *)

#[local] Opaque outcome.

Section confinement.
Context {H : Type} `{Docker H} `{Pipeline H}.
Context (ext : nat → answer) (aborted : nat → bool) (ip : string → string).
Context (snapshot : nat → string) (fresh : nat → string) (looks : nat → list observation) (u : option (string * string)).
Context (Q : gmap string H → gmap string H → Prop) `{!PreOrder Q}.

Definition on_worlds (w w' : world H) : Prop := on_hosts Q (docker w) (docker w').

#[export] Instance on_worlds_preorder : PreOrder on_worlds.
Proof. split; unfold on_worlds; [by intros w|]. intros w1 w2 w3 ??. by etransitivity. Qed.

Lemma along_site {E A} (g : E → effect) (m : svc (site H) E failure A) : along (on_hosts Q) m → along on_worlds (on_site g m).
Proof using. intros Hm w. specialize (Hm (docker w)). unfold run_state, on_site, on_worlds in *. by destruct (m (docker w)) as [[??]?]. Qed.

Lemma along_outside host f ev : follows Q host f → along on_worlds (outside ext host f ev).
Proof. intros Hf. by apply along_site, along_outcome. Qed.

Lemma along_service ev : along on_worlds (service (H := H) ext ev).
Proof. apply along_outside, follows_id, _. Qed.

Lemma along_access host : along on_worlds (accessFor (H := H) ext host).
Proof. unfold accessFor, hostOrThrow. along. apply along_outside, follows_id, _. Qed.

Lemma along_ip host : along on_worlds (hostIpFor (H := H) ext ip host).
Proof. unfold hostIpFor. along. apply along_outside, follows_id, _. Qed.

Lemma along_rows (f : world H → world H) : (∀ w, docker (f w) = docker w) → along on_worlds (modify f : svc (world H) effect failure unit).
Proof. intros Hf w. unfold on_worlds. simpl. by rewrite Hf. Qed.

Lemma along_ck : along on_worlds (ck (H := H) aborted).
Proof. intros w. unfold run_state, ck, now, advance, when, on_worlds, on_hosts. svc_run. by destruct (aborted _). Qed.

Lemma along_patch id f : along on_worlds (patch (H := H) id f).
Proof. by apply along_rows. Qed.
End confinement.
#[local] Opaque outside service accessFor hostIpFor ck patch.

(** Closes a step on the rows, and one the relation follows. *)
Ltac quiet := first
  [ apply along_service | apply along_access | apply along_ip | apply along_ck | apply along_patch | by apply along_rows ]; try exact _.

Section migration_along.
Context {H : Type} `{Docker H} `{Pipeline H}.
Context (ext : nat → answer) (aborted : nat → bool) (ip : string → string).
Context (snapshot : nat → string) (fresh : nat → string) (looks : nat → list observation) (u : option (string * string)).
Context (Q : gmap string H → gmap string H → Prop) `{!PreOrder Q}.

(** What a preorder must follow for the parts of an execution to follow it. *)
Record follows_moves (source dest : string) : Prop := {
  f_capture : follows Q source captured;
  f_restore deploy stack : follows Q dest (restored deploy stack);
  f_dest a : follows Q dest (perform a)
}.
Record follows_migration (source dest : string) : Prop := {
  f_moves : follows_moves source dest;
  f_stop id : follows Q source (perform (Stop id));
  f_start id : follows Q source (perform (Start id))
}.

Lemma along_watch obs st : along (on_worlds Q) (watch (H := H) aborted obs st).
Proof. revert st. induction obs as [|o obs IH]; intros st; cbn [watch]; along; first [quiet|apply IH].
Qed.

#[local] Opaque watch.

(** The calls of an execution and of its failure paths. *)
Ltac moved F := first
  [ quiet
  | apply along_watch
  | by unfold on_worlds, on_hosts
  | apply along_outside; first [exact _ | apply (f_capture _ _ F) | apply (f_restore _ _ F) | apply follows_id; exact _]
  | apply along_site; first
      [ apply along_remove; [exact _|intros; apply (f_dest _ _ F)]
      | apply along_remove_volumes; [exact _|intros; apply (f_dest _ _ F)] ] ]; try exact _.

Lemma along_prepare p i id policy : follows_moves (pl_source p) (pl_dest p) →
  along (on_worlds Q) (prepare ext aborted snapshot id i p policy).
Proof.
  intros F. unfold prepare, rebuild_images, transfer_images, clear_target, pre_copy, runBackup, restoreDataToTarget,
    setStep, on_engine, now. along; moved F.
Qed.

Lemma along_move p id policy : follows_moves (pl_source p) (pl_dest p) →
  along (on_worlds Q) (move_data ext aborted snapshot looks id p policy).
Proof.
  intros F. unfold move_data, runBackup, capture_final, restore_final, restoreToTarget, verify, waitHealthy, setStep, on_engine, now.
  along; moved F.
Qed.

Lemma along_policy p : along (on_worlds Q) (ensureCapturePolicy (H := H) fresh p).
Proof. unfold ensureCapturePolicy, advance. along; moved tt. Qed.

Lemma along_cleanup policy : along (on_worlds Q) (cleanup (H := H) policy).
Proof. unfold cleanup. along; moved tt. Qed.

Lemma along_stop_source p id i : follows_migration (pl_source p) (pl_dest p) → along (on_worlds Q) (quiesce_source ext aborted id i p).
Proof.
  intros F. unfold quiesce_source, setStep, on_engine. along; try moved F. apply along_site, along_stop; [exact _|intros; apply (f_stop _ _ F)].
Qed.

Lemma along_restart p : follows_migration (pl_source p) (pl_dest p) → along (on_worlds Q) (restart_source ext p).
Proof.
  intros F. unfold restart_source, on_engine. along; [moved F|]. apply along_site, along_start; [exact _|intros; apply (f_start _ _ F)].
Qed.

Lemma along_remove_target source dest stack ssh : follows_moves source dest → along (on_worlds Q) (remove_target ext dest stack ssh).
Proof. intros F. unfold remove_target, on_engine. along; moved F. Qed.

Lemma along_attempt p i id : follows_migration (pl_source p) (pl_dest p) →
  along (on_worlds Q) (attempt_run_of ext aborted snapshot fresh looks id i p).
Proof.
  intros F. unfold attempt_run_of, hostOrThrow. do 4 (apply along_bind; [along; quiet|intros []]).
  apply along_bind; [apply along_policy; exact _|intros policy]. apply along_finally; [|apply along_cleanup; exact _].
  unfold pipeline. apply along_bind; [apply along_prepare; first [exact _|apply F]|intros []].
  apply along_bind; [apply along_stop_source; first [exact _|exact F]|intros []]. apply along_move; first [exact _|apply F].
Qed.

Lemma along_execute p i id : follows_migration (pl_source p) (pl_dest p) →
  along (on_worlds Q) (execute ext aborted snapshot fresh looks id i p).
Proof.
  intros F. unfold execute. apply along_bind; [quiet|intros _].
  apply along_bind; [apply along_settled, along_attempt; first [exact _|exact F]|]. intros r.
  apply along_bind; [by intros w|intros t]. unfold conclude. destruct r as [?|e]; [unfold finish; quiet|].
  case_match; [apply along_bind; [unfold setStep; quiet|intros _]|];
    (apply along_bind; [apply along_restart; first [exact _|exact F]|intros _]); unfold finish; [|quiet].
  apply along_bind; [|intros _; quiet]. eapply along_settled, along_remove_target; first [exact _|apply F].
Qed.

Lemma find_run_run {A} id (k : Run → svc (world H) effect failure A) w :
  (find_run id ≫= k) w =
  match findFirst (is_run id) (runs w) with
  | Some r => k r w
  | None => (Err (Http (NotFound "Migration run not found.")), w, [])
  end.
Proof using. unfold find_run. svc_run. by destruct (findFirst _ _). Qed.

Lemma along_flip routes upstream port : along (on_worlds Q) (flip (H := H) ext routes upstream port).
Proof. induction routes; cbn [flip]; along; moved tt. Qed.

Lemma along_flip_back routes upstream : along (on_worlds Q) (flip_back (H := H) ext routes upstream).
Proof. induction routes; cbn [flip_back]; along; moved tt. Qed.

Lemma along_repoint row host stack ports best : along (on_worlds Q) (repoint_deployment (H := H) ext ip row host stack ports best).
Proof. unfold repoint_deployment. along; moved tt. Qed.

Lemma along_complete id w r :
  findFirst (is_run id) (runs w) = Some r → (∀ c, follows Q (r_source r) (perform (Remove c))) →
  on_worlds Q w (run_state (complete ext ip u id) w).
Proof.
  intros Hr F. unfold complete, run_state. rewrite find_run_run, Hr. generalize w. clear w Hr. intros w.
  match goal with |- on_worlds Q w (?m w).1.2 => change (on_worlds Q w (run_state m w)); revert w; change (along (on_worlds Q) m) end.
  unfold flip_routes, teardown_source, finish, record_audit, on_engine. along; try moved tt; try apply along_flip; try apply along_repoint; try exact _.
  apply along_site, along_remove; [exact _|done].
Qed.

Lemma along_rollback id ssh w r :
  findFirst (is_run id) (runs w) = Some r → follows_migration (r_source r) (r_dest r) →
  on_worlds Q w (run_state (rollback ext ip u id ssh) w).
Proof.
  intros Hr F. unfold rollback, run_state. rewrite find_run_run, Hr. generalize w. clear w Hr. intros w.
  match goal with |- on_worlds Q w (?m w).1.2 => change (on_worlds Q w (run_state m w)); revert w; change (along (on_worlds Q) m) end.
  unfold unflip_routes, remove_target, finish, record_audit, on_engine. destruct F as [F _ F'].
  along; try moved F; try apply along_flip_back; try apply along_repoint; try exact _. apply along_site, along_start; [exact _|done].
Qed.
End migration_along.

(** ** How an execution ends *)

Section outcome.
Context {H : Type} `{Docker H} `{Pipeline H}.
Context (ext : nat → answer) (aborted : nat → bool).
Context (snapshot : nat → string) (fresh : nat → string) (looks : nat → list observation).

Section views.
Context {T : Type} (view : world H → T) `{!View view}.

Ltac kept := first
  [ apply view_outside | apply view_service | apply view_access | apply view_ck | apply view_watch | apply view_site
  | apply view_row; done | done ]; try exact _.

Lemma view_prepare id i p policy : along (same_view view) (prepare (H := H) ext aborted snapshot id i p policy).
Proof.
  unfold prepare, rebuild_images, transfer_images, clear_target, pre_copy, runBackup, restoreDataToTarget,
    setStep, on_engine, now. along; kept.
Qed.

Lemma view_move id p policy : along (same_view view) (move_data (H := H) ext aborted snapshot looks id p policy).
Proof.
  unfold move_data, runBackup, capture_final, restore_final, restoreToTarget, verify, waitHealthy, setStep, on_engine, now.
  along; kept.
Qed.

Lemma view_restart p : along (same_view view) (restart_source (H := H) ext p).
Proof. unfold restart_source, on_engine. along; kept. Qed.

Lemma view_remove host stack ssh : along (same_view view) (remove_target (H := H) ext host stack ssh).
Proof. unfold remove_target, on_engine. along; kept. Qed.

Lemma view_quiesce id i p : (∀ b w, view (set_stopped b w) = view w) → along (same_view view) (quiesce_source (H := H) ext aborted id i p).
Proof. intros Hb. unfold quiesce_source, setStep, on_engine. along; first [apply Hb | kept]. Qed.
End views.

Lemma registry_pipeline id i p policy : along same_registry (pipeline (H := H) ext aborted snapshot looks id i p policy).
Proof.
  unfold pipeline. apply along_bind; [apply view_prepare; exact _|intros _].
  apply along_bind; [by apply view_quiesce; [exact _|]|intros _]. apply view_move; exact _.
Qed.

Lemma delete_created {R} (q : R → bool) (x : R) t : q x = true → (∀ y, y ∈ t → q y = false) → deleteMany q (createRow x t) = t.
Proof using.
  intros Hx Ht. unfold deleteMany, createRow. rewrite filter_app, filter_cons_False by by rewrite Hx. rewrite app_nil_r.
  induction t as [|y t IH]; [done|]. rewrite filter_cons_True by (apply Ht; by left). f_equal. apply IH. intros z Hz. apply Ht. by right.
Qed.

(** The scratch policy of an execution is new. *)
Definition new_policies (w : world H) : Prop := ∀ n x, x ∈ policies w → cp_id x ≠ fresh n.
Definition registry_kept (w w' : world H) : Prop := new_policies w → same_registry w w'.

#[local] Instance registry_kept_preorder : PreOrder registry_kept.
Proof.
  split; [by intros w _|]. intros w1 w2 w3 R1 R2 Hn. specialize (R1 Hn). transitivity w2; [done|]. apply R2.
  unfold new_policies. by injection R1 as _ -> _ _.
Qed.

Lemma kept_same {A} (m : svc (world H) effect failure A) : along same_registry m → along registry_kept m.
Proof. intros Hm w _. apply Hm. Qed.

Lemma registry_scratch id i p :
  along registry_kept (policy ← ensureCapturePolicy fresh p;
    finally (pipeline ext aborted snapshot looks id i p policy.1) (cleanup policy)).
Proof.
  intros w Hn. unfold run_state, ensureCapturePolicy. svc_run.
  destruct (findFirst _ (policies w)) as [x|] eqn:Hx; svc_run; unfold finally, settled, cleanup, mbind, svc_bind, when; simpl;
    match goal with |- context [pipeline _ _ _ _ _ _ _ ?pol ?w1] =>
      pose proof (registry_pipeline id i p pol w1) as Hp; unfold run_state in Hp end;
    destruct (pipeline _ _ _ _ _ _ _ _ _) as [[r w2] o]; simpl in *; [by destruct r|].
  unfold same_view, registry in *. simpl in *. injection Hp as Hr Hpol Ha Ht. rewrite Hr, Hpol, Ha, Ht. repeat f_equal.
  apply delete_created; unfold is_policy; [by rewrite bool_decide_eq_true_2|].
  intros y Hy. apply bool_decide_eq_false_2. by eapply Hn.
Qed.

Lemma registry_attempt id i p : along registry_kept (attempt_run_of ext aborted snapshot fresh looks id i p).
Proof.
  unfold attempt_run_of, hostOrThrow.
  do 4 (apply along_bind; [apply kept_same; first [apply view_access; exact _ | along; done]|]; intros []).
  apply registry_scratch.
Qed.

Lemma has_run id (rs : list Run) : is_Some (findFirst (is_run id) rs) ↔ id ∈ r_id <$> rs.
Proof using.
  rewrite list_elem_of_fmap. split.
  - intros [r Hr]. apply find_Some_key in Hr. by apply list_elem_of_fmap in Hr.
  - intros (r & -> & Hin). destruct (findFirst (is_run (r_id r)) rs) eqn:E; [done|].
    exfalso. eapply (find_None_key r_id) in E. apply E, list_elem_of_fmap. by exists r.
Qed.

Lemma finished_row id st step (w : world H) :
  is_Some (findFirst (is_run id) (runs w)) →
  ∃ r, findFirst (is_run id) (runs (run_state (finish id st step) w)) = Some r ∧ r_status r = st ∧ r_step r = step.
Proof using.
  intros [r Hr]. exists (set_status st (set_step step r)). split; [|done].
  by apply (patched_row id (λ r, set_status st (set_step step r))).
Qed.

Definition ends : list (run_status * step_name) := [(success, awaiting_cutover); (error, failed); (cancelled, cancelled_)].

(** [m] ends by settling the row, in one of the ends. *)
Definition ends_by_finish (id : string) (m : svc (world H) effect failure unit) (w : world H) : Prop :=
  ∃ w1 st step, same_registry w w1 ∧ (st, step) ∈ ends ∧ run_result m w = Ok tt ∧ run_state m w = run_state (finish id st step) w1.

Lemma finish_ends id st step w : (st, step) ∈ ends → ends_by_finish id (finish id st step) w.
Proof using. intros He. by exists w, st, step. Qed.

Lemma then_ends {A} id (k : svc (world H) effect failure A) f a w :
  run_result k w = Ok a → same_registry w (run_state k w) → ends_by_finish id (f a) (run_state k w) → ends_by_finish id (k ≫= f) w.
Proof using.
  intros Hr Hs (w1 & st & step & H1' & He & Hf & Hw). exists w1, st, step.
  unfold run_result, run_state, mbind, svc_bind in *. destruct (k w) as [[r w2] o]. simpl in *. subst r.
  destruct (f a w2) as [[??]?]. simpl in *. split_and!; try done. by transitivity w2.
Qed.

Lemma settled_ok {A} (m : svc (world H) effect failure A) w :
  run_result (settled m) w = Ok (run_result m w) ∧ run_state (settled m) w = run_state m w.
Proof using. unfold run_result, run_state, settled. by destruct (m w) as [[??]?]. Qed.

Lemma restart_ok p w : run_result (restart_source (H := H) ext p) w = Ok tt.
Proof using.
  unfold restart_source, when. unfold mbind at 1, svc_bind at 1, get, run_result. destruct (sourceStopped w); [|done].
  match goal with |- context [settled ?m] => destruct (settled_ok m w) as [Hr _]; revert Hr; generalize (settled m) end.
  intros k Hr. unfold run_result, mbind, svc_bind in *. destruct (k w) as [[r w2] o]. simpl in *. by subst r.
Qed.

Lemma execute_ends id i p (w : world H) : new_policies w → ends_by_finish id (execute ext aborted snapshot fresh looks id i p) w.
Proof.
  intros Hn. unfold execute. apply then_ends with (a := tt); [done|done|].
  match goal with |- ends_by_finish _ _ ?w' => assert (new_policies w') as Hn' by done; revert Hn'; generalize w'; clear; intros w Hn end.
  destruct (settled_ok (attempt_run_of ext aborted snapshot fresh looks id i p) w) as [Hr Hs].
  eapply then_ends; [exact Hr|rewrite Hs; by apply registry_attempt|]. rewrite Hs. clear Hr Hs.
  generalize (run_state (attempt_run_of ext aborted snapshot fresh looks id i p) w). intros w1.
  eapply then_ends; [done|done|]. unfold conclude. destruct (run_result (attempt_run_of _ _ _ _ _ _ _ _) _) as [[]|e]; [apply finish_ends; set_solver|].
  case_match.
  - apply then_ends with (a := tt); [done|by apply (view_row registry)|].
    apply then_ends with (a := tt); [apply restart_ok|apply view_restart; exact _|].
    eapply then_ends; [apply settled_ok|apply along_settled, view_remove; exact _|]. apply finish_ends. set_solver.
  - apply then_ends with (a := tt); [apply restart_ok|apply view_restart; exact _|]. apply finish_ends. set_solver.
Qed.

End outcome.

(** The laws of the pipeline: a capture leaves the volumes, and the containers
    as [DockerHost.capture_window_restores] shows of its window. *)
Class PipelineLaws (H : Type) `{Docker H} `{Pipeline H} : Prop := {
  captured_volumes h : volumes (captured h) = volumes h;
  captured_containers h :
    Forall2 (λ c c', c' = c ∨ RUNNING c = true ∧ c' = set_state "running" c) (containers h) (containers (captured h))
}.

Section keeps.
Context {H : Type} `{!Docker H} `{!Pipeline H} `{!DockerLaws H} `{!PipelineLaws H}.
Context (ext : nat → answer) (aborted : nat → bool) (ip : string → string).
Context (snapshot : nat → string) (fresh : nat → string) (looks : nat → list observation) (u : option (string * string)).

Definition data (h : H) : list (string * option string) * list string := (volumes h, c_id <$> containers h).

(** Two hosts are touched; the source keeps its volumes and its containers. *)
Definition source_kept (source dest : string) (m m' : gmap string H) : Prop :=
  (∀ h, h ≠ source → h ≠ dest → m' !! h = m !! h) ∧ data <$> m' !! source = data <$> m !! source.

(** One host is touched, and keeps its volumes. *)
Definition volumes_kept (source : string) (m m' : gmap string H) : Prop :=
  (∀ h, h ≠ source → m' !! h = m !! h) ∧ volumes <$> m' !! source = volumes <$> m !! source.

#[local] Instance source_kept_preorder source dest : PreOrder (source_kept source dest).
Proof.
  split; [by split|]. intros m1 m2 m3 [A1 B1] [A2 B2]. split; [|congruence]. intros h ??. by rewrite A2, A1.
Qed.

#[local] Instance volumes_kept_preorder source : PreOrder (volumes_kept source).
Proof. split; [by split|]. intros m1 m2 m3 [A1 B1] [A2 B2]. split; [|congruence]. intros h ?. by rewrite A2, A1. Qed.

Lemma kept_source source dest f : (∀ h, data (f h) = data h) → follows (source_kept source dest) source f.
Proof.
  intros Hf m. split; [intros h ??; by rewrite lookup_alter_ne|]. rewrite lookup_alter_eq. destruct (m !! source); simpl; [|done].
  by rewrite Hf.
Qed.

Lemma kept_dest source dest f : source ≠ dest → follows (source_kept source dest) dest f.
Proof. intros Hne m. split; [intros h ??; by rewrite lookup_alter_ne|]. by rewrite lookup_alter_ne. Qed.

Lemma data_captured h : data (captured h) = data h.
Proof.
  unfold data. rewrite captured_volumes. f_equal. pose proof (captured_containers h) as Hc. induction Hc as [|c c' l l' Hcc _ IH]; [done|].
  csimpl. rewrite IH. f_equal. destruct Hcc as [->|[_ ->]]; done.
Qed.

Lemma data_state a h : (∃ id, a = Stop id ∨ a = Start id) → data (perform a h) = data h.
Proof.
  intros (id & [-> | ->]); unfold data; rewrite perform_volumes, perform_containers; simpl; by rewrite fmap_updateMany.
Qed.

Lemma source_follows source dest : source ≠ dest → follows_migration (source_kept source dest) source dest.
Proof.
  intros Hne. split; [split|..]; intros; first [by apply kept_dest | apply kept_source; intros]; first [apply data_captured | apply data_state; eauto].
Qed.

(** C9: a migration is safe for the data it moves and for everyone else's.
    Whatever fails, and whenever it is cancelled, an execution and a rollback
    touch no host but the source and the target, and the source keeps its
    volumes and its containers; a cutover touches the source only, and keeps
    its volumes. *)
Theorem migration_keeps_the_source (id : string) (i : Input) (p : Plan) (ssh : bool) (w : world H) :
  (pl_source p ≠ pl_dest p →
     source_kept (pl_source p) (pl_dest p) (hosts (docker w))
       (hosts (docker (run_state (execute ext aborted snapshot fresh looks id i p) w)))) ∧
  (∀ r, findFirst (is_run id) (runs w) = Some r →
     (r_source r ≠ r_dest r →
        source_kept (r_source r) (r_dest r) (hosts (docker w)) (hosts (docker (run_state (rollback ext ip u id ssh) w)))) ∧
     volumes_kept (r_source r) (hosts (docker w)) (hosts (docker (run_state (complete ext ip u id) w)))).
Proof.
  split; [intros Hne; by apply (along_execute ext aborted snapshot fresh looks (source_kept _ _)), source_follows|].
  intros r Hr. split.
  - intros Hne. exact (along_rollback ext ip u (source_kept (r_source r) (r_dest r)) id ssh w r Hr (source_follows _ _ Hne)).
  - apply (along_complete ext ip u (volumes_kept (r_source r)) id w r Hr). intros c m.
    split; [intros h ?; by rewrite lookup_alter_ne|]. rewrite lookup_alter_eq. destruct (m !! r_source r); simpl; [|done].
    by rewrite perform_volumes.
Qed.
End keeps.

(** ** A failed migration gives the source back *)

Section serving.
Context {H : Type} `{!Docker H} `{!Pipeline H} `{!DockerLaws H} `{!PipelineLaws H}.
Context (ext : nat → answer) (aborted : nat → bool).
Context (snapshot : nat → string) (fresh : nat → string) (looks : nat → list observation).
Context (no_lost : ∀ n, ext n ≠ Lost) (id : string) (i : Input) (p : Plan) (apart : pl_source p ≠ pl_dest p).

Definition still_runs (c c' : Container) : Prop :=
  ∃ st, c' = set_state st c ∧ (RUNNING c = true → RUNNING c' = true).
(** As [still_runs], but for the containers of the stack. *)
Definition may_stop (c c' : Container) : Prop :=
  ∃ st, c' = set_state st c ∧ (in_project (pl_stack p) c = false → RUNNING c = true → RUNNING c' = true).

Definition running_kept (m m' : gmap string H) : Prop :=
  ∀ h, m !! pl_source p = Some h → ∃ h', m' !! pl_source p = Some h' ∧ Forall2 still_runs (containers h) (containers h').

#[local] Instance still_runs_preorder : PreOrder still_runs.
Proof using.
  split; [intros c; exists (c_state c); by destruct c|]. intros c1 c2 c3 (st & -> & Hr) (st' & -> & Hr'). exists st'. split; [done|]. auto.
Qed.

#[local] Instance running_kept_preorder : PreOrder running_kept.
Proof using.
  split; [intros m h ?; by exists h|]. intros m1 m2 m3 R1 R2 h Hh. destruct (R1 h Hh) as (h2 & Hh2 & F1).
  destruct (R2 h2 Hh2) as (h3 & Hh3 & F2). exists h3. split; [done|]. by etransitivity.
Qed.

Lemma running_moves : follows_moves running_kept (pl_source p) (pl_dest p).
Proof.
  split; intros; intros m h Hm; [|exists h; split; [by rewrite lookup_alter_ne|done]..].
  rewrite lookup_alter_eq, Hm. eexists. split; [done|]. eapply Forall2_impl; [apply captured_containers|].
  intros c c' [-> | [Hr ->]]; [done|]. by exists "running".
Qed.

(** The source's containers, before and after it was stopped. *)
Definition serving (cs : list Container) (w : world H) : Prop :=
  ∃ cs', held (pl_source p) (docker w) = Some cs' ∧
    if sourceStopped w then Forall2 may_stop cs cs' else Forall2 still_runs cs cs'.

Lemma may_then_still c1 c2 c3 : may_stop c1 c2 → still_runs c2 c3 → may_stop c1 c3.
Proof using. intros (st & -> & Hr) (st' & -> & Hr'). exists st'. split; [done|]. auto. Qed.

(** What keeps the running containers and the flag keeps [serving]. *)
Lemma serving_kept {A} (m : svc (world H) effect failure A) cs :
  along (on_worlds running_kept) m → along (same_view sourceStopped) m → preserves (serving cs) m.
Proof using.
  intros Hm Hf w (cs' & Hs & Hcs). unfold serving, held in *. rewrite (Hf w).
  destruct (hosts (docker w) !! pl_source p) as [h|] eqn:Hh; [|done]. simpl in Hs. injection Hs as <-.
  destruct (Hm w h Hh) as (h' & Hh' & Hc). rewrite Hh'. exists (containers h'). split; [done|].
  destruct (sourceStopped w); [|by etransitivity]. clear -Hcs Hc. revert Hc. generalize (containers h').
  induction Hcs as [|c c' l l' Hcc _ IH]; intros l2 Hc; inversion Hc; subst; constructor; [by eapply may_then_still|by apply IH].
Qed.

Lemma bind_via {A B} (I J K : world H → Prop) (m : svc (world H) effect failure A) (k : A → svc (world H) effect failure B) :
  (∀ w, I w → J (run_state m w)) → (∀ w, J w → K w) → (∀ a w, J w → K (run_state (k a) w)) → ∀ w, I w → K (run_state (m ≫= k) w).
Proof using.
  intros Hm HK Hk w Hw. specialize (Hm w Hw). unfold run_state, mbind, svc_bind in *.
  destruct (m w) as [[[a|e] w1] o1]; simpl in *; [|by apply HK]. specialize (Hk a w1 Hm). by destruct (k a w1) as [[??]?].
Qed.

Lemma bind_run {A B} (m : svc (world H) effect failure A) (k : A → svc (world H) effect failure B) w a :
  run_result m w = Ok a →
  run_state (m ≫= k) w = run_state (k a) (run_state m w) ∧ run_out (m ≫= k) w = run_out m w ++ run_out (k a) (run_state m w).
Proof using.
  unfold run_result, run_state, run_out, mbind, svc_bind. destruct (m w) as [[r w1] o1]. simpl. intros ->. by destruct (k a w1) as [[??]?].
Qed.

Definition calm (cs : list Container) (w : world H) : Prop := serving cs w ∧ sourceStopped w = false.

Lemma calm_kept {A} (m : svc (world H) effect failure A) cs :
  along (on_worlds running_kept) m → along (same_view sourceStopped) m → preserves (calm cs) m.
Proof using.
  intros Hm Hf w [Hs Hb]. split; [by apply serving_kept|]. by rewrite (Hf w).
Qed.

Lemma still_runs_ids cs cs' : Forall2 still_runs cs cs' → c_id <$> cs' = c_id <$> cs.
Proof using. induction 1 as [|c c' l l' (st & -> & _) _ IH]; [done|]. csimpl. by rewrite IH. Qed.

(** Stopping members of the project. *)
Lemma members_stopped xs st cs cs' :
  NoDup (c_id <$> cs) → Forall2 still_runs cs cs' → (∀ c, c ∈ xs → c ∈ cs' ∧ in_project (pl_stack p) c = true) →
  Forall2 may_stop cs (as_state (c_id <$> xs) st cs').
Proof using.
  intros Hnd Hs Hxs. unfold as_state, updateMany. rewrite Forall2_fmap_r.
  rewrite <-(still_runs_ids _ _ Hs) in Hnd.
  apply Forall2_same_length_lookup_2; [by eapply Forall2_length|]. intros k c c' Hc Hc'.
  destruct (Forall2_lookup_lr _ _ _ _ _ _ Hs Hc Hc') as (st' & Hst & Hr).
  simpl. destruct (includes (c_id c') (c_id <$> xs)) eqn:E; [|exists st'; auto].
  exists st. split; [by subst c'|]. intros Hp. exfalso. apply includes_true, list_elem_of_fmap in E as (d & Hid & Hd).
  apply Hxs in Hd as [Hd Hdp]. assert (c' = d) as <- by (eapply (NoDup_key c_id); [exact Hnd|by eapply list_elem_of_lookup_2|done|done]).
  subst c'. unfold in_project in *. simpl in Hdp. congruence.
Qed.

(** Starting all that is stopped of the project. *)
Lemma members_started xs cs cs' :
  Forall2 may_stop cs cs' → (∀ c, c ∈ cs' → in_project (pl_stack p) c = true → RUNNING c = false → c ∈ xs) →
  Forall2 still_runs cs (as_state (c_id <$> xs) "running" cs').
Proof using.
  intros Hs Hxs. unfold as_state, updateMany. rewrite Forall2_fmap_r.
  apply Forall2_same_length_lookup_2; [by eapply Forall2_length|]. intros k c c' Hc Hc'.
  destruct (Forall2_lookup_lr _ _ _ _ _ _ Hs Hc Hc') as (st' & Hst & Hr).
  simpl. destruct (includes (c_id c') (c_id <$> xs)) eqn:E; [exists "running"; by subst c'|]. exists st'. split; [done|]. intros Hrun.
  destruct (in_project (pl_stack p) c) eqn:Hp; [|by apply Hr]. destruct (RUNNING c') eqn:Hrc; [done|].
  apply includes_false in E. destruct E. apply list_elem_of_fmap_2, Hxs; [by eapply list_elem_of_lookup_2| |done]. by subst c'.
Qed.

Lemma quiesce_serving cs w : NoDup (c_id <$> cs) → calm cs w → serving cs (run_state (quiesce_source ext aborted id i p) w).
Proof using All.
  intros Hnd. revert w. unfold quiesce_source. apply (bind_via _ (calm cs)); [|by intros ? []|].
  { apply calm_kept; [apply along_ck; exact _|apply view_ck; exact _]. }
  intros _ w Hw. unfold when. destruct (quiesces i); [|apply Hw]. revert w Hw.
  apply (bind_via _ (calm cs)); [|by intros ? []|].
  { apply calm_kept; [apply along_patch; exact _|by apply (view_row sourceStopped)]. }
  intros _ w [(cs1 & Hs & Hcs) Hb]. rewrite Hb in Hcs.
  destruct (project_run ext no_lost (pl_source p) (pl_stack p) (λ l, newest_first (findMany RUNNING l)) Stop (docker w) cs1 "exited")
    as (xs & Hd & Hh & Hr & _); [done|exact Hs|].
  unfold on_engine, on_site, run_state, run_result in *. unfold mbind at 1, svc_bind at 1. fold (stopProject ext (pl_source p) (pl_stack p)) in *.
  destruct (stopProject ext (pl_source p) (pl_stack p) (docker w)) as [[r s2] o2]. simpl in Hh, Hr.
  assert (Hm : Forall2 may_stop cs (as_state (c_id <$> xs) "exited" cs1)).
  { apply members_stopped; [done|done|]. intros c Hc. eapply sublist_subseteq in Hc; [|exact Hd].
    by apply newest_first_in, elem_of_findMany in Hc as [_ [? ?]%elem_of_findMany]. }
  destruct Hr as [-> | (e & -> & -> & _)]; eexists; simpl; (split; [exact Hh|]); [|rewrite Hb; by rewrite as_state_nil].
  destruct xs; simpl; [by rewrite as_state_nil|done].
Qed.

Lemma pipeline_serving cs policy w : NoDup (c_id <$> cs) → calm cs w →
  serving cs (run_state (pipeline ext aborted snapshot looks id i p policy) w).
Proof using All.
  intros Hnd. revert w. unfold pipeline. apply (bind_via _ (calm cs)); [|by intros ? []|].
  { apply calm_kept; [apply along_prepare; first [exact _|apply running_moves]|apply view_prepare; exact _]. }
  intros _. apply (bind_via _ (serving cs)); [by intros w; apply quiesce_serving|done|].
  intros _. apply serving_kept; [apply along_move; first [exact _|apply running_moves]|apply view_move; exact _].
Qed.

Lemma attempt_serving cs w : NoDup (c_id <$> cs) → calm cs w →
  serving cs (run_state (attempt_run_of ext aborted snapshot fresh looks id i p) w).
Proof using All.
  intros Hnd. revert w. unfold attempt_run_of, hostOrThrow.
  do 4 (apply (bind_via _ (calm cs)); [|by intros ? []|intros []];
    [apply calm_kept; [along; apply along_access; exact _|along; apply view_access; exact _]|]).
  apply (bind_via _ (calm cs)); [|by intros ? []|intros policy].
  { apply calm_kept; [apply along_policy; exact _|unfold ensureCapturePolicy, advance; along; done]. }
  unfold finally. apply (bind_via _ (serving cs)); [|done|].
  { intros w Hw. rewrite (proj2 (settled_ok _ _)). by apply pipeline_serving. }
  intros r. apply (bind_via _ (serving cs)); [|done|done].
  apply serving_kept; [apply along_cleanup; exact _|unfold cleanup; along; done].
Qed.

(** The engine and the connector of the source do what the restart asks. *)
Definition source_answers (o : list effect) : Prop :=
  (Resolved (pl_source p) false ∉ o) ∧ (Host (Listed (pl_source p) false) ∉ o) ∧
  (∀ c, Host (Asked (pl_source p) (Start c) false) ∉ o).

Lemma source_answers_app o1 o2 : source_answers (o1 ++ o2) → source_answers o1 ∧ source_answers o2.
Proof using. unfold source_answers. setoid_rewrite elem_of_app. naive_solver. Qed.

Lemma restart_serving cs w : serving cs w → source_answers (run_out (restart_source ext p) w) →
  ∃ cs', held (pl_source p) (docker (run_state (restart_source ext p) w)) = Some cs' ∧ Forall2 still_runs cs cs'.
Proof using All.
  intros (cs1 & Hs & Hcs). unfold restart_source, run_out, run_state. svc_run.
  destruct (sourceStopped w) eqn:Hb; svc_run; [|by intros _; exists cs1].
  unfold when, mbind, svc_bind, settled.
  destruct (access_run ext (pl_source p) w) as [-> | ->].
  { unfold held in Hs. by destruct (hosts (docker w) !! pl_source p). }
  2: { intros (Hr & _). destruct Hr. by left. }
  assert (Hs1 : held (pl_source p) (next_tick (docker w)) = Some cs1) by done.
  destruct (project_run ext no_lost (pl_source p) (pl_stack p) (λ l, oldest_first (findMany (λ c, negb (RUNNING c)) l)) Start
    (next_tick (docker w)) cs1 "running") as (xs & Hd & Hh & Hr & Hall); [done|exact Hs1|].
  unfold on_engine, on_site. change (docker (set_docker (next_tick (docker w)) w)) with (next_tick (docker w)).
  unfold run_state, run_result, run_out in *. fold (startProject ext (pl_source p) (pl_stack p)) in *.
  destruct (startProject ext (pl_source p) (pl_stack p) (next_tick (docker w))) as [[r s2] o2]. simpl in *.
  intros Ho. exists (as_state (c_id <$> xs) "running" cs1). split; [by destruct Hr as [-> | (e & -> & _)]|].
  assert (source_answers (Host <$> o2)) as (_ & Hl & Ha).
  { apply (source_answers_app [Resolved (pl_source p) true]) in Ho as [_ Ho]. by apply source_answers_app in Ho as [Ho _]. }
  rewrite Hall.
  - apply members_started; [done|]. intros c Hc Hp Hrun. apply sort_in, elem_of_findMany. rewrite Hrun. split; [done|].
    by apply elem_of_findMany.
  - intros Hin. apply Hl, list_elem_of_fmap. by eexists.
  - intros x _ Hin. apply (Ha (c_id x)), list_elem_of_fmap. by eexists.
Qed.

(** The two failure paths. *)
Lemma error_serving cs w : serving cs w →
  let m := (restart_source ext p ;; finish id error failed) in
  source_answers (run_out m w) →
  ∃ cs', held (pl_source p) (docker (run_state m w)) = Some cs' ∧ Forall2 still_runs cs cs'.
Proof using All.
  intros Hw m. destruct (bind_run (restart_source ext p) (λ _, finish id error failed) w tt (restart_ok _ _ _)) as [Es Eo].
  unfold m. rewrite Es, Eo. intros [Ho _]%source_answers_app. unfold finish. rewrite patch_docker. by apply restart_serving.
Qed.

Lemma cancel_serving cs ssh w : serving cs w →
  let m := (setStep id cancelling ;; restart_source ext p ;; settled (remove_target ext (pl_dest p) (pl_destStack p) ssh) ;;
            finish id cancelled cancelled_) in
  source_answers (run_out m w) →
  ∃ cs', held (pl_source p) (docker (run_state m w)) = Some cs' ∧ Forall2 still_runs cs cs'.
Proof using All.
  intros Hw m. unfold m. set (tl := (settled (remove_target ext (pl_dest p) (pl_destStack p) ssh) ;; finish id cancelled cancelled_)).
  destruct (bind_run (setStep id cancelling) (λ _, restart_source ext p ;; tl) w tt) as [Es Eo]; [done|].
  rewrite Es, Eo. intros [_ Ho]%source_answers_app. clear Es Eo.
  assert (Hw' : serving cs (run_state (setStep id cancelling) w)).
  { apply serving_kept; [apply along_patch; exact _|by apply (view_row sourceStopped)|done]. }
  revert Ho Hw'. generalize (run_state (setStep id cancelling) w). clear w Hw. intros w Ho Hw.
  destruct (bind_run (restart_source ext p) (λ _, tl) w tt (restart_ok _ _ _)) as [Es Eo].
  rewrite Es. rewrite Eo in Ho. apply source_answers_app in Ho as [Ho _]. destruct (restart_serving _ _ Hw Ho) as (cs1 & Hh & Hc).
  clear Es Eo Ho Hw. revert Hh. generalize (run_state (restart_source ext p) w). clear w. intros w Hh.
  assert (Hk : along (on_worlds running_kept) tl).
  { unfold tl. apply along_bind; [|intros _; apply along_patch; exact _].
    eapply along_settled, along_remove_target; first [exact _|apply running_moves]. }
  unfold held in *. destruct (hosts (docker w) !! pl_source p) as [h|] eqn:E; [|done]. simpl in Hh. injection Hh as <-.
  destruct (Hk w h E) as (h' & -> & Hc'). exists (containers h'). split; [done|]. by etransitivity.
Qed.

Lemma still_may cs cs' : Forall2 still_runs cs cs' → Forall2 may_stop cs cs'.
Proof using. intros Hs. eapply Forall2_impl; [exact Hs|]. intros c c' (st & -> & Hr). exists st. auto. Qed.

Lemma conclude_serving cs r b w : serving cs w → source_answers (run_out (conclude ext id i p r b) w) →
  ∃ cs', held (pl_source p) (docker (run_state (conclude ext id i p r b) w)) = Some cs' ∧ Forall2 may_stop cs cs' ∧
    (∀ row, findFirst (is_run id) (runs (run_state (conclude ext id i p r b) w)) = Some row → r_status row ≠ success →
       Forall2 still_runs cs cs').
Proof using All.
  intros Hw. unfold conclude. destruct r as [[]|e].
  - intros _. destruct Hw as (cs1 & Hh & Hc). exists cs1. split; [unfold finish; by rewrite patch_docker|]. split.
    { destruct (sourceStopped w); [done|by apply still_may]. }
    intros row Hrow Hne. destruct Hne.
    destruct (finished_row id success awaiting_cutover w) as (row' & Hrow' & Hst & _); [|congruence].
    apply has_run. assert (id ∈ r_id <$> runs (run_state (finish (H := H) id success awaiting_cutover) w)) as Hin by (apply has_run; by eexists).
    pose proof (view_row registry id (λ r, set_status success (set_step awaiting_cutover r))) as Hv. injection (Hv (λ _, eq_refl) w) as <-. done.
  - destruct (bool_decide (e = Cancelled) || b); intros Ho;
      [destruct (cancel_serving cs (in_destSsh i) w Hw Ho) as (cs1 & Hh & Hc)|destruct (error_serving cs w Hw Ho) as (cs1 & Hh & Hc)];
      exists cs1; (split; [exact Hh|]); (split; [by apply still_may|done]).
Qed.

(** C7: a migration that fails or is cancelled leaves the source serving.
    Wherever it stops, if the source's engine does what the restart asks of it
    (and no answer is lost), every container that was running on the source
    runs again; after a success only containers of the stack have stopped. *)
Theorem failed_migration_restarts_source (cs : list Container) (w : world H) :
  NoDup (c_id <$> cs) → held (pl_source p) (docker w) = Some cs →
  let m := execute ext aborted snapshot fresh looks id i p in
  source_answers (run_out m w) →
  ∃ cs', held (pl_source p) (docker (run_state m w)) = Some cs' ∧
    Forall2 may_stop cs cs' ∧
    (∀ r, findFirst (is_run id) (runs (run_state m w)) = Some r → r_status r ≠ success → Forall2 still_runs cs cs').
Proof using All.
  intros Hnd Hs m. set (w0 := set_stopped false w).
  set (att := attempt_run_of ext aborted snapshot fresh looks id i p).
  assert (Hw1 : serving cs (run_state att w0)) by (apply attempt_serving; [done|]; split; [|done]; exists cs; split; [exact Hs|change (Forall2 still_runs cs cs); reflexivity]).
  destruct (bind_run (modify (set_stopped false)) (λ _, r ← settled att; t ← now; conclude ext id i p r (aborted t)) w tt) as [E1 O1]; [done|].
  destruct (settled_ok att w0) as [Er Ew].
  destruct (bind_run (settled att) (λ r, t ← now; conclude ext id i p r (aborted t)) w0 (run_result att w0) Er) as [E2 O2].
  assert (Es : run_state m w = _) by exact E1. assert (Eo : run_out m w = _) by exact O1. rewrite Es, Eo. clear Es Eo E1 O1.
  change (run_state (modify (set_stopped false)) w) with w0. rewrite E2, O2, Ew. clear E2 O2 Er Ew.
  intros [_ [_ Ho]%source_answers_app]%source_answers_app. revert Ho Hw1. generalize (run_result att w0) (run_state att w0).
  clear att w0 m Hs Hnd. intros r w1 Ho Hw1.
  destruct (bind_run now (λ t, conclude ext id i p r (aborted t)) w1 (tick (docker w1))) as [Es Eo]; [done|].
  rewrite Es. rewrite Eo in Ho. apply source_answers_app in Ho as [_ Ho]. by apply conclude_serving.
Qed.
End serving.

(** ** The cutover *)

Section cutover.
Context {H : Type} `{!Docker H} `{!Pipeline H}.
Context (ext : nat → answer) (ip : string → string) (u : option (string * string)).

Lemma flip_run routes upstream port (w w' : world H) o :
  flip ext routes upstream port w = (Ok tt, w', o) →
  ∀ r, r ∈ routes → RouteSet r upstream (port (i_port r)) true ∈ o.
Proof.
  revert w o. induction routes as [|r routes IH]; intros w o; cbn [flip]; [by intros _ ? ?%not_elem_of_nil|].
  intros ([] & w1 & o1 & o2 & Hr & Hf & ->)%svc_bind_ok. apply service_ok in Hr as ->. intros x [-> | Hx]%elem_of_cons; [by left|].
  right. by eapply IH.
Qed.

Lemma flip_passive routes upstream port : emits passive (flip (H := H) ext routes upstream port).
Proof. induction routes; cbn [flip]; emits; first [by apply service_passive|done]. Qed.

Lemma flip_routes_passive row : emits passive (flip_routes (H := H) ext ip row).
Proof. unfold flip_routes. emits; first [apply ip_passive | apply flip_passive | intros w; constructor]. Qed.

Lemma repoint_passive row host stack ports best : emits passive (repoint_deployment (H := H) ext ip row host stack ports best).
Proof. unfold repoint_deployment. emits; first [apply ip_passive | by apply service_passive | intros w; constructor]. Qed.

Lemma flip_routes_ok row (w w' : world H) o :
  flip_routes ext ip row w = (Ok tt, w', o) →
  ∀ r, r ∈ r_ingress row → RouteSet r (ip (r_dest row)) (remap (r_portMap row) (i_port r)) true ∈ o.
Proof.
  unfold flip_routes, when. destruct (bool_decide (r_ingress row = [])) eqn:E.
  { apply bool_decide_eq_true in E as ->. by intros _ ? ?%not_elem_of_nil. }
  simpl. intros (a & w1 & o1 & o2 & Ha & Hk & ->)%svc_bind_ok r Hr.
  apply svc_bind_ok in Hk as ([] & w2 & o3 & o4 & Ht & Hk & ->).
  apply svc_bind_ok in Hk as ([] & w3 & o5 & o6 & Hf & Hk & ->).
  apply ip_ok in Ha as [-> | ->]; [done|].
  apply elem_of_app. right. apply elem_of_app. right. apply elem_of_app. left. by eapply flip_run.
Qed.

Lemma repoint_ok row host stack ports (w w' : world H) o :
  repoint_deployment ext ip row host stack ports false w = (Ok tt, w', o) →
  ∀ d, r_replicator row = Some d → Repointed d host stack true ∈ o.
Proof.
  unfold repoint_deployment. intros Hr d Hd. rewrite Hd in Hr.
  apply svc_bind_ok in Hr as (a & w1 & o1 & o2 & _ & Hk & ->). apply svc_bind_ok in Hk as ([] & w2 & o3 & o4 & _ & Hk & ->).
  apply svc_bind_ok in Hk as ([] & w3 & o5 & o6 & Hs & Hk & ->). apply service_ok in Hs as ->. set_solver.
Qed.

(** The teardown fails before it removes anything, or does all of it. *)
Lemma teardown_err row (w w' : world H) e o :
  teardown_source ext u row w = (Err e, w', o) → hosts (docker w') = hosts (docker w) ∧ Forall passive o.
Proof.
  unfold teardown_source. intros Ht.
  assert (Ha : ∀ (w1 : world H) r w2 o1, accessFor ext (r_source row) w1 = (r, w2, o1) →
    hosts (docker w2) = hosts (docker w1) ∧ Forall passive o1).
  { intros w1 r w2 o1 Ea. pose proof (along_access ext eq (r_source row) w1) as Hs.
    pose proof (access_passive ext (r_source row) w1) as Hp. unfold run_state, run_out, on_worlds, on_hosts in *. rewrite Ea in *. done. }
  apply svc_bind_err in Ht as [Ht | ([] & w1 & o1 & o2 & Hacc & Ht & ->)]; [by eapply Ha|].
  apply Ha in Hacc as [Hh Hp]. rewrite <-Hh. rewrite Forall_app.
  apply svc_bind_err in Ht as [Ht | (n & w2 & o3 & o4 & _ & Ht & _)]; [|done].
  unfold on_engine, on_site in Ht. destruct (removeProjectContainers _ _ _ _) as [[r s2] o3] eqn:Hr. injection Ht as -> <- <-.
  apply remove_refused in Hr as [[Hs ->] | [Hs ->]]; (split; [done|]); (split; [done|]); by repeat constructor.
Qed.

Lemma teardown_ok row (w w' : world H) o :
  is_Some (findFirst (is_run (r_id row)) (runs w)) → teardown_source ext u row w = (Ok tt, w', o) →
  ∃ r, findFirst (is_run (r_id row)) (runs w') = Some r ∧ r_status r = success ∧ r_step r = done_ ∧ r_sourceKept r = false.
Proof.
  unfold teardown_source. intros Hrow Ht.
  apply svc_bind_ok in Ht as ([] & w1 & o1 & o2 & Ha & Ht & _). apply svc_bind_ok in Ht as (n & w2 & o3 & o4 & He & Ht & _).
  assert (Hv : r_id <$> runs w2 = r_id <$> runs w).
  { pose proof (view_access ext registry (r_source row) w) as V1. pose proof (view_site registry Host (removeProjectContainers ext (r_source row) (r_stack row)) w1) as V2.
    unfold same_view, run_state, on_engine in *. rewrite Ha in V1. rewrite He in V2. simpl in *. by injection V1; injection V2; congruence. }
  apply svc_bind_ok in Ht as ([] & w3 & o5 & o6 & Hf & Ht & _). apply svc_bind_ok in Ht as ([] & w4 & o7 & o8 & Hk & Ht & _).
  injection Ht as <- _.
  destruct (finished_row (r_id row) success done_ w2) as (r & Hr & Hst & Hs); [apply has_run; rewrite Hv; by apply has_run|].
  unfold run_state in Hr. rewrite Hf in Hr.
  pose proof (patched_row (r_id row) (set_kept false) r w3 (λ _, eq_refl) Hr) as Hp. unfold run_state in Hp. rewrite Hk in Hp.
  by exists (set_kept false r).
Qed.

Definition cutover (row : Run) : svc (world H) effect failure unit :=
  flip_routes ext ip row ;;
  repoint_deployment ext ip row (r_dest row) (r_destStack row) (r_portMap row) false ;;
  teardown_source ext u row.

Lemma routes_registry routes upstream port : along (same_view registry) (flip (H := H) ext routes upstream port).
Proof. induction routes; cbn [flip]; along; first [apply view_service; exact _|done]. Qed.

Lemma flip_registry row : along (same_view registry) (flip_routes (H := H) ext ip row).
Proof.
  unfold flip_routes. along; first [apply view_ip; exact _ | apply routes_registry | by apply (view_row registry)].
Qed.

Lemma repoint_registry row host stack ports best : along (same_view registry) (repoint_deployment (H := H) ext ip row host stack ports best).
Proof.
  unfold repoint_deployment. along; first [apply view_ip; exact _ | apply view_service; exact _ | by apply (view_row registry)].
Qed.

Lemma teardown_registry row : along (same_view registry) (teardown_source (H := H) ext u row).
Proof.
  unfold teardown_source, on_engine, finish, record_audit.
  along; first [apply view_access; exact _ | apply view_site; exact _ | by apply (view_row registry)].
Qed.

Lemma cutover_registry row : along (same_view registry) (cutover row).
Proof. apply along_bind; [apply flip_registry|intros _]. apply along_bind; [apply repoint_registry|intros _; apply teardown_registry]. Qed.

Lemma cutover_ok row (w w' : world H) o :
  cutover row w = (Ok tt, w', o) → is_Some (findFirst (is_run (r_id row)) (runs w)) →
  (∃ r, findFirst (is_run (r_id row)) (runs w') = Some r ∧ r_status r = success ∧ r_step r = done_ ∧ r_sourceKept r = false) ∧
  ∃ o1 o2, o = o1 ++ o2 ∧ Forall passive o1 ∧
    (∀ s, s ∈ r_ingress row → RouteSet s (ip (r_dest row)) (remap (r_portMap row) (i_port s)) true ∈ o1) ∧
    (∀ d, r_replicator row = Some d → Repointed d (r_dest row) (r_destStack row) true ∈ o1).
Proof.
  unfold cutover. intros Hc Hrow.
  apply svc_bind_ok in Hc as ([] & w1 & o1 & o2 & Hf & Hc & ->). apply svc_bind_ok in Hc as ([] & w2 & o3 & o4 & Hp & Ht & ->).
  pose proof (flip_registry row w) as V1. pose proof (repoint_registry row (r_dest row) (r_destStack row) (r_portMap row) false w1) as V2.
  pose proof (flip_routes_passive row w) as P1. pose proof (repoint_passive row (r_dest row) (r_destStack row) (r_portMap row) false w1) as P2.
  unfold run_state, run_out in *. rewrite Hf in *. rewrite Hp in *. simpl in *. split.
  - eapply teardown_ok; [|exact Ht]. apply has_run. injection V1 as V1 _. injection V2 as V2 _. rewrite V2, V1. by apply has_run.
  - exists (o1 ++ o3), o4. split; [by rewrite <-app_assoc|]. split; [by apply Forall_app|]. split.
    + intros s Hs. apply elem_of_app. left. by eapply flip_routes_ok.
    + intros d Hd. apply elem_of_app. right. by eapply repoint_ok.
Qed.

Lemma cutover_err row (w w' : world H) e o :
  cutover row w = (Err e, w', o) → hosts (docker w') = hosts (docker w) ∧ Forall passive o.
Proof.
  unfold cutover. intros Hc.
  pose proof (flip_routes_passive row w) as P1. 
  assert (A1 : along (on_worlds eq) (flip_routes (H := H) ext ip row)).
  { unfold flip_routes. along; first [apply along_ip|apply along_flip|apply along_patch]; exact _. }
  assert (A2 : along (on_worlds eq) (repoint_deployment (H := H) ext ip row (r_dest row) (r_destStack row) (r_portMap row) false))
    by (apply along_repoint; exact _).
  specialize (A1 w). unfold run_state, run_out, on_worlds, on_hosts in *.
  apply svc_bind_err in Hc as [Hf | ([] & w1 & o1 & o2 & Hf & Hc & ->)]; rewrite Hf in *; [done|]. simpl in *. rewrite A1, Forall_app.
  pose proof (repoint_passive row (r_dest row) (r_destStack row) (r_portMap row) false w1) as P2. specialize (A2 w1). unfold run_out, run_state in P2, A2.
  apply svc_bind_err in Hc as [Hp | ([] & w2 & o3 & o4 & Hp & Ht & ->)]; rewrite Hp in *; [done|]. simpl in *. rewrite A2, Forall_app.
  apply teardown_err in Ht as [Hh Ho]. done.
Qed.

(** C8: the cutover moves the traffic before it takes the source down.  When
    it succeeds every route was set to the target, and the deployment points
    there, before any container is asked to go; the row is done.  When it
    fails nothing was removed anywhere, every host is as it was, and the row
    awaits cutover again. *)
Theorem cutover_order (id : string) (r : Run) (w w' : world H) (e : result failure unit) (o : list effect) :
  findFirst (is_run id) (runs w) = Some r → r_step r = awaiting_cutover →
  complete ext ip u id w = (e, w', o) →
  ∃ r', findFirst (is_run id) (runs w') = Some r' ∧
  match e with
  | Ok _ =>
      (r_status r', r_step r', r_sourceKept r') = (success, done_, false) ∧
      ∃ o1 o2, o = o1 ++ o2 ∧ Forall passive o1 ∧
        (∀ s, s ∈ r_ingress r → RouteSet s (ip (r_dest r)) (remap (r_portMap r) (i_port s)) true ∈ o1) ∧
        (∀ d, r_replicator r = Some d → Repointed d (r_dest r) (r_destStack r) true ∈ o1)
  | Err _ => r_step r' = awaiting_cutover ∧ hosts (docker w') = hosts (docker w) ∧ Forall passive o
  end.
Proof.
  intros Hr Hstep. unfold complete. rewrite find_run_run, Hr. svc_run. rewrite Hstep. simpl.
  assert (Hid : r_id r = id) by (apply findFirst_Some in Hr as [_ ?%bool_decide_eq_true]; done).
  set (w1 := run_state (patch id (set_step completing)) w). fold (cutover r).
  assert (Hr1 : findFirst (is_run id) (runs w1) = Some (set_step completing r)) by by apply (patched_row id (set_step completing)).
  pose proof (cutover_registry r w1) as V. unfold mbind at 1, svc_bind at 1. rewrite patch_run. fold w1.
  unfold catch. unfold same_view, run_state in V.
  destruct (cutover r w1) as [[[[]|e2] w2] o2] eqn:Hc; simpl in *.
  - intros [= <- <- <-]. destruct (cutover_ok r w1 w2 o2 Hc) as [(r' & Hr' & Hs & Hp & Hk) Ho]; [by rewrite Hid, Hr1|].
    exists r'. rewrite <-Hid. split; [done|]. split; [by rewrite Hs, Hp, Hk|done].
  - unfold mbind, svc_bind. rewrite patch_run. simpl. intros [= <- <- <-].
    destruct (cutover_err r w1 w2 e2 o2 Hc) as [Hh Ho].
    assert (is_Some (findFirst (is_run id) (runs w2))) as [r2 Hr2].
    { apply has_run. injection V as -> _. apply has_run. by rewrite Hr1. }
    exists (set_step awaiting_cutover r2). split; [by apply (patched_row id (set_step awaiting_cutover))|].
    split; [done|]. rewrite app_nil_r. split; [|done].
    transitivity (hosts (docker w1)); [|unfold w1; by rewrite patch_docker].
    rewrite <-Hh. exact (f_equal hosts (patch_docker id (set_step awaiting_cutover) w2)).
Qed.
End cutover.

(** ** The wait for the target *)

(** A look at a target that is all healthy, and one that shows nothing. *)
Definition green (o : observation) : Prop := ∃ cs, o = Some cs ∧ cs ≠ [] ∧ ∀ c, c ∈ cs → is_healthy c = true.
Definition blank (o : observation) : Prop := o = None ∨ o = Some [].
Definition all_up (o : observation) : Prop := ∃ cs, o = Some cs ∧ cs ≠ [] ∧ ∀ c, c ∈ cs → is_up c = true.

(** Two healthy looks with none between them that shows otherwise. *)
Definition twice_green (obs : list observation) : Prop :=
  ∃ pre a mid b post, obs = pre ++ a :: mid ++ b :: post ∧ green a ∧ green b ∧ Forall blank mid.
Definition soon_green (obs : list observation) : Prop :=
  ∃ mid b post, obs = mid ++ b :: post ∧ green b ∧ Forall blank mid.

Lemma soon_green_cons o obs : soon_green (o :: obs) ↔ green o ∨ blank o ∧ soon_green obs.
Proof.
  split.
  - intros ([|x mid] & b & post & [= -> ->] & Hb & Hm); [by left|]. right. inversion Hm; subst. split; [done|]. by exists mid, b, post.
  - intros [Ho | [Ho (mid & b & post & -> & Hb & Hm)]]; [by exists [], o, obs|]. exists (o :: mid), b, post. split_and!; [done|done|by constructor].
Qed.

Lemma twice_green_cons o obs : twice_green (o :: obs) ↔ green o ∧ soon_green obs ∨ twice_green obs.
Proof.
  split.
  - intros ([|x pre] & a & mid & b & post & [= -> ->] & Ha & Hb & Hm); [left|right].
    + split; [done|]. by exists mid, b, post.
    + by exists pre, a, mid, b, post.
  - intros [[Ho (mid & b & post & -> & Hb & Hm)] | (pre & a & mid & b & post & -> & Ha & Hb & Hm)].
    + by exists [], o, mid, b, post.
    + by exists (o :: pre), a, mid, b, post.
Qed.

(** What a look is. *)
Lemma observe_cases o st :
  (blank o ∧ ¬ green o ∧ observe o st = (st.1, false)) ∨
  (¬ blank o ∧ green o ∧ (observe o st).1 = S st.1) ∨
  (¬ blank o ∧ ¬ green o ∧ (observe o st).1 = 0%nat).
Proof.
  destruct o as [[|c cs]|]; simpl.
  - left. split_and!; [by right|intros (? & [= <-] & ? & _); done|done].
  - right. destruct (every is_healthy (c :: cs)) eqn:E; [left|right].
    + split_and!; [by intros [|]|eexists; split_and!; [done|done|by apply every_true]|by simpl in E; rewrite E].
    + split_and!; [by intros [|]| |by simpl in E; rewrite E]. intros (? & [= <-] & _ & Hh). apply every_true in Hh. congruence.
  - left. split_and!; [by left|by intros (? & ? & _)|done].
Qed.

Lemma settle_healthy obs n up : (n ≤ 1)%nat →
  settle obs (n, up) = Healthy ↔ twice_green obs ∨ n = 1%nat ∧ soon_green obs.
Proof.
  revert n up. induction obs as [|o obs IH]; intros n up Hn; cbn [settle].
  - split; [by destruct up|]. intros [(pre & ? & ? & ? & ? & ? & _) | (_ & mid & ? & ? & ? & _)]; [by destruct pre|by destruct mid].
  - rewrite twice_green_cons, soon_green_cons. destruct (observe_cases o (n, up)) as [(Hb & Hg & ->) | [(Hb & Hg & E) | (Hb & Hg & E)]].
    + destruct n as [|[|]]; simpl; [| |lia]; rewrite IH by lia; naive_solver.
    + destruct (observe o (n, up)) as [k up']. simpl in E. subst k. destruct n as [|[|]]; [| |lia]; simpl; [|tauto].
      rewrite IH by lia. naive_solver.
    + destruct (observe o (n, up)) as [k up']. simpl in E. subst k. simpl. rewrite IH by lia. naive_solver.
Qed.

Definition up_after (obs : list observation) (up : bool) : Prop :=
  match last obs with None => up = true | Some o => all_up o end.

Lemma observe_up o st : (observe o st).2 = true ↔ all_up o.
Proof.
  destruct o as [[|c cs]|]; simpl.
  - split; [done|]. by intros (? & [= <-] & ? & _).
  - change (every is_up (c :: cs) = true ↔ all_up (Some (c :: cs))). rewrite every_true. split; [intros Hu; by exists (c :: cs)|].
    by intros (? & [= <-] & _ & Hu).
  - split; [done|]. by intros (? & ? & _).
Qed.

Lemma settle_degraded obs st : settle obs st = Degraded ↔ settle obs st ≠ Healthy ∧ up_after obs st.2.
Proof.
  revert st. induction obs as [|o obs IH]; intros st; cbn [settle]; [destruct st as [? []]; unfold up_after; simpl; naive_solver|].
  destruct (2 <=? (observe o st).1)%nat; [split; [done|by intros [? _]]|]. rewrite IH. apply and_iff_compat_l.
  unfold up_after. destruct obs as [|o' obs]; [apply observe_up|].
  change (last (o :: o' :: obs)) with (last (o' :: obs)). destruct (last (o' :: obs)) eqn:E; [done|by apply last_None in E].
Qed.

(** the wait for the target stops when it should.  It ends healthy exactly
    when two looks found every container healthy with only unreadable or empty
    looks between them; degraded exactly when that never happened and the last
    look had every container up; and nothing but a cancellation interrupts it. *)
Theorem wait_verdict {H} (aborted : nat → bool) (obs : list observation) (w : world H) :
  match run_result (watch aborted obs (0%nat, false)) w with
  | Ok v => (v = Healthy ↔ twice_green obs) ∧
            (v = Degraded ↔ ¬ twice_green obs ∧ ∃ o, last obs = Some o ∧ all_up o)
  | Err e => e = Cancelled ∧ ∃ n, aborted n = true
  end.
Proof.
  assert (Hw : ∀ st, match run_result (watch aborted obs st) w with Ok v => v = settle obs st | Err e => e = Cancelled ∧ ∃ n, aborted n = true end).
  { revert w. induction obs as [|o l IH]; intros w st; cbn [watch settle]; [done|].
    unfold run_result, mbind, svc_bind. rewrite ck_run. destruct (aborted (tick (docker w))) eqn:Ha; [split; [done|by eexists]|].
    set (w1 := set_docker _ w). cbv zeta. destruct (2 <=? (observe o st).1)%nat; [done|]. specialize (IH w1 (observe o st)).
    unfold run_result in IH. by destruct (watch aborted l (observe o st) w1) as [[??]?]. }
  specialize (Hw (0%nat, false)). destruct (run_result _ w) as [v|e]; [|done]. subst v. split.
  - rewrite settle_healthy by lia. naive_solver.
  - pose proof (settle_healthy obs 0 false (le_S _ _ (le_n _))) as Hh.
    rewrite settle_degraded. unfold up_after. simpl. destruct (last obs); naive_solver.
Qed.

(** ** The port map *)

(** The pairs that move a port. *)
Definition moved_ports (raw : list (Z * Z)) : list (Z * Z) := findMany (λ kv, negb (kv.2 =? kv.1)) raw.
Definition kept_ports (raw : list (Z * Z)) (published : list Z) : list Z :=
  findMany (λ p, negb (includes p (raw.*1))) published.
Definition movable (published : list Z) (kv : Z * Z) : Prop := kv.1 ∈ published ∧ 1 ≤ kv.2 ≤ 65535.

Lemma port_set_new k v out : k ∉ out.*1 → port_set k v out = out ++ [(k, v)].
Proof.
  intros Hk. unfold port_set. destruct (some (λ kv, kv.1 =? k) out) eqn:E; [|done].
  apply some_true in E as ([k' v'] & Hin & He%Z.eqb_eq). simpl in He. subst k'. destruct Hk. apply list_elem_of_fmap. by exists (k, v').
Qed.

Lemma validate_ports_spec published kept seen raw out res :
  NoDup (raw.*1) → (∀ k, k ∈ raw.*1 → k ∉ out.*1) →
  validate_ports published kept seen raw out = Ok res ↔
  res = out ++ moved_ports raw ∧ Forall (movable published) raw ∧ NoDup ((moved_ports raw).*2) ∧
  (∀ v, v ∈ (moved_ports raw).*2 → (v ∉ kept) ∧ (v ∉ seen)).
Proof.
  revert seen out. induction raw as [|[k v] raw IH]; intros seen out Hnd Ho; cbn [validate_ports].
  { rewrite app_nil_r. split; [intros [= <-]|by intros [-> _]]. split_and!; [done|constructor|constructor|by intros ? ?%not_elem_of_nil]. }
  apply NoDup_cons in Hnd as [Hk Hnd]. unfold moved_ports, findMany. rewrite filter_cons. simpl.
  rewrite Forall_cons. unfold movable at 1. simpl.
  destruct (includes k published) eqn:Ep; simpl.
  2: { apply includes_false in Ep. split; [done|]. by intros (_ & [[? _] _] & _). }
  apply includes_true in Ep.
  destruct ((v <? 1) || (65535 <? v)) eqn:Ev.
  { split; [done|]. intros (_ & [[_ ?] _] & _). lia. }
  assert (1 ≤ v ≤ 65535) as Hv by lia.
  destruct (v =? k) eqn:Enop; simpl.
  { rewrite IH; [|done|intros j Hj; apply Ho; by right]. unfold moved_ports, findMany. naive_solver. }
  rewrite NoDup_cons. destruct (includes v kept || includes v seen) eqn:Ec.
  { split; [done|]. intros (_ & _ & _ & Hin). destruct (Hin v) as [??]; [by left|].
    apply orb_true_iff in Ec as [?%includes_true | ?%includes_true]; done. }
  apply orb_false_iff in Ec as [Ec1%includes_false Ec2%includes_false].
  rewrite IH; [|done|].
  2: { intros j Hj. rewrite port_set_new by (apply Ho; by left). rewrite fmap_app, elem_of_app.
       intros [? | Hjk]; [by apply (Ho j); [right|]|]. apply list_elem_of_singleton in Hjk. simpl in Hjk. by subst j. }
  rewrite port_set_new by (apply Ho; by left). rewrite <-app_assoc. unfold moved_ports, findMany.
  setoid_rewrite elem_of_cons. split.
  - intros (-> & HF & Hn & Hs). split; [done|]. split; [by split|].
    split; [split; [intros Hin; destruct (Hs v Hin) as [_ []]; by left|done]|]. intros x [-> | Hx]; [done|]. destruct (Hs x Hx) as [? Hx']. split; [done|]. intros ?. apply Hx'. by right.
  - intros (-> & [_ HF] & [Hv' Hn] & Hs). split; [done|]. split; [done|]. split; [done|]. intros x Hx. destruct (Hs x) as [? Hx']; [by right|].
    split; [done|]. intros [-> | ?]; done.
Qed.

Lemma port_get_cases raw p :
  (∃ v, port_get raw p = Some v ∧ (p, v) ∈ raw) ∨ (port_get raw p = None ∧ p ∉ raw.*1).
Proof.
  unfold port_get. destruct (findFirst _ raw) as [[k v]|] eqn:E; [left|right].
  - apply findFirst_Some in E as [Hin He%Z.eqb_eq]. simpl in He. subst k. by exists v.
  - split; [done|]. intros ([k v] & -> & Hin)%list_elem_of_fmap. rewrite findFirst_None in E. specialize (E _ Hin). simpl in E. lia.
Qed.

Lemma remap_injective raw published :
  NoDup (raw.*2) → (∀ v, v ∈ raw.*2 → v ∉ kept_ports raw published) → NoDup published → NoDup (remap raw <$> published).
Proof.
  intros Hv Hk Hp. apply NoDup_fmap_2_strong; [|done]. intros x y Hx Hy.
  assert (Hkept : ∀ z, z ∈ published → z ∉ raw.*1 → z ∈ kept_ports raw published).
  { intros z Hz Hn. apply elem_of_findMany. split; [|done]. apply negb_true_iff. by apply includes_false. }
  assert (Hval : ∀ a b, (a, b) ∈ raw → b ∈ raw.*2) by (intros a b Hab; by apply (list_elem_of_fmap_2 snd) in Hab).
  unfold remap. destruct (port_get_cases raw x) as [(vx & -> & Hvx) | [-> Hnx]], (port_get_cases raw y) as [(vy & -> & Hvy) | [-> Hny]]; simpl.
  - intros ->. assert ((x, vy) = (y, vy)) as [= ->]; [|done]. by eapply (NoDup_key snd).
  - intros ->. destruct (Hk y); eauto.
  - intros <-. destruct (Hk x); eauto.
  - done.
Qed.

(** C34: a port map that is accepted is what the operator asked for.  For a map
    with one pair per key, [validatePortMap] accepts it exactly when each key is
    published, each new port is a port, the pairs that move a port move no two
    to the same one and none onto a published port that is not a key; it then
    returns those pairs.  If the map has no pair that moves nothing, the ports
    the migrated stack publishes are distinct. *)
Theorem port_map_accepted (raw res : list (Z * Z)) (published : list Z) :
  NoDup (raw.*1) → NoDup published →
  (validatePortMap raw published = Ok res ↔
     res = moved_ports raw ∧ Forall (movable published) raw ∧ NoDup ((moved_ports raw).*2) ∧
     (∀ v, v ∈ (moved_ports raw).*2 → v ∉ kept_ports raw published)) ∧
  (validatePortMap raw published = Ok res → (∀ kv, kv ∈ raw → kv.2 ≠ kv.1) → NoDup (remap res <$> published)).
Proof.
  intros Hnd Hp.
  assert (Hs := validate_ports_spec published (kept_ports raw published) [] raw [] res Hnd).
  assert (Hs' : validatePortMap raw published = Ok res ↔
     res = moved_ports raw ∧ Forall (movable published) raw ∧ NoDup ((moved_ports raw).*2) ∧
     (∀ v, v ∈ (moved_ports raw).*2 → v ∉ kept_ports raw published)).
  { unfold validatePortMap. fold (kept_ports raw published). rewrite Hs by by intros ? _ ?%not_elem_of_nil. simpl.
    split; intros (-> & HF & Hn & Hk); split_and!; try done; intros v Hin; [by apply Hk|].
    split; [by apply Hk|apply not_elem_of_nil]. }
  split; [done|]. rewrite Hs'. intros (-> & _ & Hv & Hk) Hno.
  assert (moved_ports raw = raw) as Hm; [|rewrite Hm in *; by apply remap_injective].
  apply findMany_all. intros kv Hkv. apply negb_true_iff, Z.eqb_neq. by apply Hno.
Qed.

(** ** Rows after a restart *)

(** a restart leaves no migration half-way.  After the boot hook no row is
    running or completing; a row that was running has failed, one that was
    completing awaits cutover, every other is as it was; no lock or task is
    left, and no host is touched. *)
Theorem boot_settles_rows {H} (w : world H) :
  let w' := run_state onModuleInit w in
  (∀ r, r ∈ runs w' → r_status r ≠ running ∧ r_step r ≠ completing) ∧
  Forall2 (λ r r',
    r' = if bool_decide (r_status r = running) then fail_interrupted r
         else if bool_decide (r_step r = completing) then set_step awaiting_cutover r else r) (runs w) (runs w') ∧
  active w' = [] ∧ tasks w' = [] ∧ docker w' = docker w ∧ policies w' = policies w.
Proof.
  intros w'. subst w'. simpl. unfold updateMany. split_and!; try done.
  - intros r (r1 & -> & (r0 & -> & _)%list_elem_of_fmap)%list_elem_of_fmap. simpl.
    repeat case_bool_decide; simpl in *; split; congruence.
  - rewrite <-list_fmap_compose, Forall2_fmap_r. apply Forall_Forall2_diag, Forall_forall. intros r _. simpl.
    repeat case_bool_decide; simpl in *; congruence.
Qed.

(** ** A migration on two hosts *)

Module Trial.
Import DockerHost.Bench.

#[export] Instance trial_pipeline : Pipeline engine := {|
  captured h := h;
  restored deploy stack h :=
    Engine (if deploy then cs h ++ [ContainerInfo "n1" "web" (Some stack) (Some "web") "running" 9] else cs h)
      (if some (λ v, bool_decide (v.1 = stack +:+ "_data")) (vs h) then vs h else vs h ++ [(stack +:+ "_data", Some stack)])
|}.

#[export] Instance trial_laws : PipelineLaws engine.
Proof. split; [done|]. intros h. apply Forall_Forall2_diag, Forall_forall. by left. Qed.

Definition row : Run := MigrationRun "m1" "src" "shop" "dst" "shop" planned running None true [] false None false [] false.
Definition plan : Plan := MigratePlan "src" "shop" "dst" "shop" [] [] false 0 false [] None [80; 443].
Definition input : Input := StartInput false false None None None false false true false [] None.
Definition idle (hs : gmap string engine) (r : Run) : world engine := World (Site hs 0) [r] [] [] [] false.
Definition blank_host : engine := Engine [] [].
Definition two : gmap string engine := {["src" := box; "dst" := blank_host]}.

Definition never (n : nat) : bool := false.
Definition fine (n : nat) : answer := Done.
Definition refuse (bad : list nat) (n : nat) : answer := if includes n bad then Refused else Done.
Definition addr (h : string) : string := h.
Definition name (prefix : string) (n : nat) : string := prefix +:+ num_to_string (Z.of_nat n).
Definition up (n : nat) : list observation := repeat (Some [Look None (Some true) None "running" false]) 3.

Definition go (ext : nat → answer) (aborted : nat → bool) (w : world engine) :=
  execute ext aborted (name "snap") (name "p") up "m1" input plan w.

(** A run that fails: the restore is refused. *)
Definition unlucky : nat → answer := refuse [20]%nat.
Definition broken : world engine := (go unlucky never (idle two row)).1.2.

(** A run awaiting cutover, with routes, and the world around it. *)
Definition route (hostname : string) (port : Z) : Spec := IngressSpec "cf" hostname port None.
Definition waiting (routes : list Spec) (flipped : bool) (portMap : list (Z * Z)) : Run :=
  MigrationRun "m1" "src" "shop" "dst" "shop" awaiting_cutover success (Some "snap") true routes flipped None false portMap false.
Definition target : engine := Engine [ContainerInfo "n1" "web" (Some "shop") (Some "web") "running" 9] [("shop_data", Some "shop")].
Definition moved : gmap string engine := {["src" := box; "dst" := target]}.

Definition cut (ext : nat → answer) (w : world engine) := complete ext addr None "m1" w.
Definition undo (ext : nat → answer) (w : world engine) := rollback ext addr None "m1" true w.
Definition on (host : string) (w : world engine) : option (list (string * string) * list string) :=
  (λ h, ((λ c, (c_id c, c_state c)) <$> cs h, fst <$> vs h)) <$> hosts (docker w) !! host.
End Trial.
Import Trial DockerHost.Bench.

Lemma idle_policies ext : new_policies (name ext) (idle two row).
Proof. by intros n x ?%not_elem_of_nil. Qed.


Lemma migration_keeps_the_source_witness :
  "src" ≠ "dst" ∧ source_kept "src" "dst" two (hosts (docker broken)).
Proof.
  split; [done|].
  exact (proj1 (migration_keeps_the_source unlucky never addr (name "snap") (name "p") up None "m1" input plan false (idle two row))
    (bool_decide_unpack (pl_source plan ≠ pl_dest plan) I)).
Defined.

Lemma failed_migration_restarts_source_witness :
  held "src" (docker (idle two row)) = Some (cs box) ∧
  (r_status <$> runs broken = [error]) ∧
  ∃ cs', held "src" (docker broken) = Some cs' ∧ Forall2 (may_stop plan) (cs box) cs' ∧
    (∀ r, findFirst (is_run "m1") (runs broken) = Some r → r_status r ≠ success → Forall2 still_runs (cs box) cs').
Proof.
  split; [by vm_compute|]. split; [by vm_compute|].
  refine (failed_migration_restarts_source unlucky never (name "snap") (name "p") up _ "m1" input plan _ (cs box) (idle two row) _ _ _).
  - intros n. unfold unlucky, refuse. by destruct (includes _ _).
  - done.
  - by apply (bool_decide_unpack _).
  - by vm_compute.
  - assert (run_out (execute unlucky never (name "snap") (name "p") up "m1" input plan) (idle two row) =
      [Resolved "src" true; Resolved "dst" true; Images "dst" false true; Captured "p2" true; RestoreStarted "dst" "shop" true;
       Restored "dst" "shop" false true; Host (Listed "src" true); Host (Asked "src" (Stop "c1") true);
       Host (Asked "src" (Stop "c2") true); Captured "p2" true; Restored "dst" "shop" true false; Resolved "src" true;
       Host (Listed "src" true); Host (Asked "src" (Start "c3") true); Host (Asked "src" (Start "c2") true);
       Host (Asked "src" (Start "c1") true)]) as -> by by vm_compute.
    unfold source_answers. change (pl_source plan) with "src". split_and!; [set_solver|set_solver|]. intros c. set_solver.
Defined.

Lemma cutover_order_witness :
  r_step (waiting [route "shop.example" 80] false []) = awaiting_cutover ∧
  ∃ o1 o2, run_out (complete fine addr None "m1") (idle moved (waiting [route "shop.example" 80] false [])) = o1 ++ o2 ∧
    Forall passive o1 ∧ RouteSet (route "shop.example" 80) "dst" 80 true ∈ o1.
Proof.
  split; [done|]. set (w := idle moved (waiting [route "shop.example" 80] false [])).
  destruct (complete fine addr None "m1" w) as [[e w'] o] eqn:E.
  assert (He : e = Ok tt) by (revert E; vm_compute; congruence). subst e.
  destruct (cutover_order fine addr None "m1" (waiting [route "shop.example" 80] false []) w w' (Ok tt) o eq_refl eq_refl E)
    as (r' & _ & _ & o1 & o2 & Ho & Hp & Hr & _).
  exists o1, o2. unfold run_out. rewrite E. split; [done|]. split; [done|]. apply (Hr (route "shop.example" 80)). by left.
Defined.

Lemma port_map_accepted_witness :
  validatePortMap [(80, 8080)] [80; 443] = Ok [(80, 8080)] ∧ NoDup (remap [(80, 8080)] <$> [80; 443]).
Proof.
  assert (NoDup ([(80, 8080)].*1) ∧ NoDup [80; 443]) as [H1 H2] by by apply (bool_decide_unpack _).
  destruct (port_map_accepted [(80, 8080)] [(80, 8080)] [80; 443] H1 H2) as [_ Hn].
  split; [by vm_compute|]. apply Hn; [by vm_compute|]. intros kv ->%list_elem_of_singleton. done.
Defined.

(** ** Runs that go wrong *)

(** The route's port is remapped when the run starts and again at the cutover:
    with 80 moved to 8080 and 8080 to 9090, traffic for 80 is sent to 9090. *)
Lemma route_is_remapped_twice :
  validatePortMap [(80, 8080); (8080, 9090)] [80; 8080] = Ok [(80, 8080); (8080, 9090)] ∧
  remap [(80, 8080); (8080, 9090)] 80 = 8080 ∧
  let p := MigratePlan "src" "shop" "dst" "shop" [] [] false 0 false [route "a.example" 80] None [80; 8080] in
  let r := new_run "m1" p [(80, 8080); (8080, 9090)] None in
  let out := (cut fine (idle moved (set_step awaiting_cutover r))).2 in
  RouteSet (route "a.example" 8080) "dst" 9090 true ∈ out.
Proof. split_and!; [by vm_compute..|]. vm_compute. set_solver. Qed.

(** A rollback sends the route back to the source on the moved port, where the
    source publishes nothing. *)
Lemma rollback_keeps_the_moved_port :
  let p := MigratePlan "src" "shop" "dst" "shop" [] [] false 0 false [route "a.example" 80] None [80] in
  let r := set_flipped true (set_step awaiting_cutover (new_run "m1" p [(80, 8080)] None)) in
  RouteSet (route "a.example" 8080) "src" 8080 true ∈ (undo fine (idle moved r)).2.
Proof. vm_compute. set_solver. Qed.

(** A pair that moves nothing hides the port it keeps: both services end on 80. *)
Lemma noop_hides_a_collision :
  validatePortMap [(80, 80); (443, 80)] [80; 443] = Ok [(443, 80)] ∧ (remap [(443, 80)] <$> [80; 443]) = [80; 80].
Proof. by vm_compute. Qed.

(** A rollback removes the target though no source container would start. *)
Lemma rollback_without_a_source :
  let w := idle {["src" := Engine [set_state "exited" web; set_state "exited" db] (vs box); "dst" := target]} (waiting [] false []) in
  let res := undo (refuse [2; 3]%nat) w in
  res.1.1 = Ok tt ∧ on "src" res.1.2 = Some ([("c1", "exited"); ("c2", "exited")], ["shop_data"; "other"]) ∧
  on "dst" res.1.2 = Some ([], []).
Proof. by vm_compute. Qed.

(** A cutover that fails after some routes leaves them on the target, and the
    rollback that follows does not bring them back. *)
Lemma partial_flip_stays :
  let w := idle moved (waiting [route "a.example" 80; route "b.example" 443] false []) in
  let c := cut (refuse [2]%nat) w in
  let back := undo fine c.1.2 in
  RouteSet (route "a.example" 80) "dst" 80 true ∈ c.2 ∧ (r_flipped <$> runs c.1.2) = [false] ∧
  back.1.1 = Ok tt ∧ (∀ r up p ok, RouteSet r up p ok ∉ back.2) ∧ on "dst" back.1.2 = Some ([], []).
Proof. vm_compute. split_and!; try done; [set_solver|]. intros. set_solver. Qed.

(** Cancelling before anything was written removes the volumes a stack of that
    name had on the target, which overwriting promises to keep. *)
Lemma cancel_removes_old_volumes :
  let w := idle {["src" := box; "dst" := Engine [] [("shop_data", Some "shop")]]} row in
  let res := go fine (λ n, bool_decide (n = 3%nat)) w in
  (r_step <$> runs res.1.2) = [cancelled_] ∧ on "dst" w = Some ([], ["shop_data"]) ∧ on "dst" res.1.2 = Some ([], []) ∧
  (∀ b s ok, Restored "dst" b s ok ∉ res.2).
Proof. vm_compute. split_and!; try done. intros. set_solver. Qed.

(** A source that cannot be stopped is captured running, and the run succeeds. *)
Lemma capture_of_a_running_source :
  let res := go (refuse [14; 15]%nat) never (idle two row) in
  (r_status <$> runs res.1.2) = [success] ∧
  on "src" res.1.2 = Some ([("c1", "running"); ("c2", "restarting"); ("c3", "exited")], ["shop_data"; "other"]) ∧
  sourceStopped res.1.2 = false.
Proof. by vm_compute. Qed.

(** The restart after a failure also starts a container that was stopped before. *)
Lemma restart_starts_more :
  on "src" (idle two row) = Some ([("c1", "running"); ("c2", "restarting"); ("c3", "exited")], ["shop_data"; "other"]) ∧
  on "src" broken = Some ([("c1", "running"); ("c2", "running"); ("c3", "running")], ["shop_data"; "other"]).
Proof. by vm_compute. Qed.

(** A restart of the server during a cutover makes it possible to roll back
    after the source was removed: nothing is left of the stack. *)
Lemma rollback_after_interrupted_cutover :
  let w := idle {["src" := Engine [] (vs box); "dst" := target]} (set_step completing (waiting [] false [])) in
  let res := undo fine (run_state onModuleInit w) in
  res.1.1 = Ok tt ∧ on "src" res.1.2 = Some ([], ["shop_data"; "other"]) ∧ on "dst" res.1.2 = Some ([], []).
Proof. by vm_compute. Qed.
